(** * Audit-Backend: the template tree service

    A shallow embedding of [services/audit_template_service.py],
    [repositories/audit_template_repository.py], the area service, the
    scope, question and option service with their repositories,
    [make_async_url] of [database/async_db.py] and [token_required] of
    [auth/auth.py]. The first part of the properties covers what the
    specification states about validation, creation, identity-based
    reconciliation, soft delete, seeding and detail reads; the second part
    covers the remaining services, the invariants of the stores that write
    requests can produce, and what the reads return after each write.

    Modelling conventions.
    - Primary keys (UUIDv7 in the source) are natural numbers handed out by a
      counter [next_id]; a payload id is [option nat] ([None] is Python's
      [None]; every UUID object is truthy, so [if x.id] is [x.id is not None]).
      A key is drawn when the code adds the row; [update_template] adds its
      new options without a flush, so the source draws their keys at the
      next flush, in the order the options were added.
    - A table is the list of its rows in insertion order, which is also the
      order in which relationship collections are loaded. Rows written in
      one transaction tie under [order_by(created_at)], and the questions of
      a scope are loaded without an order; the embedding lists such rows in
      insertion order as well.
    - Python [int] is [Z]; Python [str] is [string], with [strip] and [lower]
      defined on the ASCII range, where they agree with Python's;
      [ascii_text] says that a text lies within that range.
    - The database stores what it is given. PostgreSQL refuses a text that
      holds U+0000, and the request then ends in a 500; [pg_text] says that
      a text is free of it.
    - A raised [HTTPException] is the left injection of the result; the
      session is closed without commit on that path, so the store returned
      with an exception is the store the request started from. A Python
      exception that no handler catches is the 500 the framework answers.
    - Server-side timestamps are not modelled: rows and responses carry no
      [created_at] and [updated_at]. *)

From Stdlib Require Import List ZArith String Ascii Bool Arith Lia DecimalString.
From Stdlib Require Import Permutation Sorted.
Import ListNotations.
Open Scope string_scope.

(** ** Exceptions and the result monad *)

Record HTTPException := { status_code : nat; detail : string }.

Definition M (A : Type) : Type := (HTTPException + A)%type.

Definition ret {A} (a : A) : M A := inr a.
Definition raise {A} (status : nat) (msg : string) : M A :=
  inl {| status_code := status; detail := msg |}.
Definition bind {A B} (c : M A) (k : A -> M B) : M B :=
  match c with inl e => inl e | inr a => k a end.

Notation "x <- c ;; k" := (bind c (fun x => k))
  (at level 61, c at next level, right associativity).
Notation "c ;;; k" := (bind c (fun _ => k))
  (at level 61, right associativity).

Definition HTTP_404_NOT_FOUND := 404%nat.
Definition HTTP_409_CONFLICT := 409%nat.
Definition HTTP_422_UNPROCESSABLE_ENTITY := 422%nat.
Definition HTTP_500_INTERNAL_SERVER_ERROR := 500%nat.

(** [for x in xs: body(x)], where the body may raise. *)
Fixpoint for_each {A} (body : A -> M unit) (xs : list A) : M unit :=
  match xs with
  | [] => ret tt
  | x :: rest => body x ;;; for_each body rest
  end.

(** ** Python string helpers (ASCII range) *)

Definition is_space (c : ascii) : bool :=
  let n := nat_of_ascii c in
  ((9 <=? n)%nat && (n <=? 13)%nat) || ((28 <=? n)%nat && (n <=? 32)%nat).

Definition lower_ascii (c : ascii) : ascii :=
  let n := nat_of_ascii c in
  if ((65 <=? n)%nat && (n <=? 90)%nat) then ascii_of_nat (n + 32) else c.

Fixpoint lower (s : string) : string :=
  match s with
  | EmptyString => EmptyString
  | String c r => String (lower_ascii c) (lower r)
  end.

Fixpoint lstrip (s : string) : string :=
  match s with
  | EmptyString => EmptyString
  | String c r => if is_space c then lstrip r else s
  end.

Fixpoint rstrip (s : string) : string :=
  match s with
  | EmptyString => EmptyString
  | String c r =>
      match rstrip r with
      | EmptyString => if is_space c then EmptyString else String c EmptyString
      | r' => String c r'
      end
  end.

Definition strip (s : string) : string := rstrip (lstrip s).

(** [str(n)] for a Python int. *)
Definition str_of_int (n : Z) : string := NilZero.string_of_int (Z.to_int n).

(** ** Request payloads

    [AreaUpdateNested], [ScopeUpdateNested], [QuestionUpdateNested] and
    [OptionUpdateNested] of [schemas/]. The create and clone schemas are the
    same records without the [id] field; their payloads are represented
    with [id = None], and the creation path never reads the field.
    [QuestionCreate.options] may be [None]; every reader uses
    [q.get("options", []) or []], so [None] is represented by [[]]. *)

Record OptionUpdateNested := {
  option_id : option nat;
  option_label : string;
  option_value : Z
}.

Record QuestionUpdateNested := {
  question_id : option nat;
  question_text : string;
  question_percentage : Z;
  question_is_mandatory : bool;
  question_options : list OptionUpdateNested
}.

Record ScopeUpdateNested := {
  scope_id : option nat;
  scope_name : string;
  scope_questions : list QuestionUpdateNested
}.

Record AreaUpdateNested := {
  area_id : option nat;
  area_name : string;
  area_weightage : Z;
  area_scopes : list ScopeUpdateNested
}.

(** [TemplateCreate], [TemplateUpdate], [TemplateCloneRequest]. *)
Record TemplatePayload := {
  payload_name : string;
  payload_areas : list AreaUpdateNested
}.

(** ** Tree validators *)

Module Validator.

Definition sum_Z (l : list Z) : Z := fold_left Z.add l 0%Z.

(** [_validate_scope_percentages] *)
Definition scope_percentages_total (areas : list AreaUpdateNested) : Z :=
  fold_left (fun total area =>
    fold_left (fun total scope =>
      match scope_questions scope with
      | [] => total
      | questions => (total + sum_Z (map question_percentage questions))%Z
      end) (area_scopes area) total) areas 0%Z.

Definition percentage_error : HTTPException :=
  {| status_code := HTTP_422_UNPROCESSABLE_ENTITY;
     detail := "Total weightage of all questions should be exactly 100%" |}.

Definition _validate_scope_percentages (areas : list AreaUpdateNested) : M unit :=
  if (scope_percentages_total areas =? 100)%Z then ret tt
  else inl percentage_error.

(** The loop shared by the four name validators and the value validator:
    [seen = set(); for x in items: key = ...; if key in seen: raise; seen.add(key)]. *)
Fixpoint check_unique {A K} (eqb : K -> K -> bool) (key : A -> K)
    (err : A -> string) (seen : list K) (items : list A) : M unit :=
  match items with
  | [] => ret tt
  | x :: rest =>
      if existsb (eqb (key x)) seen
      then raise HTTP_422_UNPROCESSABLE_ENTITY (err x)
      else check_unique eqb key err (key x :: seen) rest
  end.

Definition name_key (s : string) : string := lower (strip s).

(** [_validate_area_names] *)
Definition _validate_area_names (areas : list AreaUpdateNested) : M unit :=
  check_unique String.eqb (fun a => name_key (area_name a))
    (fun a => "Duplicate area name: '" ++ area_name a ++ "'") [] areas.

(** [_validate_scope_names] *)
Definition _validate_scope_names (areas : list AreaUpdateNested) : M unit :=
  for_each (fun area =>
    check_unique String.eqb (fun s => name_key (scope_name s))
      (fun s => "Duplicate scope name '" ++ scope_name s ++ "' in area '"
                ++ area_name area ++ "'") [] (area_scopes area)) areas.

(** [_validate_question_names] *)
Definition _validate_question_names (areas : list AreaUpdateNested) : M unit :=
  for_each (fun area =>
    for_each (fun scope =>
      check_unique String.eqb (fun q => name_key (question_text q))
        (fun q => "Duplicate question text '" ++ question_text q
                  ++ "' in scope '" ++ scope_name scope
                  ++ "', area '" ++ area_name area ++ "'")
        [] (scope_questions scope)) (area_scopes area)) areas.

(** [_validate_option_labels] *)
Definition _validate_option_labels (areas : list AreaUpdateNested) : M unit :=
  for_each (fun area =>
    for_each (fun scope =>
      for_each (fun q =>
        check_unique String.eqb (fun o => name_key (option_label o))
          (fun o => "Duplicate option label '" ++ option_label o
                    ++ "' in question '" ++ question_text q
                    ++ "', scope '" ++ scope_name scope ++ "'")
          [] (question_options q)) (scope_questions scope))
      (area_scopes area)) areas.

(** [_validate_option_values] *)
Definition _validate_option_values (areas : list AreaUpdateNested) : M unit :=
  for_each (fun area =>
    for_each (fun scope =>
      for_each (fun q =>
        check_unique Z.eqb option_value
          (fun o => "Duplicate option value " ++ str_of_int (option_value o)
                    ++ " in question '" ++ question_text q
                    ++ "', scope '" ++ scope_name scope ++ "'")
          [] (question_options q)) (scope_questions scope))
      (area_scopes area)) areas.

(** [_validate_empty_question_scopes_areas] *)
Definition _validate_empty_question_scopes_areas
    (areas : list AreaUpdateNested) : M unit :=
  for_each (fun area =>
    match area_scopes area with
    | [] => raise HTTP_422_UNPROCESSABLE_ENTITY
              ("Area '" ++ area_name area ++ "' must have at least one scope")
    | scopes =>
        for_each (fun scope =>
          match scope_questions scope with
          | [] => raise HTTP_422_UNPROCESSABLE_ENTITY
                    ("Scope '" ++ scope_name scope ++ "' in area '"
                     ++ area_name area ++ "' must have at least one question")
          | questions =>
              for_each (fun q =>
                match question_options q with
                | [] => raise HTTP_422_UNPROCESSABLE_ENTITY
                          ("Question '" ++ question_text q ++ "' in scope '"
                           ++ scope_name scope ++ "', area '" ++ area_name area
                           ++ "' must have at least one option")
                | _ => ret tt
                end) questions
          end) scopes
    end) areas.

(** The block "Validate all constraints" that [create_template],
    [update_template] and [clone_template] each contain verbatim. *)
Definition validate_all_constraints (areas_data : list AreaUpdateNested) : M unit :=
  _validate_empty_question_scopes_areas areas_data ;;;
  _validate_area_names areas_data ;;;
  _validate_scope_names areas_data ;;;
  _validate_question_names areas_data ;;;
  _validate_option_labels areas_data ;;;
  _validate_option_values areas_data ;;;
  _validate_scope_percentages areas_data.

End Validator.

Open Scope list_scope.

(** ** The persisted model ([models/audit_models.py])

    Every model class carries the [ModifyModel] audit columns and an
    [isactive] flag next to its own columns; [Row] is that shared shape. *)

Record Row (F : Type) := {
  row_id : nat;
  cols : F;
  isactive : bool;
  created_by : option nat;
  updated_by : option nat
}.
Arguments row_id {F} _.
Arguments cols {F} _.
Arguments isactive {F} _.
Arguments created_by {F} _.
Arguments updated_by {F} _.

Record TemplateColumns := { col_template_name : string }.

Record AreaColumns := {
  col_template_id : nat;
  col_area_name : string;
  col_weightage : Z
}.

Record ScopeColumns := { col_area_id : nat; col_scope_name : string }.

Record QuestionColumns := {
  col_scope_id : nat;
  col_text : string;
  col_percentage : Z;
  col_is_mandatory : bool
}.

Record OptionColumns := {
  col_question_id : nat;
  col_label : string;
  col_value : Z
}.

Definition AuditTemplate := Row TemplateColumns.
Definition AuditArea := Row AreaColumns.
Definition AuditScope := Row ScopeColumns.
Definition AuditQuestion := Row QuestionColumns.
Definition AuditQuestionOption := Row OptionColumns.

(** The five tables of the template tree and the key generator. *)
Record Store := {
  audit_templates : list AuditTemplate;
  audit_areas : list AuditArea;
  audit_scopes : list AuditScope;
  audit_questions : list AuditQuestion;
  audit_question_options : list AuditQuestionOption;
  next_id : nat
}.

Definition empty_store : Store :=
  {| audit_templates := []; audit_areas := []; audit_scopes := [];
     audit_questions := []; audit_question_options := []; next_id := 1 |}.

(** *** Row-level mutations *)

(** [if user_id is not None: obj.updated_by = user_id] *)
Definition stamp (user_id : option nat) (old : option nat) : option nat :=
  match user_id with Some u => Some u | None => old end.

(** [Model(..., isactive=True, created_by=user_id, updated_by=user_id)] *)
Definition new_row {F} (i : nat) (c : F) (user_id : option nat) : Row F :=
  {| row_id := i; cols := c; isactive := true;
     created_by := user_id; updated_by := user_id |}.

(** [obj.isactive = False] followed by the modifier stamp. *)
Definition deactivated {F} (user_id : option nat) (r : Row F) : Row F :=
  {| row_id := row_id r; cols := cols r; isactive := false;
     created_by := created_by r; updated_by := stamp user_id (updated_by r) |}.

(** Assignment to the model's own columns followed by the modifier stamp. *)
Definition modified {F} (g : F -> F) (user_id : option nat) (r : Row F) : Row F :=
  {| row_id := row_id r; cols := g (cols r); isactive := isactive r;
     created_by := created_by r; updated_by := stamp user_id (updated_by r) |}.

(** A mutation made through an ORM object reaches the row with that
    object's primary key. *)
Definition on_row {F} (i : nat) (f : Row F -> Row F) (t : list (Row F))
  : list (Row F) :=
  map (fun r => if (row_id r =? i)%nat then f r else r) t.

Definition with_templates (f : list AuditTemplate -> list AuditTemplate) (db : Store) : Store :=
  {| audit_templates := f (audit_templates db); audit_areas := audit_areas db;
     audit_scopes := audit_scopes db; audit_questions := audit_questions db;
     audit_question_options := audit_question_options db; next_id := next_id db |}.

Definition with_areas (f : list AuditArea -> list AuditArea) (db : Store) : Store :=
  {| audit_templates := audit_templates db; audit_areas := f (audit_areas db);
     audit_scopes := audit_scopes db; audit_questions := audit_questions db;
     audit_question_options := audit_question_options db; next_id := next_id db |}.

Definition with_scopes (f : list AuditScope -> list AuditScope) (db : Store) : Store :=
  {| audit_templates := audit_templates db; audit_areas := audit_areas db;
     audit_scopes := f (audit_scopes db); audit_questions := audit_questions db;
     audit_question_options := audit_question_options db; next_id := next_id db |}.

Definition with_questions (f : list AuditQuestion -> list AuditQuestion) (db : Store) : Store :=
  {| audit_templates := audit_templates db; audit_areas := audit_areas db;
     audit_scopes := audit_scopes db; audit_questions := f (audit_questions db);
     audit_question_options := audit_question_options db; next_id := next_id db |}.

Definition with_options
    (f : list AuditQuestionOption -> list AuditQuestionOption) (db : Store) : Store :=
  {| audit_templates := audit_templates db; audit_areas := audit_areas db;
     audit_scopes := audit_scopes db; audit_questions := audit_questions db;
     audit_question_options := f (audit_question_options db); next_id := next_id db |}.

(** [db.add(obj)] and the flush that assigns the primary key. *)
Definition fresh (db : Store) : nat * Store :=
  (next_id db,
   {| audit_templates := audit_templates db; audit_areas := audit_areas db;
      audit_scopes := audit_scopes db; audit_questions := audit_questions db;
      audit_question_options := audit_question_options db;
      next_id := S (next_id db) |}).

Definition add_template (name : string) (user_id : option nat) (db : Store)
  : nat * Store :=
  let (i, db) := fresh db in
  (i, with_templates (fun t => t ++ [new_row i {| col_template_name := name |} user_id]) db).

Definition add_area (template_id : nat) (name : string) (weightage : Z)
    (user_id : option nat) (db : Store) : nat * Store :=
  let (i, db) := fresh db in
  (i, with_areas (fun t => t ++ [new_row i
        {| col_template_id := template_id; col_area_name := name;
           col_weightage := weightage |} user_id]) db).

Definition add_scope (area_id : nat) (name : string)
    (user_id : option nat) (db : Store) : nat * Store :=
  let (i, db) := fresh db in
  (i, with_scopes (fun t => t ++ [new_row i
        {| col_area_id := area_id; col_scope_name := name |} user_id]) db).

Definition add_question (scope_id : nat) (text : string) (percentage : Z)
    (is_mandatory : bool) (user_id : option nat) (db : Store) : nat * Store :=
  let (i, db) := fresh db in
  (i, with_questions (fun t => t ++ [new_row i
        {| col_scope_id := scope_id; col_text := text;
           col_percentage := percentage; col_is_mandatory := is_mandatory |}
        user_id]) db).

Definition add_option (question_id : nat) (label : string) (value : Z)
    (user_id : option nat) (db : Store) : nat * Store :=
  let (i, db) := fresh db in
  (i, with_options (fun t => t ++ [new_row i
        {| col_question_id := question_id; col_label := label;
           col_value := value |} user_id]) db).

(** ** Repository queries ([AuditTemplateRepository]) *)

(** The eagerly loaded tree: each relationship is loaded through
    [selectinload(rel.and_(Child.isactive.is_(True)))]. *)
Record LoadedQuestion := {
  lq_row : AuditQuestion;
  lq_options : list AuditQuestionOption
}.

Record LoadedScope := {
  ls_row : AuditScope;
  ls_questions : list LoadedQuestion
}.

Record LoadedArea := {
  la_row : AuditArea;
  la_scopes : list LoadedScope
}.

Record LoadedTemplate := {
  lt_row : AuditTemplate;
  lt_areas : list LoadedArea
}.

Definition load_options (db : Store) (question_id : nat) : list AuditQuestionOption :=
  filter (fun o => (col_question_id (cols o) =? question_id)%nat && isactive o)
    (audit_question_options db).

Definition load_questions (db : Store) (scope_id : nat) : list LoadedQuestion :=
  map (fun q => {| lq_row := q; lq_options := load_options db (row_id q) |})
    (filter (fun q => (col_scope_id (cols q) =? scope_id)%nat && isactive q)
       (audit_questions db)).

Definition load_scopes (db : Store) (area_id : nat) : list LoadedScope :=
  map (fun s => {| ls_row := s; ls_questions := load_questions db (row_id s) |})
    (filter (fun s => (col_area_id (cols s) =? area_id)%nat && isactive s)
       (audit_scopes db)).

Definition load_areas (db : Store) (template_id : nat) : list LoadedArea :=
  map (fun a => {| la_row := a; la_scopes := load_scopes db (row_id a) |})
    (filter (fun a => (col_template_id (cols a) =? template_id)%nat && isactive a)
       (audit_areas db)).

(** [get_by_id_with_details]: [where(AuditTemplate.id == template_id)];
    the id is the primary key, so at most one row matches. *)
Definition get_by_id_with_details (db : Store) (template_id : nat)
  : option LoadedTemplate :=
  match find (fun t => (row_id t =? template_id)%nat) (audit_templates db) with
  | Some t => Some {| lt_row := t; lt_areas := load_areas db template_id |}
  | None => None
  end.

(** [get_by_id]: [where(and_(id == template_id, isactive.is_(True)))]. *)
Definition get_by_id (db : Store) (template_id : nat) : option AuditTemplate :=
  find (fun t => (row_id t =? template_id)%nat && isactive t) (audit_templates db).

(** [get_by_name]: [where(and_(name == name, isactive.is_(True)))] and
    [scalar_one_or_none()], which raises [MultipleResultsFound] when more
    than one row matches; the unhandled exception is a 500. *)
Definition named_active (name : string) (t : AuditTemplate) : bool :=
  String.eqb (col_template_name (cols t)) name && isactive t.

Definition get_by_name (db : Store) (name : string) : M (option AuditTemplate) :=
  match filter (named_active name) (audit_templates db) with
  | [] => ret None
  | [t] => ret (Some t)
  | _ => raise HTTP_500_INTERNAL_SERVER_ERROR "Internal Server Error"
  end.

(** [AuditTemplateRepository.soft_delete] *)
Definition soft_delete_template (template_id : nat) (updated_by : option nat)
    (db : Store) : Store :=
  with_templates (on_row template_id (deactivated updated_by)) db.

(** [AuditAreaRepository.get_by_id] and [AuditAreaRepository.soft_delete] *)
Definition area_get_by_id (db : Store) (area_id : nat) : option AuditArea :=
  find (fun a => (row_id a =? area_id)%nat && isactive a) (audit_areas db).

Definition soft_delete_area (area_id : nat) (updated_by : option nat)
    (db : Store) : Store :=
  with_areas (on_row area_id (deactivated updated_by)) db.

(** [create_with_tree]: one level at a time, each level remembering the
    payload of every inserted row for the level below. *)
Definition create_with_tree (name : string) (areas : list AreaUpdateNested)
    (created_by : option nat) (db : Store) : nat * Store :=
  let (template_id, db) := add_template name created_by db in
  let '(area_objects, db) :=
    fold_left (fun '(acc, db) area_data =>
        let (i, db) := add_area template_id (area_name area_data)
                         (area_weightage area_data) created_by db in
        (acc ++ [(area_data, i)], db))
      areas ([], db) in
  let '(scope_objects, db) :=
    fold_left (fun st '(area_data, area_obj) =>
        fold_left (fun '(acc, db) scope_data =>
            let (i, db) := add_scope area_obj (scope_name scope_data) created_by db in
            (acc ++ [(scope_data, i)], db))
          (area_scopes area_data) st)
      area_objects ([], db) in
  let '(question_objects, db) :=
    fold_left (fun st '(scope_data, scope_obj) =>
        fold_left (fun '(acc, db) q_data =>
            let (i, db) := add_question scope_obj (question_text q_data)
                             (question_percentage q_data)
                             (question_is_mandatory q_data) created_by db in
            (acc ++ [(q_data, i)], db))
          (scope_questions scope_data) st)
      scope_objects ([], db) in
  let db :=
    fold_left (fun db '(q_data, q_obj) =>
        fold_left (fun db opt =>
            snd (add_option q_obj (option_label opt) (option_value opt) created_by db))
          (question_options q_data) db)
      question_objects db in
  (template_id, db).

(** ** Response shaping ([_scope_detail], [_template_to_detail_response]) *)

Record OptionResponse := {
  resp_option_id : nat;
  resp_option_question_id : nat;
  resp_label : string;
  resp_value : Z
}.

Record QuestionDetailResponse := {
  resp_question_id : nat;
  resp_question_scope_id : nat;
  resp_text : string;
  resp_percentage : Z;
  resp_is_mandatory : bool;
  resp_options : list OptionResponse
}.

Record ScopeDetailResponse := {
  resp_scope_id : nat;
  resp_scope_area_id : nat;
  resp_scope_name : string;
  resp_questions : list QuestionDetailResponse;
  total_percentage : Z
}.

Record AreaDetailResponse := {
  resp_area_id : nat;
  resp_area_template_id : nat;
  resp_area_name : string;
  resp_weightage : Z;
  resp_scopes : list ScopeDetailResponse
}.

Record TemplateDetailResponse := {
  resp_id : nat;
  resp_name : string;
  resp_isactive : bool;
  resp_areas : list AreaDetailResponse;
  total_weightage : Z
}.

Definition py_sum (l : list Z) : Z := fold_left Z.add l 0%Z.

(** [_compute_total_weightage] *)
Definition _compute_total_weightage (areas : list LoadedArea) : Z :=
  py_sum (map (fun a => col_weightage (cols (la_row a))) areas).

Definition _option_detail (o : AuditQuestionOption) : OptionResponse :=
  {| resp_option_id := row_id o;
     resp_option_question_id := col_question_id (cols o);
     resp_label := col_label (cols o);
     resp_value := col_value (cols o) |}.

Definition _question_detail (q : LoadedQuestion) : QuestionDetailResponse :=
  {| resp_question_id := row_id (lq_row q);
     resp_question_scope_id := col_scope_id (cols (lq_row q));
     resp_text := col_text (cols (lq_row q));
     resp_percentage := col_percentage (cols (lq_row q));
     resp_is_mandatory := col_is_mandatory (cols (lq_row q));
     resp_options := map _option_detail (lq_options q) |}.

(** [_scope_detail] *)
Definition _scope_detail (scope : LoadedScope) : ScopeDetailResponse :=
  let questions := ls_questions scope in
  let total_pct := py_sum (map (fun q => col_percentage (cols (lq_row q))) questions) in
  {| resp_scope_id := row_id (ls_row scope);
     resp_scope_area_id := col_area_id (cols (ls_row scope));
     resp_scope_name := col_scope_name (cols (ls_row scope));
     resp_questions := map _question_detail questions;
     total_percentage := total_pct |}.

Definition _area_detail (area : LoadedArea) : AreaDetailResponse :=
  {| resp_area_id := row_id (la_row area);
     resp_area_template_id := col_template_id (cols (la_row area));
     resp_area_name := col_area_name (cols (la_row area));
     resp_weightage := col_weightage (cols (la_row area));
     resp_scopes := map _scope_detail (la_scopes area) |}.

(** [_template_to_detail_response] *)
Definition _template_to_detail_response (template : LoadedTemplate)
  : TemplateDetailResponse :=
  {| resp_id := row_id (lt_row template);
     resp_name := col_template_name (cols (lt_row template));
     resp_isactive := isactive (lt_row template);
     resp_areas := map _area_detail (lt_areas template);
     total_weightage := _compute_total_weightage (lt_areas template) |}.

(** ** The service ([AuditTemplateService], [AuditAreaService.delete_area]) *)

Definition DEFAULT_TEMPLATE_NAME : string := "Default Audit Template".

Definition default_area (name : string) : AreaUpdateNested :=
  {| area_id := None; area_name := name; area_weightage := 20; area_scopes := [] |}.

Definition DEFAULT_AREAS : list AreaUpdateNested :=
  [ default_area "Project Execution";
    default_area "Engineering Excellence";
    default_area "Communication";
    default_area "People Management";
    default_area "Learning & Innovation" ].

Definition template_not_found : HTTPException :=
  {| status_code := HTTP_404_NOT_FOUND; detail := "Template not found" |}.

Definition name_conflict (name : string) : HTTPException :=
  {| status_code := HTTP_409_CONFLICT;
     detail := ("Template with name '" ++ name ++ "' already exists")%string |}.

(** [get_template_detail] *)
Definition get_template_detail (db : Store) (template_id : nat)
  : M TemplateDetailResponse :=
  match get_by_id_with_details db template_id with
  | None => inl template_not_found
  | Some template => ret (_template_to_detail_response template)
  end.

(** The closing two lines of every write operation:
    [detail = await self.repo.get_by_id_with_details(id)] and
    [return _template_to_detail_response(detail)]; the second line fails on
    an attribute of [None] if the row is gone. *)
Definition reload_detail (db : Store) (template_id : nat)
  : M TemplateDetailResponse :=
  match get_by_id_with_details db template_id with
  | None => raise HTTP_500_INTERNAL_SERVER_ERROR "Internal Server Error"
  | Some template => ret (_template_to_detail_response template)
  end.

(** The "Name uniqueness" block. *)
Definition check_name_free (db : Store) (name : string) : M unit :=
  existing <- get_by_name db name ;;
  match existing with
  | Some _ => inl (name_conflict name)
  | None => ret tt
  end.

(** [create_template] *)
Definition create_template (db : Store) (payload : TemplatePayload)
    (user_id : option nat) : M TemplateDetailResponse * Store :=
  match check_name_free db (payload_name payload) ;;;
        Validator.validate_all_constraints (payload_areas payload) with
  | inl e => (inl e, db)
  | inr _ =>
      let (template_id, db') :=
        create_with_tree (payload_name payload) (payload_areas payload) user_id db in
      (reload_detail db' template_id, db')
  end.

(** [clone_template] *)
Definition clone_template (db : Store) (template_id : nat)
    (payload : TemplatePayload) (user_id : option nat)
  : M TemplateDetailResponse * Store :=
  match get_by_id db template_id with
  | None =>
      (raise HTTP_404_NOT_FOUND "Source template not found", db)
  | Some _ =>
      match check_name_free db (payload_name payload) ;;;
            Validator.validate_all_constraints (payload_areas payload) with
      | inl e => (inl e, db)
      | inr _ =>
          let (new_template, db') :=
            create_with_tree (payload_name payload) (payload_areas payload) user_id db in
          (reload_detail db' new_template, db')
      end
  end.

(** [seed_default_template] *)
Definition seed_default_template (db : Store) (user_id : option nat)
  : M TemplateDetailResponse * Store :=
  match get_by_name db DEFAULT_TEMPLATE_NAME with
  | inl e => (inl e, db)
  | inr (Some existing) => (reload_detail db (row_id existing), db)
  | inr None =>
      let (template_id, db') :=
        create_with_tree DEFAULT_TEMPLATE_NAME DEFAULT_AREAS user_id db in
      (reload_detail db' template_id, db')
  end.

(** [delete_template] *)
Definition delete_template (db : Store) (template_id : nat)
    (user_id : option nat) : M unit * Store :=
  match get_by_id db template_id with
  | None => (inl template_not_found, db)
  | Some template => (ret tt, soft_delete_template (row_id template) user_id db)
  end.

(** [AuditAreaService.delete_area] *)
Definition delete_area (db : Store) (area_id : nat) (user_id : option nat)
  : M unit * Store :=
  match area_get_by_id db area_id with
  | None => (raise HTTP_404_NOT_FOUND "Area not found", db)
  | Some area => (ret tt, soft_delete_area (row_id area) user_id db)
  end.

(** ** [update_template]: the ID-based merge *)

(** [{x.id for x in items if x.id}] *)
Definition supplied_ids {A} (get_id : A -> option nat) (items : list A) : list nat :=
  flat_map (fun x => match get_id x with Some i => [i] | None => [] end) items.

Definition id_in (i : nat) (ids : list nat) : bool := existsb (Nat.eqb i) ids.

(** [existing = {n.id: n for n in loaded}]; the test
    [p.id and p.id in existing] and the lookup [existing[p.id]]. *)
Definition lookup {N} (key : N -> nat) (payload_id : option nat)
    (existing : list N) : option N :=
  match payload_id with
  | Some i => find (fun n => (key n =? i)%nat) existing
  | None => None
  end.

Definition la_id (a : LoadedArea) : nat := row_id (la_row a).
Definition ls_id (s : LoadedScope) : nat := row_id (ls_row s).
Definition lq_id (q : LoadedQuestion) : nat := row_id (lq_row q).

Definition deactivate_area (i : nat) (u : option nat) : Store -> Store :=
  with_areas (on_row i (deactivated u)).
Definition deactivate_scope (i : nat) (u : option nat) : Store -> Store :=
  with_scopes (on_row i (deactivated u)).
Definition deactivate_question (i : nat) (u : option nat) : Store -> Store :=
  with_questions (on_row i (deactivated u)).
Definition deactivate_option (i : nat) (u : option nat) : Store -> Store :=
  with_options (on_row i (deactivated u)).

(** The nested soft-delete loops over the loaded children of a removed node. *)
Definition cascade_options (u : option nat) (os : list AuditQuestionOption)
    (db : Store) : Store :=
  fold_left (fun db o => deactivate_option (row_id o) u db) os db.

Definition cascade_questions (u : option nat) (qs : list LoadedQuestion)
    (db : Store) : Store :=
  fold_left (fun db q =>
      cascade_options u (lq_options q) (deactivate_question (lq_id q) u db))
    qs db.

Definition cascade_scopes (u : option nat) (ss : list LoadedScope)
    (db : Store) : Store :=
  fold_left (fun db s =>
      cascade_questions u (ls_questions s) (deactivate_scope (ls_id s) u db))
    ss db.

(** *** Options *)

Definition set_option_columns (p : OptionUpdateNested) (c : OptionColumns)
  : OptionColumns :=
  {| col_question_id := col_question_id c;
     col_label := option_label p; col_value := option_value p |}.

Definition soft_delete_missing_options (u : option nat)
    (existing_options : list AuditQuestionOption)
    (payload_o_ids : list nat) (db : Store) : Store :=
  fold_left (fun db o_obj =>
      if id_in (row_id o_obj) payload_o_ids then db
      else deactivate_option (row_id o_obj) u db)
    existing_options db.

Definition merge_option (u : option nat) (q_obj_id : nat)
    (existing_options : list AuditQuestionOption)
    (db : Store) (o_payload : OptionUpdateNested) : Store :=
  match lookup row_id (option_id o_payload) existing_options with
  | Some o_obj =>
      with_options (on_row (row_id o_obj) (modified (set_option_columns o_payload) u)) db
  | None =>
      snd (add_option q_obj_id (option_label o_payload) (option_value o_payload) u db)
  end.

Definition merge_options (u : option nat) (q_obj_id : nat)
    (existing_options : list AuditQuestionOption)
    (options : list OptionUpdateNested) (db : Store) : Store :=
  let payload_o_ids := supplied_ids option_id options in
  let db := soft_delete_missing_options u existing_options payload_o_ids db in
  fold_left (merge_option u q_obj_id existing_options) options db.

(** *** Questions *)

Definition set_question_columns (p : QuestionUpdateNested) (c : QuestionColumns)
  : QuestionColumns :=
  {| col_scope_id := col_scope_id c; col_text := question_text p;
     col_percentage := question_percentage p;
     col_is_mandatory := question_is_mandatory p |}.

Definition soft_delete_missing_questions (u : option nat)
    (existing_questions : list LoadedQuestion)
    (payload_q_ids : list nat) (db : Store) : Store :=
  fold_left (fun db q_obj =>
      if id_in (lq_id q_obj) payload_q_ids then db
      else cascade_options u (lq_options q_obj)
             (deactivate_question (lq_id q_obj) u db))
    existing_questions db.

Definition merge_question (u : option nat) (scope_obj_id : nat)
    (existing_questions : list LoadedQuestion)
    (db : Store) (q_payload : QuestionUpdateNested) : Store :=
  match lookup lq_id (question_id q_payload) existing_questions with
  | Some q_obj =>
      let db := with_questions
                  (on_row (lq_id q_obj) (modified (set_question_columns q_payload) u)) db in
      merge_options u (lq_id q_obj) (lq_options q_obj) (question_options q_payload) db
  | None =>
      let (i, db) := add_question scope_obj_id (question_text q_payload)
                       (question_percentage q_payload)
                       (question_is_mandatory q_payload) u db in
      merge_options u i [] (question_options q_payload) db
  end.

Definition merge_questions (u : option nat) (scope_obj_id : nat)
    (existing_questions : list LoadedQuestion)
    (questions : list QuestionUpdateNested) (db : Store) : Store :=
  let payload_q_ids := supplied_ids question_id questions in
  let db := soft_delete_missing_questions u existing_questions payload_q_ids db in
  fold_left (merge_question u scope_obj_id existing_questions) questions db.

(** *** Scopes *)

Definition set_scope_columns (p : ScopeUpdateNested) (c : ScopeColumns)
  : ScopeColumns :=
  {| col_area_id := col_area_id c; col_scope_name := scope_name p |}.

Definition soft_delete_missing_scopes (u : option nat)
    (existing_scopes : list LoadedScope)
    (payload_scope_ids : list nat) (db : Store) : Store :=
  fold_left (fun db scope_obj =>
      if id_in (ls_id scope_obj) payload_scope_ids then db
      else cascade_questions u (ls_questions scope_obj)
             (deactivate_scope (ls_id scope_obj) u db))
    existing_scopes db.

Definition merge_scope (u : option nat) (area_obj_id : nat)
    (existing_scopes : list LoadedScope)
    (db : Store) (scope_payload : ScopeUpdateNested) : Store :=
  match lookup ls_id (scope_id scope_payload) existing_scopes with
  | Some scope_obj =>
      let db := with_scopes
                  (on_row (ls_id scope_obj) (modified (set_scope_columns scope_payload) u)) db in
      merge_questions u (ls_id scope_obj) (ls_questions scope_obj)
        (scope_questions scope_payload) db
  | None =>
      let (i, db) := add_scope area_obj_id (scope_name scope_payload) u db in
      merge_questions u i [] (scope_questions scope_payload) db
  end.

Definition merge_scopes (u : option nat) (area_obj_id : nat)
    (existing_scopes : list LoadedScope)
    (scopes : list ScopeUpdateNested) (db : Store) : Store :=
  let payload_scope_ids := supplied_ids scope_id scopes in
  let db := soft_delete_missing_scopes u existing_scopes payload_scope_ids db in
  fold_left (merge_scope u area_obj_id existing_scopes) scopes db.

(** *** Areas *)

Definition set_area_columns (p : AreaUpdateNested) (c : AreaColumns)
  : AreaColumns :=
  {| col_template_id := col_template_id c; col_area_name := area_name p;
     col_weightage := area_weightage p |}.

Definition soft_delete_missing_areas (u : option nat)
    (existing_areas : list LoadedArea)
    (payload_area_ids : list nat) (db : Store) : Store :=
  fold_left (fun db area_obj =>
      if id_in (la_id area_obj) payload_area_ids then db
      else cascade_scopes u (la_scopes area_obj)
             (deactivate_area (la_id area_obj) u db))
    existing_areas db.

Definition merge_area (u : option nat) (template_id : nat)
    (existing_areas : list LoadedArea)
    (db : Store) (area_payload : AreaUpdateNested) : Store :=
  match lookup la_id (area_id area_payload) existing_areas with
  | Some area_obj =>
      let db := with_areas
                  (on_row (la_id area_obj) (modified (set_area_columns area_payload) u)) db in
      merge_scopes u (la_id area_obj) (la_scopes area_obj)
        (area_scopes area_payload) db
  | None =>
      let (i, db) := add_area template_id (area_name area_payload)
                       (area_weightage area_payload) u db in
      merge_scopes u i [] (area_scopes area_payload) db
  end.

Definition merge_areas (u : option nat) (template_id : nat)
    (existing_areas : list LoadedArea)
    (areas : list AreaUpdateNested) (db : Store) : Store :=
  let payload_area_ids := supplied_ids area_id areas in
  let db := soft_delete_missing_areas u existing_areas payload_area_ids db in
  fold_left (merge_area u template_id existing_areas) areas db.

(** *** The operation *)

Definition check_name_change (db : Store) (template : LoadedTemplate)
    (name : string) : M unit :=
  if String.eqb name (col_template_name (cols (lt_row template)))
  then ret tt
  else check_name_free db name.

Definition rename_template (template_id : nat) (name : string)
    (u : option nat) : Store -> Store :=
  with_templates
    (on_row template_id (modified (fun _ => {| col_template_name := name |}) u)).

Definition update_template (db : Store) (template_id : nat)
    (payload : TemplatePayload) (user_id : option nat)
  : M TemplateDetailResponse * Store :=
  match get_by_id_with_details db template_id with
  | None => (inl template_not_found, db)
  | Some template =>
      match check_name_change db template (payload_name payload) ;;;
            Validator.validate_all_constraints (payload_areas payload) with
      | inl e => (inl e, db)
      | inr _ =>
          let db1 := rename_template template_id (payload_name payload) user_id db in
          let db2 := merge_areas user_id template_id (lt_areas template)
                       (payload_areas payload) db1 in
          (reload_detail db2 template_id, db2)
      end
  end.

(** ** Definitions used by the statements *)

(** The checks each write operation performs before the validation block. *)
Definition create_guard (db : Store) (payload : TemplatePayload) : M unit :=
  check_name_free db (payload_name payload).

Definition update_guard (db : Store) (template_id : nat)
    (payload : TemplatePayload) : M unit :=
  match get_by_id_with_details db template_id with
  | None => inl template_not_found
  | Some template => check_name_change db template (payload_name payload)
  end.

Definition clone_guard (db : Store) (template_id : nat)
    (payload : TemplatePayload) : M unit :=
  match get_by_id db template_id with
  | None => raise HTTP_404_NOT_FOUND "Source template not found"
  | Some _ => check_name_free db (payload_name payload)
  end.

(** The specification's reading of the percentage rule: the sum over all
    questions of all scopes of all areas. *)
Fixpoint Zsum (l : list Z) : Z :=
  match l with
  | [] => 0%Z
  | x :: rest => (x + Zsum rest)%Z
  end.

Definition all_questions (areas : list AreaUpdateNested) : list QuestionUpdateNested :=
  flat_map scope_questions (flat_map area_scopes areas).

Definition payload_percentage_sum (areas : list AreaUpdateNested) : Z :=
  Zsum (map question_percentage (all_questions areas)).

(** The specification's order of the validators. *)
Definition validators_in_order : list (list AreaUpdateNested -> M unit) :=
  [ Validator._validate_empty_question_scopes_areas;
    Validator._validate_area_names;
    Validator._validate_scope_names;
    Validator._validate_question_names;
    Validator._validate_option_labels;
    Validator._validate_option_values;
    Validator._validate_scope_percentages ].

(** [first_failure vs areas]: run the validators of [vs] from left to
    right and surface the exception of the first one that raises. *)
Fixpoint first_failure (vs : list (list AreaUpdateNested -> M unit))
    (areas : list AreaUpdateNested) : M unit :=
  match vs with
  | [] => ret tt
  | v :: rest =>
      match v areas with
      | inl e => inl e
      | inr _ => first_failure rest areas
      end
  end.

(** Sample payloads. *)
Definition sample_option (label : string) (value : Z) : OptionUpdateNested :=
  {| option_id := None; option_label := label; option_value := value |}.

Definition sample_question (text : string) (percentage : Z) : QuestionUpdateNested :=
  {| question_id := None; question_text := text;
     question_percentage := percentage; question_is_mandatory := true;
     question_options := [sample_option "Yes" 1; sample_option "No" 0] |}.

Definition sample_scope (name : string) (percentage : Z) : ScopeUpdateNested :=
  {| scope_id := None; scope_name := name;
     scope_questions := [sample_question "Q" percentage] |}.

Definition sample_area (name : string) (weightage percentage : Z) : AreaUpdateNested :=
  {| area_id := None; area_name := name; area_weightage := weightage;
     area_scopes := [sample_scope "S" percentage] |}.

(** The round-trip payload of the specification: one area of weightage 100
    with one scope, one question of percentage 100 and two options. *)
Definition round_trip_payload (name : string) : TemplatePayload :=
  {| payload_name := name; payload_areas := [sample_area "A" 100 100] |}.

(** Two areas whose names differ in case and trailing space, with
    percentages adding up to 60. *)
Definition two_quality_areas : list AreaUpdateNested :=
  [sample_area "Quality" 50 30; sample_area "quality " 50 30].

(** The store after creating the round-trip template "T" in an empty
    database: template 1, area 2, scope 3, question 4, options 5 and 6. *)
Definition round_trip_store : Store :=
  snd (create_template empty_store (round_trip_payload "T") (Some 7%nat)).

(** Store invariants. Keys come from the generator, and a foreign key
    refers to a key that was handed out before: both lie below [next_id]. *)
Definition rows_below {F} (parent : F -> nat) (n : nat) (t : list (Row F)) : bool :=
  forallb (fun r => (row_id r <? n)%nat && (parent (cols r) <? n)%nat) t.

Definition db_wfb (db : Store) : bool :=
  rows_below (fun _ => 0%nat) (next_id db) (audit_templates db)
  && rows_below col_template_id (next_id db) (audit_areas db)
  && rows_below col_area_id (next_id db) (audit_scopes db)
  && rows_below col_scope_id (next_id db) (audit_questions db)
  && rows_below col_question_id (next_id db) (audit_question_options db)
  && (0 <? next_id db)%nat.

Definition db_wf (db : Store) : Prop := db_wfb db = true.

(** The names of the active templates; the name check of create, clone and
    update keeps them pairwise distinct. *)
Definition active_names (db : Store) : list string :=
  map (fun t => col_template_name (cols t)) (filter isactive (audit_templates db)).

Definition unique_active_names (db : Store) : Prop := NoDup (active_names db).

(** The round-trip store after [delete_template] of template 1. *)
Definition deleted_template_store : Store :=
  snd (delete_template round_trip_store 1 (Some 7%nat)).

(** The round-trip store after [delete_area] of area 2. *)
Definition deleted_area_store : Store :=
  snd (delete_area round_trip_store 2 (Some 7%nat)).

(** The rows a detail read sums over. *)
Definition active_areas_of (db : Store) (template_id : nat) : list AuditArea :=
  filter (fun a => (col_template_id (cols a) =? template_id)%nat && isactive a)
    (audit_areas db).

Definition active_questions_of (db : Store) (scope_id : nat) : list AuditQuestion :=
  filter (fun q => (col_scope_id (cols q) =? scope_id)%nat && isactive q)
    (audit_questions db).

(** The detail of a freshly seeded default template with key [n]. *)
Definition default_area_response (template_id i : nat) (name : string)
  : AreaDetailResponse :=
  {| resp_area_id := i; resp_area_template_id := template_id;
     resp_area_name := name; resp_weightage := 20; resp_scopes := [] |}.

Definition default_template_response (n : nat) : TemplateDetailResponse :=
  {| resp_id := n; resp_name := DEFAULT_TEMPLATE_NAME; resp_isactive := true;
     resp_areas :=
       [ default_area_response n (S n) "Project Execution";
         default_area_response n (S (S n)) "Engineering Excellence";
         default_area_response n (S (S (S n))) "Communication";
         default_area_response n (S (S (S (S n)))) "People Management";
         default_area_response n (S (S (S (S (S n))))) "Learning & Innovation" ];
     total_weightage := 100 |}.

(** The rows a fresh seed adds for template [n]: the template row is
    followed by one area row per default area, under the next five keys. *)
Definition default_area_row (template_id i : nat) (name : string)
    (user_id : option nat) : AuditArea :=
  new_row i {| col_template_id := template_id; col_area_name := name;
               col_weightage := 20 |} user_id.

Definition default_area_rows (n : nat) (user_id : option nat) : list AuditArea :=
  [ default_area_row n (S n) "Project Execution" user_id;
    default_area_row n (S (S n)) "Engineering Excellence" user_id;
    default_area_row n (S (S (S n))) "Communication" user_id;
    default_area_row n (S (S (S (S n)))) "People Management" user_id;
    default_area_row n (S (S (S (S (S n))))) "Learning & Innovation" user_id ].

(** *** Vocabulary of the reconciliation properties *)

(** No row with key [i] is active in table [t]. *)
Definition inactive_in {F} (t : list (Row F)) (i : nat) : Prop :=
  forall r, In r t -> row_id r = i -> isactive r = false.

(** A loaded node, and with it every node loaded below it, is inactive. *)
Definition question_subtree_inactive (db : Store) (q : LoadedQuestion) : Prop :=
  inactive_in (audit_questions db) (lq_id q)
  /\ forall o, In o (lq_options q) ->
       inactive_in (audit_question_options db) (row_id o).

Definition scope_subtree_inactive (db : Store) (s : LoadedScope) : Prop :=
  inactive_in (audit_scopes db) (ls_id s)
  /\ forall q, In q (ls_questions s) -> question_subtree_inactive db q.

Definition area_subtree_inactive (db : Store) (a : LoadedArea) : Prop :=
  inactive_in (audit_areas db) (la_id a)
  /\ forall s, In s (la_scopes a) -> scope_subtree_inactive db s.

(** The persisted node's id is not among the ids the payload supplies. *)
Definition omitted {A} (get_id : A -> option nat) (payload : list A) (i : nat) : Prop :=
  id_in i (supplied_ids get_id payload) = false.

(** The reconciler's soft deletes, level by level: in every collection the
    merge visits, a persisted node whose id the payload omits is inactive
    together with its loaded subtree. The collections visited below a level
    are those of the payload items matched to a persisted node. *)
Definition options_soft_deleted (existing : list AuditQuestionOption)
    (payload : list OptionUpdateNested) (db : Store) : Prop :=
  forall o, In o existing -> omitted option_id payload (row_id o) ->
    inactive_in (audit_question_options db) (row_id o).

Definition questions_soft_deleted (existing : list LoadedQuestion)
    (payload : list QuestionUpdateNested) (db : Store) : Prop :=
  (forall q, In q existing -> omitted question_id payload (lq_id q) ->
     question_subtree_inactive db q)
  /\ forall qp q, In qp payload ->
       lookup lq_id (question_id qp) existing = Some q ->
       options_soft_deleted (lq_options q) (question_options qp) db.

Definition scopes_soft_deleted (existing : list LoadedScope)
    (payload : list ScopeUpdateNested) (db : Store) : Prop :=
  (forall s, In s existing -> omitted scope_id payload (ls_id s) ->
     scope_subtree_inactive db s)
  /\ forall sp s, In sp payload ->
       lookup ls_id (scope_id sp) existing = Some s ->
       questions_soft_deleted (ls_questions s) (scope_questions sp) db.

Definition areas_soft_deleted (existing : list LoadedArea)
    (payload : list AreaUpdateNested) (db : Store) : Prop :=
  (forall a, In a existing -> omitted area_id payload (la_id a) ->
     area_subtree_inactive db a)
  /\ forall ap a, In ap payload ->
       lookup la_id (area_id ap) existing = Some a ->
       scopes_soft_deleted (la_scopes a) (area_scopes ap) db.

(** The keys a detail response shows, per level. *)
Definition shown_scopes (r : TemplateDetailResponse) : list ScopeDetailResponse :=
  flat_map resp_scopes (resp_areas r).
Definition shown_questions (r : TemplateDetailResponse) : list QuestionDetailResponse :=
  flat_map resp_questions (shown_scopes r).
Definition shown_options (r : TemplateDetailResponse) : list OptionResponse :=
  flat_map resp_options (shown_questions r).

Definition area_ids_of (r : TemplateDetailResponse) : list nat :=
  map resp_area_id (resp_areas r).
Definition scope_ids_of (r : TemplateDetailResponse) : list nat :=
  map resp_scope_id (shown_scopes r).
Definition question_ids_of (r : TemplateDetailResponse) : list nat :=
  map resp_question_id (shown_questions r).
Definition option_ids_of (r : TemplateDetailResponse) : list nat :=
  map resp_option_id (shown_options r).

(** A loaded node, and every node loaded below it, is absent from a detail
    response. *)
Definition question_subtree_hidden (r : TemplateDetailResponse)
    (q : LoadedQuestion) : Prop :=
  ~ In (lq_id q) (question_ids_of r)
  /\ forall o, In o (lq_options q) -> ~ In (row_id o) (option_ids_of r).

Definition scope_subtree_hidden (r : TemplateDetailResponse)
    (s : LoadedScope) : Prop :=
  ~ In (ls_id s) (scope_ids_of r)
  /\ forall q, In q (ls_questions s) -> question_subtree_hidden r q.

Definition area_subtree_hidden (r : TemplateDetailResponse)
    (a : LoadedArea) : Prop :=
  ~ In (la_id a) (area_ids_of r)
  /\ forall s, In s (la_scopes a) -> scope_subtree_hidden r s.

(** Every key of the loaded subtree lies below [n]. *)
Definition question_below (n : nat) (q : LoadedQuestion) : Prop :=
  (lq_id q < n)%nat /\ forall o, In o (lq_options q) -> (row_id o < n)%nat.
Definition scope_below (n : nat) (s : LoadedScope) : Prop :=
  (ls_id s < n)%nat /\ forall q, In q (ls_questions s) -> question_below n q.
Definition area_below (n : nat) (a : LoadedArea) : Prop :=
  (la_id a < n)%nat /\ forall s, In s (la_scopes a) -> scope_below n s.

(** One store evolves into another when keys were only handed out and no
    row known to the first store went from inactive to active. *)
Definition keeps_inactive {F} (n : nat) (t t' : list (Row F)) : Prop :=
  forall i, (i < n)%nat -> inactive_in t i -> inactive_in t' i.

Record evolves (db db' : Store) : Prop := {
  ev_next : (next_id db <= next_id db')%nat;
  ev_areas : keeps_inactive (next_id db) (audit_areas db) (audit_areas db');
  ev_scopes : keeps_inactive (next_id db) (audit_scopes db) (audit_scopes db');
  ev_questions :
    keeps_inactive (next_id db) (audit_questions db) (audit_questions db');
  ev_options :
    keeps_inactive (next_id db) (audit_question_options db)
      (audit_question_options db')
}.

(** A property of stores that survives every evolution of a store whose
    generator has reached [n]. *)
Definition stable (n : nat) (Q : Store -> Prop) : Prop :=
  forall d d', (n <= next_id d)%nat -> Q d -> evolves d d' -> Q d'.

(** The round-trip store after an update whose payload holds one new area
    (no id) and therefore omits the persisted area 2. *)
Definition replaced_area_store : Store :=
  snd (update_template round_trip_store 1 (round_trip_payload "T") None).

(** The payload item carries an id that is a key of the persisted
    collection of its level. *)
Definition carries_persisted_id {N} (key : N -> nat) (payload_id : option nat)
    (existing : list N) : Prop :=
  exists i x, payload_id = Some i /\ In x existing /\ key x = i.

(** The tables above a level, which a merge at that level leaves alone. *)
Definition same_above_options (db db' : Store) : Prop :=
  audit_areas db' = audit_areas db /\ audit_scopes db' = audit_scopes db
  /\ audit_questions db' = audit_questions db.

Definition same_above_questions (db db' : Store) : Prop :=
  audit_areas db' = audit_areas db /\ audit_scopes db' = audit_scopes db.

Definition same_above_scopes (db db' : Store) : Prop :=
  audit_areas db' = audit_areas db.


(** The store is well formed and its generator has reached [k]. *)
Definition wf_from (k : nat) (d : Store) : Prop :=
  db_wf d /\ (k <= next_id d)%nat.

(** The invariant of the template table: well-formed keys, no key twice,
    and pairwise distinct names among the active templates. *)
Definition templates_ok (db : Store) : Prop :=
  db_wf db
  /\ NoDup (map row_id (audit_templates db))
  /\ unique_active_names db.

Definition name_of (t : AuditTemplate) : string := col_template_name (cols t).

Definition same_templates (db db' : Store) : Prop :=
  audit_templates db' = audit_templates db.

(** ** The remaining services

    The template list, the area service ([services/audit_area_service.py],
    [repositories/audit_area_repository.py]) and the scope, question and
    option service ([services/audit_question_service.py],
    [repositories/audit_question_repository.py]). *)

(** *** Template list ([get_all], [_template_to_response]) *)

Record AreaResponse := {
  aresp_id : nat;
  aresp_template_id : nat;
  aresp_name : string;
  aresp_weightage : Z
}.

Record TemplateResponse := {
  tresp_id : nat;
  tresp_name : string;
  tresp_isactive : bool;
  tresp_areas : list AreaResponse;
  tresp_total_weightage : Z
}.

(** [AreaResponse.model_validate(area)] *)
Definition area_response (a : AuditArea) : AreaResponse :=
  {| aresp_id := row_id a;
     aresp_template_id := col_template_id (cols a);
     aresp_name := col_area_name (cols a);
     aresp_weightage := col_weightage (cols a) |}.

(** The template with its shallow load: the active areas only. *)
Definition active_areas (db : Store) (template_id : nat) : list AuditArea :=
  filter (fun a => (col_template_id (cols a) =? template_id)%nat && isactive a)
    (audit_areas db).

(** [get_all]: newest first ([order_by(created_at.desc())]), the inactive
    templates only on request. *)
Definition get_all (db : Store) (include_inactive : bool)
  : list (AuditTemplate * list AuditArea) :=
  map (fun t => (t, active_areas db (row_id t)))
    (rev (filter (fun t => include_inactive || isactive t) (audit_templates db))).

(** [_template_to_response]; [_compute_total_weightage] reads the
    [weightage] attribute of whatever area objects it is given. *)
Definition _template_to_response (template : AuditTemplate * list AuditArea)
  : TemplateResponse :=
  let areas := snd template in
  {| tresp_id := row_id (fst template);
     tresp_name := col_template_name (cols (fst template));
     tresp_isactive := isactive (fst template);
     tresp_areas := map area_response areas;
     tresp_total_weightage := py_sum (map (fun a => col_weightage (cols a)) areas) |}.

(** [get_all_templates] *)
Definition get_all_templates (db : Store) (include_inactive : bool)
  : list TemplateResponse :=
  map _template_to_response (get_all db include_inactive).

(** *** Area service *)

Definition area_not_found : HTTPException :=
  {| status_code := HTTP_404_NOT_FOUND; detail := "Area not found" |}.
Definition scope_not_found : HTTPException :=
  {| status_code := HTTP_404_NOT_FOUND; detail := "Scope not found" |}.
Definition question_not_found : HTTPException :=
  {| status_code := HTTP_404_NOT_FOUND; detail := "Question not found" |}.
Definition option_not_found : HTTPException :=
  {| status_code := HTTP_404_NOT_FOUND; detail := "Option not found" |}.

(** [AuditAreaRepository.get_by_id] with its eager load. *)
Definition load_area (db : Store) (area_id : nat) : option LoadedArea :=
  match area_get_by_id db area_id with
  | Some a => Some {| la_row := a; la_scopes := load_scopes db (row_id a) |}
  | None => None
  end.

(** [get_areas_by_template]; [get_by_template_id] is the area collection
    of the deep template load. *)
Definition get_areas_by_template (db : Store) (template_id : nat)
  : M (list AreaDetailResponse) :=
  match get_by_id db template_id with
  | None => inl template_not_found
  | Some _ => ret (map _area_detail (load_areas db template_id))
  end.

(** [get_area] *)
Definition get_area (db : Store) (area_id : nat) : M AreaDetailResponse :=
  match load_area db area_id with
  | None => inl area_not_found
  | Some area => ret (_area_detail area)
  end.

(** [create_area]; [AreaCreate] is a name and a weightage. *)
Definition create_area (db : Store) (template_id : nat) (name : string)
    (weightage : Z) (user_id : option nat) : M AreaResponse * Store :=
  match get_by_id db template_id with
  | None => (inl template_not_found, db)
  | Some _ =>
      let (i, db') := add_area template_id name weightage user_id db in
      (ret (area_response
              (new_row i {| col_template_id := template_id;
                            col_area_name := name;
                            col_weightage := weightage |} user_id)), db')
  end.

(** [if x is not None: obj.attr = x] *)
Definition patch {A} (new : option A) (old : A) : A :=
  match new with Some x => x | None => old end.

(** [AuditAreaRepository.update] on the area's own columns. *)
Definition patch_area (name : option string) (weightage : option Z)
    (c : AreaColumns) : AreaColumns :=
  {| col_template_id := col_template_id c;
     col_area_name := patch name (col_area_name c);
     col_weightage := patch weightage (col_weightage c) |}.

(** [update_area]; [AreaUpdate] is an optional name and weightage. *)
Definition update_area (db : Store) (area_id : nat) (name : option string)
    (weightage : option Z) (user_id : option nat) : M AreaResponse * Store :=
  match area_get_by_id db area_id with
  | None => (inl area_not_found, db)
  | Some area =>
      let f := modified (patch_area name weightage) user_id in
      (ret (area_response (f area)), with_areas (on_row (row_id area) f) db)
  end.

(** *** Scope service *)

Record ScopeResponse := {
  sresp_id : nat;
  sresp_area_id : nat;
  sresp_name : string
}.

Definition scope_response (s : AuditScope) : ScopeResponse :=
  {| sresp_id := row_id s; sresp_area_id := col_area_id (cols s);
     sresp_name := col_scope_name (cols s) |}.

(** [AuditScopeRepository.get_by_id] and its eager load. *)
Definition scope_get_by_id (db : Store) (scope_id : nat) : option AuditScope :=
  find (fun s => (row_id s =? scope_id)%nat && isactive s) (audit_scopes db).

Definition load_scope (db : Store) (scope_id : nat) : option LoadedScope :=
  match scope_get_by_id db scope_id with
  | Some s => Some {| ls_row := s; ls_questions := load_questions db (row_id s) |}
  | None => None
  end.

(** [get_scopes_by_area] *)
Definition get_scopes_by_area (db : Store) (area_id : nat)
  : M (list ScopeDetailResponse) :=
  match area_get_by_id db area_id with
  | None => inl area_not_found
  | Some _ => ret (map _scope_detail (load_scopes db area_id))
  end.

(** [create_scope] *)
Definition create_scope (db : Store) (area_id : nat) (name : string)
    (user_id : option nat) : M ScopeResponse * Store :=
  match area_get_by_id db area_id with
  | None => (inl area_not_found, db)
  | Some _ =>
      let (i, db') := add_scope area_id name user_id db in
      (ret (scope_response
              (new_row i {| col_area_id := area_id; col_scope_name := name |}
                 user_id)), db')
  end.

Definition patch_scope (name : option string) (c : ScopeColumns) : ScopeColumns :=
  {| col_area_id := col_area_id c;
     col_scope_name := patch name (col_scope_name c) |}.

(** [update_scope] *)
Definition update_scope (db : Store) (scope_id : nat) (name : option string)
    (user_id : option nat) : M ScopeResponse * Store :=
  match scope_get_by_id db scope_id with
  | None => (inl scope_not_found, db)
  | Some scope =>
      let f := modified (patch_scope name) user_id in
      (ret (scope_response (f scope)), with_scopes (on_row (row_id scope) f) db)
  end.

(** [delete_scope] *)
Definition delete_scope (db : Store) (scope_id : nat) (user_id : option nat)
  : M unit * Store :=
  match scope_get_by_id db scope_id with
  | None => (inl scope_not_found, db)
  | Some scope => (ret tt, deactivate_scope (row_id scope) user_id db)
  end.

(** [recalculate_scope_scores] *)
Definition recalculate_scope_scores (db : Store) (scope_id : nat)
  : M ScopeDetailResponse :=
  match load_scope db scope_id with
  | None => inl scope_not_found
  | Some scope => ret (_scope_detail scope)
  end.

(** *** Question service *)

Definition question_get_by_id (db : Store) (question_id : nat)
  : option AuditQuestion :=
  find (fun q => (row_id q =? question_id)%nat && isactive q) (audit_questions db).

Definition load_question (db : Store) (question_id : nat) : option LoadedQuestion :=
  match question_get_by_id db question_id with
  | Some q => Some {| lq_row := q; lq_options := load_options db (row_id q) |}
  | None => None
  end.

(** The reload that ends [create_question] and [update_question]:
    [question = await self.question_repo.get_by_id(id)] followed by
    [_question_to_detail(question)], which fails on [None]. *)
Definition reload_question (db : Store) (question_id : nat)
  : M QuestionDetailResponse :=
  match load_question db question_id with
  | None => raise HTTP_500_INTERNAL_SERVER_ERROR "Internal Server Error"
  | Some q => ret (_question_detail q)
  end.

(** [get_questions_by_scope] *)
Definition get_questions_by_scope (db : Store) (scope_id : nat)
  : M (list QuestionDetailResponse) :=
  match scope_get_by_id db scope_id with
  | None => inl scope_not_found
  | Some _ => ret (map _question_detail (load_questions db scope_id))
  end.

(** [AuditQuestionOptionRepository.bulk_create] *)
Definition bulk_create (question_id : nat) (options : list OptionUpdateNested)
    (created_by : option nat) (db : Store) : Store :=
  fold_left (fun db opt =>
      snd (add_option question_id (option_label opt) (option_value opt)
             created_by db))
    options db.

(** [create_question]; the payload is a [QuestionCreate], whose options
    are created only [if payload.options]. *)
Definition create_question (db : Store) (scope_id : nat)
    (payload : QuestionUpdateNested) (user_id : option nat)
  : M QuestionDetailResponse * Store :=
  match scope_get_by_id db scope_id with
  | None => (inl scope_not_found, db)
  | Some _ =>
      let (i, db1) := add_question scope_id (question_text payload)
                        (question_percentage payload)
                        (question_is_mandatory payload) user_id db in
      let db2 := match question_options payload with
                 | [] => db1
                 | options => bulk_create i options user_id db1
                 end in
      (reload_question db2 i, db2)
  end.

Definition patch_question (text : option string) (percentage : option Z)
    (is_mandatory : option bool) (c : QuestionColumns) : QuestionColumns :=
  {| col_scope_id := col_scope_id c;
     col_text := patch text (col_text c);
     col_percentage := patch percentage (col_percentage c);
     col_is_mandatory := patch is_mandatory (col_is_mandatory c) |}.

(** [update_question] *)
Definition update_question (db : Store) (question_id : nat)
    (text : option string) (percentage : option Z) (is_mandatory : option bool)
    (user_id : option nat) : M QuestionDetailResponse * Store :=
  match question_get_by_id db question_id with
  | None => (inl question_not_found, db)
  | Some question =>
      let f := modified (patch_question text percentage is_mandatory) user_id in
      let db' := with_questions (on_row (row_id question) f) db in
      (reload_question db' question_id, db')
  end.

(** [delete_question] *)
Definition delete_question (db : Store) (question_id : nat)
    (user_id : option nat) : M unit * Store :=
  match question_get_by_id db question_id with
  | None => (inl question_not_found, db)
  | Some question => (ret tt, deactivate_question (row_id question) user_id db)
  end.

(** *** Option service *)

Definition option_get_by_id (db : Store) (option_id : nat)
  : option AuditQuestionOption :=
  find (fun o => (row_id o =? option_id)%nat && isactive o)
    (audit_question_options db).

(** [order_by(AuditQuestionOption.value.asc())], as a stable insertion
    sort of the rows in table order. *)
Fixpoint insert_by_value (o : AuditQuestionOption)
    (sorted : list AuditQuestionOption) : list AuditQuestionOption :=
  match sorted with
  | [] => [o]
  | x :: rest =>
      if (col_value (cols o) <? col_value (cols x))%Z then o :: sorted
      else x :: insert_by_value o rest
  end.

Definition order_by_value (l : list AuditQuestionOption)
  : list AuditQuestionOption :=
  fold_left (fun sorted o => insert_by_value o sorted) l [].

(** [get_options_by_question] *)
Definition get_options_by_question (db : Store) (question_id : nat)
  : M (list OptionResponse) :=
  match question_get_by_id db question_id with
  | None => inl question_not_found
  | Some _ => ret (map _option_detail (order_by_value (load_options db question_id)))
  end.

(** [create_option] *)
Definition create_option (db : Store) (question_id : nat) (label : string)
    (value : Z) (user_id : option nat) : M OptionResponse * Store :=
  match question_get_by_id db question_id with
  | None => (inl question_not_found, db)
  | Some _ =>
      let (i, db') := add_option question_id label value user_id db in
      (ret (_option_detail
              (new_row i {| col_question_id := question_id; col_label := label;
                            col_value := value |} user_id)), db')
  end.

Definition patch_option (label : option string) (value : option Z)
    (c : OptionColumns) : OptionColumns :=
  {| col_question_id := col_question_id c;
     col_label := patch label (col_label c);
     col_value := patch value (col_value c) |}.

(** [update_option] *)
Definition update_option (db : Store) (option_id : nat) (label : option string)
    (value : option Z) (user_id : option nat) : M OptionResponse * Store :=
  match option_get_by_id db option_id with
  | None => (inl option_not_found, db)
  | Some option =>
      let f := modified (patch_option label value) user_id in
      (ret (_option_detail (f option)), with_options (on_row (row_id option) f) db)
  end.

(** [delete_option] *)
Definition delete_option (db : Store) (option_id : nat) (user_id : option nat)
  : M unit * Store :=
  match option_get_by_id db option_id with
  | None => (inl option_not_found, db)
  | Some option => (ret tt, deactivate_option (row_id option) user_id db)
  end.

(** *** The mutating endpoints

    [routers/audit_template_router.py], [routers/audit_area_router.py] and
    [routers/audit_question_router.py]: each endpoint hands its path
    parameter, its body and [current_user.get("user_id")] to one service
    method. *)
Inductive WriteRequest :=
| ReqCreateTemplate (payload : TemplatePayload)
| ReqUpdateTemplate (template_id : nat) (payload : TemplatePayload)
| ReqDeleteTemplate (template_id : nat)
| ReqCloneTemplate (template_id : nat) (payload : TemplatePayload)
| ReqSeedDefaultTemplate
| ReqCreateArea (template_id : nat) (name : string) (weightage : Z)
| ReqUpdateArea (area_id : nat) (name : option string) (weightage : option Z)
| ReqDeleteArea (area_id : nat)
| ReqCreateScope (area_id : nat) (name : string)
| ReqUpdateScope (scope_id : nat) (name : option string)
| ReqDeleteScope (scope_id : nat)
| ReqCreateQuestion (scope_id : nat) (payload : QuestionUpdateNested)
| ReqUpdateQuestion (question_id : nat) (text : option string)
    (percentage : option Z) (is_mandatory : option bool)
| ReqDeleteQuestion (question_id : nat)
| ReqCreateOption (question_id : nat) (label : string) (value : Z)
| ReqUpdateOption (option_id : nat) (label : option string) (value : option Z)
| ReqDeleteOption (option_id : nat).

(** The store a request leaves behind. *)
Definition handle (db : Store) (request : option nat * WriteRequest) : Store :=
  let (user_id, req) := request in
  match req with
  | ReqCreateTemplate p => snd (create_template db p user_id)
  | ReqUpdateTemplate i p => snd (update_template db i p user_id)
  | ReqDeleteTemplate i => snd (delete_template db i user_id)
  | ReqCloneTemplate i p => snd (clone_template db i p user_id)
  | ReqSeedDefaultTemplate => snd (seed_default_template db user_id)
  | ReqCreateArea i name w => snd (create_area db i name w user_id)
  | ReqUpdateArea i name w => snd (update_area db i name w user_id)
  | ReqDeleteArea i => snd (delete_area db i user_id)
  | ReqCreateScope i name => snd (create_scope db i name user_id)
  | ReqUpdateScope i name => snd (update_scope db i name user_id)
  | ReqDeleteScope i => snd (delete_scope db i user_id)
  | ReqCreateQuestion i p => snd (create_question db i p user_id)
  | ReqUpdateQuestion i t pc m => snd (update_question db i t pc m user_id)
  | ReqDeleteQuestion i => snd (delete_question db i user_id)
  | ReqCreateOption i l v => snd (create_option db i l v user_id)
  | ReqUpdateOption i l v => snd (update_option db i l v user_id)
  | ReqDeleteOption i => snd (delete_option db i user_id)
  end.

(** The store after a sequence of requests. *)
Definition handle_all (db : Store) (requests : list (option nat * WriteRequest))
  : Store :=
  fold_left handle requests db.

(** [ids] is strictly increasing and lies in [[lo, hi)]. *)
Fixpoint ascending (lo hi : nat) (ids : list nat) : Prop :=
  match ids with
  | [] => (lo <= hi)%nat
  | i :: rest => (lo <= i)%nat /\ ascending (S i) hi rest
  end.

(** What may happen to a row that exists: it keeps its key, its parent and
    its creator, and it does not go from inactive to active. *)
Definition row_kept {F} (parent : F -> nat) (r r' : Row F) : Prop :=
  row_id r' = row_id r
  /\ parent (cols r') = parent (cols r)
  /\ created_by r' = created_by r
  /\ (isactive r' = true -> isactive r = true).

(** Table [t'] is table [t] with every row kept, in place, followed by
    rows whose keys are new: increasing and taken from [[lo, hi)]. *)
Definition table_grows {F} (parent : F -> nat) (lo hi : nat)
    (t t' : list (Row F)) : Prop :=
  exists kept added,
    t' = kept ++ added
    /\ Forall2 (row_kept parent) t kept
    /\ ascending lo hi (map row_id added).

Definition store_grows (db db' : Store) : Prop :=
  table_grows (fun _ : TemplateColumns => 0%nat) (next_id db) (next_id db')
    (audit_templates db) (audit_templates db')
  /\ table_grows col_template_id (next_id db) (next_id db')
       (audit_areas db) (audit_areas db')
  /\ table_grows col_area_id (next_id db) (next_id db')
       (audit_scopes db) (audit_scopes db')
  /\ table_grows col_scope_id (next_id db) (next_id db')
       (audit_questions db) (audit_questions db')
  /\ table_grows col_question_id (next_id db) (next_id db')
       (audit_question_options db) (audit_question_options db').

(** Every table lists its keys in increasing order below the generator;
    in particular no key occurs twice. *)
Definition keys_ascending (db : Store) : Prop :=
  ascending 0 (next_id db) (map row_id (audit_templates db))
  /\ ascending 0 (next_id db) (map row_id (audit_areas db))
  /\ ascending 0 (next_id db) (map row_id (audit_scopes db))
  /\ ascending 0 (next_id db) (map row_id (audit_questions db))
  /\ ascending 0 (next_id db) (map row_id (audit_question_options db)).

(** What the validation block asks of a payload, level by level: children
    at every node, normalised names distinct among siblings, option values
    distinct within a question, and the percentages of all questions adding
    up to 100. *)
Definition valid_question (q : QuestionUpdateNested) : Prop :=
  question_options q <> []
  /\ NoDup (map (fun o => Validator.name_key (option_label o)) (question_options q))
  /\ NoDup (map option_value (question_options q)).

Definition valid_scope (s : ScopeUpdateNested) : Prop :=
  scope_questions s <> []
  /\ NoDup (map (fun q => Validator.name_key (question_text q)) (scope_questions s))
  /\ Forall valid_question (scope_questions s).

Definition valid_area (a : AreaUpdateNested) : Prop :=
  area_scopes a <> []
  /\ NoDup (map (fun s => Validator.name_key (scope_name s)) (area_scopes a))
  /\ Forall valid_scope (area_scopes a).

Definition valid_tree (areas : list AreaUpdateNested) : Prop :=
  NoDup (map (fun a => Validator.name_key (area_name a)) areas)
  /\ Forall valid_area areas
  /\ payload_percentage_sum areas = 100%Z.

(** The option rows that [bulk_create] adds for a question: one per payload
    option, in payload order, under consecutive keys starting at [n]. *)
Fixpoint created_options (question_id : nat) (created_by : option nat) (n : nat)
    (options : list OptionUpdateNested) : list AuditQuestionOption :=
  match options with
  | [] => []
  | opt :: rest =>
      new_row n {| col_question_id := question_id; col_label := option_label opt;
                   col_value := option_value opt |} created_by
      :: created_options question_id created_by (S n) rest
  end.

(** The order of an option list: ascending by value. *)
Definition by_value (a b : OptionResponse) : Prop :=
  (resp_value a <= resp_value b)%Z.

Definition row_by_value (a b : AuditQuestionOption) : Prop :=
  (col_value (cols a) <= col_value (cols b))%Z.

(** ** Database URL ([database/async_db.py]) *)

(** [s[n:]] *)
Fixpoint drop_chars (n : nat) (s : string) : string :=
  match n, s with
  | S k, String _ rest => drop_chars k rest
  | _, _ => s
  end.

(** [s.replace(old, new, 1)]: the leftmost occurrence of [old] is replaced. *)
Fixpoint replace_first (old new s : string) : string :=
  if prefix old s then (new ++ drop_chars (String.length old) s)%string
  else match s with
       | EmptyString => EmptyString
       | String c rest => String c (replace_first old new rest)
       end.

(** [make_async_url]; [prefix old url] is [url.startswith(old)]. *)
Definition make_async_url (url : string) : string :=
  if prefix "postgresql://" url
  then replace_first "postgresql://" "postgresql+asyncpg://" url
  else url.

(** ** The bearer token ([auth/auth.py]) *)




(** ** What a write request is answered with *)

Definition error_of {A} (r : M A) : option HTTPException :=
  match r with inl e => Some e | inr _ => None end.

Definition outcome {A} (r : M A * Store) : option HTTPException * Store :=
  (error_of (fst r), snd r).

(** The exception a request is answered with, if any, and the store it
    leaves behind. *)
Definition respond (db : Store) (request : option nat * WriteRequest)
  : option HTTPException * Store :=
  let (user_id, req) := request in
  match req with
  | ReqCreateTemplate p => outcome (create_template db p user_id)
  | ReqUpdateTemplate i p => outcome (update_template db i p user_id)
  | ReqDeleteTemplate i => outcome (delete_template db i user_id)
  | ReqCloneTemplate i p => outcome (clone_template db i p user_id)
  | ReqSeedDefaultTemplate => outcome (seed_default_template db user_id)
  | ReqCreateArea i name w => outcome (create_area db i name w user_id)
  | ReqUpdateArea i name w => outcome (update_area db i name w user_id)
  | ReqDeleteArea i => outcome (delete_area db i user_id)
  | ReqCreateScope i name => outcome (create_scope db i name user_id)
  | ReqUpdateScope i name => outcome (update_scope db i name user_id)
  | ReqDeleteScope i => outcome (delete_scope db i user_id)
  | ReqCreateQuestion i p => outcome (create_question db i p user_id)
  | ReqUpdateQuestion i t pc m => outcome (update_question db i t pc m user_id)
  | ReqDeleteQuestion i => outcome (delete_question db i user_id)
  | ReqCreateOption i l v => outcome (create_option db i l v user_id)
  | ReqUpdateOption i l v => outcome (update_option db i l v user_id)
  | ReqDeleteOption i => outcome (delete_option db i user_id)
  end.

(** The requests served by [AuditTemplateService]. *)
Definition template_request (req : WriteRequest) : bool :=
  match req with
  | ReqCreateTemplate _ | ReqUpdateTemplate _ _ | ReqDeleteTemplate _
  | ReqCloneTemplate _ _ | ReqSeedDefaultTemplate => true
  | _ => false
  end.

(** ** What a created template is read back as *)

(** [numbered m l] pairs the items of [l] with the keys [m], [m + 1], ... *)
Definition numbered {A} (m : nat) (l : list A) : list (A * nat) :=
  combine l (seq m (List.length l)).

(** The children of a list of keyed parents, each with its parent. *)
Definition with_parent {P C} (children : P -> list C) (parents : list (P * nat))
  : list ((P * nat) * C) :=
  flat_map (fun x => map (pair x) (children (fst x))) parents.

(** A payload with every id left out. *)
Definition option_without_id (o : OptionUpdateNested) : OptionUpdateNested :=
  {| option_id := None; option_label := option_label o;
     option_value := option_value o |}.

Definition question_without_ids (q : QuestionUpdateNested) : QuestionUpdateNested :=
  {| question_id := None; question_text := question_text q;
     question_percentage := question_percentage q;
     question_is_mandatory := question_is_mandatory q;
     question_options := map option_without_id (question_options q) |}.

Definition scope_without_ids (s : ScopeUpdateNested) : ScopeUpdateNested :=
  {| scope_id := None; scope_name := scope_name s;
     scope_questions := map question_without_ids (scope_questions s) |}.

Definition area_without_ids (a : AreaUpdateNested) : AreaUpdateNested :=
  {| area_id := None; area_name := area_name a;
     area_weightage := area_weightage a;
     area_scopes := map scope_without_ids (area_scopes a) |}.

(** The content of a detail response, as a payload without ids. *)
Definition option_content (o : OptionResponse) : OptionUpdateNested :=
  {| option_id := None; option_label := resp_label o;
     option_value := resp_value o |}.

Definition question_content (q : QuestionDetailResponse) : QuestionUpdateNested :=
  {| question_id := None; question_text := resp_text q;
     question_percentage := resp_percentage q;
     question_is_mandatory := resp_is_mandatory q;
     question_options := map option_content (resp_options q) |}.

Definition scope_content (s : ScopeDetailResponse) : ScopeUpdateNested :=
  {| scope_id := None; scope_name := resp_scope_name s;
     scope_questions := map question_content (resp_questions s) |}.

Definition area_content (a : AreaDetailResponse) : AreaUpdateNested :=
  {| area_id := None; area_name := resp_area_name a;
     area_weightage := resp_weightage a;
     area_scopes := map scope_content (resp_scopes a) |}.

(** In a detail response every node names its parent. *)
Definition nested_ids (r : TemplateDetailResponse) : Prop :=
  Forall (fun a =>
    resp_area_template_id a = resp_id r
    /\ Forall (fun s =>
         resp_scope_area_id s = resp_area_id a
         /\ Forall (fun q =>
              resp_question_scope_id q = resp_scope_id s
              /\ Forall (fun o => resp_option_question_id o = resp_question_id q)
                   (resp_options q))
              (resp_questions s))
         (resp_scopes a))
    (resp_areas r).

(** One step of a level of [create_with_tree]: add the row of an item and
    remember the item with the key of its row. *)
Definition level_step {C D} (add : C -> Store -> nat * Store) (data : C -> D)
    (st : list (D * nat) * Store) (c : C) : list (D * nat) * Store :=
  (fst st ++ [(data c, fst (add c (snd st)))], snd (add c (snd st))).

(** The rows [create_with_tree] writes: an item of a level, its parent and
    the key it is given. *)
Definition area_row (template_id : nat) (u : option nat)
    (y : AreaUpdateNested * nat) : AuditArea :=
  new_row (snd y)
    {| col_template_id := template_id; col_area_name := area_name (fst y);
       col_weightage := area_weightage (fst y) |} u.

Definition scope_row {P} (u : option nat)
    (y : ((P * nat) * ScopeUpdateNested) * nat) : AuditScope :=
  new_row (snd y)
    {| col_area_id := snd (fst (fst y));
       col_scope_name := scope_name (snd (fst y)) |} u.

Definition question_row {P} (u : option nat)
    (y : ((P * nat) * QuestionUpdateNested) * nat) : AuditQuestion :=
  new_row (snd y)
    {| col_scope_id := snd (fst (fst y));
       col_text := question_text (snd (fst y));
       col_percentage := question_percentage (snd (fst y));
       col_is_mandatory := question_is_mandatory (snd (fst y)) |} u.

Definition option_row {P} (u : option nat)
    (y : ((P * nat) * OptionUpdateNested) * nat) : AuditQuestionOption :=
  new_row (snd y)
    {| col_question_id := snd (fst (fst y));
       col_label := option_label (snd (fst y));
       col_value := option_value (snd (fst y)) |} u.

(** The item and the key of a written row, as the next level sees them. *)
Definition keyed {P C} (y : ((P * nat) * C) * nat) : C * nat :=
  (snd (fst y), snd y).

(** ** Referential integrity *)

(** Every row of [children] names, as its parent, the key of a row of
    [parents]. *)
Definition refers {F G} (parent : F -> nat) (children : list (Row F))
    (parents : list (Row G)) : Prop :=
  forall r, In r children -> In (parent (cols r)) (map row_id parents).

(** No orphans: every area belongs to a template row, every scope to an
    area row, every question to a scope row, every option to a question
    row. *)
Definition references_ok (db : Store) : Prop :=
  refers col_template_id (audit_areas db) (audit_templates db)
  /\ refers col_area_id (audit_scopes db) (audit_areas db)
  /\ refers col_scope_id (audit_questions db) (audit_scopes db)
  /\ refers col_question_id (audit_question_options db) (audit_questions db).

(** The keys of a loaded subtree are keys of the store's tables. *)
Definition question_known (db : Store) (q : LoadedQuestion) : Prop :=
  In (lq_id q) (map row_id (audit_questions db)).

Definition scope_known (db : Store) (s : LoadedScope) : Prop :=
  In (ls_id s) (map row_id (audit_scopes db))
  /\ forall q, In q (ls_questions s) -> question_known db q.

Definition area_known (db : Store) (a : LoadedArea) : Prop :=
  In (la_id a) (map row_id (audit_areas db))
  /\ forall s, In s (la_scopes a) -> scope_known db s.

(** ** Vocabulary of the matching properties *)

(** The payload item creates a row: it has no id, or its id is no key of
    the persisted collection of its level. *)
Definition creates {N} (key : N -> nat) (payload_id : option nat)
    (existing : list N) : bool :=
  match lookup key payload_id existing with Some _ => false | None => true end.
















(** The row of table [t] under the key of the persisted row [old] holds
    what a payload item carrying that key as its id wrote: the item's
    values, next to the parent column of [old]. *)
Definition updated_in_place {F I} (get_id : I -> option nat) (set : I -> F -> F)
    (items : list I) (t : list (Row F)) (old : Row F) : Prop :=
  exists row it,
    In row t /\ row_id row = row_id old
    /\ In it items /\ get_id it = Some (row_id old)
    /\ cols row = set it (cols old).














(** ** The cascade read on rows *)

(** The round-trip store after [delete_scope] of scope 3: the scope is
    inactive, question 4 and options 5 and 6 below it are still active. *)
Definition deleted_scope_store : Store :=
  snd (delete_scope round_trip_store 3 (Some 7%nat)).

(** The rows below an area, whatever their flags: the scopes that name the
    area, the questions that name one of these scopes, the options that
    name one of these questions. *)
Definition scope_under_area (db : Store) (area_id : nat) (s : AuditScope) : Prop :=
  In s (audit_scopes db) /\ col_area_id (cols s) = area_id.

Definition question_under_area (db : Store) (area_id : nat) (q : AuditQuestion)
  : Prop :=
  In q (audit_questions db)
  /\ exists s, scope_under_area db area_id s /\ col_scope_id (cols q) = row_id s.

Definition option_under_area (db : Store) (area_id : nat)
    (o : AuditQuestionOption) : Prop :=
  In o (audit_question_options db)
  /\ exists q, question_under_area db area_id q
               /\ col_question_id (cols o) = row_id q.

(** The cascade read on the rows of the tables: every active area of the
    template whose id the payload omits is inactive in [db'], and so is
    every row below it that was active in [db]. *)
Definition omitted_areas_inactive_throughout (db : Store) (template_id : nat)
    (areas : list AreaUpdateNested) (db' : Store) : Prop :=
  forall a, In a (audit_areas db) -> col_template_id (cols a) = template_id ->
    isactive a = true -> omitted area_id areas (row_id a) ->
    inactive_in (audit_areas db') (row_id a)
    /\ (forall s, scope_under_area db (row_id a) s -> isactive s = true ->
          inactive_in (audit_scopes db') (row_id s))
    /\ (forall q, question_under_area db (row_id a) q -> isactive q = true ->
          inactive_in (audit_questions db') (row_id q))
    /\ (forall o, option_under_area db (row_id a) o -> isactive o = true ->
          inactive_in (audit_question_options db') (row_id o)).

(** The cascade as [update_template] performs it: from an omitted active
    area down through active rows only, each row's parent being a row the
    cascade has reached. *)
Definition omitted_areas_inactive_along_active_rows (db : Store)
    (template_id : nat) (areas : list AreaUpdateNested) (db' : Store) : Prop :=
  forall a, In a (audit_areas db) -> col_template_id (cols a) = template_id ->
    isactive a = true -> omitted area_id areas (row_id a) ->
    inactive_in (audit_areas db') (row_id a)
    /\ forall s, In s (audit_scopes db) -> col_area_id (cols s) = row_id a ->
         isactive s = true ->
         inactive_in (audit_scopes db') (row_id s)
         /\ forall q, In q (audit_questions db) -> col_scope_id (cols q) = row_id s ->
              isactive q = true ->
              inactive_in (audit_questions db') (row_id q)
              /\ forall o, In o (audit_question_options db) ->
                   col_question_id (cols o) = row_id q -> isactive o = true ->
                   inactive_in (audit_question_options db') (row_id o).

(** ** The texts of a request

    Two limits of the embedding concern the characters of a text. The
    services never look at them, but PostgreSQL refuses a text, stored or
    compared, that holds U+0000, and the request then ends in a 500;
    [pg_text] says that a text is free of it. The validators compare names
    after [strip().lower()], which [strip] and [lower] follow on the ASCII
    range only; [ascii_text] says that a text stays within it, where
    Python's functions and the embedding's agree: white space is then the
    characters 9 to 13 and 28 to 32, and capitals are the letters A to Z. *)
Definition pg_text (s : string) : bool :=
  forallb (fun c => negb (Ascii.eqb c zero)) (list_ascii_of_string s).

Definition ascii_text (s : string) : bool :=
  forallb (fun c => (nat_of_ascii c <? 128)%nat) (list_ascii_of_string s).

Definition question_texts (q : QuestionUpdateNested) : list string :=
  question_text q :: map option_label (question_options q).

Definition scope_texts (s : ScopeUpdateNested) : list string :=
  scope_name s :: flat_map question_texts (scope_questions s).

Definition area_texts (a : AreaUpdateNested) : list string :=
  area_name a :: flat_map scope_texts (area_scopes a).

Definition payload_texts (p : TemplatePayload) : list string :=
  payload_name p :: flat_map area_texts (payload_areas p).

Definition given_text (x : option string) : list string :=
  match x with Some s => [s] | None => [] end.

Definition request_texts (req : WriteRequest) : list string :=
  match req with
  | ReqCreateTemplate p | ReqUpdateTemplate _ p | ReqCloneTemplate _ p =>
      payload_texts p
  | ReqCreateArea _ name _ | ReqCreateScope _ name => [name]
  | ReqUpdateArea _ name _ | ReqUpdateScope _ name => given_text name
  | ReqCreateQuestion _ p => question_texts p
  | ReqUpdateQuestion _ text _ _ => given_text text
  | ReqCreateOption _ label _ => [label]
  | ReqUpdateOption _ label _ => given_text label
  | ReqDeleteTemplate _ | ReqSeedDefaultTemplate | ReqDeleteArea _
  | ReqDeleteScope _ | ReqDeleteQuestion _ | ReqDeleteOption _ => []
  end.

(** Every text of the list can be stored. *)
Definition storable (texts : list string) : Prop :=
  forallb pg_text texts = true.

(** Every text of the list is ASCII. *)
Definition all_ascii (texts : list string) : Prop :=
  forallb ascii_text texts = true.

(** The node a request of the area or question service addresses is found
    active: the lookup its service method starts with. *)
Definition found {A} (o : option A) : bool :=
  match o with Some _ => true | None => false end.

Definition addressed_node_found (db : Store) (req : WriteRequest) : bool :=
  match req with
  | ReqCreateArea i _ _ => found (get_by_id db i)
  | ReqUpdateArea i _ _ | ReqDeleteArea i | ReqCreateScope i _ =>
      found (area_get_by_id db i)
  | ReqUpdateScope i _ | ReqDeleteScope i | ReqCreateQuestion i _ =>
      found (scope_get_by_id db i)
  | ReqUpdateQuestion i _ _ _ | ReqDeleteQuestion i | ReqCreateOption i _ _ =>
      found (question_get_by_id db i)
  | ReqUpdateOption i _ _ | ReqDeleteOption i => found (option_get_by_id db i)
  | _ => false
  end.

(** * Properties *)

(** ** Validation *)

Section ValidationFacts.

Lemma fold_left_add_acc (l : list Z) (a : Z) :
  fold_left Z.add l a = (a + Zsum l)%Z.
Proof.
  revert a; induction l as [|x l IH]; intro a; simpl.
  - lia.
  - rewrite IH. lia.
Qed.

Lemma sum_Z_fold_right (l : list Z) :
  Validator.sum_Z l = Zsum l.
Proof. unfold Validator.sum_Z. rewrite fold_left_add_acc. lia. Qed.

Lemma Zsum_app (l1 l2 : list Z) :
  Zsum (l1 ++ l2) = (Zsum l1 + Zsum l2)%Z.
Proof.
  induction l1 as [|x l1 IH]; simpl; [reflexivity | rewrite IH; lia].
Qed.

Lemma scopes_total_acc (scopes : list ScopeUpdateNested) (total : Z) :
  fold_left (fun total scope =>
      match scope_questions scope with
      | [] => total
      | questions => (total + Validator.sum_Z (map question_percentage questions))%Z
      end) scopes total
  = (total + Zsum (map question_percentage (flat_map scope_questions scopes)))%Z.
Proof.
  revert total; induction scopes as [|s scopes IH]; intro total; simpl.
  - lia.
  - rewrite IH, map_app, Zsum_app.
    destruct (scope_questions s) as [|q qs].
    + simpl. lia.
    + rewrite sum_Z_fold_right. simpl. lia.
Qed.

Lemma areas_total_acc (areas : list AreaUpdateNested) (total : Z) :
  fold_left (fun total area =>
      fold_left (fun total scope =>
          match scope_questions scope with
          | [] => total
          | questions => (total + Validator.sum_Z (map question_percentage questions))%Z
          end) (area_scopes area) total) areas total
  = (total + payload_percentage_sum areas)%Z.
Proof.
  unfold payload_percentage_sum, all_questions.
  revert total; induction areas as [|a areas IH]; intro total; simpl.
  - lia.
  - rewrite IH, scopes_total_acc, flat_map_app, map_app, Zsum_app. lia.
Qed.

Lemma scope_percentages_total_spec (areas : list AreaUpdateNested) :
  Validator.scope_percentages_total areas = payload_percentage_sum areas.
Proof.
  unfold Validator.scope_percentages_total. rewrite areas_total_acc. lia.
Qed.

Lemma validate_scope_percentages_fails (areas : list AreaUpdateNested) :
  payload_percentage_sum areas <> 100%Z ->
  Validator._validate_scope_percentages areas = inl Validator.percentage_error.
Proof.
  intro H. unfold Validator._validate_scope_percentages.
  rewrite scope_percentages_total_spec.
  destruct (Z.eqb_spec (payload_percentage_sum areas) 100); [contradiction | reflexivity].
Qed.

Lemma validate_scope_percentages_passes (areas : list AreaUpdateNested) :
  payload_percentage_sum areas = 100%Z ->
  Validator._validate_scope_percentages areas = ret tt.
Proof.
  intro H. unfold Validator._validate_scope_percentages.
  rewrite scope_percentages_total_spec, H. reflexivity.
Qed.

(** Every exception a validator raises is a 422. *)
Lemma for_each_status {A} (body : A -> M unit) (xs : list A) (n : nat) :
  (forall x e, In x xs -> body x = inl e -> status_code e = n) ->
  forall e, for_each body xs = inl e -> status_code e = n.
Proof.
  induction xs as [|x xs IH]; intros Hb e He; simpl in He.
  - discriminate.
  - unfold bind in He. destruct (body x) as [e'|[]] eqn:Ex.
    + inversion He; subst. eapply Hb; [left; reflexivity | exact Ex].
    + apply IH; [|exact He]. intros y e0 Hy. apply Hb. right; exact Hy.
Qed.

Lemma check_unique_status {A K} (eqb : K -> K -> bool) (key : A -> K)
    (err : A -> string) (items : list A) :
  forall seen e, Validator.check_unique eqb key err seen items = inl e ->
    status_code e = HTTP_422_UNPROCESSABLE_ENTITY.
Proof.
  induction items as [|x items IH]; intros seen e He; simpl in He.
  - discriminate.
  - destruct (existsb (eqb (key x)) seen).
    + inversion He; reflexivity.
    + eapply IH; exact He.
Qed.

Lemma validate_empty_status areas e :
  Validator._validate_empty_question_scopes_areas areas = inl e ->
  status_code e = HTTP_422_UNPROCESSABLE_ENTITY.
Proof.
  unfold Validator._validate_empty_question_scopes_areas.
  apply for_each_status. intros a e1 _.
  destruct (area_scopes a) as [|s ss]; [intro H; inversion H; reflexivity|].
  apply for_each_status. intros s1 e2 _.
  destruct (scope_questions s1) as [|q qs]; [intro H; inversion H; reflexivity|].
  apply for_each_status. intros q1 e3 _.
  destruct (question_options q1); intro H; inversion H; reflexivity.
Qed.

Lemma validate_all_status areas e :
  Validator.validate_all_constraints areas = inl e ->
  status_code e = HTTP_422_UNPROCESSABLE_ENTITY.
Proof.
  unfold Validator.validate_all_constraints, bind.
  destruct (Validator._validate_empty_question_scopes_areas areas) eqn:E1;
    [intro H; inversion H; subst; eapply validate_empty_status; exact E1|].
  destruct (Validator._validate_area_names areas) eqn:E2;
    [intro H; inversion H; subst; eapply check_unique_status; exact E2|].
  destruct (Validator._validate_scope_names areas) eqn:E3.
  { intro H; inversion H; subst. revert E3. apply for_each_status.
    intros; eapply check_unique_status; eassumption. }
  destruct (Validator._validate_question_names areas) eqn:E4.
  { intro H; inversion H; subst. revert E4.
    apply for_each_status; intros ? ? _. apply for_each_status.
    intros; eapply check_unique_status; eassumption. }
  destruct (Validator._validate_option_labels areas) eqn:E5.
  { intro H; inversion H; subst. revert E5.
    apply for_each_status; intros ? ? _. apply for_each_status; intros ? ? _.
    apply for_each_status. intros; eapply check_unique_status; eassumption. }
  destruct (Validator._validate_option_values areas) eqn:E6.
  { intro H; inversion H; subst. revert E6.
    apply for_each_status; intros ? ? _. apply for_each_status; intros ? ? _.
    apply for_each_status. intros; eapply check_unique_status; eassumption. }
  unfold Validator._validate_scope_percentages.
  destruct (Validator.scope_percentages_total areas =? 100)%Z;
    intro H; inversion H; reflexivity.
Qed.

(** A payload whose percentages do not add up never passes the block. *)
Lemma validate_all_rejects_bad_total areas :
  payload_percentage_sum areas <> 100%Z ->
  exists e, Validator.validate_all_constraints areas = inl e.
Proof.
  intro H. unfold Validator.validate_all_constraints, bind.
  repeat match goal with
         | |- context [match ?v areas with inl _ => _ | inr _ => _ end] =>
             destruct (v areas); [eexists; reflexivity|]
         end.
  rewrite validate_scope_percentages_fails by exact H. eexists; reflexivity.
Qed.

(** Each write operation is its guard, then the validation block, then the
    persisting part; an exception from the first two leaves the store as is. *)
Lemma create_template_rejected db p u e :
  (create_guard db p ;;; Validator.validate_all_constraints (payload_areas p)) = inl e ->
  create_template db p u = (inl e, db).
Proof. unfold create_template, create_guard. intros ->. reflexivity. Qed.

Lemma clone_template_rejected db tid p u e :
  (clone_guard db tid p ;;; Validator.validate_all_constraints (payload_areas p)) = inl e ->
  clone_template db tid p u = (inl e, db).
Proof.
  unfold clone_template, clone_guard.
  destruct (get_by_id db tid).
  - intros ->. reflexivity.
  - simpl. intro H; inversion H. reflexivity.
Qed.

Lemma update_template_rejected db tid p u e :
  (update_guard db tid p ;;; Validator.validate_all_constraints (payload_areas p)) = inl e ->
  update_template db tid p u = (inl e, db).
Proof.
  unfold update_template, update_guard.
  destruct (get_by_id_with_details db tid).
  - intros ->. reflexivity.
  - simpl. intro H; inversion H. reflexivity.
Qed.

Lemma guarded_block_fails (g : M unit) areas :
  (exists e, Validator.validate_all_constraints areas = inl e) ->
  exists e, (g ;;; Validator.validate_all_constraints areas) = inl e
            /\ (g = ret tt -> Validator.validate_all_constraints areas = inl e).
Proof.
  intros [e He]. destruct g as [e0|[]]; simpl.
  - exists e0. split; [reflexivity | discriminate].
  - exists e. split; [exact He | intros _; exact He].
Qed.

End ValidationFacts.

Lemma validate_all_is_first_failure (areas : list AreaUpdateNested) :
  Validator.validate_all_constraints areas = first_failure validators_in_order areas.
Proof.
  unfold Validator.validate_all_constraints, validators_in_order, bind; simpl.
  repeat match goal with
         | |- context [match ?v areas with inl _ => _ | inr _ => _ end] =>
             destruct (v areas) as [?|[]]; try reflexivity
         end.
Qed.

Lemma first_failure_split pre v post areas e :
  (forall w, In w pre -> w areas = ret tt) ->
  v areas = inl e ->
  first_failure (pre ++ v :: post) areas = inl e.
Proof.
  induction pre as [|w pre IH]; intros Hpre Hv; simpl.
  - rewrite Hv. reflexivity.
  - rewrite (Hpre w (or_introl eq_refl)). simpl.
    apply IH; [|exact Hv]. intros w' Hw'. apply Hpre. right; exact Hw'.
Qed.

Lemma guarded_block_surfaces (g : M unit) areas e :
  Validator.validate_all_constraints areas = inl e ->
  g = ret tt ->
  (g ;;; Validator.validate_all_constraints areas) = inl e.
Proof. intros He ->. exact He. Qed.

Lemma first_failure_app vs1 vs2 areas :
  first_failure (vs1 ++ vs2) areas
  = (first_failure vs1 areas ;;; first_failure vs2 areas).
Proof.
  induction vs1 as [|v vs1 IH]; simpl; [reflexivity|].
  destruct (v areas); [reflexivity | exact IH].
Qed.

Lemma validate_all_after_structure areas :
  first_failure (firstn 6 validators_in_order) areas = ret tt ->
  Validator.validate_all_constraints areas
  = Validator._validate_scope_percentages areas.
Proof.
  intro H. rewrite validate_all_is_first_failure.
  change validators_in_order
    with (firstn 6 validators_in_order ++ [Validator._validate_scope_percentages]).
  rewrite first_failure_app, H. simpl.
  destruct (Validator._validate_scope_percentages areas) as [e|[]]; reflexivity.
Qed.

Lemma reload_detail_error db template_id e :
  reload_detail db template_id = inl e ->
  status_code e = HTTP_500_INTERNAL_SERVER_ERROR.
Proof.
  unfold reload_detail. destruct (get_by_id_with_details db template_id).
  - discriminate.
  - intro H. inversion H. reflexivity.
Qed.

(** What each operation does once its guard and the validation block pass. *)
Lemma create_template_accepted db p u :
  create_guard db p = ret tt ->
  Validator.validate_all_constraints (payload_areas p) = ret tt ->
  create_template db p u
  = (reload_detail
       (snd (create_with_tree (payload_name p) (payload_areas p) u db))
       (fst (create_with_tree (payload_name p) (payload_areas p) u db)),
     snd (create_with_tree (payload_name p) (payload_areas p) u db)).
Proof.
  unfold create_template, create_guard. intros -> ->. simpl.
  destruct (create_with_tree (payload_name p) (payload_areas p) u db).
  reflexivity.
Qed.

Lemma clone_template_accepted db tid p u :
  clone_guard db tid p = ret tt ->
  Validator.validate_all_constraints (payload_areas p) = ret tt ->
  clone_template db tid p u
  = (reload_detail
       (snd (create_with_tree (payload_name p) (payload_areas p) u db))
       (fst (create_with_tree (payload_name p) (payload_areas p) u db)),
     snd (create_with_tree (payload_name p) (payload_areas p) u db)).
Proof.
  unfold clone_template, clone_guard. destruct (get_by_id db tid);
    [|discriminate].
  intros -> ->. simpl.
  destruct (create_with_tree (payload_name p) (payload_areas p) u db).
  reflexivity.
Qed.

Lemma update_template_accepted db tid p u :
  update_guard db tid p = ret tt ->
  Validator.validate_all_constraints (payload_areas p) = ret tt ->
  exists db', update_template db tid p u = (reload_detail db' tid, db').
Proof.
  unfold update_template, update_guard.
  destruct (get_by_id_with_details db tid); [|discriminate].
  intros -> ->. simpl. eexists. reflexivity.
Qed.

Lemma not_the_percentage_error (res : M TemplateDetailResponse) (db' db'' : Store) :
  (forall e, res = inl e -> status_code e = HTTP_500_INTERNAL_SERVER_ERROR) ->
  (res, db') <> (inl Validator.percentage_error, db'').
Proof.
  intros H Heq. inversion Heq; subst res.
  specialize (H _ eq_refl). discriminate.
Qed.

(** C3. The percentage validator raises its 422 exactly when the sum of
    [percentage] over all questions of all scopes of all areas is not 100
    (a scope without questions adds nothing). A create, update or clone
    whose payload has such a sum is rejected and leaves the store as it
    was, with a 422 whenever the request gets past the lookups that precede
    the validation block. For a request that passes those lookups and the
    six structural validators, the operation is rejected with the 422 of
    the percentage check if and only if the sum is not 100. *)
Theorem percentage_total_enforced (areas : list AreaUpdateNested) :
  (Validator._validate_scope_percentages areas = inl Validator.percentage_error
   <-> payload_percentage_sum areas <> 100%Z) /\
  (Validator._validate_scope_percentages areas = ret tt
   <-> payload_percentage_sum areas = 100%Z) /\
  (payload_percentage_sum areas <> 100%Z ->
   forall (db : Store) (name : string) (u : option nat) (tid : nat),
     let p := {| payload_name := name; payload_areas := areas |} in
     (exists e, create_template db p u = (inl e, db)
                /\ (create_guard db p = ret tt
                    -> status_code e = HTTP_422_UNPROCESSABLE_ENTITY)) /\
     (exists e, update_template db tid p u = (inl e, db)
                /\ (update_guard db tid p = ret tt
                    -> status_code e = HTTP_422_UNPROCESSABLE_ENTITY)) /\
     (exists e, clone_template db tid p u = (inl e, db)
                /\ (clone_guard db tid p = ret tt
                    -> status_code e = HTTP_422_UNPROCESSABLE_ENTITY))) /\
  (first_failure (firstn 6 validators_in_order) areas = ret tt ->
   forall (db : Store) (name : string) (u : option nat) (tid : nat),
     let p := {| payload_name := name; payload_areas := areas |} in
     (create_guard db p = ret tt ->
      (create_template db p u = (inl Validator.percentage_error, db)
       <-> payload_percentage_sum areas <> 100%Z)) /\
     (update_guard db tid p = ret tt ->
      (update_template db tid p u = (inl Validator.percentage_error, db)
       <-> payload_percentage_sum areas <> 100%Z)) /\
     (clone_guard db tid p = ret tt ->
      (clone_template db tid p u = (inl Validator.percentage_error, db)
       <-> payload_percentage_sum areas <> 100%Z))).
Proof.
  assert (Hdec : payload_percentage_sum areas = 100%Z
                 \/ payload_percentage_sum areas <> 100%Z) by lia.
  split; [|split; [|split]].
  - split.
    + intros H Heq. rewrite (validate_scope_percentages_passes _ Heq) in H.
      discriminate.
    + apply validate_scope_percentages_fails.
  - split.
    + intro H. destruct Hdec as [Heq|Hne]; [exact Heq|].
      rewrite (validate_scope_percentages_fails _ Hne) in H. discriminate.
    + apply validate_scope_percentages_passes.
  - intros Hne db name u tid p.
    pose proof (validate_all_rejects_bad_total areas Hne) as Hrej.
    repeat split.
    + destruct (guarded_block_fails (create_guard db p) areas Hrej) as [e [He Hg]].
      exists e. split; [apply create_template_rejected; exact He|].
      intro G. eapply validate_all_status. apply Hg; exact G.
    + destruct (guarded_block_fails (update_guard db tid p) areas Hrej) as [e [He Hg]].
      exists e. split; [apply update_template_rejected; exact He|].
      intro G. eapply validate_all_status. apply Hg; exact G.
    + destruct (guarded_block_fails (clone_guard db tid p) areas Hrej) as [e [He Hg]].
      exists e. split; [apply clone_template_rejected; exact He|].
      intro G. eapply validate_all_status. apply Hg; exact G.
  - intros Hstruct db name u tid p.
    pose proof (validate_all_after_structure areas Hstruct) as Hall.
    assert (Hbad : payload_percentage_sum areas <> 100%Z ->
                   Validator.validate_all_constraints areas
                   = inl Validator.percentage_error).
    { intro Hne. rewrite Hall. apply validate_scope_percentages_fails; exact Hne. }
    assert (Hgood : payload_percentage_sum areas = 100%Z ->
                    Validator.validate_all_constraints areas = ret tt).
    { intro Heq. rewrite Hall. apply validate_scope_percentages_passes; exact Heq. }
    repeat split.
    + intros Hres Heq.
      rewrite (create_template_accepted db p u H (Hgood Heq)) in Hres.
      revert Hres. apply not_the_percentage_error. apply reload_detail_error.
    + intro Hne. apply create_template_rejected, guarded_block_surfaces; auto.
    + intros Hres Heq.
      destruct (update_template_accepted db tid p u H (Hgood Heq)) as [db' Hacc].
      rewrite Hacc in Hres.
      revert Hres. apply not_the_percentage_error. apply reload_detail_error.
    + intro Hne. apply update_template_rejected, guarded_block_surfaces; auto.
    + intros Hres Heq.
      rewrite (clone_template_accepted db tid p u H (Hgood Heq)) in Hres.
      revert Hres. apply not_the_percentage_error. apply reload_detail_error.
    + intro Hne. apply clone_template_rejected, guarded_block_surfaces; auto.
Qed.

Lemma percentage_total_enforced_witness :
  payload_percentage_sum two_quality_areas <> 100%Z /\
  (exists e,
     create_template empty_store
       {| payload_name := "T"; payload_areas := two_quality_areas |} None
     = (inl e, empty_store)) /\
  (create_template empty_store
     {| payload_name := "T"; payload_areas := [sample_area "A" 100 40] |} None
   = (inl Validator.percentage_error, empty_store)
   <-> payload_percentage_sum [sample_area "A" 100 40] <> 100%Z).
Proof.
  assert (H : payload_percentage_sum two_quality_areas <> 100%Z)
    by (vm_compute; discriminate).
  split; [exact H|]. split.
  - destruct (proj1 (proj2 (proj2 (percentage_total_enforced two_quality_areas))) H
                empty_store "T"%string None 1) as [[e [He _]] _].
    exists e. exact He.
  - refine (proj1 (proj2 (proj2 (proj2
              (percentage_total_enforced [sample_area "A" 100 40]))) eq_refl
              empty_store "T"%string None 1) eq_refl).
Defined.

(** Inside a validator, a loop surfaces the exception of the first element
    whose body raises and does not look at the elements after it. *)
Lemma for_each_stops_at_first {A} (body : A -> M unit) (xs ys : list A)
    (x : A) (e : HTTPException) :
  (forall y, In y xs -> body y = ret tt) ->
  body x = inl e ->
  for_each body (xs ++ x :: ys) = inl e.
Proof.
  induction xs as [|y xs IH]; intros Hxs Hx; simpl.
  - rewrite Hx. reflexivity.
  - rewrite (Hxs y (or_introl eq_refl)). simpl.
    apply IH; [|exact Hx]. intros z Hz. apply Hxs. right; exact Hz.
Qed.

(** C7. The validation block of create, update and clone runs the
    validators in the order non-empty, area names, scope names, question
    names, option labels, option values, percentage total: when the
    validators before one stage pass and that stage raises, its exception
    is the one the block and the operation surface, whatever the later
    stages would have said. *)
Theorem validators_run_in_order (areas : list AreaUpdateNested)
    (pre post : list (list AreaUpdateNested -> M unit))
    (v : list AreaUpdateNested -> M unit) (e : HTTPException) :
  validators_in_order = pre ++ v :: post ->
  (forall w, In w pre -> w areas = ret tt) ->
  v areas = inl e ->
  Validator.validate_all_constraints areas = inl e /\
  forall (db : Store) (name : string) (u : option nat) (tid : nat),
    let p := {| payload_name := name; payload_areas := areas |} in
    (create_guard db p = ret tt -> create_template db p u = (inl e, db)) /\
    (update_guard db tid p = ret tt -> update_template db tid p u = (inl e, db)) /\
    (clone_guard db tid p = ret tt -> clone_template db tid p u = (inl e, db)).
Proof.
  intros Hsplit Hpre Hv.
  assert (Hall : Validator.validate_all_constraints areas = inl e).
  { rewrite validate_all_is_first_failure, Hsplit.
    apply first_failure_split; assumption. }
  split; [exact Hall|].
  intros db name u tid p. repeat split; intro G.
  - apply create_template_rejected, guarded_block_surfaces; assumption.
  - apply update_template_rejected, guarded_block_surfaces; assumption.
  - apply clone_template_rejected, guarded_block_surfaces; assumption.
Qed.

Lemma validators_run_in_order_witness :
  Validator.validate_all_constraints two_quality_areas
  = inl {| status_code := 422; detail := "Duplicate area name: 'quality '" |}
  /\ Validator._validate_scope_percentages two_quality_areas
     = inl Validator.percentage_error.
Proof.
  split; [|reflexivity].
  refine (proj1 (validators_run_in_order two_quality_areas
            [Validator._validate_empty_question_scopes_areas]
            [Validator._validate_scope_names;
             Validator._validate_question_names;
             Validator._validate_option_labels;
             Validator._validate_option_values;
             Validator._validate_scope_percentages]
            Validator._validate_area_names _ eq_refl _ eq_refl)).
  intros w [<-|[]]. reflexivity.
Defined.

(** C10. With an empty [areas] list the six structural validators pass
    vacuously and the percentage check raises its 422 on the sum 0;
    create and clone therefore never succeed and persist nothing, and the
    422 is what a request that gets past the preceding lookups receives. *)
Theorem empty_areas_rejected (db : Store) (name : string) (u : option nat)
    (source_id : nat) :
  let p := {| payload_name := name; payload_areas := [] |} in
  first_failure (firstn 6 validators_in_order) [] = ret tt /\
  Validator._validate_scope_percentages [] = inl Validator.percentage_error /\
  status_code Validator.percentage_error = 422 /\
  (exists e, create_template db p u = (inl e, db)) /\
  (exists e, clone_template db source_id p u = (inl e, db)) /\
  (create_guard db p = ret tt ->
   create_template db p u = (inl Validator.percentage_error, db)) /\
  (clone_guard db source_id p = ret tt ->
   clone_template db source_id p u = (inl Validator.percentage_error, db)).
Proof.
  intro p. repeat split.
  - destruct (guarded_block_fails (create_guard db p) []
                (ex_intro _ _ eq_refl)) as [e [He _]].
    exists e. apply create_template_rejected. exact He.
  - destruct (guarded_block_fails (clone_guard db source_id p) []
                (ex_intro _ _ eq_refl)) as [e [He _]].
    exists e. apply clone_template_rejected. exact He.
  - intro Hc. apply create_template_rejected. rewrite Hc. reflexivity.
  - intro Hk. apply clone_template_rejected. rewrite Hk. reflexivity.
Qed.

Lemma empty_areas_rejected_witness :
  create_template round_trip_store
    {| payload_name := "Empty"; payload_areas := [] |} None
  = (inl Validator.percentage_error, round_trip_store)
  /\ clone_template round_trip_store 1
       {| payload_name := "Empty"; payload_areas := [] |} None
     = (inl Validator.percentage_error, round_trip_store).
Proof.
  pose proof (empty_areas_rejected round_trip_store "Empty"%string None 1) as H.
  cbv zeta in H.
  destruct H as (_ & _ & _ & _ & _ & Hc & Hk).
  split; [apply Hc | apply Hk]; reflexivity.
Defined.

(** ** Name lookup, detail reads and the standalone deletes *)

Section Lookups.

Lemma filter_none {A} (f : A -> bool) (l : list A) :
  (forall x, In x l -> f x = false) -> filter f l = [].
Proof.
  induction l as [|x l IH]; intro H; simpl; [reflexivity|].
  rewrite (H x (or_introl eq_refl)). apply IH.
  intros y Hy. apply H. right; exact Hy.
Qed.

Lemma find_app_skip {A} (f : A -> bool) (l1 l2 : list A) :
  (forall x, In x l1 -> f x = false) -> find f (l1 ++ l2) = find f l2.
Proof.
  induction l1 as [|x l1 IH]; intro H; simpl; [reflexivity|].
  rewrite (H x (or_introl eq_refl)). apply IH.
  intros y Hy. apply H. right; exact Hy.
Qed.

Lemma named_active_iff name t :
  named_active name t = true
  <-> col_template_name (cols t) = name /\ isactive t = true.
Proof.
  unfold named_active. rewrite andb_true_iff, String.eqb_eq. reflexivity.
Qed.

Lemma unique_name_filter (name : string) (l : list AuditTemplate) (t : AuditTemplate) :
  NoDup (map (fun t => col_template_name (cols t)) (filter isactive l)) ->
  In t l -> isactive t = true -> col_template_name (cols t) = name ->
  filter (named_active name) l = [t].
Proof.
  induction l as [|x l IH]; intros Hnd Hin Hact Hname; [destruct Hin|].
  simpl in Hnd |- *. destruct (isactive x) eqn:Ex.
  - simpl in Hnd. inversion Hnd as [|n ns Hnotin Hnd']; subst n ns.
    destruct (String.eqb_spec (col_template_name (cols x)) name) as [Hx|Hx].
    + assert (Hrest : forall y, In y l -> named_active name y = false).
      { intros y Hy. destruct (named_active name y) eqn:Ey; [|reflexivity].
        apply named_active_iff in Ey. destruct Ey as [Hyn Hya].
        exfalso. apply Hnotin. rewrite Hx, <- Hyn.
        apply (in_map (fun t => col_template_name (cols t))).
        apply filter_In. split; assumption. }
      unfold named_active at 1. rewrite Ex.
      destruct (String.eqb_spec (col_template_name (cols x)) name); [|contradiction].
      simpl. rewrite (filter_none _ _ Hrest).
      destruct Hin as [->|Hin]; [reflexivity|].
      specialize (Hrest t Hin).
      assert (named_active name t = true) by (apply named_active_iff; split; assumption).
      congruence.
    + unfold named_active at 1.
      destruct (String.eqb_spec (col_template_name (cols x)) name); [contradiction|].
      simpl. destruct Hin as [->|Hin]; [contradiction|].
      apply IH; assumption.
  - unfold named_active at 1. rewrite Ex, andb_false_r.
    destruct Hin as [->|Hin]; [congruence|].
    apply IH; assumption.
Qed.

Lemma get_by_name_unique db name t :
  unique_active_names db ->
  In t (audit_templates db) -> isactive t = true ->
  col_template_name (cols t) = name ->
  get_by_name db name = ret (Some t).
Proof.
  intros Hu Hin Hact Hname. unfold get_by_name.
  rewrite (unique_name_filter name _ t Hu Hin Hact Hname). reflexivity.
Qed.

Lemma get_by_name_total db name :
  unique_active_names db -> exists o, get_by_name db name = ret o.
Proof.
  intro Hu. unfold get_by_name.
  destruct (filter (named_active name) (audit_templates db)) as [|t [|t' l]] eqn:E.
  - eexists; reflexivity.
  - eexists; reflexivity.
  - exfalso.
    assert (Ht : In t (filter (named_active name) (audit_templates db)))
      by (rewrite E; left; reflexivity).
    apply filter_In in Ht. destruct Ht as [Hin Hna].
    apply named_active_iff in Hna. destruct Hna as [Hn Ha].
    rewrite (unique_name_filter name _ t Hu Hin Ha Hn) in E. discriminate.
Qed.

Lemma get_by_name_some db name t :
  get_by_name db name = ret (Some t) ->
  In t (audit_templates db) /\ isactive t = true
  /\ col_template_name (cols t) = name.
Proof.
  unfold get_by_name.
  destruct (filter _ (audit_templates db)) as [|x [|y l]] eqn:E; try discriminate.
  intro H. inversion H; subst x.
  assert (Ht : In t (filter (named_active name) (audit_templates db)))
    by (rewrite E; left; reflexivity).
  apply filter_In in Ht. destruct Ht as [Hin Hna].
  apply named_active_iff in Hna. tauto.
Qed.

(** The detail read answers 404 only when no row at all carries the id. *)
Lemma get_template_detail_not_found db template_id :
  (exists e, get_template_detail db template_id = inl e)
  <-> (forall t, In t (audit_templates db) -> row_id t <> template_id).
Proof.
  unfold get_template_detail, get_by_id_with_details.
  destruct (find (fun t => (row_id t =? template_id)%nat) (audit_templates db))
    as [t|] eqn:E; split.
  - intros [e He]. discriminate.
  - intro H. apply find_some in E. destruct E as [Hin Hid].
    apply Nat.eqb_eq in Hid. exfalso. exact (H t Hin Hid).
  - intros _ t Hin Hid.
    pose proof (find_none _ (audit_templates db) E t Hin) as Hf. simpl in Hf.
    apply Nat.eqb_neq in Hf. contradiction.
  - intros _. eexists; reflexivity.
Qed.

(** The standalone deletes touch the row they are given and nothing below it. *)
Lemma delete_template_frame db template_id u :
  let db' := snd (delete_template db template_id u) in
  audit_areas db' = audit_areas db /\ audit_scopes db' = audit_scopes db
  /\ audit_questions db' = audit_questions db
  /\ audit_question_options db' = audit_question_options db.
Proof.
  unfold delete_template. destruct (get_by_id db template_id); simpl; auto.
Qed.

Lemma delete_area_frame db area_id u :
  let db' := snd (delete_area db area_id u) in
  audit_scopes db' = audit_scopes db
  /\ audit_questions db' = audit_questions db
  /\ audit_question_options db' = audit_question_options db.
Proof.
  unfold delete_area. destruct (area_get_by_id db area_id); simpl; auto.
Qed.

End Lookups.

(** C4, as the code has it: the name lookup compares with [==], so a
    request is rejected with 409 when its name is equal, character for
    character, to the name of an active template (the active names being
    pairwise distinct, as the name check keeps them). *)
Theorem name_conflict_on_equal_name (db : Store) (p : TemplatePayload)
    (u : option nat) (t : AuditTemplate) :
  unique_active_names db ->
  In t (audit_templates db) ->
  isactive t = true ->
  col_template_name (cols t) = payload_name p ->
  create_template db p u = (inl (name_conflict (payload_name p)), db) /\
  (forall source_id, get_by_id db source_id <> None ->
     clone_template db source_id p u = (inl (name_conflict (payload_name p)), db)) /\
  (forall template_id template,
     get_by_id_with_details db template_id = Some template ->
     col_template_name (cols (lt_row template)) <> payload_name p ->
     update_template db template_id p u
     = (inl (name_conflict (payload_name p)), db)).
Proof.
  intros Hu Hin Hact Hname.
  assert (Hfree : check_name_free db (payload_name p)
                  = inl (name_conflict (payload_name p))).
  { unfold check_name_free.
    rewrite (get_by_name_unique db (payload_name p) t Hu Hin Hact Hname).
    reflexivity. }
  repeat split.
  - apply create_template_rejected. unfold create_guard. rewrite Hfree. reflexivity.
  - intros source_id Hsrc. apply clone_template_rejected. unfold clone_guard.
    destruct (get_by_id db source_id); [|contradiction].
    rewrite Hfree. reflexivity.
  - intros template_id template Hload Hdiff.
    apply update_template_rejected. unfold update_guard. rewrite Hload.
    unfold check_name_change.
    destruct (String.eqb_spec (payload_name p)
                (col_template_name (cols (lt_row template)))) as [Heq|_].
    + symmetry in Heq. contradiction.
    + rewrite Hfree. reflexivity.
Qed.

Lemma name_conflict_on_equal_name_witness :
  create_template round_trip_store (round_trip_payload "T") None
  = (inl (name_conflict "T"), round_trip_store).
Proof.
  refine (proj1 (name_conflict_on_equal_name round_trip_store
            (round_trip_payload "T") None
            (new_row 1 {| col_template_name := "T" |} (Some 7%nat)) _ _ _ _)).
  - unfold unique_active_names. vm_compute.
    constructor; [intros []|constructor].
  - vm_compute. left; reflexivity.
  - reflexivity.
  - reflexivity.
Defined.

(** C4, counterexample: template "T" is active, and a create request named
    "t" is accepted. *)
Lemma create_template_name_is_case_sensitive :
  (exists t, In t (audit_templates round_trip_store) /\ isactive t = true
             /\ lower (col_template_name (cols t)) = lower "t") /\
  exists r db',
    create_template round_trip_store (round_trip_payload "t") None = (inr r, db')
    /\ resp_name r = "t"%string.
Proof.
  split.
  - exists (new_row 1 {| col_template_name := "T" |} (Some 7%nat)).
    vm_compute. repeat split. left; reflexivity.
  - vm_compute. do 2 eexists. split; reflexivity.
Qed.

(** C5. Template 1 of the round-trip store has been soft-deleted: the
    active-row lookup no longer finds it, yet the detail read returns its
    tree and [update_template] goes on to update it. *)
Theorem detail_of_soft_deleted_template :
  get_by_id deleted_template_store 1 = None /\
  (exists r, get_template_detail deleted_template_store 1 = inr r
             /\ resp_isactive r = false /\ List.length (resp_areas r) = 1%nat) /\
  (exists r db',
     update_template deleted_template_store 1 (round_trip_payload "T") None
     = (inr r, db')).
Proof.
  split; [reflexivity|]. split.
  - vm_compute. eexists. repeat split.
  - vm_compute. do 2 eexists. reflexivity.
Qed.

(** C6. [delete_template] on template 1 of the round-trip store and
    [delete_area] on its area 2 succeed and leave every row below the
    deleted one active. *)
Theorem standalone_delete_does_not_cascade :
  fst (delete_template round_trip_store 1 (Some 7%nat)) = ret tt /\
  get_by_id deleted_template_store 1 = None /\
  map isactive (audit_areas deleted_template_store) = [true] /\
  map isactive (audit_scopes deleted_template_store) = [true] /\
  map isactive (audit_questions deleted_template_store) = [true] /\
  map isactive (audit_question_options deleted_template_store) = [true; true] /\
  fst (delete_area round_trip_store 2 (Some 7%nat)) = ret tt /\
  area_get_by_id deleted_area_store 2 = None /\
  map isactive (audit_scopes deleted_area_store) = [true] /\
  map isactive (audit_questions deleted_area_store) = [true] /\
  map isactive (audit_question_options deleted_area_store) = [true; true].
Proof. vm_compute. repeat split. Qed.

(** ** Creation followed by a detail read *)

Section ReadBack.

Lemma rows_below_In {F} (parent : F -> nat) (n : nat) (t : list (Row F)) (r : Row F) :
  rows_below parent n t = true -> In r t ->
  (row_id r < n)%nat /\ (parent (cols r) < n)%nat.
Proof.
  unfold rows_below. intros H Hin.
  rewrite forallb_forall in H. specialize (H r Hin).
  apply andb_true_iff in H. destruct H as [H1 H2].
  apply Nat.ltb_lt in H1. apply Nat.ltb_lt in H2. split; assumption.
Qed.

Lemma db_wf_tables db :
  db_wf db ->
  rows_below (fun _ => 0%nat) (next_id db) (audit_templates db) = true
  /\ rows_below col_template_id (next_id db) (audit_areas db) = true
  /\ rows_below col_area_id (next_id db) (audit_scopes db) = true
  /\ rows_below col_scope_id (next_id db) (audit_questions db) = true
  /\ rows_below col_question_id (next_id db) (audit_question_options db) = true.
Proof.
  unfold db_wf, db_wfb. rewrite !andb_true_iff. tauto.
Qed.

Lemma no_children_of_fresh {F} (parent : F -> nat) (n k : nat) (t : list (Row F)) :
  rows_below parent n t = true -> (n <= k)%nat ->
  filter (fun r => (parent (cols r) =? k)%nat && isactive r) t = [].
Proof.
  intros H Hk. apply filter_none. intros r Hin.
  destruct (rows_below_In parent n t r H Hin) as [_ Hp].
  destruct (Nat.eqb_spec (parent (cols r)) k); [lia | reflexivity].
Qed.

Lemma no_row_of_fresh {F} (parent : F -> nat) (n k : nat) (t : list (Row F)) :
  rows_below parent n t = true -> (n <= k)%nat ->
  forall r, In r t -> (row_id r =? k)%nat = false.
Proof.
  intros H Hk r Hin.
  destruct (rows_below_In parent n t r H Hin) as [Hr _].
  destruct (Nat.eqb_spec (row_id r) k); [lia | reflexivity].
Qed.

Ltac read_back Ha Hs Hq Ho :=
  repeat (progress (
    rewrite ?filter_app;
    rewrite ?(no_children_of_fresh _ _ _ _ Ha) by lia;
    rewrite ?(no_children_of_fresh _ _ _ _ Hs) by lia;
    rewrite ?(no_children_of_fresh _ _ _ _ Hq) by lia;
    rewrite ?(no_children_of_fresh _ _ _ _ Ho) by lia;
    cbn; rewrite ?Nat.eqb_refl; cbn)).

Lemma round_trip_read_back db name u :
  db_wf db ->
  let n := next_id db in
  exists db',
    create_with_tree name [sample_area "A" 100 100] u db = (n, db') /\
    reload_detail db' n = ret (
      {| resp_id := n; resp_name := name; resp_isactive := true;
         resp_areas := [
           {| resp_area_id := S n; resp_area_template_id := n;
              resp_area_name := "A"; resp_weightage := 100;
              resp_scopes := [
                {| resp_scope_id := S (S n); resp_scope_area_id := S n;
                   resp_scope_name := "S";
                   resp_questions := [
                     {| resp_question_id := S (S (S n));
                        resp_question_scope_id := S (S n);
                        resp_text := "Q"; resp_percentage := 100;
                        resp_is_mandatory := true;
                        resp_options := [
                          {| resp_option_id := S (S (S (S n)));
                             resp_option_question_id := S (S (S n));
                             resp_label := "Yes"; resp_value := 1 |};
                          {| resp_option_id := S (S (S (S (S n))));
                             resp_option_question_id := S (S (S n));
                             resp_label := "No"; resp_value := 0 |} ] |} ];
                   total_percentage := 100 |} ] |} ];
         total_weightage := 100 |}).
Proof.
  intros Hwf n.
  destruct (db_wf_tables db Hwf) as (Ht & Ha & Hs & Hq & Ho).
  eexists. split; [reflexivity|].
  unfold reload_detail, get_by_id_with_details. subst n. cbn.
  rewrite find_app_skip
    by (apply (no_row_of_fresh _ _ _ _ Ht); apply Nat.le_refl).
  cbn. rewrite Nat.eqb_refl.
  read_back Ha Hs Hq Ho.
  reflexivity.
Qed.

Lemma seed_read_back db u :
  db_wf db ->
  exists db',
    create_with_tree DEFAULT_TEMPLATE_NAME DEFAULT_AREAS u db = (next_id db, db') /\
    audit_templates db'
    = audit_templates db
      ++ [new_row (next_id db) {| col_template_name := DEFAULT_TEMPLATE_NAME |} u] /\
    reload_detail db' (next_id db) = ret (default_template_response (next_id db)).
Proof.
  intros Hwf.
  destruct (db_wf_tables db Hwf) as (Ht & Ha & Hs & Hq & Ho).
  eexists. split; [reflexivity|]. split; [reflexivity|].
  unfold reload_detail, get_by_id_with_details. cbn.
  rewrite find_app_skip
    by (apply (no_row_of_fresh _ _ _ _ Ht); apply Nat.le_refl).
  cbn. rewrite Nat.eqb_refl.
  read_back Ha Hs Hq Ho.
  reflexivity.
Qed.

Lemma reload_detail_is_detail db template_id r :
  reload_detail db template_id = ret r ->
  get_template_detail db template_id = ret r.
Proof.
  unfold reload_detail, get_template_detail.
  destruct (get_by_id_with_details db template_id); [tauto | discriminate].
Qed.

Lemma py_sum_Zsum (l : list Z) : py_sum l = Zsum l.
Proof. unfold py_sum. rewrite fold_left_add_acc. lia. Qed.

Lemma get_by_name_none db name :
  get_by_name db name = ret None ->
  filter (named_active name) (audit_templates db) = [].
Proof.
  unfold get_by_name.
  destruct (filter (named_active name) (audit_templates db)) as [|x [|y l]];
    [reflexivity | discriminate | discriminate].
Qed.

Lemma find_by_id_present (l : list AuditTemplate) (t : AuditTemplate) :
  In t l ->
  exists x, find (fun x => (row_id x =? row_id t)%nat) l = Some x
            /\ row_id x = row_id t.
Proof.
  intro Hin.
  destruct (find (fun x => (row_id x =? row_id t)%nat) l) as [x|] eqn:E.
  - exists x. split; [reflexivity|].
    apply find_some in E. apply Nat.eqb_eq. exact (proj2 E).
  - pose proof (find_none _ l E t Hin) as H. simpl in H.
    rewrite Nat.eqb_refl in H. discriminate.
Qed.

End ReadBack.

(** C9. The totals of a detail response are sums over the rows the read
    loads: [total_weightage] over the active areas of the template and each
    scope's [total_percentage] over the active questions of that scope; no
    table holds them. Creating the round-trip template and reading its
    detail therefore yields 100 for both. *)
Theorem totals_derived_at_read_time :
  (forall db template_id r,
     get_template_detail db template_id = inr r ->
     total_weightage r
     = Zsum (map (fun a => col_weightage (cols a)) (active_areas_of db template_id))
     /\ forall a s,
          In a (resp_areas r) -> In s (resp_scopes a) ->
          total_percentage s
          = Zsum (map (fun q => col_percentage (cols q))
                    (active_questions_of db (resp_scope_id s)))) /\
  (forall db name u,
     db_wf db ->
     create_guard db (round_trip_payload name) = ret tt ->
     exists r db',
       create_template db (round_trip_payload name) u = (inr r, db')
       /\ get_template_detail db' (resp_id r) = inr r
       /\ total_weightage r = 100%Z
       /\ exists a s, resp_areas r = [a] /\ resp_scopes a = [s]
                      /\ total_percentage s = 100%Z).
Proof.
  split.
  - intros db template_id r. unfold get_template_detail, get_by_id_with_details.
    destruct (find (fun t => (row_id t =? template_id)%nat) (audit_templates db))
      as [t|]; [|discriminate].
    intro H. inversion H; subst r; clear H. simpl. split.
    + unfold _compute_total_weightage, load_areas, active_areas_of.
      rewrite py_sum_Zsum, map_map. reflexivity.
    + intros a s Ha Hs.
      apply in_map_iff in Ha. destruct Ha as [la [<- Hla]]. simpl in Hs.
      apply in_map_iff in Hs. destruct Hs as [ls [<- Hls]].
      unfold load_areas in Hla. apply in_map_iff in Hla.
      destruct Hla as [arow [<- _]]. simpl in Hls.
      unfold load_scopes in Hls. apply in_map_iff in Hls.
      destruct Hls as [srow [<- _]]. simpl.
      unfold load_questions, active_questions_of.
      rewrite py_sum_Zsum, map_map. reflexivity.
  - intros db name u Hwf Hguard.
    destruct (round_trip_read_back db name u Hwf) as [db' [Hcreate Hread]].
    unfold create_template. unfold create_guard in Hguard. rewrite Hguard.
    change (payload_areas (round_trip_payload name)) with [sample_area "A" 100 100].
    change (payload_name (round_trip_payload name)) with name.
    replace (ret tt;;; Validator.validate_all_constraints [sample_area "A" 100 100])
      with (@inr HTTPException unit tt) by reflexivity.
    rewrite Hcreate, Hread. do 2 eexists.
    split; [reflexivity|]. simpl. split.
    + apply reload_detail_is_detail. exact Hread.
    + split; [reflexivity|]. do 2 eexists. repeat split.
Qed.

Lemma totals_derived_at_read_time_witness :
  exists r db',
    create_template empty_store (round_trip_payload "T") None = (inr r, db')
    /\ get_template_detail db' (resp_id r) = inr r
    /\ total_weightage r = 100%Z
    /\ exists a s, resp_areas r = [a] /\ resp_scopes a = [s]
                   /\ total_percentage s = 100%Z.
Proof.
  apply (proj2 totals_derived_at_read_time empty_store "T"%string None);
    reflexivity.
Defined.

Lemma seed_tables db u :
  let db' := snd (create_with_tree DEFAULT_TEMPLATE_NAME DEFAULT_AREAS u db) in
  audit_areas db' = audit_areas db ++ default_area_rows (next_id db) u
  /\ audit_scopes db' = audit_scopes db
  /\ audit_questions db' = audit_questions db
  /\ audit_question_options db' = audit_question_options db.
Proof.
  cbn. rewrite <- !app_assoc. repeat split.
Qed.

(** C8. Seeding is idempotent. On a store with pairwise distinct active
    names the first call succeeds, what it answers is the detail read of the
    store it leaves, in which the default name resolves to the template
    answered, and a second call returns the same response and changes
    nothing. If an active template with the default name exists it is the
    one returned and the store is left as it is; otherwise a template is
    created: the store gains one template row of that name under the next
    key and the five default area rows under it, each of weightage 20, no
    scope, question or option, and the response shows exactly that. *)
Theorem seed_default_template_idempotent (db : Store) (u1 u2 : option nat) :
  db_wf db ->
  unique_active_names db ->
  exists r db1,
    seed_default_template db u1 = (inr r, db1) /\
    seed_default_template db1 u2 = (inr r, db1) /\
    get_template_detail db1 (resp_id r) = inr r /\
    (exists t, get_by_name db1 DEFAULT_TEMPLATE_NAME = ret (Some t)
               /\ row_id t = resp_id r) /\
    (forall t, get_by_name db DEFAULT_TEMPLATE_NAME = ret (Some t) ->
               db1 = db /\ resp_id r = row_id t) /\
    (get_by_name db DEFAULT_TEMPLATE_NAME = ret None ->
     r = default_template_response (next_id db)
     /\ audit_templates db1
        = audit_templates db
          ++ [new_row (next_id db) {| col_template_name := DEFAULT_TEMPLATE_NAME |} u1]
     /\ audit_areas db1 = audit_areas db ++ default_area_rows (next_id db) u1
     /\ audit_scopes db1 = audit_scopes db
     /\ audit_questions db1 = audit_questions db
     /\ audit_question_options db1 = audit_question_options db).
Proof.
  intros Hwf Hu.
  destruct (get_by_name_total db DEFAULT_TEMPLATE_NAME Hu) as [[t|] Hlook].
  - destruct (get_by_name_some _ _ _ Hlook) as [Hin _].
    destruct (find_by_id_present _ t Hin) as [x [Hfind Hid]].
    assert (Hseed : forall u, seed_default_template db u
                    = (inr (_template_to_detail_response
                             {| lt_row := x; lt_areas := load_areas db (row_id t) |}), db)).
    { intro u. unfold seed_default_template. rewrite Hlook.
      unfold ret, reload_detail, get_by_id_with_details. cbv iota beta.
      rewrite Hfind. reflexivity. }
    do 2 eexists. split; [apply Hseed|]. split; [apply Hseed|].
    split; [|split; [|split]].
    + unfold get_template_detail, get_by_id_with_details. simpl.
      rewrite Hid, Hfind. reflexivity.
    + exists t. split; [exact Hlook|]. simpl. symmetry. exact Hid.
    + intros t' Ht'. rewrite Hlook in Ht'. inversion Ht'; subst t'.
      split; [reflexivity | exact Hid].
    + intro Hnone. rewrite Hlook in Hnone. discriminate.
  - destruct (seed_read_back db u1 Hwf) as [db' [Hcreate [Htemplates Hread]]].
    pose proof (seed_tables db u1) as Htables. rewrite Hcreate in Htables.
    cbn [snd] in Htables.
    exists (default_template_response (next_id db)), db'.
    split; [|split; [|split; [|split; [|split]]]].
    + unfold seed_default_template. rewrite Hlook, Hcreate, Hread. reflexivity.
    + unfold seed_default_template, get_by_name.
      rewrite Htemplates, filter_app, (get_by_name_none _ _ Hlook).
      simpl. exact (f_equal (fun x => (x, db')) Hread).
    + apply reload_detail_is_detail. exact Hread.
    + eexists. split.
      * unfold get_by_name.
        rewrite Htemplates, filter_app, (get_by_name_none _ _ Hlook).
        reflexivity.
      * reflexivity.
    + intros t Ht. rewrite Hlook in Ht. discriminate.
    + intros _. split; [reflexivity|]. split; [exact Htemplates | exact Htables].
Qed.

Lemma seed_default_template_idempotent_witness :
  exists r db1,
    seed_default_template empty_store None = (inr r, db1) /\
    seed_default_template db1 (Some 3%nat) = (inr r, db1) /\
    get_template_detail db1 1 = inr r /\
    r = default_template_response 1 /\
    audit_areas db1 = default_area_rows 1 None.
Proof.
  destruct (seed_default_template_idempotent empty_store None (Some 3%nat))
    as (r & db1 & H1 & H2 & H3 & _ & _ & H4).
  - reflexivity.
  - constructor.
  - destruct (H4 eq_refl) as (Hr & _ & Ha & _).
    exists r, db1. rewrite Hr in H3 at 1.
    repeat split; [exact H1 | exact H2 | exact H3 | exact Hr | exact Ha].
Defined.

(** ** Reconciliation: what a merge may and must do to the rows *)

Section Evolution.

Lemma keeps_inactive_refl {F} n (t : list (Row F)) : keeps_inactive n t t.
Proof. intros i _ H. exact H. Qed.

Lemma keeps_inactive_on_row {F} n (j : nat) (f : Row F -> Row F) (t : list (Row F)) :
  (forall r, row_id (f r) = row_id r) ->
  (forall r, isactive r = false -> isactive (f r) = false) ->
  keeps_inactive n t (on_row j f t).
Proof.
  intros Hid Hact i _ Hin r Hr Hri.
  unfold on_row in Hr. apply in_map_iff in Hr. destruct Hr as [r0 [Hr0 Hin0]].
  destruct (row_id r0 =? j)%nat; subst r.
  - rewrite Hid in Hri. apply Hact. exact (Hin r0 Hin0 Hri).
  - exact (Hin r0 Hin0 Hri).
Qed.

Lemma keeps_inactive_add {F} n (k : nat) (c : F) (u : option nat) (t : list (Row F)) :
  (n <= k)%nat -> keeps_inactive n t (t ++ [new_row k c u]).
Proof.
  intros Hk i Hi Hin r Hr Hri. apply in_app_or in Hr. destruct Hr as [Hr|[<-|[]]].
  - exact (Hin r Hr Hri).
  - simpl in Hri. lia.
Qed.

Lemma evolves_refl db : evolves db db.
Proof. constructor; try apply keeps_inactive_refl. apply Nat.le_refl. Qed.

Lemma evolves_trans db1 db2 db3 :
  evolves db1 db2 -> evolves db2 db3 -> evolves db1 db3.
Proof.
  intros [N1 A1 S1 Q1 O1] [N2 A2 S2 Q2 O2].
  constructor; [lia | | | |]; intros i Hi H.
  - apply A2; [lia|]. apply A1; assumption.
  - apply S2; [lia|]. apply S1; assumption.
  - apply Q2; [lia|]. apply Q1; assumption.
  - apply O2; [lia|]. apply O1; assumption.
Qed.

Lemma deactivated_id {F} u (r : Row F) : row_id (deactivated u r) = row_id r.
Proof. reflexivity. Qed.

Lemma modified_id {F} g u (r : Row F) : row_id (modified g u r) = row_id r.
Proof. reflexivity. Qed.

Lemma deactivated_stays {F} u (r : Row F) :
  isactive r = false -> isactive (deactivated u r) = false.
Proof. reflexivity. Qed.

Lemma modified_stays {F} g u (r : Row F) :
  isactive r = false -> isactive (modified g u r) = false.
Proof. intro H. exact H. Qed.

Lemma evolves_deactivate_area i u db : evolves db (deactivate_area i u db).
Proof.
  constructor; simpl; try apply keeps_inactive_refl; [apply Nat.le_refl|].
  apply keeps_inactive_on_row; [apply deactivated_id | apply deactivated_stays].
Qed.

Lemma evolves_deactivate_scope i u db : evolves db (deactivate_scope i u db).
Proof.
  constructor; simpl; try apply keeps_inactive_refl; [apply Nat.le_refl|].
  apply keeps_inactive_on_row; [apply deactivated_id | apply deactivated_stays].
Qed.

Lemma evolves_deactivate_question i u db : evolves db (deactivate_question i u db).
Proof.
  constructor; simpl; try apply keeps_inactive_refl; [apply Nat.le_refl|].
  apply keeps_inactive_on_row; [apply deactivated_id | apply deactivated_stays].
Qed.

Lemma evolves_deactivate_option i u db : evolves db (deactivate_option i u db).
Proof.
  constructor; simpl; try apply keeps_inactive_refl; [apply Nat.le_refl|].
  apply keeps_inactive_on_row; [apply deactivated_id | apply deactivated_stays].
Qed.

Lemma evolves_modify_area i g u db :
  evolves db (with_areas (on_row i (modified g u)) db).
Proof.
  constructor; simpl; try apply keeps_inactive_refl; [apply Nat.le_refl|].
  apply keeps_inactive_on_row; [apply modified_id | apply modified_stays].
Qed.

Lemma evolves_modify_scope i g u db :
  evolves db (with_scopes (on_row i (modified g u)) db).
Proof.
  constructor; simpl; try apply keeps_inactive_refl; [apply Nat.le_refl|].
  apply keeps_inactive_on_row; [apply modified_id | apply modified_stays].
Qed.

Lemma evolves_modify_question i g u db :
  evolves db (with_questions (on_row i (modified g u)) db).
Proof.
  constructor; simpl; try apply keeps_inactive_refl; [apply Nat.le_refl|].
  apply keeps_inactive_on_row; [apply modified_id | apply modified_stays].
Qed.

Lemma evolves_modify_option i g u db :
  evolves db (with_options (on_row i (modified g u)) db).
Proof.
  constructor; simpl; try apply keeps_inactive_refl; [apply Nat.le_refl|].
  apply keeps_inactive_on_row; [apply modified_id | apply modified_stays].
Qed.

Lemma evolves_rename_template i name u db :
  evolves db (rename_template i name u db).
Proof.
  constructor; simpl; try apply keeps_inactive_refl. apply Nat.le_refl.
Qed.

Lemma evolves_add_area tid name w u db :
  evolves db (snd (add_area tid name w u db)).
Proof.
  constructor; simpl; try apply keeps_inactive_refl; [lia|].
  apply keeps_inactive_add. apply Nat.le_refl.
Qed.

Lemma evolves_add_scope aid name u db :
  evolves db (snd (add_scope aid name u db)).
Proof.
  constructor; simpl; try apply keeps_inactive_refl; [lia|].
  apply keeps_inactive_add. apply Nat.le_refl.
Qed.

Lemma evolves_add_question sid text pct m u db :
  evolves db (snd (add_question sid text pct m u db)).
Proof.
  constructor; simpl; try apply keeps_inactive_refl; [lia|].
  apply keeps_inactive_add. apply Nat.le_refl.
Qed.

Lemma evolves_add_option qid label v u db :
  evolves db (snd (add_option qid label v u db)).
Proof.
  constructor; simpl; try apply keeps_inactive_refl; [lia|].
  apply keeps_inactive_add. apply Nat.le_refl.
Qed.

Lemma evolves_fold {A} (f : Store -> A -> Store) (l : list A) :
  (forall d x, In x l -> evolves d (f d x)) ->
  forall db, evolves db (fold_left f l db).
Proof.
  induction l as [|x l IH]; intros Hf db; simpl.
  - apply evolves_refl.
  - eapply evolves_trans; [apply Hf; left; reflexivity|].
    apply IH. intros d y Hy. apply Hf. right; exact Hy.
Qed.

End Evolution.

Create HintDb evolve.
#[export] Hint Resolve evolves_refl evolves_deactivate_area evolves_deactivate_scope
  evolves_deactivate_question evolves_deactivate_option
  evolves_modify_area evolves_modify_scope evolves_modify_question
  evolves_modify_option evolves_rename_template : evolve.

Section MergeEvolves.

Variable u : option nat.

Lemma evolves_cascade_options os db : evolves db (cascade_options u os db).
Proof. apply evolves_fold. auto with evolve. Qed.

Lemma evolves_cascade_questions qs db : evolves db (cascade_questions u qs db).
Proof.
  apply evolves_fold. intros d q _.
  eapply evolves_trans; [apply evolves_deactivate_question | apply evolves_cascade_options].
Qed.

Lemma evolves_cascade_scopes ss db : evolves db (cascade_scopes u ss db).
Proof.
  apply evolves_fold. intros d s _.
  eapply evolves_trans; [apply evolves_deactivate_scope | apply evolves_cascade_questions].
Qed.

Lemma evolves_soft_delete_missing_options ex ids db :
  evolves db (soft_delete_missing_options u ex ids db).
Proof.
  apply evolves_fold. intros d o _. destruct (id_in _ _); auto with evolve.
Qed.

Lemma evolves_merge_option qid ex db op :
  evolves db (merge_option u qid ex db op).
Proof.
  unfold merge_option.
  destruct (lookup _ _ _); [auto with evolve | apply evolves_add_option].
Qed.

Lemma evolves_merge_options qid ex ops db :
  evolves db (merge_options u qid ex ops db).
Proof.
  unfold merge_options. eapply evolves_trans.
  - apply evolves_soft_delete_missing_options.
  - apply evolves_fold. intros d op _. apply evolves_merge_option.
Qed.

Lemma evolves_merge_question sid ex db qp :
  evolves db (merge_question u sid ex db qp).
Proof.
  unfold merge_question. destruct (lookup _ _ _) as [q|].
  - eapply evolves_trans; [apply evolves_modify_question | apply evolves_merge_options].
  - destruct (add_question _ _ _ _ _ db) as [i d] eqn:E.
    eapply evolves_trans; [|apply evolves_merge_options].
    change d with (snd (i, d)). rewrite <- E. apply evolves_add_question.
Qed.

Lemma evolves_soft_delete_missing_questions ex ids db :
  evolves db (soft_delete_missing_questions u ex ids db).
Proof.
  apply evolves_fold. intros d q _.
  destruct (id_in _ _); [apply evolves_refl|].
  eapply evolves_trans; [apply evolves_deactivate_question | apply evolves_cascade_options].
Qed.

Lemma evolves_merge_questions sid ex qps db :
  evolves db (merge_questions u sid ex qps db).
Proof.
  unfold merge_questions. eapply evolves_trans.
  - apply evolves_soft_delete_missing_questions.
  - apply evolves_fold. intros d qp _. apply evolves_merge_question.
Qed.

Lemma evolves_merge_scope aid ex db sp :
  evolves db (merge_scope u aid ex db sp).
Proof.
  unfold merge_scope. destruct (lookup _ _ _) as [s|].
  - eapply evolves_trans; [apply evolves_modify_scope | apply evolves_merge_questions].
  - destruct (add_scope _ _ _ db) as [i d] eqn:E.
    eapply evolves_trans; [|apply evolves_merge_questions].
    change d with (snd (i, d)). rewrite <- E. apply evolves_add_scope.
Qed.

Lemma evolves_soft_delete_missing_scopes ex ids db :
  evolves db (soft_delete_missing_scopes u ex ids db).
Proof.
  apply evolves_fold. intros d s _.
  destruct (id_in _ _); [apply evolves_refl|].
  eapply evolves_trans; [apply evolves_deactivate_scope | apply evolves_cascade_questions].
Qed.

Lemma evolves_merge_scopes aid ex sps db :
  evolves db (merge_scopes u aid ex sps db).
Proof.
  unfold merge_scopes. eapply evolves_trans.
  - apply evolves_soft_delete_missing_scopes.
  - apply evolves_fold. intros d sp _. apply evolves_merge_scope.
Qed.

Lemma evolves_merge_area tid ex db ap :
  evolves db (merge_area u tid ex db ap).
Proof.
  unfold merge_area. destruct (lookup _ _ _) as [a|].
  - eapply evolves_trans; [apply evolves_modify_area | apply evolves_merge_scopes].
  - destruct (add_area _ _ _ _ db) as [i d] eqn:E.
    eapply evolves_trans; [|apply evolves_merge_scopes].
    change d with (snd (i, d)). rewrite <- E. apply evolves_add_area.
Qed.

Lemma evolves_soft_delete_missing_areas ex ids db :
  evolves db (soft_delete_missing_areas u ex ids db).
Proof.
  apply evolves_fold. intros d a _.
  destruct (id_in _ _); [apply evolves_refl|].
  eapply evolves_trans; [apply evolves_deactivate_area | apply evolves_cascade_scopes].
Qed.

Lemma evolves_merge_areas tid ex aps db :
  evolves db (merge_areas u tid ex aps db).
Proof.
  unfold merge_areas. eapply evolves_trans.
  - apply evolves_soft_delete_missing_areas.
  - apply evolves_fold. intros d ap _. apply evolves_merge_area.
Qed.

End MergeEvolves.

Section Stability.

Variable n : nat.

Lemma stable_and (P Q : Store -> Prop) :
  stable n P -> stable n Q -> stable n (fun d => P d /\ Q d).
Proof.
  intros HP HQ d d' Hn [p q] He. split; [eapply HP | eapply HQ]; eassumption.
Qed.

Lemma stable_forall {A} (Q : A -> Store -> Prop) :
  (forall x, stable n (Q x)) -> stable n (fun d => forall x, Q x d).
Proof. intros H d d' Hn Hq He x. eapply H; [exact Hn | apply Hq | exact He]. Qed.

Lemma stable_impl (C : Prop) (Q : Store -> Prop) :
  (C -> stable n Q) -> stable n (fun d => C -> Q d).
Proof. intros H d d' Hn Hq He c. eapply (H c); [exact Hn | apply Hq; exact c | exact He]. Qed.

Lemma stable_inactive_area i :
  (i < n)%nat -> stable n (fun d => inactive_in (audit_areas d) i).
Proof. intros Hi d d' Hn H He. apply (ev_areas _ _ He); [lia | exact H]. Qed.

Lemma stable_inactive_scope i :
  (i < n)%nat -> stable n (fun d => inactive_in (audit_scopes d) i).
Proof. intros Hi d d' Hn H He. apply (ev_scopes _ _ He); [lia | exact H]. Qed.

Lemma stable_inactive_question i :
  (i < n)%nat -> stable n (fun d => inactive_in (audit_questions d) i).
Proof. intros Hi d d' Hn H He. apply (ev_questions _ _ He); [lia | exact H]. Qed.

Lemma stable_inactive_option i :
  (i < n)%nat -> stable n (fun d => inactive_in (audit_question_options d) i).
Proof. intros Hi d d' Hn H He. apply (ev_options _ _ He); [lia | exact H]. Qed.

Lemma stable_question_subtree q :
  question_below n q -> stable n (fun d => question_subtree_inactive d q).
Proof.
  intros [Hq Ho]. apply stable_and; [apply stable_inactive_question; exact Hq|].
  apply stable_forall; intro o. apply stable_impl; intro Hin.
  apply stable_inactive_option. apply Ho; exact Hin.
Qed.

Lemma stable_scope_subtree s :
  scope_below n s -> stable n (fun d => scope_subtree_inactive d s).
Proof.
  intros [Hs Hq]. apply stable_and; [apply stable_inactive_scope; exact Hs|].
  apply stable_forall; intro q. apply stable_impl; intro Hin.
  apply stable_question_subtree. apply Hq; exact Hin.
Qed.

Lemma stable_area_subtree a :
  area_below n a -> stable n (fun d => area_subtree_inactive d a).
Proof.
  intros [Ha Hs]. apply stable_and; [apply stable_inactive_area; exact Ha|].
  apply stable_forall; intro s. apply stable_impl; intro Hin.
  apply stable_scope_subtree. apply Hs; exact Hin.
Qed.

Lemma lookup_In {N} (key : N -> nat) (pid : option nat) (ex : list N) (x : N) :
  lookup key pid ex = Some x -> In x ex /\ pid = Some (key x).
Proof.
  unfold lookup. destruct pid as [i|]; [|discriminate].
  intro H. apply find_some in H. destruct H as [Hin Hk].
  apply Nat.eqb_eq in Hk. subst i. split; [exact Hin | reflexivity].
Qed.

Lemma stable_options_soft_deleted ex ps :
  (forall o, In o ex -> (row_id o < n)%nat) ->
  stable n (options_soft_deleted ex ps).
Proof.
  intro Hb. unfold options_soft_deleted.
  apply stable_forall; intro o. apply stable_impl; intro Hin.
  apply stable_impl; intros _. apply stable_inactive_option. apply Hb; exact Hin.
Qed.

Lemma stable_questions_soft_deleted ex ps :
  (forall q, In q ex -> question_below n q) ->
  stable n (questions_soft_deleted ex ps).
Proof.
  intro Hb. unfold questions_soft_deleted. apply stable_and.
  - apply stable_forall; intro q. apply stable_impl; intro Hin.
    apply stable_impl; intros _. apply stable_question_subtree. apply Hb; exact Hin.
  - apply stable_forall; intro qp. apply stable_forall; intro q.
    apply stable_impl; intros _. apply stable_impl; intro Hl.
    apply stable_options_soft_deleted.
    apply lookup_In in Hl. exact (proj2 (Hb q (proj1 Hl))).
Qed.

Lemma stable_scopes_soft_deleted ex ps :
  (forall s, In s ex -> scope_below n s) ->
  stable n (scopes_soft_deleted ex ps).
Proof.
  intro Hb. unfold scopes_soft_deleted. apply stable_and.
  - apply stable_forall; intro s. apply stable_impl; intro Hin.
    apply stable_impl; intros _. apply stable_scope_subtree. apply Hb; exact Hin.
  - apply stable_forall; intro sp. apply stable_forall; intro s.
    apply stable_impl; intros _. apply stable_impl; intro Hl.
    apply stable_questions_soft_deleted.
    apply lookup_In in Hl. exact (proj2 (Hb s (proj1 Hl))).
Qed.

(** A loop establishes for each element what its own step establishes,
    provided the later steps only evolve the store. *)
Lemma fold_establish {A} (f : Store -> A -> Store) (Q : A -> Store -> Prop)
    (l : list A) :
  (forall d x, In x l -> evolves d (f d x)) ->
  (forall x, In x l -> stable n (Q x)) ->
  (forall d x, In x l -> (n <= next_id d)%nat -> Q x (f d x)) ->
  forall db, (n <= next_id db)%nat ->
  forall x, In x l -> Q x (fold_left f l db).
Proof.
  induction l as [|y l IH]; intros Hev Hst Hstep db Hn x Hin; [destruct Hin|].
  simpl.
  assert (Hn' : (n <= next_id (f db y))%nat).
  { pose proof (ev_next _ _ (Hev db y (or_introl eq_refl))). lia. }
  destruct Hin as [<-|Hin].
  - eapply (Hst y (or_introl eq_refl)); [exact Hn' | |].
    + apply Hstep; [left; reflexivity | exact Hn].
    + apply evolves_fold. intros d z Hz. apply Hev. right; exact Hz.
  - apply IH; try assumption.
    + intros d z Hz. apply Hev. right; exact Hz.
    + intros z Hz. apply Hst. right; exact Hz.
    + intros d z Hz. apply Hstep. right; exact Hz.
Qed.

End Stability.

Section Establish.

Variable u : option nat.
Variable n : nat.

Lemma on_row_deactivated_inactive {F} (i : nat) (t : list (Row F)) :
  inactive_in (on_row i (deactivated u) t) i.
Proof.
  intros r Hr Hri. unfold on_row in Hr. apply in_map_iff in Hr.
  destruct Hr as [r0 [Hr0 _]].
  destruct (Nat.eqb_spec (row_id r0) i); subst r; [reflexivity|].
  contradiction.
Qed.

Lemma cascade_options_inactive os db :
  (forall o, In o os -> (row_id o < n)%nat) ->
  (n <= next_id db)%nat ->
  forall o, In o os ->
    inactive_in (audit_question_options (cascade_options u os db)) (row_id o).
Proof.
  intros Hb Hn. unfold cascade_options.
  apply (fold_establish n (fun db o => deactivate_option (row_id o) u db)
           (fun o d => inactive_in (audit_question_options d) (row_id o)));
    [auto with evolve | | | exact Hn].
  - intros o Hin. apply stable_inactive_option. apply Hb; exact Hin.
  - intros d o _ _. simpl. apply on_row_deactivated_inactive.
Qed.

Lemma deactivate_question_cascade q db :
  question_below n q -> (n <= next_id db)%nat ->
  question_subtree_inactive
    (cascade_options u (lq_options q) (deactivate_question (lq_id q) u db)) q.
Proof.
  intros [Hq Ho] Hn. split.
  - eapply (stable_inactive_question n _ Hq);
      [| |apply evolves_cascade_options]; [exact Hn|].
    simpl. apply on_row_deactivated_inactive.
  - apply (cascade_options_inactive _ _ Ho). exact Hn.
Qed.

Lemma cascade_questions_inactive qs db :
  (forall q, In q qs -> question_below n q) ->
  (n <= next_id db)%nat ->
  forall q, In q qs -> question_subtree_inactive (cascade_questions u qs db) q.
Proof.
  intros Hb Hn. unfold cascade_questions.
  apply (fold_establish n
           (fun db q => cascade_options u (lq_options q)
                          (deactivate_question (lq_id q) u db))
           (fun q d => question_subtree_inactive d q)); [ | | | exact Hn].
  - intros d q _. eapply evolves_trans;
      [apply evolves_deactivate_question | apply evolves_cascade_options].
  - intros q Hin. apply stable_question_subtree. apply Hb; exact Hin.
  - intros d q Hin Hd. apply deactivate_question_cascade; [apply Hb; exact Hin | exact Hd].
Qed.

Lemma deactivate_scope_cascade s db :
  scope_below n s -> (n <= next_id db)%nat ->
  scope_subtree_inactive
    (cascade_questions u (ls_questions s) (deactivate_scope (ls_id s) u db)) s.
Proof.
  intros [Hs Hq] Hn. split.
  - eapply (stable_inactive_scope n _ Hs);
      [| |apply evolves_cascade_questions]; [exact Hn|].
    simpl. apply on_row_deactivated_inactive.
  - apply (cascade_questions_inactive _ _ Hq). exact Hn.
Qed.

Lemma cascade_scopes_inactive ss db :
  (forall s, In s ss -> scope_below n s) ->
  (n <= next_id db)%nat ->
  forall s, In s ss -> scope_subtree_inactive (cascade_scopes u ss db) s.
Proof.
  intros Hb Hn. unfold cascade_scopes.
  apply (fold_establish n
           (fun db s => cascade_questions u (ls_questions s)
                          (deactivate_scope (ls_id s) u db))
           (fun s d => scope_subtree_inactive d s)); [ | | | exact Hn].
  - intros d s _. eapply evolves_trans;
      [apply evolves_deactivate_scope | apply evolves_cascade_questions].
  - intros s Hin. apply stable_scope_subtree. apply Hb; exact Hin.
  - intros d s Hin Hd. apply deactivate_scope_cascade; [apply Hb; exact Hin | exact Hd].
Qed.

Lemma deactivate_area_cascade a db :
  area_below n a -> (n <= next_id db)%nat ->
  area_subtree_inactive
    (cascade_scopes u (la_scopes a) (deactivate_area (la_id a) u db)) a.
Proof.
  intros [Ha Hs] Hn. split.
  - eapply (stable_inactive_area n _ Ha);
      [| |apply evolves_cascade_scopes]; [exact Hn|].
    simpl. apply on_row_deactivated_inactive.
  - apply (cascade_scopes_inactive _ _ Hs). exact Hn.
Qed.

End Establish.

Section MergeEstablish.

Variable u : option nat.
Variable n : nat.

Lemma soft_delete_missing_options_spec ex ps db :
  (forall o, In o ex -> (row_id o < n)%nat) ->
  (n <= next_id db)%nat ->
  options_soft_deleted ex ps
    (soft_delete_missing_options u ex (supplied_ids option_id ps) db).
Proof.
  intros Hb Hn. unfold options_soft_deleted, omitted, soft_delete_missing_options.
  apply (fold_establish n
           (fun db o => if id_in (row_id o) (supplied_ids option_id ps) then db
                        else deactivate_option (row_id o) u db)
           (fun o d => id_in (row_id o) (supplied_ids option_id ps) = false ->
                       inactive_in (audit_question_options d) (row_id o)));
    [ | | | exact Hn].
  - intros d o _. destruct (id_in _ _); auto with evolve.
  - intros o Hin. apply stable_impl; intros _.
    apply stable_inactive_option. apply Hb; exact Hin.
  - intros d o _ _ Hom. rewrite Hom. simpl. apply on_row_deactivated_inactive.
Qed.

Lemma merge_options_spec qid ex ps db :
  (forall o, In o ex -> (row_id o < n)%nat) ->
  (n <= next_id db)%nat ->
  options_soft_deleted ex ps (merge_options u qid ex ps db).
Proof.
  intros Hb Hn. unfold merge_options.
  eapply (stable_options_soft_deleted n ex ps Hb);
    [ | apply soft_delete_missing_options_spec; eassumption | ].
  - pose proof (ev_next _ _ (evolves_soft_delete_missing_options u ex
                               (supplied_ids option_id ps) db)). lia.
  - apply evolves_fold. intros d op _. apply evolves_merge_option.
Qed.

Lemma soft_delete_missing_questions_spec ex ps db :
  (forall q, In q ex -> question_below n q) ->
  (n <= next_id db)%nat ->
  forall q, In q ex -> omitted question_id ps (lq_id q) ->
    question_subtree_inactive
      (soft_delete_missing_questions u ex (supplied_ids question_id ps) db) q.
Proof.
  intros Hb Hn. unfold omitted, soft_delete_missing_questions.
  apply (fold_establish n
           (fun db q => if id_in (lq_id q) (supplied_ids question_id ps) then db
                        else cascade_options u (lq_options q)
                               (deactivate_question (lq_id q) u db))
           (fun q d => id_in (lq_id q) (supplied_ids question_id ps) = false ->
                       question_subtree_inactive d q));
    [ | | | exact Hn].
  - intros d q _. destruct (id_in _ _); [apply evolves_refl|].
    eapply evolves_trans;
      [apply evolves_deactivate_question | apply evolves_cascade_options].
  - intros q Hin. apply stable_impl; intros _.
    apply stable_question_subtree. apply Hb; exact Hin.
  - intros d q Hin Hd Hom. rewrite Hom.
    apply (deactivate_question_cascade u n); [apply Hb; exact Hin | exact Hd].
Qed.

Lemma merge_questions_spec sid ex ps db :
  (forall q, In q ex -> question_below n q) ->
  (n <= next_id db)%nat ->
  questions_soft_deleted ex ps (merge_questions u sid ex ps db).
Proof.
  intros Hb Hn. unfold merge_questions.
  set (db1 := soft_delete_missing_questions u ex (supplied_ids question_id ps) db).
  assert (Hn1 : (n <= next_id db1)%nat).
  { pose proof (ev_next _ _ (evolves_soft_delete_missing_questions u ex
                               (supplied_ids question_id ps) db)).
    subst db1. lia. }
  split.
  - intros q Hin Hom.
    eapply (stable_question_subtree n q (Hb q Hin)); [exact Hn1 | |].
    + apply soft_delete_missing_questions_spec; assumption.
    + apply evolves_fold. intros d qp _. apply evolves_merge_question.
  - intros qp q Hqp. revert q. revert qp Hqp.
    apply (fold_establish n (merge_question u sid ex)
             (fun qp d => forall q,
                lookup lq_id (question_id qp) ex = Some q ->
                options_soft_deleted (lq_options q) (question_options qp) d));
      [ | | | exact Hn1].
    + intros d qp _. apply evolves_merge_question.
    + intros qp _. apply stable_forall; intro q. apply stable_impl; intro Hl.
      apply stable_options_soft_deleted.
      apply lookup_In in Hl. exact (proj2 (Hb q (proj1 Hl))).
    + intros d qp _ Hd q Hl. unfold merge_question. rewrite Hl.
      apply merge_options_spec; [|exact Hd].
      apply lookup_In in Hl. exact (proj2 (Hb q (proj1 Hl))).
Qed.

Lemma soft_delete_missing_scopes_spec ex ps db :
  (forall s, In s ex -> scope_below n s) ->
  (n <= next_id db)%nat ->
  forall s, In s ex -> omitted scope_id ps (ls_id s) ->
    scope_subtree_inactive
      (soft_delete_missing_scopes u ex (supplied_ids scope_id ps) db) s.
Proof.
  intros Hb Hn. unfold omitted, soft_delete_missing_scopes.
  apply (fold_establish n
           (fun db s => if id_in (ls_id s) (supplied_ids scope_id ps) then db
                        else cascade_questions u (ls_questions s)
                               (deactivate_scope (ls_id s) u db))
           (fun s d => id_in (ls_id s) (supplied_ids scope_id ps) = false ->
                       scope_subtree_inactive d s));
    [ | | | exact Hn].
  - intros d s _. destruct (id_in _ _); [apply evolves_refl|].
    eapply evolves_trans;
      [apply evolves_deactivate_scope | apply evolves_cascade_questions].
  - intros s Hin. apply stable_impl; intros _.
    apply stable_scope_subtree. apply Hb; exact Hin.
  - intros d s Hin Hd Hom. rewrite Hom.
    apply (deactivate_scope_cascade u n); [apply Hb; exact Hin | exact Hd].
Qed.

Lemma merge_scopes_spec aid ex ps db :
  (forall s, In s ex -> scope_below n s) ->
  (n <= next_id db)%nat ->
  scopes_soft_deleted ex ps (merge_scopes u aid ex ps db).
Proof.
  intros Hb Hn. unfold merge_scopes.
  set (db1 := soft_delete_missing_scopes u ex (supplied_ids scope_id ps) db).
  assert (Hn1 : (n <= next_id db1)%nat).
  { pose proof (ev_next _ _ (evolves_soft_delete_missing_scopes u ex
                               (supplied_ids scope_id ps) db)).
    subst db1. lia. }
  split.
  - intros s Hin Hom.
    eapply (stable_scope_subtree n s (Hb s Hin)); [exact Hn1 | |].
    + apply soft_delete_missing_scopes_spec; assumption.
    + apply evolves_fold. intros d sp _. apply evolves_merge_scope.
  - intros sp s Hsp. revert s. revert sp Hsp.
    apply (fold_establish n (merge_scope u aid ex)
             (fun sp d => forall s,
                lookup ls_id (scope_id sp) ex = Some s ->
                questions_soft_deleted (ls_questions s) (scope_questions sp) d));
      [ | | | exact Hn1].
    + intros d sp _. apply evolves_merge_scope.
    + intros sp _. apply stable_forall; intro s. apply stable_impl; intro Hl.
      apply stable_questions_soft_deleted.
      apply lookup_In in Hl. exact (proj2 (Hb s (proj1 Hl))).
    + intros d sp _ Hd s Hl. unfold merge_scope. rewrite Hl.
      apply merge_questions_spec; [|exact Hd].
      apply lookup_In in Hl. exact (proj2 (Hb s (proj1 Hl))).
Qed.

Lemma soft_delete_missing_areas_spec ex ps db :
  (forall a, In a ex -> area_below n a) ->
  (n <= next_id db)%nat ->
  forall a, In a ex -> omitted area_id ps (la_id a) ->
    area_subtree_inactive
      (soft_delete_missing_areas u ex (supplied_ids area_id ps) db) a.
Proof.
  intros Hb Hn. unfold omitted, soft_delete_missing_areas.
  apply (fold_establish n
           (fun db a => if id_in (la_id a) (supplied_ids area_id ps) then db
                        else cascade_scopes u (la_scopes a)
                               (deactivate_area (la_id a) u db))
           (fun a d => id_in (la_id a) (supplied_ids area_id ps) = false ->
                       area_subtree_inactive d a));
    [ | | | exact Hn].
  - intros d a _. destruct (id_in _ _); [apply evolves_refl|].
    eapply evolves_trans;
      [apply evolves_deactivate_area | apply evolves_cascade_scopes].
  - intros a Hin. apply stable_impl; intros _.
    apply stable_area_subtree. apply Hb; exact Hin.
  - intros d a Hin Hd Hom. rewrite Hom.
    apply (deactivate_area_cascade u n); [apply Hb; exact Hin | exact Hd].
Qed.

Lemma merge_areas_spec tid ex ps db :
  (forall a, In a ex -> area_below n a) ->
  (n <= next_id db)%nat ->
  areas_soft_deleted ex ps (merge_areas u tid ex ps db).
Proof.
  intros Hb Hn. unfold merge_areas.
  set (db1 := soft_delete_missing_areas u ex (supplied_ids area_id ps) db).
  assert (Hn1 : (n <= next_id db1)%nat).
  { pose proof (ev_next _ _ (evolves_soft_delete_missing_areas u ex
                               (supplied_ids area_id ps) db)).
    subst db1. lia. }
  split.
  - intros a Hin Hom.
    eapply (stable_area_subtree n a (Hb a Hin)); [exact Hn1 | |].
    + apply soft_delete_missing_areas_spec; assumption.
    + apply evolves_fold. intros d ap _. apply evolves_merge_area.
  - intros ap a Hap. revert a. revert ap Hap.
    apply (fold_establish n (merge_area u tid ex)
             (fun ap d => forall a,
                lookup la_id (area_id ap) ex = Some a ->
                scopes_soft_deleted (la_scopes a) (area_scopes ap) d));
      [ | | | exact Hn1].
    + intros d ap _. apply evolves_merge_area.
    + intros ap _. apply stable_forall; intro a. apply stable_impl; intro Hl.
      apply stable_scopes_soft_deleted.
      apply lookup_In in Hl. exact (proj2 (Hb a (proj1 Hl))).
    + intros d ap _ Hd a Hl. unfold merge_area. rewrite Hl.
      apply merge_scopes_spec; [|exact Hd].
      apply lookup_In in Hl. exact (proj2 (Hb a (proj1 Hl))).
Qed.

End MergeEstablish.

Section LoadedTree.

Lemma load_options_below db qid o :
  db_wf db -> In o (load_options db qid) -> (row_id o < next_id db)%nat.
Proof.
  intros Hwf Hin. destruct (db_wf_tables db Hwf) as (_ & _ & _ & _ & Ho).
  unfold load_options in Hin. apply filter_In in Hin.
  exact (proj1 (rows_below_In _ _ _ _ Ho (proj1 Hin))).
Qed.

Lemma load_questions_below db sid q :
  db_wf db -> In q (load_questions db sid) -> question_below (next_id db) q.
Proof.
  intros Hwf Hin. destruct (db_wf_tables db Hwf) as (_ & _ & _ & Hq & _).
  unfold load_questions in Hin. apply in_map_iff in Hin.
  destruct Hin as [row [<- Hrow]]. apply filter_In in Hrow. split.
  - exact (proj1 (rows_below_In _ _ _ _ Hq (proj1 Hrow))).
  - simpl. intros o Ho. eapply load_options_below; eassumption.
Qed.

Lemma load_scopes_below db aid s :
  db_wf db -> In s (load_scopes db aid) -> scope_below (next_id db) s.
Proof.
  intros Hwf Hin. destruct (db_wf_tables db Hwf) as (_ & _ & Hs & _ & _).
  unfold load_scopes in Hin. apply in_map_iff in Hin.
  destruct Hin as [row [<- Hrow]]. apply filter_In in Hrow. split.
  - exact (proj1 (rows_below_In _ _ _ _ Hs (proj1 Hrow))).
  - simpl. intros q Hq. eapply load_questions_below; eassumption.
Qed.

Lemma load_areas_below db tid a :
  db_wf db -> In a (load_areas db tid) -> area_below (next_id db) a.
Proof.
  intros Hwf Hin. destruct (db_wf_tables db Hwf) as (_ & Ha & _ & _ & _).
  unfold load_areas in Hin. apply in_map_iff in Hin.
  destruct Hin as [row [<- Hrow]]. apply filter_In in Hrow. split.
  - exact (proj1 (rows_below_In _ _ _ _ Ha (proj1 Hrow))).
  - simpl. intros s Hs. eapply load_scopes_below; eassumption.
Qed.

(** Whatever a detail read shows is an active row of the store. *)
Lemma shown_area_is_active db tid r i :
  get_template_detail db tid = inr r -> In i (area_ids_of r) ->
  exists row, In row (audit_areas db) /\ row_id row = i /\ isactive row = true.
Proof.
  unfold get_template_detail, get_by_id_with_details.
  destruct (find (fun t => (row_id t =? tid)%nat) (audit_templates db));
    [|discriminate].
  intros H Hi. inversion H; subst r; clear H.
  unfold area_ids_of in Hi. simpl in Hi. rewrite map_map in Hi.
  apply in_map_iff in Hi. destruct Hi as [la [<- Hla]].
  unfold load_areas in Hla. apply in_map_iff in Hla.
  destruct Hla as [row [<- Hrow]]. apply filter_In in Hrow.
  destruct Hrow as [Hin Hp]. apply andb_true_iff in Hp.
  exists row. simpl. tauto.
Qed.

Lemma shown_scope_loaded db tid r s :
  get_template_detail db tid = inr r -> In s (shown_scopes r) ->
  exists row, s = _scope_detail
                    {| ls_row := row; ls_questions := load_questions db (row_id row) |}
              /\ In row (audit_scopes db) /\ isactive row = true.
Proof.
  unfold get_template_detail, get_by_id_with_details.
  destruct (find (fun t => (row_id t =? tid)%nat) (audit_templates db));
    [|discriminate].
  intros H Hs. inversion H; subst r; clear H.
  unfold shown_scopes in Hs. simpl in Hs.
  apply in_flat_map in Hs. destruct Hs as [a [Ha Hs]].
  apply in_map_iff in Ha. destruct Ha as [la [<- Hla]].
  unfold load_areas in Hla. apply in_map_iff in Hla.
  destruct Hla as [arow [<- _]]. simpl in Hs.
  apply in_map_iff in Hs. destruct Hs as [ls [<- Hls]].
  unfold load_scopes in Hls. apply in_map_iff in Hls.
  destruct Hls as [row [<- Hrow]]. apply filter_In in Hrow.
  destruct Hrow as [Hin Hp]. apply andb_true_iff in Hp.
  exists row. tauto.
Qed.

Lemma shown_question_loaded db tid r q :
  get_template_detail db tid = inr r -> In q (shown_questions r) ->
  exists row, q = _question_detail
                    {| lq_row := row; lq_options := load_options db (row_id row) |}
              /\ In row (audit_questions db) /\ isactive row = true.
Proof.
  intros H Hq. unfold shown_questions in Hq.
  apply in_flat_map in Hq. destruct Hq as [s [Hs Hq]].
  destruct (shown_scope_loaded db tid r s H Hs) as [srow [-> _]].
  simpl in Hq. apply in_map_iff in Hq. destruct Hq as [lq [<- Hlq]].
  unfold load_questions in Hlq. apply in_map_iff in Hlq.
  destruct Hlq as [row [<- Hrow]]. apply filter_In in Hrow.
  destruct Hrow as [Hin Hp]. apply andb_true_iff in Hp.
  exists row. tauto.
Qed.

Lemma shown_scope_is_active db tid r i :
  get_template_detail db tid = inr r -> In i (scope_ids_of r) ->
  exists row, In row (audit_scopes db) /\ row_id row = i /\ isactive row = true.
Proof.
  intros H Hi. unfold scope_ids_of in Hi. apply in_map_iff in Hi.
  destruct Hi as [s [<- Hs]].
  destruct (shown_scope_loaded db tid r s H Hs) as [row [-> [Hin Hact]]].
  exists row. simpl. tauto.
Qed.

Lemma shown_question_is_active db tid r i :
  get_template_detail db tid = inr r -> In i (question_ids_of r) ->
  exists row, In row (audit_questions db) /\ row_id row = i /\ isactive row = true.
Proof.
  intros H Hi. unfold question_ids_of in Hi. apply in_map_iff in Hi.
  destruct Hi as [q [<- Hq]].
  destruct (shown_question_loaded db tid r q H Hq) as [row [-> [Hin Hact]]].
  exists row. simpl. tauto.
Qed.

Lemma shown_option_is_active db tid r i :
  get_template_detail db tid = inr r -> In i (option_ids_of r) ->
  exists row, In row (audit_question_options db) /\ row_id row = i
              /\ isactive row = true.
Proof.
  intros H Hi. unfold option_ids_of in Hi. apply in_map_iff in Hi.
  destruct Hi as [o [<- Ho]]. unfold shown_options in Ho.
  apply in_flat_map in Ho. destruct Ho as [q [Hq Ho]].
  destruct (shown_question_loaded db tid r q H Hq) as [qrow [-> _]].
  simpl in Ho. apply in_map_iff in Ho. destruct Ho as [row [<- Hrow]].
  unfold load_options in Hrow. apply filter_In in Hrow.
  destruct Hrow as [Hin Hp]. apply andb_true_iff in Hp.
  exists row. simpl. tauto.
Qed.

Lemma inactive_not_shown {F} (t : list (Row F)) (i : nat) :
  inactive_in t i ->
  ~ (exists row, In row t /\ row_id row = i /\ isactive row = true).
Proof.
  intros Hin [row [Hr [Hi Ha]]]. rewrite (Hin row Hr Hi) in Ha. discriminate.
Qed.

End LoadedTree.

Lemma update_template_committed db template_id p u template r db' :
  get_by_id_with_details db template_id = Some template ->
  update_template db template_id p u = (inr r, db') ->
  db' = merge_areas u template_id (lt_areas template) (payload_areas p)
          (rename_template template_id (payload_name p) u db)
  /\ reload_detail db' template_id = inr r.
Proof.
  intros Hload. unfold update_template. rewrite Hload.
  destruct (check_name_change db template (payload_name p);;;
            Validator.validate_all_constraints (payload_areas p)) as [e|[]].
  - intro H; inversion H.
  - intro H. inversion H; subst. split; reflexivity.
Qed.

Lemma inactive_area_subtree_hidden db tid r a :
  get_template_detail db tid = inr r ->
  area_subtree_inactive db a -> area_subtree_hidden r a.
Proof.
  intros Hr [Ha Hs]. split.
  - intro Hin. exact (inactive_not_shown _ _ Ha (shown_area_is_active _ _ _ _ Hr Hin)).
  - intros s Hsin. destruct (Hs s Hsin) as [Hsc Hq]. split.
    + intro Hin.
      exact (inactive_not_shown _ _ Hsc (shown_scope_is_active _ _ _ _ Hr Hin)).
    + intros q Hqin. destruct (Hq q Hqin) as [Hqu Ho]. split.
      * intro Hin.
        exact (inactive_not_shown _ _ Hqu
                 (shown_question_is_active _ _ _ _ Hr Hin)).
      * intros o Hoin Hin.
        exact (inactive_not_shown _ _ (Ho o Hoin)
                 (shown_option_is_active _ _ _ _ Hr Hin)).
Qed.

(** C1, counterexample: the cascade of [update_template] walks the loaded
    tree, which holds active children only. In the round-trip store with
    scope 3 deleted through [delete_scope], an update that omits area 2
    succeeds and leaves question 4 and options 5 and 6, rows below area 2,
    active: not every active row below an omitted area becomes inactive. *)
Lemma cascade_stops_at_inactive_scope :
  let db := deleted_scope_store in
  let db' := snd (update_template db 1 (round_trip_payload "T") None) in
  db_wf db
  /\ (exists r, fst (update_template db 1 (round_trip_payload "T") None) = inr r)
  /\ (exists q, In q (audit_questions db') /\ row_id q = 4%nat
                /\ col_scope_id (cols q) = 3%nat /\ isactive q = true)
  /\ (exists o, In o (audit_question_options db') /\ row_id o = 5%nat
                /\ col_question_id (cols o) = 4%nat /\ isactive o = true)
  /\ ~ omitted_areas_inactive_throughout db 1
         (payload_areas (round_trip_payload "T")) db'.
Proof.
  intros db db'.
  split; [vm_compute; reflexivity|].
  split; [vm_compute; eexists; reflexivity|].
  split; [vm_compute; eexists; split; [left; reflexivity | repeat split]|].
  split; [vm_compute; eexists; split; [left; reflexivity | repeat split]|].
  intro H.
  destruct (H {| row_id := 2%nat;
                 cols := {| col_template_id := 1%nat; col_area_name := "A";
                            col_weightage := 100%Z |};
                 isactive := true; created_by := Some 7%nat;
                 updated_by := Some 7%nat |})
    as (_ & _ & Hq & _).
  - vm_compute. left. reflexivity.
  - reflexivity.
  - reflexivity.
  - vm_compute. reflexivity.
  - set (q := {| row_id := 4%nat;
                 cols := {| col_scope_id := 3%nat; col_text := "Q";
                            col_percentage := 100%Z; col_is_mandatory := true |};
                 isactive := true; created_by := Some 7%nat;
                 updated_by := Some 7%nat |}).
    assert (Hoff : isactive q = false).
    { apply (Hq q).
      - split; [vm_compute; left; reflexivity|].
        exists {| row_id := 3%nat;
                  cols := {| col_area_id := 2%nat; col_scope_name := "S" |};
                  isactive := false; created_by := Some 7%nat;
                  updated_by := Some 7%nat |}.
        split; [|reflexivity]. split; [vm_compute; left; reflexivity | reflexivity].
      - reflexivity.
      - vm_compute. left. reflexivity.
      - reflexivity. }
    discriminate Hoff.
Qed.

Lemma loaded_area_of_row db tid a :
  In a (audit_areas db) -> col_template_id (cols a) = tid -> isactive a = true ->
  In {| la_row := a; la_scopes := load_scopes db (row_id a) |} (load_areas db tid).
Proof.
  intros Hin Hp Hact. unfold load_areas.
  apply (in_map (fun a => {| la_row := a; la_scopes := load_scopes db (row_id a) |})).
  apply filter_In. split; [exact Hin|].
  rewrite Hp, Nat.eqb_refl, Hact. reflexivity.
Qed.

Lemma loaded_scope_of_row db aid s :
  In s (audit_scopes db) -> col_area_id (cols s) = aid -> isactive s = true ->
  In {| ls_row := s; ls_questions := load_questions db (row_id s) |}
     (load_scopes db aid).
Proof.
  intros Hin Hp Hact. unfold load_scopes.
  apply (in_map (fun s => {| ls_row := s;
                             ls_questions := load_questions db (row_id s) |})).
  apply filter_In. split; [exact Hin|].
  rewrite Hp, Nat.eqb_refl, Hact. reflexivity.
Qed.

Lemma loaded_question_of_row db sid q :
  In q (audit_questions db) -> col_scope_id (cols q) = sid -> isactive q = true ->
  In {| lq_row := q; lq_options := load_options db (row_id q) |}
     (load_questions db sid).
Proof.
  intros Hin Hp Hact. unfold load_questions.
  apply (in_map (fun q => {| lq_row := q;
                             lq_options := load_options db (row_id q) |})).
  apply filter_In. split; [exact Hin|].
  rewrite Hp, Nat.eqb_refl, Hact. reflexivity.
Qed.

Lemma loaded_option_of_row db qid o :
  In o (audit_question_options db) -> col_question_id (cols o) = qid ->
  isactive o = true -> In o (load_options db qid).
Proof.
  intros Hin Hp Hact. unfold load_options.
  apply filter_In. split; [exact Hin|].
  rewrite Hp, Nat.eqb_refl, Hact. reflexivity.
Qed.

(** C1. After a successful [update_template], in every collection the
    merge visited (the template's areas, and below them the children of
    each persisted node a payload item was matched to) every persisted
    node whose id the payload omits at that level is inactive together with
    all nodes loaded below it, down to options; the nodes loaded below a
    node are its active children. The response is the detail read of the
    resulting store; an area the payload omits is absent, with its scopes,
    questions and options, from every detail read of that store, and in
    general no detail read shows a key whose rows are inactive. On the rows
    of the tables: an active area of the template that the payload omits
    is inactive afterwards, and so are its active scopes, their active
    questions and the active options of these. *)
Theorem update_template_cascading_soft_delete
    (db : Store) (template_id : nat) (p : TemplatePayload) (u : option nat)
    (template : LoadedTemplate) (r : TemplateDetailResponse) (db' : Store) :
  db_wf db ->
  get_by_id_with_details db template_id = Some template ->
  update_template db template_id p u = (inr r, db') ->
  areas_soft_deleted (lt_areas template) (payload_areas p) db' /\
  get_template_detail db' template_id = inr r /\
  (forall a, In a (lt_areas template) ->
             omitted area_id (payload_areas p) (la_id a) ->
             area_subtree_inactive db' a /\
             forall template_id' r',
               get_template_detail db' template_id' = inr r' ->
               area_subtree_hidden r' a) /\
  (forall template_id' r',
     get_template_detail db' template_id' = inr r' ->
     (forall i, inactive_in (audit_areas db') i -> ~ In i (area_ids_of r')) /\
     (forall i, inactive_in (audit_scopes db') i -> ~ In i (scope_ids_of r')) /\
     (forall i, inactive_in (audit_questions db') i -> ~ In i (question_ids_of r')) /\
     (forall i, inactive_in (audit_question_options db') i ->
                ~ In i (option_ids_of r'))) /\
  omitted_areas_inactive_along_active_rows db template_id (payload_areas p) db'.
Proof.
  intros Hwf Hload Hupd.
  destruct (update_template_committed _ _ _ _ _ _ _ Hload Hupd) as [Hdb Hread].
  assert (Hsoft : areas_soft_deleted (lt_areas template) (payload_areas p) db').
  { rewrite Hdb. apply (merge_areas_spec u (next_id db)); [|apply Nat.le_refl].
    intros a Ha. unfold get_by_id_with_details in Hload.
    destruct (find (fun t => (row_id t =? template_id)%nat) (audit_templates db));
      [|discriminate].
    inversion Hload; subst template. simpl in Ha.
    eapply load_areas_below; eassumption. }
  split; [exact Hsoft|]. split; [|split; [|split]].
  - apply reload_detail_is_detail. exact Hread.
  - intros a Ha Hom. pose proof (proj1 Hsoft a Ha Hom) as Hinact.
    split; [exact Hinact|]. intros tid' r' Hr'.
    eapply inactive_area_subtree_hidden; eassumption.
  - intros tid' r' Hr'. repeat split; intros i Hi Hshown.
    + exact (inactive_not_shown _ _ Hi (shown_area_is_active _ _ _ _ Hr' Hshown)).
    + exact (inactive_not_shown _ _ Hi (shown_scope_is_active _ _ _ _ Hr' Hshown)).
    + exact (inactive_not_shown _ _ Hi (shown_question_is_active _ _ _ _ Hr' Hshown)).
    + exact (inactive_not_shown _ _ Hi (shown_option_is_active _ _ _ _ Hr' Hshown)).
  - assert (Hareas : lt_areas template = load_areas db template_id).
    { unfold get_by_id_with_details in Hload.
      destruct (find (fun t => (row_id t =? template_id)%nat) (audit_templates db));
        [|discriminate].
      inversion Hload. reflexivity. }
    intros a Ha Hp Hact Hom.
    destruct (proj1 Hsoft {| la_row := a; la_scopes := load_scopes db (row_id a) |})
      as [Hoff Hscopes].
    { rewrite Hareas. apply loaded_area_of_row; assumption. }
    { exact Hom. }
    split; [exact Hoff|]. intros s Hs Hsp Hsact.
    destruct (Hscopes {| ls_row := s;
                         ls_questions := load_questions db (row_id s) |})
      as [Hsoff Hquestions].
    { apply loaded_scope_of_row; assumption. }
    split; [exact Hsoff|]. intros q Hq Hqp Hqact.
    destruct (Hquestions {| lq_row := q;
                            lq_options := load_options db (row_id q) |})
      as [Hqoff Hoptions].
    { apply loaded_question_of_row; assumption. }
    split; [exact Hqoff|]. intros o Ho Hop Hoact.
    apply Hoptions. apply loaded_option_of_row; assumption.
Qed.

Lemma update_template_cascading_soft_delete_witness :
  map la_id (load_areas round_trip_store 1) = [2%nat] /\
  forall a, In a (load_areas round_trip_store 1) ->
    area_subtree_inactive replaced_area_store a /\
    forall template_id r,
      get_template_detail replaced_area_store template_id = inr r ->
      area_subtree_hidden r a.
Proof.
  split; [reflexivity|]. intros a Ha.
  edestruct (update_template_cascading_soft_delete round_trip_store 1
               (round_trip_payload "T") None) as (_ & _ & Hareas & _).
  - vm_compute. reflexivity.
  - vm_compute. reflexivity.
  - vm_compute. reflexivity.
  - vm_compute in Ha. destruct Ha as [<-|[]].
    apply Hareas; [left; reflexivity | vm_compute; reflexivity].
Defined.

(** ** Reconciliation: matching by identity *)

Section Frames.

Variable u : option nat.

Lemma fold_related {A} (R : Store -> Store -> Prop) (f : Store -> A -> Store)
    (l : list A) :
  (forall d, R d d) ->
  (forall d1 d2 d3, R d1 d2 -> R d2 d3 -> R d1 d3) ->
  (forall d x, R d (f d x)) ->
  forall db, R db (fold_left f l db).
Proof.
  intros Hrefl Htrans Hstep. induction l as [|x l IH]; intro db; simpl.
  - apply Hrefl.
  - eapply Htrans; [apply Hstep | apply IH].
Qed.

Lemma same_above_options_refl d : same_above_options d d.
Proof. repeat split. Qed.

Lemma same_above_options_trans d1 d2 d3 :
  same_above_options d1 d2 -> same_above_options d2 d3 -> same_above_options d1 d3.
Proof. unfold same_above_options. intuition congruence. Qed.

Lemma same_above_questions_refl d : same_above_questions d d.
Proof. repeat split. Qed.

Lemma same_above_questions_trans d1 d2 d3 :
  same_above_questions d1 d2 -> same_above_questions d2 d3 ->
  same_above_questions d1 d3.
Proof. unfold same_above_questions. intuition congruence. Qed.

Lemma same_above_scopes_trans d1 d2 d3 :
  same_above_scopes d1 d2 -> same_above_scopes d2 d3 -> same_above_scopes d1 d3.
Proof. unfold same_above_scopes. congruence. Qed.

Lemma options_weaken d d' : same_above_options d d' -> same_above_questions d d'.
Proof. unfold same_above_options, same_above_questions. tauto. Qed.

Lemma questions_weaken d d' : same_above_questions d d' -> same_above_scopes d d'.
Proof. unfold same_above_questions, same_above_scopes. tauto. Qed.

Lemma frame_cascade_options os db :
  same_above_options db (cascade_options u os db).
Proof.
  unfold cascade_options. apply (fold_related same_above_options);
    [apply same_above_options_refl | apply same_above_options_trans |].
  intros d o. repeat split.
Qed.

Lemma frame_soft_delete_missing_options ex ids db :
  same_above_options db (soft_delete_missing_options u ex ids db).
Proof.
  unfold soft_delete_missing_options.
  apply (fold_related same_above_options);
    [apply same_above_options_refl | apply same_above_options_trans |].
  intros d o. destruct (id_in _ _); repeat split.
Qed.

Lemma frame_merge_options qid ex ops db :
  same_above_options db (merge_options u qid ex ops db).
Proof.
  unfold merge_options. eapply same_above_options_trans.
  - apply frame_soft_delete_missing_options.
  - apply (fold_related same_above_options);
      [apply same_above_options_refl | apply same_above_options_trans |].
    intros d op. unfold merge_option. destruct (lookup _ _ _); repeat split.
Qed.

Lemma frame_merge_question sid ex db qp :
  same_above_questions db (merge_question u sid ex db qp).
Proof.
  unfold merge_question. destruct (lookup _ _ _) as [q|].
  - eapply same_above_questions_trans;
      [|apply options_weaken, frame_merge_options]. repeat split.
  - simpl. eapply same_above_questions_trans;
      [|apply options_weaken, frame_merge_options]. repeat split.
Qed.

Lemma frame_cascade_questions qs db :
  same_above_questions db (cascade_questions u qs db).
Proof.
  unfold cascade_questions. apply (fold_related same_above_questions);
    [apply same_above_questions_refl | apply same_above_questions_trans |].
  intros d q. eapply same_above_questions_trans;
    [|apply options_weaken, frame_cascade_options]. repeat split.
Qed.

Lemma frame_soft_delete_missing_questions ex ids db :
  same_above_questions db (soft_delete_missing_questions u ex ids db).
Proof.
  unfold soft_delete_missing_questions.
  apply (fold_related same_above_questions);
    [apply same_above_questions_refl | apply same_above_questions_trans |].
  intros d q. destruct (id_in _ _); [repeat split|].
  eapply same_above_questions_trans;
    [|apply options_weaken, frame_cascade_options]. repeat split.
Qed.

Lemma frame_merge_questions sid ex qps db :
  same_above_questions db (merge_questions u sid ex qps db).
Proof.
  unfold merge_questions. eapply same_above_questions_trans.
  - apply frame_soft_delete_missing_questions.
  - apply (fold_related same_above_questions);
      [apply same_above_questions_refl | apply same_above_questions_trans |].
    intros d qp. apply frame_merge_question.
Qed.

Lemma frame_merge_scope aid ex db sp :
  same_above_scopes db (merge_scope u aid ex db sp).
Proof.
  unfold merge_scope. destruct (lookup _ _ _) as [s|].
  - eapply same_above_scopes_trans;
      [|apply questions_weaken, frame_merge_questions]. reflexivity.
  - simpl. eapply same_above_scopes_trans;
      [|apply questions_weaken, frame_merge_questions]. reflexivity.
Qed.

Lemma frame_soft_delete_missing_scopes ex ids db :
  same_above_scopes db (soft_delete_missing_scopes u ex ids db).
Proof.
  unfold soft_delete_missing_scopes.
  apply (fold_related same_above_scopes);
    [reflexivity | apply same_above_scopes_trans |].
  intros d s. destruct (id_in _ _); [reflexivity|].
  eapply same_above_scopes_trans;
    [|apply questions_weaken, frame_cascade_questions]. reflexivity.
Qed.

Lemma frame_merge_scopes aid ex sps db :
  same_above_scopes db (merge_scopes u aid ex sps db).
Proof.
  unfold merge_scopes. eapply same_above_scopes_trans.
  - apply frame_soft_delete_missing_scopes.
  - apply (fold_related same_above_scopes);
      [reflexivity | apply same_above_scopes_trans |].
    intros d sp. apply frame_merge_scope.
Qed.

Lemma lookup_matched {N} (key : N -> nat) (pid : option nat) (ex : list N) :
  carries_persisted_id key pid ex ->
  exists x, lookup key pid ex = Some x /\ In x ex /\ pid = Some (key x).
Proof.
  intros [i [x [-> [Hin Hk]]]]. unfold lookup.
  destruct (find (fun n => (key n =? i)%nat) ex) as [y|] eqn:E.
  - exists y. apply find_some in E. destruct E as [Hy Hyk].
    apply Nat.eqb_eq in Hyk. subst i. rewrite Hyk. auto.
  - pose proof (find_none _ ex E x Hin) as H. simpl in H.
    apply Nat.eqb_neq in H. contradiction.
Qed.

Lemma lookup_unmatched {N} (key : N -> nat) (pid : option nat) (ex : list N) :
  ~ carries_persisted_id key pid ex -> lookup key pid ex = None.
Proof.
  intro H. destruct (lookup key pid ex) as [x|] eqn:E; [|reflexivity].
  exfalso. apply H. apply lookup_In in E. destruct E as [Hin ->].
  exists (key x), x. auto.
Qed.

Lemma on_row_modified_keeps {F} (i : nat) (g : F -> F) (t : list (Row F)) :
  map row_id (on_row i (modified g u) t) = map row_id t
  /\ map isactive (on_row i (modified g u) t) = map isactive t.
Proof.
  unfold on_row. rewrite !map_map. split; apply map_ext; intro r;
    destruct (row_id r =? i)%nat; reflexivity.
Qed.

End Frames.

(** ** Reconciliation: matching by identity, on the store an update leaves *)

Section RowsWritten.

Context {F I : Type} (get_id : I -> option nat) (set : I -> F -> F).
Hypothesis set_twice : forall a b c, set b (set a c) = set b c.
Variables (items : list I) (n : nat).









End RowsWritten.

Section Merged.

Variable u : option nat.
Variable n : nat.
Variable areas : list AreaUpdateNested.




















End Merged.

Section MergedOperations.

Variable u : option nat.
Variable n : nat.
Variable areas : list AreaUpdateNested.























End MergedOperations.

Section Matching.

Variable u : option nat.
Variable n : nat.
Variable areas : list AreaUpdateNested.
Variable db0 : Store.












End Matching.

Section Counting.

Variable u : option nat.
































End Counting.

Section LoadedRows.

Variable db : Store.
Hypothesis db_ok : db_wf db.





End LoadedRows.

(** An item creates a row unless it carries the id of a persisted node of
    its level; nothing else of the item is looked at. *)
Lemma creates_by_identity {N} (key : N -> nat) (pid : option nat) (ex : list N) :
  creates key pid ex = false <-> carries_persisted_id key pid ex.
Proof.
  unfold creates. split.
  - destruct (lookup key pid ex) as [x|] eqn:E; [|discriminate].
    intros _. apply lookup_In in E. destruct E as [Hin ->].
    exists (key x), x. auto.
  - intro H. destruct (lookup_matched _ _ _ H) as [x [-> _]]. reflexivity.
Qed.

(** When one item only carries the id, the row holds that item's values. *)
Lemma updated_by_the_item {F I} (get_id : I -> option nat) (set : I -> F -> F)
    (items : list I) (t : list (Row F)) (old : Row F) (it : I) :
  updated_in_place get_id set items t old ->
  (forall it', In it' items -> get_id it' = Some (row_id old) -> it' = it) ->
  exists row, In row t /\ row_id row = row_id old
              /\ cols row = set it (cols old).
Proof.
  intros (row & it' & Hin & Hid & Hit & Hg & Hc) Hone.
  exists row. rewrite <- (Hone it' Hit Hg). auto.
Qed.



(** ** The store invariant is kept by every write operation *)

Section WellFormed.

Lemma db_wf_iff db :
  db_wf db <->
  rows_below (fun _ => 0%nat) (next_id db) (audit_templates db) = true
  /\ rows_below col_template_id (next_id db) (audit_areas db) = true
  /\ rows_below col_area_id (next_id db) (audit_scopes db) = true
  /\ rows_below col_scope_id (next_id db) (audit_questions db) = true
  /\ rows_below col_question_id (next_id db) (audit_question_options db) = true
  /\ (0 < next_id db)%nat.
Proof.
  unfold db_wf, db_wfb. rewrite !andb_true_iff, Nat.ltb_lt. tauto.
Qed.

Lemma rows_below_intro {F} (parent : F -> nat) (n : nat) (t : list (Row F)) :
  (forall r, In r t -> (row_id r < n)%nat /\ (parent (cols r) < n)%nat) ->
  rows_below parent n t = true.
Proof.
  intro H. unfold rows_below. apply forallb_forall. intros r Hr.
  destruct (H r Hr) as [H1 H2].
  apply andb_true_iff. split; apply Nat.ltb_lt; assumption.
Qed.

Lemma rows_below_mono {F} (parent : F -> nat) (n m : nat) (t : list (Row F)) :
  (n <= m)%nat -> rows_below parent n t = true -> rows_below parent m t = true.
Proof.
  intros Hnm H. apply rows_below_intro. intros r Hr.
  destruct (rows_below_In parent n t r H Hr). lia.
Qed.

Lemma rows_below_add {F} (parent : F -> nat) (n i : nat) (c : F) (u : option nat)
    (t : list (Row F)) :
  rows_below parent n t = true -> (i < n)%nat -> (parent c < n)%nat ->
  rows_below parent n (t ++ [new_row i c u]) = true.
Proof.
  intros H Hi Hc. apply rows_below_intro. intros r Hr.
  apply in_app_or in Hr. destruct Hr as [Hr|[<-|[]]].
  - exact (rows_below_In parent n t r H Hr).
  - simpl. split; assumption.
Qed.

Lemma rows_below_on_row {F} (parent : F -> nat) (n j : nat) (f : Row F -> Row F)
    (t : list (Row F)) :
  (forall r, row_id (f r) = row_id r /\ parent (cols (f r)) = parent (cols r)) ->
  rows_below parent n t = true -> rows_below parent n (on_row j f t) = true.
Proof.
  intros Hf H. apply rows_below_intro. intros r Hr.
  unfold on_row in Hr. apply in_map_iff in Hr. destruct Hr as [r0 [<- Hr0]].
  pose proof (rows_below_In parent n t r0 H Hr0) as Hb.
  destruct (row_id r0 =? j)%nat; [|exact Hb].
  destruct (Hf r0) as [-> ->]. exact Hb.
Qed.

Lemma wf_deactivate_area i u db : db_wf db -> db_wf (deactivate_area i u db).
Proof.
  rewrite !db_wf_iff. simpl. intros (Ht & Ha & Hs & Hq & Ho & Hn).
  repeat split; try assumption. apply rows_below_on_row; [|exact Ha].
  intro r; split; reflexivity.
Qed.

Lemma wf_deactivate_scope i u db : db_wf db -> db_wf (deactivate_scope i u db).
Proof.
  rewrite !db_wf_iff. simpl. intros (Ht & Ha & Hs & Hq & Ho & Hn).
  repeat split; try assumption. apply rows_below_on_row; [|exact Hs].
  intro r; split; reflexivity.
Qed.

Lemma wf_deactivate_question i u db : db_wf db -> db_wf (deactivate_question i u db).
Proof.
  rewrite !db_wf_iff. simpl. intros (Ht & Ha & Hs & Hq & Ho & Hn).
  repeat split; try assumption. apply rows_below_on_row; [|exact Hq].
  intro r; split; reflexivity.
Qed.

Lemma wf_deactivate_option i u db : db_wf db -> db_wf (deactivate_option i u db).
Proof.
  rewrite !db_wf_iff. simpl. intros (Ht & Ha & Hs & Hq & Ho & Hn).
  repeat split; try assumption. apply rows_below_on_row; [|exact Ho].
  intro r; split; reflexivity.
Qed.

Lemma wf_add_template name u db : db_wf db -> db_wf (snd (add_template name u db)).
Proof.
  rewrite !db_wf_iff. simpl. intros (Ht & Ha & Hs & Hq & Ho & Hn).
  repeat split; try (eapply rows_below_mono; [|eassumption]; lia); [|lia].
  apply rows_below_add; [|lia|lia]. eapply rows_below_mono; [|exact Ht]. lia.
Qed.

Lemma wf_add_area tid name w u db :
  db_wf db -> (tid < next_id db)%nat -> db_wf (snd (add_area tid name w u db)).
Proof.
  rewrite !db_wf_iff. simpl. intros (Ht & Ha & Hs & Hq & Ho & Hn) Hp.
  repeat split; try (eapply rows_below_mono; [|eassumption]; lia); [|lia].
  apply rows_below_add; [|lia|simpl; lia]. eapply rows_below_mono; [|exact Ha]. lia.
Qed.

Lemma wf_add_scope aid name u db :
  db_wf db -> (aid < next_id db)%nat -> db_wf (snd (add_scope aid name u db)).
Proof.
  rewrite !db_wf_iff. simpl. intros (Ht & Ha & Hs & Hq & Ho & Hn) Hp.
  repeat split; try (eapply rows_below_mono; [|eassumption]; lia); [|lia].
  apply rows_below_add; [|lia|simpl; lia]. eapply rows_below_mono; [|exact Hs]. lia.
Qed.

Lemma wf_add_question sid text pct m u db :
  db_wf db -> (sid < next_id db)%nat ->
  db_wf (snd (add_question sid text pct m u db)).
Proof.
  rewrite !db_wf_iff. simpl. intros (Ht & Ha & Hs & Hq & Ho & Hn) Hp.
  repeat split; try (eapply rows_below_mono; [|eassumption]; lia); [|lia].
  apply rows_below_add; [|lia|simpl; lia]. eapply rows_below_mono; [|exact Hq]. lia.
Qed.

Lemma wf_add_option qid label v u db :
  db_wf db -> (qid < next_id db)%nat ->
  db_wf (snd (add_option qid label v u db)).
Proof.
  rewrite !db_wf_iff. simpl. intros (Ht & Ha & Hs & Hq & Ho & Hn) Hp.
  repeat split; try (eapply rows_below_mono; [|eassumption]; lia); [|lia].
  apply rows_below_add; [|lia|simpl; lia]. eapply rows_below_mono; [|exact Ho]. lia.
Qed.

(** A loop keeps an invariant that each of its steps keeps. *)
Lemma fold_invariant {A S} (I : S -> Prop) (f : S -> A -> S) (l : list A) :
  (forall d x, In x l -> I d -> I (f d x)) ->
  forall db, I db -> I (fold_left f l db).
Proof.
  induction l as [|x l IH]; intros Hf db Hdb; simpl; [exact Hdb|].
  apply IH.
  - intros d y Hy. apply Hf. right; exact Hy.
  - apply Hf; [left; reflexivity | exact Hdb].
Qed.

End WellFormed.

Section MergeWellFormed.

Variable u : option nat.

Lemma wf_from_weaken k k' d : (k' <= k)%nat -> wf_from k d -> wf_from k' d.
Proof. intros Hk [Hwf Hn]. split; [exact Hwf | lia]. Qed.

Lemma wf_modify_area i p db :
  db_wf db -> db_wf (with_areas (on_row i (modified (set_area_columns p) u)) db).
Proof.
  rewrite !db_wf_iff. simpl. intros (Ht & Ha & Hs & Hq & Ho & Hn).
  repeat split; try assumption. apply rows_below_on_row; [|exact Ha].
  intro r; split; reflexivity.
Qed.

Lemma wf_modify_scope i p db :
  db_wf db -> db_wf (with_scopes (on_row i (modified (set_scope_columns p) u)) db).
Proof.
  rewrite !db_wf_iff. simpl. intros (Ht & Ha & Hs & Hq & Ho & Hn).
  repeat split; try assumption. apply rows_below_on_row; [|exact Hs].
  intro r; split; reflexivity.
Qed.

Lemma wf_modify_question i p db :
  db_wf db ->
  db_wf (with_questions (on_row i (modified (set_question_columns p) u)) db).
Proof.
  rewrite !db_wf_iff. simpl. intros (Ht & Ha & Hs & Hq & Ho & Hn).
  repeat split; try assumption. apply rows_below_on_row; [|exact Hq].
  intro r; split; reflexivity.
Qed.

Lemma wf_modify_option i p db :
  db_wf db ->
  db_wf (with_options (on_row i (modified (set_option_columns p) u)) db).
Proof.
  rewrite !db_wf_iff. simpl. intros (Ht & Ha & Hs & Hq & Ho & Hn).
  repeat split; try assumption. apply rows_below_on_row; [|exact Ho].
  intro r; split; reflexivity.
Qed.

Lemma wf_rename_template i name db :
  db_wf db -> db_wf (rename_template i name u db).
Proof.
  rewrite !db_wf_iff. simpl. intros (Ht & Ha & Hs & Hq & Ho & Hn).
  repeat split; try assumption. apply rows_below_on_row; [|exact Ht].
  intro r; split; reflexivity.
Qed.

Lemma wf_cascade_options k os d :
  wf_from k d -> wf_from k (cascade_options u os d).
Proof.
  unfold cascade_options. apply fold_invariant. intros d' o _ [Hwf Hk].
  split; [apply wf_deactivate_option; exact Hwf | exact Hk].
Qed.

Lemma wf_cascade_questions k qs d :
  wf_from k d -> wf_from k (cascade_questions u qs d).
Proof.
  unfold cascade_questions. apply fold_invariant. intros d' q _ [Hwf Hk].
  apply wf_cascade_options.
  split; [apply wf_deactivate_question; exact Hwf | exact Hk].
Qed.

Lemma wf_cascade_scopes k ss d :
  wf_from k d -> wf_from k (cascade_scopes u ss d).
Proof.
  unfold cascade_scopes. apply fold_invariant. intros d' s _ [Hwf Hk].
  apply wf_cascade_questions.
  split; [apply wf_deactivate_scope; exact Hwf | exact Hk].
Qed.

Lemma wf_merge_options k qid ex ops d :
  wf_from k d -> (qid < k)%nat -> wf_from k (merge_options u qid ex ops d).
Proof.
  intros Hd Hq. unfold merge_options. apply fold_invariant.
  - intros d' op _ [Hwf Hk]. unfold merge_option.
    destruct (lookup row_id (option_id op) ex).
    + split; [apply wf_modify_option; exact Hwf | exact Hk].
    + split; [apply wf_add_option; [exact Hwf | lia] | simpl; lia].
  - unfold soft_delete_missing_options. apply fold_invariant; [|exact Hd].
    intros d' o _ [Hwf Hk]. destruct (id_in _ _); [split; assumption|].
    split; [apply wf_deactivate_option; exact Hwf | exact Hk].
Qed.

Lemma wf_merge_questions k sid ex qps d :
  wf_from k d -> (sid < k)%nat ->
  (forall q, In q ex -> (lq_id q < k)%nat) ->
  wf_from k (merge_questions u sid ex qps d).
Proof.
  intros Hd Hs Hex. unfold merge_questions. apply fold_invariant.
  - intros d' qp _ [Hwf Hk]. unfold merge_question.
    destruct (lookup lq_id (question_id qp) ex) as [q|] eqn:E.
    + apply wf_merge_options.
      * split; [apply wf_modify_question; exact Hwf | exact Hk].
      * apply Hex. exact (proj1 (lookup_In _ _ _ _ E)).
    + simpl. apply (wf_from_weaken (S (next_id d'))); [lia|].
      apply wf_merge_options; [|lia].
      split; [apply (wf_add_question sid); [exact Hwf | lia] | simpl; lia].
  - unfold soft_delete_missing_questions. apply fold_invariant; [|exact Hd].
    intros d' q _ Hd'. destruct (id_in _ _); [exact Hd'|].
    apply wf_cascade_options. destruct Hd' as [Hwf Hk].
    split; [apply wf_deactivate_question; exact Hwf | exact Hk].
Qed.

Lemma wf_merge_scopes k aid ex sps d :
  wf_from k d -> (aid < k)%nat ->
  (forall s, In s ex -> scope_below k s) ->
  wf_from k (merge_scopes u aid ex sps d).
Proof.
  intros Hd Ha Hex. unfold merge_scopes. apply fold_invariant.
  - intros d' sp _ [Hwf Hk]. unfold merge_scope.
    destruct (lookup ls_id (scope_id sp) ex) as [s|] eqn:E.
    + destruct (Hex s (proj1 (lookup_In _ _ _ _ E))) as [Hs Hq].
      apply wf_merge_questions; [|exact Hs|].
      * split; [apply wf_modify_scope; exact Hwf | exact Hk].
      * intros q Hin. exact (proj1 (Hq q Hin)).
    + simpl. apply (wf_from_weaken (S (next_id d'))); [lia|].
      apply wf_merge_questions; [|lia|intros q []].
      split; [apply (wf_add_scope aid); [exact Hwf | lia] | simpl; lia].
  - unfold soft_delete_missing_scopes. apply fold_invariant; [|exact Hd].
    intros d' s _ Hd'. destruct (id_in _ _); [exact Hd'|].
    apply wf_cascade_questions. destruct Hd' as [Hwf Hk].
    split; [apply wf_deactivate_scope; exact Hwf | exact Hk].
Qed.

Lemma wf_merge_areas k tid ex aps d :
  wf_from k d -> (tid < k)%nat ->
  (forall a, In a ex -> area_below k a) ->
  wf_from k (merge_areas u tid ex aps d).
Proof.
  intros Hd Ht Hex. unfold merge_areas. apply fold_invariant.
  - intros d' ap _ [Hwf Hk]. unfold merge_area.
    destruct (lookup la_id (area_id ap) ex) as [a|] eqn:E.
    + destruct (Hex a (proj1 (lookup_In _ _ _ _ E))) as [Ha Hs].
      apply wf_merge_scopes; [|exact Ha|exact Hs].
      split; [apply wf_modify_area; exact Hwf | exact Hk].
    + simpl. apply (wf_from_weaken (S (next_id d'))); [lia|].
      apply wf_merge_scopes; [|lia|intros s []].
      split; [apply (wf_add_area tid); [exact Hwf | lia] | simpl; lia].
  - unfold soft_delete_missing_areas. apply fold_invariant; [|exact Hd].
    intros d' a _ Hd'. destruct (id_in _ _); [exact Hd'|].
    apply wf_cascade_scopes. destruct Hd' as [Hwf Hk].
    split; [apply wf_deactivate_area; exact Hwf | exact Hk].
Qed.

(** [update_template] keeps the store well formed, whatever its outcome. *)
Lemma update_template_keeps_wf db template_id p :
  db_wf db -> db_wf (snd (update_template db template_id p u)).
Proof.
  intro Hwf. unfold update_template.
  destruct (get_by_id_with_details db template_id) as [template|] eqn:Hload;
    [|exact Hwf].
  destruct (check_name_change db template (payload_name p);;;
            Validator.validate_all_constraints (payload_areas p)) as [e|[]];
    [exact Hwf|].
  simpl. unfold get_by_id_with_details in Hload.
  destruct (find (fun t => (row_id t =? template_id)%nat) (audit_templates db))
    as [t|] eqn:Hfind; [|discriminate].
  inversion Hload; subst template. simpl.
  apply find_some in Hfind. destruct Hfind as [Hin Hid].
  apply Nat.eqb_eq in Hid.
  destruct (db_wf_tables db Hwf) as (Ht & _).
  destruct (rows_below_In _ _ _ _ Ht Hin) as [Hlt _].
  apply (wf_merge_areas (next_id db)).
  - split; [apply wf_rename_template; exact Hwf | apply Nat.le_refl].
  - lia.
  - intros a Ha. eapply load_areas_below; eassumption.
Qed.

End MergeWellFormed.

Section CreateWellFormed.

Variable u : option nat.

Lemma create_with_tree_keeps_wf name areas db :
  db_wf db -> db_wf (snd (create_with_tree name areas u db)).
Proof.
  intro Hwf. unfold create_with_tree.
  destruct (add_template name u db) as [tid db0] eqn:E0.
  assert (H0 : db_wf db0 /\ (tid < next_id db0)%nat).
  { pose proof (wf_add_template name u db Hwf) as H. rewrite E0 in H.
    split; [exact H|]. inversion E0; subst. simpl. lia. }
  clear E0 Hwf. destruct H0 as [Hwf0 Htid].
  (* areas *)
  match goal with
  | |- context [fold_left ?f areas ([], db0)] =>
      assert (H1 : (fun st : list (AreaUpdateNested * nat) * Store =>
                      db_wf (snd st) /\ (tid < next_id (snd st))%nat
                      /\ forall x i, In (x, i) (fst st) ->
                                     (i < next_id (snd st))%nat)
                     (fold_left f areas ([], db0)));
      [ apply fold_invariant | destruct (fold_left f areas ([], db0))
                                 as [area_objects db1] ]
  end.
  { intros [acc d] a _ (Hd & Ht & Hacc). simpl in *. repeat split.
    - apply wf_add_area; assumption.
    - lia.
    - intros x i Hin. apply in_app_or in Hin.
      destruct Hin as [Hin|[Heq|[]]]; [specialize (Hacc x i Hin); lia|].
      inversion Heq; subst. lia. }
  { simpl. repeat split; [assumption | assumption | intros x i []]. }
  simpl in H1. destruct H1 as (Hwf1 & _ & Hobj1).
  (* scopes *)
  match goal with
  | |- context [fold_left ?f area_objects ([], db1)] =>
      assert (H2 : (fun st : list (ScopeUpdateNested * nat) * Store =>
                      db_wf (snd st) /\ (next_id db1 <= next_id (snd st))%nat
                      /\ forall x i, In (x, i) (fst st) ->
                                     (i < next_id (snd st))%nat)
                     (fold_left f area_objects ([], db1)));
      [ apply fold_invariant | destruct (fold_left f area_objects ([], db1))
                                 as [scope_objects db2] ]
  end.
  { intros st [a aid] Ha Hst.
    apply (fold_invariant
      (fun st : list (ScopeUpdateNested * nat) * Store =>
         db_wf (snd st) /\ (next_id db1 <= next_id (snd st))%nat
         /\ forall x i, In (x, i) (fst st) -> (i < next_id (snd st))%nat));
      [|exact Hst].
    intros [acc d] sp _ (Hd & Hn & Hacc). simpl in *.
    pose proof (Hobj1 a aid Ha) as Haid. repeat split.
    - apply wf_add_scope; [assumption | lia].
    - lia.
    - intros x i Hin. apply in_app_or in Hin.
      destruct Hin as [Hin|[Heq|[]]]; [specialize (Hacc x i Hin); lia|].
      inversion Heq; subst. lia. }
  { simpl. repeat split; [assumption | lia | intros x i []]. }
  simpl in H2. destruct H2 as (Hwf2 & _ & Hobj2).
  (* questions *)
  match goal with
  | |- context [fold_left ?f scope_objects ([], db2)] =>
      assert (H3 : (fun st : list (QuestionUpdateNested * nat) * Store =>
                      db_wf (snd st) /\ (next_id db2 <= next_id (snd st))%nat
                      /\ forall x i, In (x, i) (fst st) ->
                                     (i < next_id (snd st))%nat)
                     (fold_left f scope_objects ([], db2)));
      [ apply fold_invariant | destruct (fold_left f scope_objects ([], db2))
                                 as [question_objects db3] ]
  end.
  { intros st [sp sid] Hs Hst.
    apply (fold_invariant
      (fun st : list (QuestionUpdateNested * nat) * Store =>
         db_wf (snd st) /\ (next_id db2 <= next_id (snd st))%nat
         /\ forall x i, In (x, i) (fst st) -> (i < next_id (snd st))%nat));
      [|exact Hst].
    intros [acc d] qp _ (Hd & Hn & Hacc). simpl in *.
    pose proof (Hobj2 sp sid Hs) as Hsid. repeat split.
    - apply wf_add_question; [assumption | lia].
    - lia.
    - intros x i Hin. apply in_app_or in Hin.
      destruct Hin as [Hin|[Heq|[]]]; [specialize (Hacc x i Hin); lia|].
      inversion Heq; subst. lia. }
  { simpl. repeat split; [assumption | lia | intros x i []]. }
  simpl in H3. destruct H3 as (Hwf3 & _ & Hobj3).
  (* options *)
  simpl.
  apply (fold_invariant (fun d => db_wf d /\ (next_id db3 <= next_id d)%nat));
    [|split; [assumption | lia]].
  intros d [qp qid] Hq Hd.
  apply (fold_invariant (fun d => db_wf d /\ (next_id db3 <= next_id d)%nat));
    [|exact Hd].
  intros d' op _ [Hd' Hn]. pose proof (Hobj3 qp qid Hq) as Hqid. split.
  - apply wf_add_option; [assumption | lia].
  - simpl. lia.
Qed.

Lemma create_template_keeps_wf db p :
  db_wf db -> db_wf (snd (create_template db p u)).
Proof.
  intro Hwf. unfold create_template.
  destruct (check_name_free db (payload_name p);;;
            Validator.validate_all_constraints (payload_areas p)); [exact Hwf|].
  pose proof (create_with_tree_keeps_wf (payload_name p) (payload_areas p) db Hwf).
  destruct (create_with_tree (payload_name p) (payload_areas p) u db).
  assumption.
Qed.

Lemma clone_template_keeps_wf db template_id p :
  db_wf db -> db_wf (snd (clone_template db template_id p u)).
Proof.
  intro Hwf. unfold clone_template.
  destruct (get_by_id db template_id); [|exact Hwf].
  destruct (check_name_free db (payload_name p);;;
            Validator.validate_all_constraints (payload_areas p)); [exact Hwf|].
  pose proof (create_with_tree_keeps_wf (payload_name p) (payload_areas p) db Hwf).
  destruct (create_with_tree (payload_name p) (payload_areas p) u db).
  assumption.
Qed.

Lemma seed_default_template_keeps_wf db :
  db_wf db -> db_wf (snd (seed_default_template db u)).
Proof.
  intro Hwf. unfold seed_default_template.
  destruct (get_by_name db DEFAULT_TEMPLATE_NAME) as [e|[t|]]; try exact Hwf.
  pose proof (create_with_tree_keeps_wf DEFAULT_TEMPLATE_NAME DEFAULT_AREAS db Hwf).
  destruct (create_with_tree DEFAULT_TEMPLATE_NAME DEFAULT_AREAS u db).
  assumption.
Qed.

Lemma delete_template_keeps_wf db template_id :
  db_wf db -> db_wf (snd (delete_template db template_id u)).
Proof.
  intro Hwf. unfold delete_template.
  destruct (get_by_id db template_id); [|exact Hwf].
  revert Hwf. simpl. rewrite !db_wf_iff. simpl.
  intros (Ht & Ha & Hs & Hq & Ho & Hn).
  repeat split; try assumption. apply rows_below_on_row; [|exact Ht].
  intro r; split; reflexivity.
Qed.

Lemma delete_area_keeps_wf db area_id :
  db_wf db -> db_wf (snd (delete_area db area_id u)).
Proof.
  intro Hwf. unfold delete_area.
  destruct (area_get_by_id db area_id); [|exact Hwf].
  apply wf_deactivate_area. exact Hwf.
Qed.

End CreateWellFormed.

(** ** The template names stay pairwise distinct *)

Section TemplateNames.

Variable u : option nat.

Lemma same_templates_trans d1 d2 d3 :
  same_templates d1 d2 -> same_templates d2 d3 -> same_templates d1 d3.
Proof. unfold same_templates. congruence. Qed.

Ltac frame_loop :=
  apply (fold_related same_templates);
  [reflexivity | apply same_templates_trans |].

Lemma templates_cascade_options os db :
  same_templates db (cascade_options u os db).
Proof. unfold cascade_options. frame_loop. reflexivity. Qed.

Lemma templates_cascade_questions qs db :
  same_templates db (cascade_questions u qs db).
Proof.
  unfold cascade_questions. frame_loop. intros d q.
  eapply same_templates_trans; [|apply templates_cascade_options]. reflexivity.
Qed.

Lemma templates_cascade_scopes ss db :
  same_templates db (cascade_scopes u ss db).
Proof.
  unfold cascade_scopes. frame_loop. intros d s.
  eapply same_templates_trans; [|apply templates_cascade_questions]. reflexivity.
Qed.

Lemma templates_merge_options qid ex ops db :
  same_templates db (merge_options u qid ex ops db).
Proof.
  unfold merge_options.
  apply (same_templates_trans _
           (soft_delete_missing_options u ex (supplied_ids option_id ops) db)).
  - unfold soft_delete_missing_options. frame_loop.
    intros d o. destruct (id_in _ _); reflexivity.
  - frame_loop. intros d op. unfold merge_option.
    destruct (lookup _ _ _); reflexivity.
Qed.

Lemma templates_merge_questions sid ex qps db :
  same_templates db (merge_questions u sid ex qps db).
Proof.
  unfold merge_questions.
  apply (same_templates_trans _
           (soft_delete_missing_questions u ex (supplied_ids question_id qps) db)).
  - unfold soft_delete_missing_questions. frame_loop.
    intros d q. destruct (id_in _ _); [reflexivity|].
    eapply same_templates_trans; [|apply templates_cascade_options]. reflexivity.
  - frame_loop. intros d qp. unfold merge_question.
    destruct (lookup _ _ _); simpl;
      (eapply same_templates_trans; [|apply templates_merge_options]);
      reflexivity.
Qed.

Lemma templates_merge_scopes aid ex sps db :
  same_templates db (merge_scopes u aid ex sps db).
Proof.
  unfold merge_scopes.
  apply (same_templates_trans _
           (soft_delete_missing_scopes u ex (supplied_ids scope_id sps) db)).
  - unfold soft_delete_missing_scopes. frame_loop.
    intros d s. destruct (id_in _ _); [reflexivity|].
    eapply same_templates_trans; [|apply templates_cascade_questions]. reflexivity.
  - frame_loop. intros d sp. unfold merge_scope.
    destruct (lookup _ _ _); simpl;
      (eapply same_templates_trans; [|apply templates_merge_questions]);
      reflexivity.
Qed.

Lemma templates_merge_areas tid ex aps db :
  same_templates db (merge_areas u tid ex aps db).
Proof.
  unfold merge_areas.
  apply (same_templates_trans _
           (soft_delete_missing_areas u ex (supplied_ids area_id aps) db)).
  - unfold soft_delete_missing_areas. frame_loop.
    intros d a. destruct (id_in _ _); [reflexivity|].
    eapply same_templates_trans; [|apply templates_cascade_scopes]. reflexivity.
  - frame_loop. intros d ap. unfold merge_area.
    destruct (lookup _ _ _); simpl;
      (eapply same_templates_trans; [|apply templates_merge_scopes]);
      reflexivity.
Qed.

(** [create_with_tree] appends one template row and leaves the others. *)
Lemma create_with_tree_templates name areas db :
  fst (create_with_tree name areas u db) = next_id db /\
  audit_templates (snd (create_with_tree name areas u db))
  = audit_templates db ++ [new_row (next_id db) {| col_template_name := name |} u].
Proof.
  unfold create_with_tree. simpl.
  set (db0 := with_templates _ _).
  assert (H0 : audit_templates db0
               = audit_templates db
                 ++ [new_row (next_id db) {| col_template_name := name |} u])
    by reflexivity.
  clearbody db0.
  match goal with
  | |- context [fold_left ?f areas ([], db0)] =>
      assert (H1 : audit_templates (snd (fold_left f areas ([], db0)))
                   = audit_templates db0);
      [ apply (fold_invariant
                 (fun st : list (AreaUpdateNested * nat) * Store =>
                    audit_templates (snd st) = audit_templates db0));
        [intros [acc d] a _ Hd; exact Hd | reflexivity]
      | destruct (fold_left f areas ([], db0)) as [area_objects db1] ]
  end.
  simpl in H1.
  match goal with
  | |- context [fold_left ?f area_objects ([], db1)] =>
      assert (H2 : audit_templates (snd (fold_left f area_objects ([], db1)))
                   = audit_templates db0);
      [ apply (fold_invariant
                 (fun st : list (ScopeUpdateNested * nat) * Store =>
                    audit_templates (snd st) = audit_templates db0));
        [ intros st [a aid] _ Hst;
          apply (fold_invariant
                   (fun st : list (ScopeUpdateNested * nat) * Store =>
                      audit_templates (snd st) = audit_templates db0));
          [intros [acc d] sp _ Hd; exact Hd | exact Hst]
        | exact H1 ]
      | destruct (fold_left f area_objects ([], db1)) as [scope_objects db2] ]
  end.
  simpl in H2.
  match goal with
  | |- context [fold_left ?f scope_objects ([], db2)] =>
      assert (H3 : audit_templates (snd (fold_left f scope_objects ([], db2)))
                   = audit_templates db0);
      [ apply (fold_invariant
                 (fun st : list (QuestionUpdateNested * nat) * Store =>
                    audit_templates (snd st) = audit_templates db0));
        [ intros st [sp sid] _ Hst;
          apply (fold_invariant
                   (fun st : list (QuestionUpdateNested * nat) * Store =>
                      audit_templates (snd st) = audit_templates db0));
          [intros [acc d] qp _ Hd; exact Hd | exact Hst]
        | exact H2 ]
      | destruct (fold_left f scope_objects ([], db2)) as [question_objects db3] ]
  end.
  simpl in H3. simpl. split; [reflexivity|]. rewrite <- H0.
  apply (fold_invariant (fun d => audit_templates d = audit_templates db0));
    [|exact H3].
  intros d [qp qid] _ Hd.
  apply (fold_invariant (fun d => audit_templates d = audit_templates db0));
    [|exact Hd].
  intros d' op _ Hd'. exact Hd'.
Qed.

End TemplateNames.

Section TemplatesOk.

Variable u : option nat.

Lemma get_by_name_none_fresh db name :
  get_by_name db name = ret None -> ~ In name (active_names db).
Proof.
  intros Hnone Hin. apply get_by_name_none in Hnone.
  unfold active_names in Hin. apply in_map_iff in Hin.
  destruct Hin as [t [Hname Ht]]. apply filter_In in Ht. destruct Ht as [Hin Hact].
  assert (In t (filter (named_active name) (audit_templates db))).
  { apply filter_In. split; [exact Hin|]. apply named_active_iff. auto. }
  rewrite Hnone in H. destruct H.
Qed.

Lemma templates_ok_after_create db db' name :
  templates_ok db ->
  db_wf db' ->
  get_by_name db name = ret None ->
  audit_templates db'
  = audit_templates db ++ [new_row (next_id db) {| col_template_name := name |} u] ->
  templates_ok db'.
Proof.
  intros (Hwf & Hids & Hnames) Hwf' Hnone Ht. split; [exact Hwf'|]. split.
  - rewrite Ht, map_app. simpl.
    apply NoDup_app; [exact Hids | constructor; [intros []|constructor] |].
    intros i Hi [<-|[]]. apply in_map_iff in Hi. destruct Hi as [t [Hid Hin]].
    destruct (db_wf_tables db Hwf) as (Hrows & _).
    destruct (rows_below_In _ _ _ _ Hrows Hin). lia.
  - unfold unique_active_names, active_names. rewrite Ht, filter_app, map_app.
    simpl. apply NoDup_app; [exact Hnames | constructor; [intros []|constructor] |].
    intros n Hn [<-|[]]. exact (get_by_name_none_fresh db _ Hnone Hn).
Qed.

Lemma check_name_free_passed db name (rest : M unit) :
  (check_name_free db name ;;; rest) = inr tt -> get_by_name db name = ret None.
Proof.
  unfold check_name_free, bind.
  destruct (get_by_name db name) as [e|[t|]]; try discriminate. reflexivity.
Qed.

Lemma create_template_keeps_ok db p :
  templates_ok db -> templates_ok (snd (create_template db p u)).
Proof.
  intro Hok. pose proof (create_template_keeps_wf u db p (proj1 Hok)) as Hwf'.
  revert Hwf'. unfold create_template.
  destruct (check_name_free db (payload_name p);;;
            Validator.validate_all_constraints (payload_areas p))
    as [e|[]] eqn:E; [intros _; exact Hok|].
  pose proof (create_with_tree_templates u (payload_name p) (payload_areas p) db)
    as [_ Ht].
  destruct (create_with_tree (payload_name p) (payload_areas p) u db) as [i db'].
  simpl in *. intro Hwf'.
  eapply templates_ok_after_create; try eassumption.
  eapply check_name_free_passed; exact E.
Qed.

Lemma clone_template_keeps_ok db template_id p :
  templates_ok db -> templates_ok (snd (clone_template db template_id p u)).
Proof.
  intro Hok.
  pose proof (clone_template_keeps_wf u db template_id p (proj1 Hok)) as Hwf'.
  revert Hwf'. unfold clone_template.
  destruct (get_by_id db template_id); [|intros _; exact Hok].
  destruct (check_name_free db (payload_name p);;;
            Validator.validate_all_constraints (payload_areas p))
    as [e|[]] eqn:E; [intros _; exact Hok|].
  pose proof (create_with_tree_templates u (payload_name p) (payload_areas p) db)
    as [_ Ht].
  destruct (create_with_tree (payload_name p) (payload_areas p) u db) as [i db'].
  simpl in *. intro Hwf'.
  eapply templates_ok_after_create; try eassumption.
  eapply check_name_free_passed; exact E.
Qed.

Lemma seed_default_template_keeps_ok db :
  templates_ok db -> templates_ok (snd (seed_default_template db u)).
Proof.
  intro Hok.
  pose proof (seed_default_template_keeps_wf u db (proj1 Hok)) as Hwf'.
  revert Hwf'. unfold seed_default_template.
  destruct (get_by_name db DEFAULT_TEMPLATE_NAME) as [e|[t|]] eqn:E;
    try (intros _; exact Hok).
  pose proof (create_with_tree_templates u DEFAULT_TEMPLATE_NAME DEFAULT_AREAS db)
    as [_ Ht].
  destruct (create_with_tree DEFAULT_TEMPLATE_NAME DEFAULT_AREAS u db) as [i db'].
  simpl in *. intro Hwf'.
  eapply templates_ok_after_create; eassumption.
Qed.

Lemma on_row_absent {F} (i : nat) (f : Row F -> Row F) (l : list (Row F)) :
  ~ In i (map row_id l) -> on_row i f l = l.
Proof.
  induction l as [|x l IH]; intro H; simpl; [reflexivity|].
  destruct (Nat.eqb_spec (row_id x) i) as [Heq|_].
  - exfalso. apply H. left. exact Heq.
  - rewrite IH; [reflexivity|]. intro Hin. apply H. right. exact Hin.
Qed.

Lemma on_row_ids {F} (i : nat) (f : Row F -> Row F) (l : list (Row F)) :
  (forall r, row_id (f r) = row_id r) ->
  map row_id (on_row i f l) = map row_id l.
Proof.
  intro Hf. unfold on_row. rewrite map_map. apply map_ext. intro r.
  destruct (row_id r =? i)%nat; [apply Hf | reflexivity].
Qed.

Lemma names_after_deactivate (i : nat) (l : list AuditTemplate) :
  NoDup (map name_of (filter isactive l)) ->
  NoDup (map name_of (filter isactive (on_row i (deactivated u) l))).
Proof.
  induction l as [|x l IH]; intro H; simpl; [constructor|].
  simpl in H. destruct (row_id x =? i)%nat; simpl.
  - apply IH. destruct (isactive x); [inversion H; assumption | exact H].
  - destruct (isactive x); [|apply IH; exact H].
    simpl in *. inversion H as [|n ns Hnotin Hnd]; subst.
    constructor; [|apply IH; exact Hnd].
    intro Hin. apply Hnotin. clear -Hin.
    induction l as [|y l IH]; simpl in *; [exact Hin|].
    destruct (row_id y =? i)%nat; simpl in Hin.
    + destruct (isactive y); [right|]; apply IH; exact Hin.
    + destruct (isactive y); simpl in *; [|apply IH; exact Hin].
      destruct Hin as [Hin|Hin]; [left; exact Hin | right; apply IH; exact Hin].
Qed.

Lemma delete_template_keeps_ok db template_id :
  templates_ok db -> templates_ok (snd (delete_template db template_id u)).
Proof.
  intros (Hwf & Hids & Hnames).
  pose proof (delete_template_keeps_wf u db template_id Hwf) as Hwf'.
  revert Hwf'. unfold delete_template.
  destruct (get_by_id db template_id) as [t|];
    [|intros _; repeat split; assumption].
  simpl. intro Hwf'. split; [exact Hwf'|]. split.
  - simpl. rewrite on_row_ids; [exact Hids | reflexivity].
  - unfold unique_active_names, active_names. simpl.
    apply names_after_deactivate. exact Hnames.
Qed.

Lemma names_after_rename (i : nat) (name : string) (l : list AuditTemplate) :
  let renamed := on_row i (modified (fun _ => {| col_template_name := name |}) u) l in
  NoDup (map row_id l) ->
  NoDup (map name_of (filter isactive l)) ->
  ~ In name (map name_of (filter isactive l)) ->
  NoDup (map name_of (filter isactive renamed))
  /\ forall n, In n (map name_of (filter isactive renamed)) ->
               n = name \/ In n (map name_of (filter isactive l)).
Proof.
  induction l as [|x l IH]; intros renamed Hids Hnames Hfresh; simpl in *.
  - split; [constructor | intros n []].
  - inversion Hids as [|k ks Hk Hids']; subst. subst renamed. simpl.
    destruct (Nat.eqb_spec (row_id x) i) as [Heq|Hne].
    + subst i. rewrite (on_row_absent _ _ _ Hk). simpl.
      destruct (isactive x); simpl in *.
      * inversion Hnames; subst. split.
        -- constructor; [|assumption]. intro Hin. apply Hfresh. right. exact Hin.
        -- intros n [<-|Hin]; [left; reflexivity | right; right; exact Hin].
      * split; [exact Hnames | intros n Hin; right; exact Hin].
    + destruct (isactive x); simpl in *.
      * inversion Hnames as [|n0 ns Hnotin Hnd]; subst.
        destruct (IH Hids' Hnd (fun H => Hfresh (or_intror H))) as [IH1 IH2].
        split.
        -- constructor; [|exact IH1]. intro Hin.
           destruct (IH2 _ Hin) as [Hn|Hn]; [|exact (Hnotin Hn)].
           apply Hfresh. left. exact Hn.
        -- intros n [<-|Hin]; [right; left; reflexivity|].
           destruct (IH2 _ Hin); [left | right; right]; assumption.
      * exact (IH Hids' Hnames Hfresh).
Qed.

Lemma rename_same_name (i : nat) (name : string) (l : list AuditTemplate) :
  (forall t, In t l -> row_id t = i -> name_of t = name) ->
  map name_of (filter isactive
    (on_row i (modified (fun _ => {| col_template_name := name |}) u) l))
  = map name_of (filter isactive l).
Proof.
  induction l as [|x l IH]; intro H; simpl; [reflexivity|].
  assert (IH' := IH (fun t Ht => H t (or_intror Ht))).
  destruct (Nat.eqb_spec (row_id x) i) as [Heq|Hne]; simpl.
  - destruct (isactive x); simpl; [|exact IH'].
    rewrite IH'. unfold name_of at 1. simpl.
    rewrite <- (H x (or_introl eq_refl) Heq). reflexivity.
  - destruct (isactive x); simpl; [rewrite IH'; reflexivity | exact IH'].
Qed.

Lemma update_template_keeps_ok db template_id p :
  templates_ok db -> templates_ok (snd (update_template db template_id p u)).
Proof.
  intros (Hwf & Hids & Hnames).
  pose proof (update_template_keeps_wf u db template_id p Hwf) as Hwf'.
  revert Hwf'. unfold update_template.
  destruct (get_by_id_with_details db template_id) as [template|] eqn:Hload;
    [|intros _; repeat split; assumption].
  destruct (check_name_change db template (payload_name p);;;
            Validator.validate_all_constraints (payload_areas p))
    as [e|[]] eqn:E; [intros _; repeat split; assumption|].
  simpl. intro Hwf'. split; [exact Hwf'|].
  rewrite (templates_merge_areas u template_id (lt_areas template)
             (payload_areas p)
             (rename_template template_id (payload_name p) u db)
           : audit_templates _ = _).
  unfold unique_active_names, active_names.
  rewrite (templates_merge_areas u template_id (lt_areas template)
             (payload_areas p)
             (rename_template template_id (payload_name p) u db)
           : audit_templates _ = _).
  simpl. split; [rewrite on_row_ids; [exact Hids | reflexivity]|].
  unfold check_name_change, bind in E.
  unfold get_by_id_with_details in Hload.
  destruct (find (fun t => (row_id t =? template_id)%nat) (audit_templates db))
    as [t|] eqn:Hfind; [|discriminate].
  inversion Hload; subst template. simpl in E.
  apply find_some in Hfind. destruct Hfind as [Hin Hid]. apply Nat.eqb_eq in Hid.
  destruct (String.eqb_spec (payload_name p) (col_template_name (cols t)))
    as [Hsame|Hdiff].
  - fold name_of. rewrite rename_same_name; [exact Hnames|].
    intros t' Hin' Hid'. rewrite Hsame.
    assert (t' = t); [|subst; reflexivity].
    clear -Hids Hin Hin' Hid Hid'. subst template_id.
    induction (audit_templates db) as [|x l IH]; [destruct Hin|].
    simpl in Hids. inversion Hids as [|k ks Hk Hids']; subst.
    destruct Hin as [->|Hin]; destruct Hin' as [->|Hin'].
    + reflexivity.
    + exfalso. apply Hk. rewrite <- Hid'. apply in_map. exact Hin'.
    + exfalso. apply Hk. rewrite Hid'. apply in_map. exact Hin.
    + apply IH; assumption.
  - apply (names_after_rename template_id (payload_name p) (audit_templates db));
      [exact Hids | exact Hnames |].
    apply get_by_name_none_fresh.
    unfold check_name_free, bind in E.
    destruct (get_by_name db (payload_name p)) as [e|[t'|]];
      try discriminate. reflexivity.
Qed.

End TemplatesOk.

Lemma empty_store_ok : templates_ok empty_store.
Proof. repeat split; constructor. Qed.

(** * Further properties of the services *)

(** ** Outcomes of the template operations *)

Section Outcomes.

Lemma find_present {A} (f : A -> bool) (l : list A) (x : A) :
  In x l -> f x = true -> exists y, find f l = Some y.
Proof.
  intros Hin Hx. destruct (find f l) as [y|] eqn:E; [exists y; reflexivity|].
  rewrite (find_none f l E x Hin) in Hx. discriminate.
Qed.

Lemma reload_after_create name areas u db :
  exists r,
    reload_detail (snd (create_with_tree name areas u db))
      (fst (create_with_tree name areas u db)) = inr r
    /\ resp_id r = next_id db.
Proof.
  destruct (create_with_tree_templates u name areas db) as [Hid Ht].
  rewrite Hid. unfold reload_detail, get_by_id_with_details. rewrite Ht.
  destruct (find_present (fun t => (row_id t =? next_id db)%nat)
              (audit_templates db
               ++ [new_row (next_id db) {| col_template_name := name |} u])
              (new_row (next_id db) {| col_template_name := name |} u))
    as [y Hy].
  - apply in_or_app. right. left. reflexivity.
  - simpl. apply Nat.eqb_refl.
  - rewrite Hy. eexists. split; [reflexivity|]. simpl.
    apply find_some in Hy. apply Nat.eqb_eq. exact (proj2 Hy).
Qed.

Lemma create_template_outcome db p u :
  (exists e, (create_guard db p ;;;
              Validator.validate_all_constraints (payload_areas p)) = inl e
             /\ create_template db p u = (inl e, db))
  \/ (create_guard db p = ret tt
      /\ Validator.validate_all_constraints (payload_areas p) = ret tt
      /\ exists r, create_template db p u
                   = (inr r, snd (create_with_tree (payload_name p)
                                    (payload_areas p) u db))
                   /\ resp_id r = next_id db).
Proof.
  destruct (create_guard db p) as [e|[]] eqn:G.
  - left. exists e. split; [reflexivity|].
    apply create_template_rejected. rewrite G. reflexivity.
  - destruct (Validator.validate_all_constraints (payload_areas p)) as [e|[]] eqn:V.
    + left. exists e. split; [reflexivity|].
      apply create_template_rejected. rewrite G. exact V.
    + right. split; [reflexivity|]. split; [reflexivity|].
      rewrite (create_template_accepted db p u G V).
      destruct (reload_after_create (payload_name p) (payload_areas p) u db)
        as [r [Hr Hid]].
      exists r. rewrite Hr. split; [reflexivity | exact Hid].
Qed.

Lemma clone_template_outcome db tid p u :
  (exists e, (clone_guard db tid p ;;;
              Validator.validate_all_constraints (payload_areas p)) = inl e
             /\ clone_template db tid p u = (inl e, db))
  \/ (clone_guard db tid p = ret tt
      /\ Validator.validate_all_constraints (payload_areas p) = ret tt
      /\ exists r, clone_template db tid p u
                   = (inr r, snd (create_with_tree (payload_name p)
                                    (payload_areas p) u db))
                   /\ resp_id r = next_id db).
Proof.
  destruct (clone_guard db tid p) as [e|[]] eqn:G.
  - left. exists e. split; [reflexivity|].
    apply clone_template_rejected. rewrite G. reflexivity.
  - destruct (Validator.validate_all_constraints (payload_areas p)) as [e|[]] eqn:V.
    + left. exists e. split; [reflexivity|].
      apply clone_template_rejected. rewrite G. exact V.
    + right. split; [reflexivity|]. split; [reflexivity|].
      rewrite (clone_template_accepted db tid p u G V).
      destruct (reload_after_create (payload_name p) (payload_areas p) u db)
        as [r [Hr Hid]].
      exists r. rewrite Hr. split; [reflexivity | exact Hid].
Qed.

Lemma reload_after_update db tid p u template :
  get_by_id_with_details db tid = Some template ->
  exists r,
    reload_detail
      (merge_areas u tid (lt_areas template) (payload_areas p)
         (rename_template tid (payload_name p) u db)) tid = inr r
    /\ resp_id r = tid.
Proof.
  intro Hload. unfold reload_detail, get_by_id_with_details.
  rewrite (templates_merge_areas u tid (lt_areas template) (payload_areas p)
             (rename_template tid (payload_name p) u db)
           : audit_templates _ = _).
  unfold get_by_id_with_details in Hload.
  destruct (find (fun t => (row_id t =? tid)%nat) (audit_templates db))
    as [t|] eqn:E; [|discriminate].
  apply find_some in E. destruct E as [Hin Hid].
  set (f := modified (fun _ => {| col_template_name := payload_name p |}) u).
  destruct (find_present (fun t => (row_id t =? tid)%nat)
              (audit_templates (rename_template tid (payload_name p) u db))
              (f t)) as [y Hy].
  - simpl. unfold on_row. apply in_map_iff. exists t. rewrite Hid. auto.
  - exact Hid.
  - rewrite Hy. eexists. split; [reflexivity|]. simpl.
    apply find_some in Hy. apply Nat.eqb_eq. exact (proj2 Hy).
Qed.

Lemma update_template_outcome db tid p u :
  (exists e, (update_guard db tid p ;;;
              Validator.validate_all_constraints (payload_areas p)) = inl e
             /\ update_template db tid p u = (inl e, db))
  \/ (update_guard db tid p = ret tt
      /\ Validator.validate_all_constraints (payload_areas p) = ret tt
      /\ exists r db', update_template db tid p u = (inr r, db')
                       /\ resp_id r = tid).
Proof.
  destruct (update_guard db tid p) as [e|[]] eqn:G.
  - left. exists e. split; [reflexivity|].
    apply update_template_rejected. rewrite G. reflexivity.
  - destruct (Validator.validate_all_constraints (payload_areas p)) as [e|[]] eqn:V.
    + left. exists e. split; [reflexivity|].
      apply update_template_rejected. rewrite G. exact V.
    + right. split; [reflexivity|]. split; [reflexivity|].
      unfold update_template. unfold update_guard in G.
      destruct (get_by_id_with_details db tid) as [template|] eqn:Hload;
        [|discriminate].
      rewrite G, V. simpl.
      destruct (reload_after_update db tid p u template Hload) as [r [Hr Hid]].
      exists r. eexists. rewrite Hr. split; [reflexivity | exact Hid].
Qed.

End Outcomes.

(** X1. Atomicity of the template writes: whenever [create_template],
    [update_template], [clone_template] or [seed_default_template] answers
    with an exception, the store it leaves is the store it was given. *)
Theorem template_writes_are_atomic (db db' : Store) (e : HTTPException) :
  (forall p u, create_template db p u = (inl e, db') -> db' = db) /\
  (forall tid p u, update_template db tid p u = (inl e, db') -> db' = db) /\
  (forall tid p u, clone_template db tid p u = (inl e, db') -> db' = db) /\
  (forall u, seed_default_template db u = (inl e, db') -> db' = db).
Proof.
  repeat split.
  - intros p u H.
    destruct (create_template_outcome db p u) as [[e0 [_ H0]]|(_ & _ & r & H0 & _)];
      rewrite H0 in H; inversion H; reflexivity.
  - intros tid p u H.
    destruct (update_template_outcome db tid p u)
      as [[e0 [_ H0]]|(_ & _ & r & d & H0 & _)];
      rewrite H0 in H; inversion H; reflexivity.
  - intros tid p u H.
    destruct (clone_template_outcome db tid p u)
      as [[e0 [_ H0]]|(_ & _ & r & H0 & _)];
      rewrite H0 in H; inversion H; reflexivity.
  - intros u. unfold seed_default_template.
    destruct (get_by_name db DEFAULT_TEMPLATE_NAME) as [e0|[t|]].
    + intro H; inversion H; reflexivity.
    + intro H; inversion H; reflexivity.
    + destruct (reload_after_create DEFAULT_TEMPLATE_NAME DEFAULT_AREAS u db)
        as [r [Hr _]].
      destruct (create_with_tree DEFAULT_TEMPLATE_NAME DEFAULT_AREAS u db)
        as [i d]. simpl in Hr. rewrite Hr. intro H; inversion H.
Qed.

Lemma template_writes_are_atomic_witness :
  snd (create_template round_trip_store
         {| payload_name := "T"; payload_areas := two_quality_areas |} None)
  = round_trip_store.
Proof.
  apply (proj1 (template_writes_are_atomic round_trip_store
                  (snd (create_template round_trip_store
                          {| payload_name := "T";
                             payload_areas := two_quality_areas |} None))
                  (name_conflict "T"))
           {| payload_name := "T"; payload_areas := two_quality_areas |} None).
  vm_compute. reflexivity.
Defined.

Section NameCheck.

Lemma check_name_free_iff db name :
  check_name_free db name = ret tt
  <-> forall t, In t (audit_templates db) -> isactive t = true ->
                col_template_name (cols t) <> name.
Proof.
  unfold check_name_free, get_by_name, bind. split.
  - intros H t Hin Hact Hname.
    assert (Ht : In t (filter (named_active name) (audit_templates db))).
    { apply filter_In. split; [exact Hin|]. apply named_active_iff. auto. }
    destruct (filter (named_active name) (audit_templates db)) as [|x [|y l]];
      [destruct Ht | discriminate | discriminate].
  - intro H. rewrite filter_none; [reflexivity|].
    intros t Hin. destruct (named_active name t) eqn:E; [|reflexivity].
    apply named_active_iff in E. destruct E as [Hn Ha].
    exfalso. exact (H t Hin Ha Hn).
Qed.

Lemma check_name_free_status db name e :
  check_name_free db name = inl e ->
  status_code e = HTTP_409_CONFLICT
  \/ status_code e = HTTP_500_INTERNAL_SERVER_ERROR.
Proof.
  unfold check_name_free, get_by_name, bind.
  destruct (filter (named_active name) (audit_templates db)) as [|x [|y l]];
    intro H; inversion H; auto.
Qed.

Lemma check_name_after_create db db' name u :
  check_name_free db name = ret tt ->
  audit_templates db'
  = audit_templates db ++ [new_row (next_id db) {| col_template_name := name |} u] ->
  check_name_free db' name = inl (name_conflict name).
Proof.
  intros Hfree Ht. unfold check_name_free, get_by_name, bind in *.
  rewrite Ht, filter_app.
  destruct (filter (named_active name) (audit_templates db)) as [|x [|y l]];
    try discriminate.
  simpl. unfold named_active. simpl. rewrite String.eqb_refl. reflexivity.
Qed.

End NameCheck.

(** X2. For a payload whose texts the database can store (none holds
    U+0000), [create_template] succeeds exactly when no active template
    bears the requested name (compared character for character) and the
    payload passes the validation block; the new template then has the next
    key of the generator. *)
Theorem create_template_succeeds_iff (db : Store) (p : TemplatePayload)
    (u : option nat) :
  storable (payload_texts p) ->
  ((exists r db', create_template db p u = (inr r, db'))
   <-> ((forall t, In t (audit_templates db) -> isactive t = true ->
                   col_template_name (cols t) <> payload_name p)
        /\ Validator.validate_all_constraints (payload_areas p) = ret tt))
  /\ (forall r db', create_template db p u = (inr r, db') ->
                    resp_id r = next_id db).
Proof.
  intros _.
  destruct (create_template_outcome db p u)
    as [[e [He H]]|(G & V & r & H & Hid)]; split.
  - split.
    + intros [r [d Hr]]. rewrite H in Hr. discriminate.
    + intros [Hfree Hv]. apply check_name_free_iff in Hfree.
      unfold create_guard in He. rewrite Hfree, Hv in He. discriminate.
  - intros r d Hr. rewrite H in Hr. discriminate.
  - split.
    + intros _. split; [apply check_name_free_iff; exact G | exact V].
    + intros _. eauto.
  - intros r0 d Hr. rewrite H in Hr. inversion Hr; subst. exact Hid.
Qed.

(** X3. A name can be used once: after a successful [create_template], a
    second create or a clone under the same name is answered with 409 and
    changes nothing. *)
Theorem second_create_conflicts (db db' : Store) (p : TemplatePayload)
    (u : option nat) (r : TemplateDetailResponse) :
  create_template db p u = (inr r, db') ->
  forall p2 u2,
    payload_name p2 = payload_name p ->
    create_template db' p2 u2 = (inl (name_conflict (payload_name p)), db')
    /\ forall source_id,
         get_by_id db' source_id <> None ->
         clone_template db' source_id p2 u2
         = (inl (name_conflict (payload_name p)), db').
Proof.
  intros Hc p2 u2 Hname.
  destruct (create_template_outcome db p u)
    as [[e [_ H]]|(G & _ & r0 & H & _)]; rewrite H in Hc; [discriminate|].
  inversion Hc; subst r0 db'; clear Hc.
  assert (Hfree : check_name_free
                    (snd (create_with_tree (payload_name p) (payload_areas p) u db))
                    (payload_name p2)
                  = inl (name_conflict (payload_name p))).
  { rewrite Hname. apply (check_name_after_create db _ _ u); [exact G|].
    exact (proj2 (create_with_tree_templates u _ _ db)). }
  split.
  - apply create_template_rejected. unfold create_guard. rewrite Hfree. reflexivity.
  - intros source_id Hsrc. apply clone_template_rejected. unfold clone_guard.
    destruct (get_by_id _ source_id); [|contradiction].
    rewrite Hfree. reflexivity.
Qed.

Lemma second_create_conflicts_witness :
  create_template round_trip_store (round_trip_payload "T") (Some 9%nat)
  = (inl (name_conflict "T"), round_trip_store).
Proof.
  refine (proj1 (second_create_conflicts empty_store round_trip_store
                   (round_trip_payload "T") (Some 7%nat) _ _
                   (round_trip_payload "T") (Some 9%nat) eq_refl)).
  vm_compute. reflexivity.
Defined.

Lemma create_template_succeeds_iff_witness :
  exists r db',
    create_template empty_store (round_trip_payload "T") None = (inr r, db').
Proof.
  apply (proj2 (proj1 (create_template_succeeds_iff empty_store
                         (round_trip_payload "T") None eq_refl))).
  split; [intros t [] | reflexivity].
Defined.

(** X4. Not found means no row: the detail read and [update_template]
    answer "Template not found" exactly when no template row, active or
    not, carries the id; any other rejection of an update has another
    status. *)
Theorem template_not_found_iff (db : Store) (template_id : nat)
    (p : TemplatePayload) (u : option nat) :
  (get_template_detail db template_id = inl template_not_found
   <-> forall t, In t (audit_templates db) -> row_id t <> template_id) /\
  (update_template db template_id p u = (inl template_not_found, db)
   <-> forall t, In t (audit_templates db) -> row_id t <> template_id) /\
  (forall e db', update_template db template_id p u = (inl e, db') ->
                 status_code e = HTTP_404_NOT_FOUND ->
                 e = template_not_found).
Proof.
  assert (Hload : (forall t, In t (audit_templates db) -> row_id t <> template_id)
                  <-> get_by_id_with_details db template_id = None).
  { unfold get_by_id_with_details.
    destruct (find (fun t => (row_id t =? template_id)%nat) (audit_templates db))
      as [t|] eqn:E; split; try discriminate; try reflexivity.
    - intro H. apply find_some in E. destruct E as [Hin Hid].
      apply Nat.eqb_eq in Hid. exfalso. exact (H t Hin Hid).
    - intros _ t Hin Hid. pose proof (find_none _ _ E t Hin) as Hf. simpl in Hf.
      apply Nat.eqb_neq in Hf. contradiction. }
  assert (Hrej : forall template e,
             get_by_id_with_details db template_id = Some template ->
             (update_guard db template_id p ;;;
              Validator.validate_all_constraints (payload_areas p)) = inl e ->
             status_code e <> HTTP_404_NOT_FOUND).
  { intros template e Hsome. unfold update_guard, check_name_change. rewrite Hsome.
    destruct (payload_name p =? col_template_name (cols (lt_row template)))%string.
    - simpl. intros He Hs. rewrite (validate_all_status _ _ He) in Hs. discriminate.
    - destruct (check_name_free db (payload_name p)) as [e0|[]] eqn:Hc; simpl.
      + intro He. inversion He; subst e0.
        destruct (check_name_free_status _ _ _ Hc) as [-> | ->]; discriminate.
      + intros He Hs. rewrite (validate_all_status _ _ He) in Hs. discriminate. }
  split; [|split].
  - rewrite Hload. unfold get_template_detail.
    destruct (get_by_id_with_details db template_id); split;
      try discriminate; reflexivity.
  - rewrite Hload. split.
    + intro H. destruct (get_by_id_with_details db template_id) as [t|] eqn:E;
        [|reflexivity].
      exfalso.
      destruct (update_template_outcome db template_id p u)
        as [[e [He H0]]|(_ & _ & r & d & H0 & _)]; rewrite H0 in H.
      * inversion H; subst e. exact (Hrej t _ eq_refl He eq_refl).
      * discriminate.
    + intro E. unfold update_template. rewrite E. reflexivity.
  - intros e db' H Hs.
    destruct (get_by_id_with_details db template_id) as [t|] eqn:E.
    + exfalso.
      destruct (update_template_outcome db template_id p u)
        as [[e0 [He H0]]|(_ & _ & r & d & H0 & _)]; rewrite H0 in H.
      * inversion H; subst e0. exact (Hrej t _ eq_refl He Hs).
      * discriminate.
    + unfold update_template in H. rewrite E in H. inversion H. reflexivity.
Qed.

Lemma template_not_found_iff_witness :
  update_template round_trip_store 42 (round_trip_payload "T") None
  = (inl template_not_found, round_trip_store).
Proof.
  apply (proj2 (proj1 (proj2 (template_not_found_iff round_trip_store 42
                                (round_trip_payload "T") None)))).
  intros t Hin. vm_compute in Hin. destruct Hin as [<-|[]]. discriminate.
Defined.

(** ** No request removes, revives, re-parents or re-keys a row *)

Section Growth.

Lemma ascending_bounds lo hi l : ascending lo hi l -> (lo <= hi)%nat.
Proof.
  revert lo; induction l as [|i l IH]; intros lo H; simpl in H; [exact H|].
  destruct H as [H1 H2]. specialize (IH _ H2). lia.
Qed.

Lemma ascending_app lo mid hi l1 l2 :
  ascending lo mid l1 -> ascending mid hi l2 -> ascending lo hi (l1 ++ l2).
Proof.
  revert lo; induction l1 as [|i l1 IH]; intros lo H1 H2; simpl in *.
  - destruct l2 as [|j l2]; simpl in *.
    + lia.
    + destruct H2 as [Hm H2]. split; [lia | exact H2].
  - destruct H1 as [Hlo H1]. split; [exact Hlo | apply IH; assumption].
Qed.

Lemma ascending_below lo hi l i : ascending lo hi l -> In i l -> (lo <= i < hi)%nat.
Proof.
  revert lo; induction l as [|j l IH]; intros lo H Hin; [destruct Hin|].
  simpl in H. destruct H as [Hlo H]. destruct Hin as [->|Hin].
  - pose proof (ascending_bounds _ _ _ H). lia.
  - specialize (IH _ H Hin). lia.
Qed.

Lemma ascending_NoDup lo hi l : ascending lo hi l -> NoDup l.
Proof.
  revert lo; induction l as [|j l IH]; intros lo H; [constructor|].
  simpl in H. destruct H as [_ H]. constructor; [|eapply IH; exact H].
  intro Hin. pose proof (ascending_below _ _ _ _ H Hin). lia.
Qed.

Lemma row_kept_refl {F} (parent : F -> nat) (r : Row F) : row_kept parent r r.
Proof. repeat split. auto. Qed.

Lemma row_kept_trans {F} (parent : F -> nat) (r1 r2 r3 : Row F) :
  row_kept parent r1 r2 -> row_kept parent r2 r3 -> row_kept parent r1 r3.
Proof.
  intros (A1 & B1 & C1 & D1) (A2 & B2 & C2 & D2).
  repeat split; try congruence. auto.
Qed.

Lemma rows_kept_refl {F} (parent : F -> nat) (t : list (Row F)) :
  Forall2 (row_kept parent) t t.
Proof. induction t; constructor; [apply row_kept_refl | assumption]. Qed.

Lemma rows_kept_trans {F} (parent : F -> nat) (t1 t2 t3 : list (Row F)) :
  Forall2 (row_kept parent) t1 t2 -> Forall2 (row_kept parent) t2 t3 ->
  Forall2 (row_kept parent) t1 t3.
Proof.
  intro H. revert t3. induction H; intros t3 H3; inversion H3; subst;
    constructor; [eapply row_kept_trans; eassumption | auto].
Qed.

Lemma rows_kept_ids {F} (parent : F -> nat) (t k : list (Row F)) :
  Forall2 (row_kept parent) t k -> map row_id k = map row_id t.
Proof.
  induction 1 as [|r r' t k Hr _ IH]; simpl; [reflexivity|].
  rewrite IH, (proj1 Hr). reflexivity.
Qed.

Lemma table_grows_idle {F} (parent : F -> nat) (n m : nat) (t : list (Row F)) :
  (n <= m)%nat -> table_grows parent n m t t.
Proof.
  intro H. exists t, []. rewrite app_nil_r.
  split; [reflexivity|]. split; [apply rows_kept_refl | exact H].
Qed.

Lemma table_grows_trans {F} (parent : F -> nat) (a b c : nat)
    (t t' t'' : list (Row F)) :
  table_grows parent a b t t' -> table_grows parent b c t' t'' ->
  table_grows parent a c t t''.
Proof.
  intros (k & ad & -> & Hk & Hasc) (k' & ad' & -> & Hk' & Hasc').
  apply Forall2_app_inv_l in Hk'. destruct Hk' as (k1 & k2 & H1 & H2 & ->).
  exists k1, (k2 ++ ad'). rewrite app_assoc. split; [reflexivity|]. split.
  - eapply rows_kept_trans; eassumption.
  - rewrite map_app. eapply ascending_app; [|exact Hasc'].
    rewrite (rows_kept_ids _ _ _ H2). exact Hasc.
Qed.

Lemma table_grows_on_row {F} (parent : F -> nat) (n j : nat)
    (f : Row F -> Row F) (t : list (Row F)) :
  (forall r, row_kept parent r (f r)) ->
  table_grows parent n n t (on_row j f t).
Proof.
  intro Hf. exists (on_row j f t), []. rewrite app_nil_r.
  split; [reflexivity|]. split; [|apply Nat.le_refl].
  induction t as [|r t IH]; simpl; constructor; [|exact IH].
  destruct (row_id r =? j)%nat; [apply Hf | apply row_kept_refl].
Qed.

Lemma table_grows_add {F} (parent : F -> nat) (n : nat) (c : F) (u : option nat)
    (t : list (Row F)) :
  table_grows parent n (S n) t (t ++ [new_row n c u]).
Proof.
  exists t, [new_row n c u]. split; [reflexivity|].
  split; [apply rows_kept_refl|]. simpl. split; apply Nat.le_refl.
Qed.

Lemma store_grows_refl db : store_grows db db.
Proof. repeat split; apply table_grows_idle; apply Nat.le_refl. Qed.

Lemma store_grows_trans d1 d2 d3 :
  store_grows d1 d2 -> store_grows d2 d3 -> store_grows d1 d3.
Proof.
  intros (A1 & B1 & C1 & D1 & E1) (A2 & B2 & C2 & D2 & E2).
  repeat split; eapply table_grows_trans; eassumption.
Qed.

Lemma deactivated_kept {F} (parent : F -> nat) u (r : Row F) :
  row_kept parent r (deactivated u r).
Proof. repeat split. discriminate. Qed.

Lemma modified_kept {F} (parent : F -> nat) (g : F -> F) u (r : Row F) :
  parent (g (cols r)) = parent (cols r) ->
  row_kept parent r (modified g u r).
Proof. intro H. repeat split; auto. Qed.

End Growth.

(** Closes a [store_grows] goal for one primitive mutation. *)
Ltac grows_step :=
  unfold store_grows; simpl;
  repeat split;
  first
    [ apply table_grows_add
    | apply table_grows_on_row; intro;
      first [apply deactivated_kept | apply modified_kept; reflexivity]
    | apply table_grows_idle; lia ].

Section GrowthOfOperations.

Variable u : option nat.

Lemma grows_deactivate_area i db : store_grows db (deactivate_area i u db).
Proof. grows_step. Qed.
Lemma grows_deactivate_scope i db : store_grows db (deactivate_scope i u db).
Proof. grows_step. Qed.
Lemma grows_deactivate_question i db : store_grows db (deactivate_question i u db).
Proof. grows_step. Qed.
Lemma grows_deactivate_option i db : store_grows db (deactivate_option i u db).
Proof. grows_step. Qed.

Lemma grows_add_template name db : store_grows db (snd (add_template name u db)).
Proof. grows_step. Qed.
Lemma grows_add_area tid name w db : store_grows db (snd (add_area tid name w u db)).
Proof. grows_step. Qed.
Lemma grows_add_scope aid name db : store_grows db (snd (add_scope aid name u db)).
Proof. grows_step. Qed.
Lemma grows_add_question sid text pct m db :
  store_grows db (snd (add_question sid text pct m u db)).
Proof. grows_step. Qed.
Lemma grows_add_option qid label v db :
  store_grows db (snd (add_option qid label v u db)).
Proof. grows_step. Qed.

Ltac grows_loop :=
  apply (fold_related store_grows);
  [apply store_grows_refl | apply store_grows_trans |].

Lemma grows_cascade_options os db : store_grows db (cascade_options u os db).
Proof. unfold cascade_options. grows_loop. intros; apply grows_deactivate_option. Qed.

Lemma grows_cascade_questions qs db : store_grows db (cascade_questions u qs db).
Proof.
  unfold cascade_questions. grows_loop. intros d q.
  eapply store_grows_trans;
    [apply grows_deactivate_question | apply grows_cascade_options].
Qed.

Lemma grows_cascade_scopes ss db : store_grows db (cascade_scopes u ss db).
Proof.
  unfold cascade_scopes. grows_loop. intros d s.
  eapply store_grows_trans;
    [apply grows_deactivate_scope | apply grows_cascade_questions].
Qed.

Lemma grows_merge_options qid ex ops db :
  store_grows db (merge_options u qid ex ops db).
Proof.
  unfold merge_options.
  apply (store_grows_trans _
           (soft_delete_missing_options u ex (supplied_ids option_id ops) db)).
  - unfold soft_delete_missing_options. grows_loop. intros d o.
    destruct (id_in _ _); [apply store_grows_refl | apply grows_deactivate_option].
  - grows_loop. intros d op. unfold merge_option.
    destruct (lookup _ _ _); [grows_step | apply grows_add_option].
Qed.

Lemma grows_merge_questions sid ex qps db :
  store_grows db (merge_questions u sid ex qps db).
Proof.
  unfold merge_questions.
  apply (store_grows_trans _
           (soft_delete_missing_questions u ex (supplied_ids question_id qps) db)).
  - unfold soft_delete_missing_questions. grows_loop. intros d q.
    destruct (id_in _ _); [apply store_grows_refl|].
    eapply store_grows_trans;
      [apply grows_deactivate_question | apply grows_cascade_options].
  - grows_loop. intros d qp. unfold merge_question.
    destruct (lookup _ _ _).
    + eapply store_grows_trans; [|apply grows_merge_options]. grows_step.
    + simpl. eapply store_grows_trans; [|apply grows_merge_options].
      apply (grows_add_question sid).
Qed.

Lemma grows_merge_scopes aid ex sps db :
  store_grows db (merge_scopes u aid ex sps db).
Proof.
  unfold merge_scopes.
  apply (store_grows_trans _
           (soft_delete_missing_scopes u ex (supplied_ids scope_id sps) db)).
  - unfold soft_delete_missing_scopes. grows_loop. intros d s.
    destruct (id_in _ _); [apply store_grows_refl|].
    eapply store_grows_trans;
      [apply grows_deactivate_scope | apply grows_cascade_questions].
  - grows_loop. intros d sp. unfold merge_scope.
    destruct (lookup _ _ _).
    + eapply store_grows_trans; [|apply grows_merge_questions]. grows_step.
    + simpl. eapply store_grows_trans; [|apply grows_merge_questions].
      apply (grows_add_scope aid).
Qed.

Lemma grows_merge_areas tid ex aps db :
  store_grows db (merge_areas u tid ex aps db).
Proof.
  unfold merge_areas.
  apply (store_grows_trans _
           (soft_delete_missing_areas u ex (supplied_ids area_id aps) db)).
  - unfold soft_delete_missing_areas. grows_loop. intros d a.
    destruct (id_in _ _); [apply store_grows_refl|].
    eapply store_grows_trans;
      [apply grows_deactivate_area | apply grows_cascade_scopes].
  - grows_loop. intros d ap. unfold merge_area.
    destruct (lookup _ _ _).
    + eapply store_grows_trans; [|apply grows_merge_scopes]. grows_step.
    + simpl. eapply store_grows_trans; [|apply grows_merge_scopes].
      apply (grows_add_area tid).
Qed.

Lemma grows_update_template db tid p :
  store_grows db (snd (update_template db tid p u)).
Proof.
  unfold update_template.
  destruct (get_by_id_with_details db tid); [|apply store_grows_refl].
  destruct (_ ;;; _); [apply store_grows_refl|]. simpl.
  eapply store_grows_trans; [|apply grows_merge_areas]. grows_step.
Qed.

Lemma grows_create_with_tree name areas db :
  store_grows db (snd (create_with_tree name areas u db)).
Proof.
  unfold create_with_tree.
  pose proof (grows_add_template name db) as H0.
  destruct (add_template name u db) as [tid db0]. simpl in H0.
  match goal with
  | |- context [fold_left ?f areas ([], db0)] =>
      assert (H1 : store_grows db (snd (fold_left f areas ([], db0))));
      [ apply (fold_invariant
                 (fun st : list (AreaUpdateNested * nat) * Store =>
                    store_grows db (snd st))); [|exact H0]
      | destruct (fold_left f areas ([], db0)) as [area_objects db1] ]
  end.
  { intros [acc d] a _ Hd. simpl in *.
    eapply store_grows_trans; [exact Hd | apply (grows_add_area tid)]. }
  simpl in H1.
  match goal with
  | |- context [fold_left ?f area_objects ([], db1)] =>
      assert (H2 : store_grows db (snd (fold_left f area_objects ([], db1))));
      [ apply (fold_invariant
                 (fun st : list (ScopeUpdateNested * nat) * Store =>
                    store_grows db (snd st))); [|exact H1]
      | destruct (fold_left f area_objects ([], db1)) as [scope_objects db2] ]
  end.
  { intros st [a aid] _ Hst.
    apply (fold_invariant
             (fun st : list (ScopeUpdateNested * nat) * Store =>
                store_grows db (snd st))); [|exact Hst].
    intros [acc d] sp _ Hd. simpl in *.
    eapply store_grows_trans; [exact Hd | apply (grows_add_scope aid)]. }
  simpl in H2.
  match goal with
  | |- context [fold_left ?f scope_objects ([], db2)] =>
      assert (H3 : store_grows db (snd (fold_left f scope_objects ([], db2))));
      [ apply (fold_invariant
                 (fun st : list (QuestionUpdateNested * nat) * Store =>
                    store_grows db (snd st))); [|exact H2]
      | destruct (fold_left f scope_objects ([], db2)) as [question_objects db3] ]
  end.
  { intros st [sp sid] _ Hst.
    apply (fold_invariant
             (fun st : list (QuestionUpdateNested * nat) * Store =>
                store_grows db (snd st))); [|exact Hst].
    intros [acc d] qp _ Hd. simpl in *.
    eapply store_grows_trans; [exact Hd | apply (grows_add_question sid)]. }
  simpl in H3. simpl.
  apply (fold_invariant (fun d => store_grows db d)); [|exact H3].
  intros d [qp qid] _ Hd.
  apply (fold_invariant (fun d => store_grows db d)); [|exact Hd].
  intros d' op _ Hd'.
  eapply store_grows_trans; [exact Hd' | apply (grows_add_option qid)].
Qed.

Lemma grows_handle db req : store_grows db (handle db (u, req)).
Proof.
  destruct req as [p | tid p | tid | tid p | | tid name w | aid name w | aid
                   | aid name | sid name | sid | sid p | qid t pc m | qid
                   | qid l v | oid l v | oid]; simpl.
  - unfold create_template. destruct (_ ;;; _); [apply store_grows_refl|].
    pose proof (grows_create_with_tree (payload_name p) (payload_areas p) db).
    destruct (create_with_tree _ _ u db). assumption.
  - apply grows_update_template.
  - unfold delete_template. destruct (get_by_id db tid);
      [grows_step | apply store_grows_refl].
  - unfold clone_template. destruct (get_by_id db tid);
      [|apply store_grows_refl].
    destruct (_ ;;; _); [apply store_grows_refl|].
    pose proof (grows_create_with_tree (payload_name p) (payload_areas p) db).
    destruct (create_with_tree _ _ u db). assumption.
  - unfold seed_default_template.
    destruct (get_by_name db DEFAULT_TEMPLATE_NAME) as [e|[t|]];
      try apply store_grows_refl.
    pose proof (grows_create_with_tree DEFAULT_TEMPLATE_NAME DEFAULT_AREAS db).
    destruct (create_with_tree _ _ u db). assumption.
  - unfold create_area. destruct (get_by_id db tid);
      [apply (grows_add_area tid) | apply store_grows_refl].
  - unfold update_area. destruct (area_get_by_id db aid);
      [grows_step | apply store_grows_refl].
  - unfold delete_area. destruct (area_get_by_id db aid);
      [grows_step | apply store_grows_refl].
  - unfold create_scope. destruct (area_get_by_id db aid);
      [apply (grows_add_scope aid) | apply store_grows_refl].
  - unfold update_scope. destruct (scope_get_by_id db sid);
      [grows_step | apply store_grows_refl].
  - unfold delete_scope. destruct (scope_get_by_id db sid);
      [grows_step | apply store_grows_refl].
  - unfold create_question. destruct (scope_get_by_id db sid);
      [|apply store_grows_refl].
    pose proof (grows_add_question sid (question_text p) (question_percentage p)
                  (question_is_mandatory p) db) as H1.
    destruct (add_question sid (question_text p) (question_percentage p)
                (question_is_mandatory p) u db) as [i db1].
    cbn [snd] in *. destruct (question_options p) as [|o os]; [exact H1|].
    eapply store_grows_trans; [exact H1|].
    unfold bulk_create. grows_loop. intros d op. apply grows_add_option.
  - unfold update_question. destruct (question_get_by_id db qid);
      [grows_step | apply store_grows_refl].
  - unfold delete_question. destruct (question_get_by_id db qid);
      [grows_step | apply store_grows_refl].
  - unfold create_option. destruct (question_get_by_id db qid);
      [apply (grows_add_option qid) | apply store_grows_refl].
  - unfold update_option. destruct (option_get_by_id db oid);
      [grows_step | apply store_grows_refl].
  - unfold delete_option. destruct (option_get_by_id db oid);
      [grows_step | apply store_grows_refl].
Qed.

End GrowthOfOperations.
(** ** Stores reached by serving requests *)

Section Reachable.

Lemma grows_handle_all requests db : store_grows db (handle_all db requests).
Proof.
  unfold handle_all. revert db.
  induction requests as [|[u req] rest IH]; intro db; simpl.
  - apply store_grows_refl.
  - eapply store_grows_trans; [apply grows_handle | apply IH].
Qed.

Lemma table_grows_keys {F} (parent : F -> nat) (lo hi : nat) (t t' : list (Row F)) :
  ascending 0 lo (map row_id t) -> table_grows parent lo hi t t' ->
  ascending 0 hi (map row_id t').
Proof.
  intros H (kept & added & -> & Hk & Ha). rewrite map_app.
  eapply ascending_app; [|exact Ha]. rewrite (rows_kept_ids _ _ _ Hk). exact H.
Qed.

Lemma keys_ascending_grows db db' :
  keys_ascending db -> store_grows db db' -> keys_ascending db'.
Proof.
  intros (A & B & C & D & E) (A' & B' & C' & D' & E').
  repeat split; eapply table_grows_keys; eassumption.
Qed.

Lemma keys_ascending_empty : keys_ascending empty_store.
Proof. repeat split; simpl; lia. Qed.

Lemma found_below {F} (parent : F -> nat) (n i : nat) (t : list (Row F)) (r : Row F) :
  rows_below parent n t = true ->
  find (fun x => (row_id x =? i)%nat && isactive x) t = Some r ->
  (i < n)%nat /\ row_id r = i /\ isactive r = true /\ In r t.
Proof.
  intros Hb Hf. apply find_some in Hf. destruct Hf as [Hin Hp].
  apply andb_true_iff in Hp. destruct Hp as [Hid Hact]. apply Nat.eqb_eq in Hid.
  destruct (rows_below_In _ _ _ _ Hb Hin) as [Hlt _].
  repeat split; try assumption. lia.
Qed.

Lemma templates_ok_frame db db' :
  templates_ok db -> db_wf db' -> same_templates db db' -> templates_ok db'.
Proof.
  intros (_ & Hids & Hnames) Hwf Hsame. unfold same_templates in Hsame.
  split; [exact Hwf|]. unfold unique_active_names, active_names in *.
  rewrite Hsame. split; assumption.
Qed.

End Reachable.

(** Closes a [db_wf] goal for a mutation applied to the rows in place. *)
Ltac wf_in_place :=
  rewrite !db_wf_iff; simpl; intros (Ht & Ha & Hs & Hq & Ho & Hn);
  repeat split; try assumption;
  apply rows_below_on_row; [intro r; split; reflexivity | assumption].

Section ReachableOperations.

Variable u : option nat.

Lemma create_area_keeps_wf db tid name w :
  db_wf db -> db_wf (snd (create_area db tid name w u)).
Proof.
  intro Hwf. unfold create_area.
  destruct (get_by_id db tid) as [t|] eqn:E; [|exact Hwf].
  destruct (db_wf_tables db Hwf) as (Ht & _).
  destruct (found_below _ _ _ _ _ Ht E) as [Hlt _].
  apply (wf_add_area tid name w u db Hwf Hlt).
Qed.

Lemma update_area_keeps_wf db aid name w :
  db_wf db -> db_wf (snd (update_area db aid name w u)).
Proof.
  unfold update_area. destruct (area_get_by_id db aid) as [a|]; [|auto].
  cbn [snd]. wf_in_place.
Qed.

Lemma create_scope_keeps_wf db aid name :
  db_wf db -> db_wf (snd (create_scope db aid name u)).
Proof.
  intro Hwf. unfold create_scope.
  destruct (area_get_by_id db aid) as [a|] eqn:E; [|exact Hwf].
  destruct (db_wf_tables db Hwf) as (_ & Ha & _).
  destruct (found_below _ _ _ _ _ Ha E) as [Hlt _].
  apply (wf_add_scope aid name u db Hwf Hlt).
Qed.

Lemma update_scope_keeps_wf db sid name :
  db_wf db -> db_wf (snd (update_scope db sid name u)).
Proof.
  unfold update_scope. destruct (scope_get_by_id db sid) as [s|]; [|auto].
  cbn [snd]. wf_in_place.
Qed.

Lemma delete_scope_keeps_wf db sid :
  db_wf db -> db_wf (snd (delete_scope db sid u)).
Proof.
  unfold delete_scope. destruct (scope_get_by_id db sid) as [s|]; [|auto].
  cbn [snd]. apply wf_deactivate_scope.
Qed.

Lemma bulk_create_keeps_wf qid options db :
  db_wf db -> (qid < next_id db)%nat ->
  db_wf (bulk_create qid options u db)
  /\ (next_id db <= next_id (bulk_create qid options u db))%nat.
Proof.
  intros Hwf Hlt. unfold bulk_create.
  apply (fold_invariant
           (fun d => db_wf d /\ (next_id db <= next_id d)%nat)).
  - intros d op _ [Hd Hn]. split.
    + apply wf_add_option; [exact Hd | lia].
    + simpl. lia.
  - split; [exact Hwf | lia].
Qed.

Lemma create_question_keeps_wf db sid p :
  db_wf db -> db_wf (snd (create_question db sid p u)).
Proof.
  intro Hwf. unfold create_question.
  destruct (scope_get_by_id db sid) as [s|] eqn:E; [|exact Hwf].
  destruct (db_wf_tables db Hwf) as (_ & _ & Hs & _).
  destruct (found_below _ _ _ _ _ Hs E) as [Hlt _].
  pose proof (wf_add_question sid (question_text p) (question_percentage p)
                (question_is_mandatory p) u db Hwf Hlt) as H1.
  assert (Hi : (fst (add_question sid (question_text p) (question_percentage p)
                       (question_is_mandatory p) u db)
                < next_id (snd (add_question sid (question_text p)
                                  (question_percentage p)
                                  (question_is_mandatory p) u db)))%nat)
    by (simpl; lia).
  destruct (add_question sid (question_text p) (question_percentage p)
              (question_is_mandatory p) u db) as [i db1].
  cbn [snd fst] in *. destruct (question_options p) as [|o os]; [exact H1|].
  apply bulk_create_keeps_wf; assumption.
Qed.

Lemma update_question_keeps_wf db qid t pc m :
  db_wf db -> db_wf (snd (update_question db qid t pc m u)).
Proof.
  unfold update_question. destruct (question_get_by_id db qid) as [q|]; [|auto].
  cbn [snd]. wf_in_place.
Qed.

Lemma delete_question_keeps_wf db qid :
  db_wf db -> db_wf (snd (delete_question db qid u)).
Proof.
  unfold delete_question. destruct (question_get_by_id db qid) as [q|]; [|auto].
  cbn [snd]. apply wf_deactivate_question.
Qed.

Lemma create_option_keeps_wf db qid l v :
  db_wf db -> db_wf (snd (create_option db qid l v u)).
Proof.
  intro Hwf. unfold create_option.
  destruct (question_get_by_id db qid) as [q|] eqn:E; [|exact Hwf].
  destruct (db_wf_tables db Hwf) as (_ & _ & _ & Hq & _).
  destruct (found_below _ _ _ _ _ Hq E) as [Hlt _].
  apply (wf_add_option qid l v u db Hwf Hlt).
Qed.

Lemma update_option_keeps_wf db oid l v :
  db_wf db -> db_wf (snd (update_option db oid l v u)).
Proof.
  unfold update_option. destruct (option_get_by_id db oid) as [o|]; [|auto].
  cbn [snd]. wf_in_place.
Qed.

Lemma delete_option_keeps_wf db oid :
  db_wf db -> db_wf (snd (delete_option db oid u)).
Proof.
  unfold delete_option. destruct (option_get_by_id db oid) as [o|]; [|auto].
  cbn [snd]. apply wf_deactivate_option.
Qed.

Lemma handle_same_templates db req :
  match req with
  | ReqCreateTemplate _ | ReqUpdateTemplate _ _ | ReqDeleteTemplate _
  | ReqCloneTemplate _ _ | ReqSeedDefaultTemplate => True
  | _ => same_templates db (handle db (u, req))
  end.
Proof.
  destruct req as [p | tid p | tid | tid p | | tid name w | aid name w | aid
                  | aid name | sid name | sid | sid p | qid t pc m | qid
                  | qid l v | oid l v | oid]; simpl; try exact I;
    unfold create_area, update_area, delete_area, create_scope, update_scope,
      delete_scope, create_question, update_question, delete_question,
      create_option, update_option, delete_option;
    try (match goal with
         | |- context [match ?x with Some _ => _ | None => _ end] => destruct x
         end; reflexivity).
  destruct (scope_get_by_id db sid); [|reflexivity].
  assert (H1 : same_templates db
                 (snd (add_question sid (question_text p) (question_percentage p)
                         (question_is_mandatory p) u db))) by reflexivity.
  destruct (add_question sid (question_text p) (question_percentage p)
              (question_is_mandatory p) u db) as [i db1].
  cbn [snd] in *. destruct (question_options p) as [|o os]; [exact H1|].
  eapply same_templates_trans; [exact H1|]. unfold bulk_create.
  apply (fold_related same_templates);
    [reflexivity | apply same_templates_trans | intros d op; reflexivity].
Qed.

Lemma handle_keeps_ok db req :
  templates_ok db -> templates_ok (handle db (u, req)).
Proof.
  intro Hok. pose proof (handle_same_templates db req) as Hsame.
  destruct req as [p | tid p | tid | tid p | | tid name w | aid name w | aid
                  | aid name | sid name | sid | sid p | qid t pc m | qid
                  | qid l v | oid l v | oid]; simpl in *.
  - apply create_template_keeps_ok; exact Hok.
  - apply update_template_keeps_ok; exact Hok.
  - apply delete_template_keeps_ok; exact Hok.
  - apply clone_template_keeps_ok; exact Hok.
  - apply seed_default_template_keeps_ok; exact Hok.
  - eapply templates_ok_frame; eauto. apply create_area_keeps_wf, Hok.
  - eapply templates_ok_frame; eauto. apply update_area_keeps_wf, Hok.
  - eapply templates_ok_frame; eauto. apply delete_area_keeps_wf, Hok.
  - eapply templates_ok_frame; eauto. apply create_scope_keeps_wf, Hok.
  - eapply templates_ok_frame; eauto. apply update_scope_keeps_wf, Hok.
  - eapply templates_ok_frame; eauto. apply delete_scope_keeps_wf, Hok.
  - eapply templates_ok_frame; eauto. apply create_question_keeps_wf, Hok.
  - eapply templates_ok_frame; eauto. apply update_question_keeps_wf, Hok.
  - eapply templates_ok_frame; eauto. apply delete_question_keeps_wf, Hok.
  - eapply templates_ok_frame; eauto. apply create_option_keeps_wf, Hok.
  - eapply templates_ok_frame; eauto. apply update_option_keeps_wf, Hok.
  - eapply templates_ok_frame; eauto. apply delete_option_keeps_wf, Hok.
Qed.

End ReachableOperations.

Lemma handle_all_keeps_ok requests db :
  templates_ok db -> templates_ok (handle_all db requests).
Proof.
  unfold handle_all. revert db.
  induction requests as [|[u req] rest IH]; intros db Hok; simpl; [exact Hok|].
  apply IH. apply handle_keeps_ok. exact Hok.
Qed.

(** X5. Whatever sequence of write requests is served, every row that was
    in a table is still there, in the same position, with the same key, the
    same parent and the same creator, and is active only if it was active
    before; what the requests add comes after it under keys that the
    generator had not handed out. *)
Theorem requests_keep_every_row (db : Store)
    (requests : list (option nat * WriteRequest)) :
  store_grows db (handle_all db requests).
Proof. apply grows_handle_all. Qed.

(** X6. Starting from the empty database, every store that a sequence of
    write requests can produce has pairwise distinct names among its active
    templates, lists each table's keys without repetition (in increasing
    order below the generator), and has every foreign key below the
    generator. *)
Theorem reachable_stores_are_consistent
    (requests : list (option nat * WriteRequest)) :
  templates_ok (handle_all empty_store requests)
  /\ keys_ascending (handle_all empty_store requests).
Proof.
  split.
  - apply handle_all_keeps_ok. exact empty_store_ok.
  - eapply keys_ascending_grows; [exact keys_ascending_empty|].
    apply grows_handle_all.
Qed.

Section NoInternalError.

Lemma check_name_free_conflict db name e :
  unique_active_names db -> check_name_free db name = inl e ->
  e = name_conflict name.
Proof.
  intros Hu. unfold check_name_free, bind.
  destruct (get_by_name_total db name Hu) as [o Ho]. rewrite Ho.
  unfold ret. destruct o; intro H; inversion H; reflexivity.
Qed.

Lemma guarded_status (g : M unit) areas e (allowed : nat -> Prop) :
  (forall e0, g = inl e0 -> allowed (status_code e0)) ->
  allowed HTTP_422_UNPROCESSABLE_ENTITY ->
  (g ;;; Validator.validate_all_constraints areas) = inl e ->
  allowed (status_code e).
Proof.
  intros Hg H422. unfold bind. destruct g as [e0|[]].
  - intro H; inversion H; subst. apply Hg. reflexivity.
  - intro H. rewrite (validate_all_status _ _ H). exact H422.
Qed.

End NoInternalError.

(** X7. On every store reached from the empty database, and for a payload
    whose texts the database can store (none holds U+0000), the template
    endpoints never fail with an internal error: [create_template] raises
    only 409 or 422, [update_template] and [clone_template] only 404, 409 or
    422, and [seed_default_template] always answers with a template. *)
Theorem template_endpoints_raise_only_client_errors
    (history : list (option nat * WriteRequest)) (p : TemplatePayload)
    (u : option nat) :
  storable (payload_texts p) ->
  let db := handle_all empty_store history in
  (forall e db', create_template db p u = (inl e, db') ->
     status_code e = HTTP_409_CONFLICT
     \/ status_code e = HTTP_422_UNPROCESSABLE_ENTITY) /\
  (forall tid e db', update_template db tid p u = (inl e, db') ->
     status_code e = HTTP_404_NOT_FOUND
     \/ status_code e = HTTP_409_CONFLICT
     \/ status_code e = HTTP_422_UNPROCESSABLE_ENTITY) /\
  (forall tid e db', clone_template db tid p u = (inl e, db') ->
     status_code e = HTTP_404_NOT_FOUND
     \/ status_code e = HTTP_409_CONFLICT
     \/ status_code e = HTTP_422_UNPROCESSABLE_ENTITY) /\
  (exists r db', seed_default_template db u = (inr r, db')).
Proof.
  intros _ db.
  assert (Hu : unique_active_names db).
  { apply handle_all_keeps_ok. exact empty_store_ok. }
  split; [|split; [|split]].
  - intros e db' H.
    destruct (create_template_outcome db p u)
      as [[e0 [He H0]]|(_ & _ & r & H0 & _)]; rewrite H0 in H; [|discriminate].
    inversion H; subst e0 db'. revert He.
    apply (guarded_status _ _ _
             (fun n => n = HTTP_409_CONFLICT \/ n = HTTP_422_UNPROCESSABLE_ENTITY));
      [|right; reflexivity].
    intros e0 He0. rewrite (check_name_free_conflict _ _ _ Hu He0). left; reflexivity.
  - intros tid e db' H.
    destruct (update_template_outcome db tid p u)
      as [[e0 [He H0]]|(_ & _ & r & d & H0 & _)]; rewrite H0 in H; [|discriminate].
    inversion H; subst e0 db'. revert He.
    apply (guarded_status _ _ _
             (fun n => n = HTTP_404_NOT_FOUND \/ n = HTTP_409_CONFLICT
                       \/ n = HTTP_422_UNPROCESSABLE_ENTITY));
      [|right; right; reflexivity].
    intros e0. unfold update_guard, check_name_change.
    destruct (get_by_id_with_details db tid) as [t|].
    + destruct (payload_name p =? col_template_name (cols (lt_row t)))%string;
        [discriminate|].
      intro He0. rewrite (check_name_free_conflict _ _ _ Hu He0).
      right; left; reflexivity.
    + intro He0; inversion He0. left; reflexivity.
  - intros tid e db' H.
    destruct (clone_template_outcome db tid p u)
      as [[e0 [He H0]]|(_ & _ & r & H0 & _)]; rewrite H0 in H; [|discriminate].
    inversion H; subst e0 db'. revert He.
    apply (guarded_status _ _ _
             (fun n => n = HTTP_404_NOT_FOUND \/ n = HTTP_409_CONFLICT
                       \/ n = HTTP_422_UNPROCESSABLE_ENTITY));
      [|right; right; reflexivity].
    intros e0. unfold clone_guard.
    destruct (get_by_id db tid) as [t|].
    + intro He0. rewrite (check_name_free_conflict _ _ _ Hu He0).
      right; left; reflexivity.
    + intro He0; inversion He0. left; reflexivity.
  - unfold seed_default_template.
    destruct (get_by_name_total db DEFAULT_TEMPLATE_NAME Hu) as [o Ho].
    rewrite Ho. unfold ret. destruct o as [t|].
    + assert (Hin : In t (audit_templates db)).
      { unfold get_by_name in Ho.
        destruct (filter (named_active DEFAULT_TEMPLATE_NAME) (audit_templates db))
          as [|x [|y l]] eqn:E; try discriminate.
        inversion Ho; subst x.
        assert (Hx : In t (filter (named_active DEFAULT_TEMPLATE_NAME)
                             (audit_templates db)))
          by (rewrite E; left; reflexivity).
        apply filter_In in Hx. exact (proj1 Hx). }
      destruct (find_by_id_present _ _ Hin) as [x [Hx _]].
      unfold reload_detail, get_by_id_with_details. rewrite Hx.
      eexists. eexists. reflexivity.
    + destruct (reload_after_create DEFAULT_TEMPLATE_NAME DEFAULT_AREAS u db)
        as [r [Hr _]].
      destruct (create_with_tree DEFAULT_TEMPLATE_NAME DEFAULT_AREAS u db)
        as [i d]. simpl in Hr. rewrite Hr. eexists. eexists. reflexivity.
Qed.

Lemma template_endpoints_raise_only_client_errors_witness :
  status_code (name_conflict "T") = HTTP_409_CONFLICT
  \/ status_code (name_conflict "T") = HTTP_422_UNPROCESSABLE_ENTITY.
Proof.
  refine (proj1 (template_endpoints_raise_only_client_errors
                   [(Some 7%nat, ReqCreateTemplate (round_trip_payload "T"))]
                   (round_trip_payload "T") None eq_refl)
            (name_conflict "T")
            (handle_all empty_store
               [(Some 7%nat, ReqCreateTemplate (round_trip_payload "T"))]) _).
  vm_compute. reflexivity.
Defined.

Section Permanence.

Lemma rows_kept_In {F} (parent : F -> nat) (t k : list (Row F)) (x : Row F) :
  Forall2 (row_kept parent) t k -> In x k ->
  exists r, In r t /\ row_kept parent r x.
Proof.
  induction 1 as [|r r' t k Hr _ IH]; intro Hin; [destruct Hin|].
  destruct Hin as [<-|Hin].
  - exists r. split; [left; reflexivity | exact Hr].
  - destruct (IH Hin) as [r0 [H0 H1]]. exists r0. split; [right|]; assumption.
Qed.

Lemma same_key_same_row {F} (t : list (Row F)) (a b : Row F) :
  NoDup (map row_id t) -> In a t -> In b t -> row_id a = row_id b -> a = b.
Proof.
  induction t as [|x t IH]; intros Hnd Ha Hb Hid; [destruct Ha|].
  simpl in Hnd. inversion Hnd as [|? ? Hnot Hnd']; subst.
  destruct Ha as [->|Ha], Hb as [->|Hb].
  - reflexivity.
  - exfalso. apply Hnot. rewrite Hid. apply in_map. exact Hb.
  - exfalso. apply Hnot. rewrite <- Hid. apply in_map. exact Ha.
  - apply IH; assumption.
Qed.

Lemma find_all_false {A} (f : A -> bool) (l : list A) :
  (forall x, In x l -> f x = false) -> find f l = None.
Proof.
  intro H. rewrite <- (app_nil_r l). rewrite find_app_skip by exact H. reflexivity.
Qed.

Lemma inactive_stays_hidden {F} (parent : F -> nat) (lo hi : nat)
    (t t' : list (Row F)) (r : Row F) :
  ascending 0 lo (map row_id t) -> table_grows parent lo hi t t' ->
  In r t -> isactive r = false ->
  find (fun x => (row_id x =? row_id r)%nat && isactive x) t' = None.
Proof.
  intros Hasc (kept & added & -> & Hk & Ha) Hin Hoff.
  apply find_all_false. intros x Hx.
  destruct (Nat.eqb_spec (row_id x) (row_id r)) as [Hid|_]; [|reflexivity].
  simpl. apply in_app_or in Hx. destruct Hx as [Hx|Hx].
  - destruct (rows_kept_In _ _ _ _ Hk Hx) as [r0 [H0 (Hid0 & _ & _ & Hact)]].
    assert (r0 = r).
    { apply (same_key_same_row t); try assumption.
      - eapply ascending_NoDup; exact Hasc.
      - congruence. }
    subst r0. destruct (isactive x); [|reflexivity].
    rewrite Hact in Hoff by reflexivity. discriminate.
  - exfalso.
    pose proof (ascending_below _ _ _ _ Ha (in_map row_id _ _ Hx)).
    pose proof (ascending_below _ _ _ _ Hasc (in_map row_id _ _ Hin)). lia.
Qed.

Lemma inactive_still_listed {F} (parent : F -> nat) (lo hi : nat)
    (t t' : list (Row F)) (r : Row F) :
  ascending 0 lo (map row_id t) -> table_grows parent lo hi t t' ->
  In r t -> isactive r = false ->
  exists x, find (fun x => (row_id x =? row_id r)%nat) t' = Some x
            /\ row_id x = row_id r /\ isactive x = false.
Proof.
  intros Hasc (kept & added & -> & Hk & Ha) Hin Hoff.
  assert (Hsome : exists x, In x kept /\ row_id x = row_id r).
  { clear Hasc Ha. induction Hk as [|r0 x0 t k Hr _ IH]; [destruct Hin|].
    destruct Hin as [->|Hin].
    - exists x0. split; [left; reflexivity | exact (proj1 Hr)].
    - destruct (IH Hin) as [x [Hx Hid]]. exists x. split; [right|]; assumption. }
  destruct Hsome as [x0 [Hx0 Hid0]].
  destruct (find (fun x => (row_id x =? row_id r)%nat) (kept ++ added))
    as [y|] eqn:E.
  - exists y. split; [reflexivity|].
    apply find_some in E. destruct E as [Hy Hid]. apply Nat.eqb_eq in Hid.
    split; [exact Hid|].
    apply in_app_or in Hy. destruct Hy as [Hy|Hy].
    + destruct (rows_kept_In _ _ _ _ Hk Hy) as [r0 [H0 (Hid1 & _ & _ & Hact)]].
      assert (r0 = r).
      { apply (same_key_same_row t); try assumption.
        - eapply ascending_NoDup; exact Hasc.
        - congruence. }
      subst r0. destruct (isactive y); [|reflexivity].
      rewrite Hact in Hoff by reflexivity. discriminate.
    + exfalso.
      pose proof (ascending_below _ _ _ _ Ha (in_map row_id _ _ Hy)).
      pose proof (ascending_below _ _ _ _ Hasc (in_map row_id _ _ Hin)). lia.
  - exfalso. pose proof (find_none _ _ E x0 (in_or_app _ _ _ (or_introl Hx0))) as H.
    simpl in H. rewrite Hid0, Nat.eqb_refl in H. discriminate.
Qed.

End Permanence.

(** X8. There is no undelete. In a store whose keys are in order (every
    reachable store is), a template, area, scope, question or option that is
    soft-deleted is never found again by the [get_by_id] of its repository,
    whatever write requests follow: every endpoint that looks the node up
    that way answers 404 and leaves the store as it is. The template detail
    read, which looks the row up by id alone, keeps answering and shows the
    template as inactive. *)
Theorem soft_delete_is_permanent (db : Store)
    (requests : list (option nat * WriteRequest)) :
  keys_ascending db ->
  let db' := handle_all db requests in
  (forall t, In t (audit_templates db) -> isactive t = false ->
     get_by_id db' (row_id t) = None
     /\ get_areas_by_template db' (row_id t) = inl template_not_found
     /\ (forall u, delete_template db' (row_id t) u = (inl template_not_found, db'))
     /\ (forall p u, clone_template db' (row_id t) p u
                     = (raise HTTP_404_NOT_FOUND "Source template not found", db'))
     /\ (forall name w u,
           create_area db' (row_id t) name w u = (inl template_not_found, db'))
     /\ exists d, get_template_detail db' (row_id t) = inr d
                  /\ resp_id d = row_id t /\ resp_isactive d = false) /\
  (forall a, In a (audit_areas db) -> isactive a = false ->
     area_get_by_id db' (row_id a) = None
     /\ get_area db' (row_id a) = inl area_not_found
     /\ get_scopes_by_area db' (row_id a) = inl area_not_found
     /\ (forall name u, create_scope db' (row_id a) name u = (inl area_not_found, db'))
     /\ (forall name w u,
           update_area db' (row_id a) name w u = (inl area_not_found, db'))
     /\ (forall u, delete_area db' (row_id a) u = (inl area_not_found, db'))) /\
  (forall s, In s (audit_scopes db) -> isactive s = false ->
     scope_get_by_id db' (row_id s) = None
     /\ recalculate_scope_scores db' (row_id s) = inl scope_not_found
     /\ get_questions_by_scope db' (row_id s) = inl scope_not_found
     /\ (forall p u, create_question db' (row_id s) p u = (inl scope_not_found, db'))
     /\ (forall name u, update_scope db' (row_id s) name u = (inl scope_not_found, db'))
     /\ (forall u, delete_scope db' (row_id s) u = (inl scope_not_found, db'))) /\
  (forall q, In q (audit_questions db) -> isactive q = false ->
     question_get_by_id db' (row_id q) = None
     /\ get_options_by_question db' (row_id q) = inl question_not_found
     /\ (forall l v u,
           create_option db' (row_id q) l v u = (inl question_not_found, db'))
     /\ (forall t pc m u,
           update_question db' (row_id q) t pc m u = (inl question_not_found, db'))
     /\ (forall u, delete_question db' (row_id q) u = (inl question_not_found, db'))) /\
  (forall o, In o (audit_question_options db) -> isactive o = false ->
     option_get_by_id db' (row_id o) = None
     /\ (forall l v u, update_option db' (row_id o) l v u = (inl option_not_found, db'))
     /\ (forall u, delete_option db' (row_id o) u = (inl option_not_found, db'))).
Proof.
  intros (Kt & Ka & Ks & Kq & Ko) db'.
  destruct (grows_handle_all requests db) as (Gt & Ga & Gs & Gq & Go).
  fold db' in Gt, Ga, Gs, Gq, Go.
  split; [|split; [|split; [|split]]].
  - intros t Hin Hoff.
    pose proof (inactive_stays_hidden _ _ _ _ _ _ Kt Gt Hin Hoff) as Hnone.
    assert (Hget : get_by_id db' (row_id t) = None) by exact Hnone.
    split; [exact Hget|].
    unfold get_areas_by_template, delete_template, clone_template, create_area.
    rewrite Hget. repeat split.
    destruct (inactive_still_listed _ _ _ _ _ _ Kt Gt Hin Hoff)
      as (x & Hfind & Hid & Hx).
    unfold get_template_detail, get_by_id_with_details. rewrite Hfind.
    eexists. split; [reflexivity|]. split; [exact Hid | exact Hx].
  - intros a Hin Hoff.
    pose proof (inactive_stays_hidden _ _ _ _ _ _ Ka Ga Hin Hoff) as Hnone.
    assert (Hget : area_get_by_id db' (row_id a) = None) by exact Hnone.
    split; [exact Hget|].
    unfold get_area, load_area, get_scopes_by_area, create_scope, update_area,
      delete_area.
    rewrite Hget. repeat split.
  - intros s Hin Hoff.
    pose proof (inactive_stays_hidden _ _ _ _ _ _ Ks Gs Hin Hoff) as Hnone.
    assert (Hget : scope_get_by_id db' (row_id s) = None) by exact Hnone.
    split; [exact Hget|].
    unfold recalculate_scope_scores, load_scope, get_questions_by_scope,
      create_question, update_scope, delete_scope.
    rewrite Hget. repeat split.
  - intros q Hin Hoff.
    pose proof (inactive_stays_hidden _ _ _ _ _ _ Kq Gq Hin Hoff) as Hnone.
    assert (Hget : question_get_by_id db' (row_id q) = None) by exact Hnone.
    split; [exact Hget|].
    unfold get_options_by_question, create_option, update_question,
      delete_question.
    rewrite Hget. repeat split.
  - intros o Hin Hoff.
    pose proof (inactive_stays_hidden _ _ _ _ _ _ Ko Go Hin Hoff) as Hnone.
    assert (Hget : option_get_by_id db' (row_id o) = None) by exact Hnone.
    split; [exact Hget|].
    unfold update_option, delete_option.
    rewrite Hget. repeat split.
Qed.

Lemma soft_delete_is_permanent_witness :
  get_area (handle_all deleted_area_store
              [(Some 9%nat, ReqUpdateArea 2 (Some "B") None)]) 2
  = inl area_not_found.
Proof.
  refine (proj1 (proj2 (proj1 (proj2 (soft_delete_is_permanent deleted_area_store
                   [(Some 9%nat, ReqUpdateArea 2 (Some "B") None)] _))
           {| row_id := 2%nat;
              cols := {| col_template_id := 1%nat; col_area_name := "A";
                         col_weightage := 100%Z |};
              isactive := false; created_by := Some 7%nat;
              updated_by := Some 7%nat |} _ eq_refl))).
  - vm_compute. repeat split; lia.
  - vm_compute. left. reflexivity.
Defined.

(** ** The payloads the validation block accepts *)

Section ValidPayloads.

Lemma bind_ok (c k : M unit) : (c ;;; k) = ret tt <-> c = ret tt /\ k = ret tt.
Proof.
  unfold bind, ret. destruct c as [e|[]]; split.
  - discriminate.
  - intros [H _]; discriminate.
  - intro H; split; [reflexivity | exact H].
  - intros [_ H]; exact H.
Qed.

Lemma for_each_ok {A} (body : A -> M unit) (xs : list A) :
  for_each body xs = ret tt <-> Forall (fun x => body x = ret tt) xs.
Proof.
  induction xs as [|x xs IH]; simpl.
  - split; [constructor | reflexivity].
  - rewrite bind_ok, IH. split.
    + intros [H1 H2]. constructor; assumption.
    + intro H. inversion H; subst. split; assumption.
Qed.

Lemma check_unique_ok {A K} (eqb : K -> K -> bool) (key : A -> K)
    (err : A -> string) (items : list A) :
  (forall a b, eqb a b = true <-> a = b) ->
  forall seen,
    Validator.check_unique eqb key err seen items = ret tt
    <-> NoDup (map key items) /\ forall x, In x items -> ~ In (key x) seen.
Proof.
  intro Heqb. induction items as [|x items IH]; intro seen; simpl.
  - split; [intros _; split; [constructor | intros x []] | reflexivity].
  - destruct (existsb (eqb (key x)) seen) eqn:E.
    + split; [discriminate|]. intros [_ H]. exfalso.
      apply existsb_exists in E. destruct E as [k [Hk Hx]].
      apply Heqb in Hx. subst k. exact (H x (or_introl eq_refl) Hk).
    + rewrite IH. split.
      * intros [Hnd H]. split.
        -- constructor; [|exact Hnd]. intro Hin. apply in_map_iff in Hin.
           destruct Hin as [y [Hy Hin]]. apply (H y Hin). left. symmetry. exact Hy.
        -- intros y [<-|Hy] Hin.
           ++ assert (existsb (eqb (key x)) seen = true); [|congruence].
              apply existsb_exists. exists (key x). split; [exact Hin|].
              apply Heqb. reflexivity.
           ++ apply (H y Hy). right. exact Hin.
      * intros [Hnd H]. inversion Hnd as [|? ? Hnot Hnd']; subst. split; [exact Hnd'|].
        intros y Hy [Heq|Hin].
        -- apply Hnot. rewrite Heq. apply in_map. exact Hy.
        -- exact (H y (or_intror Hy) Hin).
Qed.

Lemma check_unique_fresh {A K} (eqb : K -> K -> bool) (key : A -> K)
    (err : A -> string) (items : list A) :
  (forall a b, eqb a b = true <-> a = b) ->
  Validator.check_unique eqb key err [] items = ret tt <-> NoDup (map key items).
Proof.
  intro Heqb. rewrite (check_unique_ok eqb key err items Heqb). split.
  - intros [H _]; exact H.
  - intro H; split; [exact H | intros x _ []].
Qed.

Lemma Forall_iff {A} (P Q : A -> Prop) (l : list A) :
  (forall x, P x <-> Q x) -> Forall P l <-> Forall Q l.
Proof.
  intro H. split; intro HF; eapply Forall_impl; try exact HF; intro x; apply H.
Qed.

Lemma Forall_conj {A} (P Q : A -> Prop) (l : list A) :
  Forall (fun x => P x /\ Q x) l <-> Forall P l /\ Forall Q l.
Proof.
  rewrite !Forall_forall. split.
  - intro H. split; intros x Hx; apply (H x Hx).
  - intros [H1 H2] x Hx. split; auto.
Qed.

Lemma and_left_known (P Q : Prop) : P -> (Q <-> P /\ Q).
Proof. tauto. Qed.

Lemma validate_empty_ok areas :
  Validator._validate_empty_question_scopes_areas areas = ret tt
  <-> Forall (fun a => area_scopes a <> []
                /\ Forall (fun s => scope_questions s <> []
                             /\ Forall (fun q => question_options q <> [])
                                  (scope_questions s))
                     (area_scopes a)) areas.
Proof.
  unfold Validator._validate_empty_question_scopes_areas, raise.
  rewrite for_each_ok. apply Forall_iff. intro a.
  destruct (area_scopes a) as [|s0 ss] eqn:Ea.
  { split; [discriminate | intros [H _]; congruence]. }
  rewrite for_each_ok.
  etransitivity; [|apply and_left_known; discriminate].
  apply Forall_iff. intro s.
  destruct (scope_questions s) as [|q0 qs] eqn:Es.
  { split; [discriminate | intros [H _]; congruence]. }
  rewrite for_each_ok.
  etransitivity; [|apply and_left_known; discriminate].
  apply Forall_iff. intro q.
  destruct (question_options q); split;
    solve [discriminate | congruence | intros _; reflexivity].
Qed.

Lemma Forall_conj3 {A} (P Q R : A -> Prop) (l : list A) :
  Forall (fun x => P x /\ Q x /\ R x) l <-> Forall P l /\ Forall Q l /\ Forall R l.
Proof. rewrite !Forall_forall. firstorder. Qed.

Lemma validate_empty_flat areas :
  Validator._validate_empty_question_scopes_areas areas = ret tt
  <-> Forall (fun a => area_scopes a <> []) areas
      /\ Forall (fun s => scope_questions s <> []) (flat_map area_scopes areas)
      /\ Forall (fun q => question_options q <> []) (all_questions areas).
Proof.
  rewrite validate_empty_ok. unfold all_questions.
  rewrite Forall_conj, <- Forall_flat_map, Forall_conj, <- Forall_flat_map.
  tauto.
Qed.

Lemma validate_area_names_ok areas :
  Validator._validate_area_names areas = ret tt
  <-> NoDup (map (fun a => Validator.name_key (area_name a)) areas).
Proof. apply check_unique_fresh. apply String.eqb_eq. Qed.

Lemma validate_scope_names_ok areas :
  Validator._validate_scope_names areas = ret tt
  <-> Forall (fun a => NoDup (map (fun s => Validator.name_key (scope_name s))
                                (area_scopes a))) areas.
Proof.
  unfold Validator._validate_scope_names. rewrite for_each_ok.
  apply Forall_iff. intro a. apply check_unique_fresh. apply String.eqb_eq.
Qed.

Lemma validate_question_names_ok areas :
  Validator._validate_question_names areas = ret tt
  <-> Forall (fun s => NoDup (map (fun q => Validator.name_key (question_text q))
                                (scope_questions s)))
        (flat_map area_scopes areas).
Proof.
  unfold Validator._validate_question_names.
  rewrite for_each_ok, Forall_flat_map.
  apply Forall_iff. intro a. rewrite for_each_ok.
  apply Forall_iff. intro s. apply check_unique_fresh. apply String.eqb_eq.
Qed.

Lemma validate_option_labels_ok areas :
  Validator._validate_option_labels areas = ret tt
  <-> Forall (fun q => NoDup (map (fun o => Validator.name_key (option_label o))
                                (question_options q)))
        (all_questions areas).
Proof.
  unfold Validator._validate_option_labels, all_questions.
  rewrite for_each_ok, !Forall_flat_map.
  apply Forall_iff. intro a. rewrite for_each_ok.
  apply Forall_iff. intro s. rewrite for_each_ok.
  apply Forall_iff. intro q. apply check_unique_fresh. apply String.eqb_eq.
Qed.

Lemma validate_option_values_ok areas :
  Validator._validate_option_values areas = ret tt
  <-> Forall (fun q => NoDup (map option_value (question_options q)))
        (all_questions areas).
Proof.
  unfold Validator._validate_option_values, all_questions.
  rewrite for_each_ok, !Forall_flat_map.
  apply Forall_iff. intro a. rewrite for_each_ok.
  apply Forall_iff. intro s. rewrite for_each_ok.
  apply Forall_iff. intro q. apply check_unique_fresh. apply Z.eqb_eq.
Qed.

Lemma validate_scope_percentages_ok areas :
  Validator._validate_scope_percentages areas = ret tt
  <-> payload_percentage_sum areas = 100%Z.
Proof.
  unfold Validator._validate_scope_percentages.
  rewrite scope_percentages_total_spec.
  destruct (Z.eqb_spec (payload_percentage_sum areas) 100); split;
    solve [discriminate | congruence | intros _; reflexivity].
Qed.

Lemma valid_areas_flat areas :
  Forall valid_area areas
  <-> Forall (fun a => area_scopes a <> []) areas
      /\ Forall (fun a => NoDup (map (fun s => Validator.name_key (scope_name s))
                                   (area_scopes a))) areas
      /\ Forall (fun s => scope_questions s <> []) (flat_map area_scopes areas)
      /\ Forall (fun s => NoDup (map (fun q => Validator.name_key (question_text q))
                                   (scope_questions s)))
           (flat_map area_scopes areas)
      /\ Forall (fun q => question_options q <> []) (all_questions areas)
      /\ Forall (fun q => NoDup (map (fun o => Validator.name_key (option_label o))
                                   (question_options q)))
           (all_questions areas)
      /\ Forall (fun q => NoDup (map option_value (question_options q)))
           (all_questions areas).
Proof.
  unfold valid_area, valid_scope, valid_question, all_questions.
  rewrite Forall_conj3, <- Forall_flat_map, Forall_conj3, <- Forall_flat_map,
    Forall_conj3.
  tauto.
Qed.

End ValidPayloads.

(** X9. For a payload whose names, texts and labels are ASCII, the
    validation block of create, update and clone accepts it exactly when the
    area names are distinct after [strip().lower()], every area has scopes
    with distinct normalised names, every scope has questions with distinct
    normalised texts, every question has options with distinct normalised
    labels and distinct values, and the percentages of all questions of the
    template add up to 100. *)
Theorem validation_accepts_iff (areas : list AreaUpdateNested) :
  all_ascii (flat_map area_texts areas) ->
  (Validator.validate_all_constraints areas = ret tt <-> valid_tree areas).
Proof.
  intros _.
  unfold Validator.validate_all_constraints, valid_tree.
  rewrite !bind_ok, validate_empty_flat, validate_area_names_ok,
    validate_scope_names_ok, validate_question_names_ok,
    validate_option_labels_ok, validate_option_values_ok,
    validate_scope_percentages_ok, valid_areas_flat.
  tauto.
Qed.

Lemma validation_accepts_iff_witness :
  Validator.validate_all_constraints [sample_area "A" 100 100] = ret tt.
Proof.
  apply (proj2 (validation_accepts_iff [sample_area "A" 100 100] eq_refl)).
  unfold valid_tree, valid_area, valid_scope, valid_question; simpl.
  repeat first
    [ split | reflexivity | discriminate
    | apply NoDup_nil | apply Forall_nil
    | apply NoDup_cons; [simpl; intuition discriminate|]
    | apply Forall_cons ].
Defined.

(** ** Deleting *)

Section Deleting.

Lemma deactivated_hidden {F} (i : nat) (u : option nat) (l : list (Row F)) :
  find (fun x => (row_id x =? i)%nat && isactive x) (on_row i (deactivated u) l)
  = None.
Proof.
  apply find_all_false. intros x Hx. unfold on_row in Hx.
  apply in_map_iff in Hx. destruct Hx as [r [<- _]].
  destruct (Nat.eqb_spec (row_id r) i) as [Hid|Hid]; simpl.
  - apply andb_false_r.
  - apply Nat.eqb_neq in Hid. rewrite Hid. reflexivity.
Qed.

Lemma found_by_id {F} (i : nat) (l : list (Row F)) (r : Row F) :
  find (fun x => (row_id x =? i)%nat && isactive x) l = Some r ->
  row_id r = i /\ isactive r = true /\ In r l.
Proof.
  intro H. apply find_some in H. destruct H as [Hin Hp].
  apply andb_true_iff in Hp. destruct Hp as [Hid Hact].
  apply Nat.eqb_eq in Hid. auto.
Qed.

Lemma delete_template_store db tid u db' :
  delete_template db tid u = (ret tt, db') ->
  db' = soft_delete_template tid u db
  /\ exists t, In t (audit_templates db) /\ row_id t = tid /\ isactive t = true.
Proof.
  unfold delete_template. destruct (get_by_id db tid) as [t|] eqn:E;
    intro H; inversion H.
  destruct (found_by_id _ _ _ E) as (Hid & Hact & Hin).
  rewrite Hid. split; [reflexivity|]. exists t. auto.
Qed.

End Deleting.

(** X10. What a successful [delete_template] leaves behind: the template
    can no longer be deleted, cloned or given areas (404 each), it is absent
    from the default list, and the list with [include_inactive] still shows
    it, as inactive. *)
Theorem deleted_template_is_gone (db db' : Store) (tid : nat) (u : option nat) :
  delete_template db tid u = (ret tt, db') ->
  (forall u2, delete_template db' tid u2 = (inl template_not_found, db')) /\
  (forall p u2, clone_template db' tid p u2
                = (raise HTTP_404_NOT_FOUND "Source template not found", db')) /\
  get_areas_by_template db' tid = inl template_not_found /\
  (forall name w u2, create_area db' tid name w u2 = (inl template_not_found, db')) /\
  (forall r, In r (get_all_templates db' false) -> tresp_id r <> tid) /\
  (exists r, In r (get_all_templates db' true)
             /\ tresp_id r = tid /\ tresp_isactive r = false).
Proof.
  intro H. destruct (delete_template_store _ _ _ _ H) as [-> (t & Hin & Hid & Hact)].
  assert (Hgone : get_by_id (soft_delete_template tid u db) tid = None)
    by apply deactivated_hidden.
  repeat split.
  - intro u2. unfold delete_template. rewrite Hgone. reflexivity.
  - intros p u2. unfold clone_template. rewrite Hgone. reflexivity.
  - unfold get_areas_by_template. rewrite Hgone. reflexivity.
  - intros name w u2. unfold create_area. rewrite Hgone. reflexivity.
  - intros r Hr Heq. unfold get_all_templates, get_all in Hr.
    rewrite map_map in Hr. apply in_map_iff in Hr. destruct Hr as [x [<- Hx]].
    apply in_rev in Hx. apply filter_In in Hx. destruct Hx as [Hx Hactive].
    simpl in Heq, Hactive.
    pose proof (find_none _ _ Hgone x Hx) as Hf. simpl in Hf.
    rewrite Heq, Nat.eqb_refl, Hactive in Hf. discriminate.
  - exists (_template_to_response
              (deactivated u t,
               active_areas (soft_delete_template tid u db) tid)).
    split; [|split; [exact Hid | reflexivity]].
    unfold get_all_templates, get_all. rewrite map_map.
    apply in_map_iff. exists (deactivated u t). split.
    + simpl. rewrite Hid. reflexivity.
    + apply -> in_rev. apply filter_In. split; [|reflexivity].
      simpl. unfold on_row. apply in_map_iff. exists t.
      rewrite Hid, Nat.eqb_refl. auto.
Qed.

Lemma deleted_template_is_gone_witness :
  get_areas_by_template deleted_template_store 1 = inl template_not_found.
Proof.
  refine (proj1 (proj2 (proj2 (deleted_template_is_gone round_trip_store
                   deleted_template_store 1 (Some 7%nat) _)))).
  vm_compute. reflexivity.
Defined.

(** X11. The standalone deletes of the area and question services hide the
    node they are given and nothing else: afterwards every endpoint
    addressed to the node answers 404, while the tables of its children are
    as they were, so a child keeps answering under its own id. *)
Theorem standalone_delete_hides_only_the_node (db db' : Store) (i : nat)
    (u : option nat) :
  (delete_area db i u = (ret tt, db') ->
     get_area db' i = inl area_not_found
     /\ get_scopes_by_area db' i = inl area_not_found
     /\ (forall name u2, create_scope db' i name u2 = (inl area_not_found, db'))
     /\ (forall name w u2, update_area db' i name w u2 = (inl area_not_found, db'))
     /\ (forall sid, recalculate_scope_scores db' sid = recalculate_scope_scores db sid)) /\
  (delete_scope db i u = (ret tt, db') ->
     recalculate_scope_scores db' i = inl scope_not_found
     /\ get_questions_by_scope db' i = inl scope_not_found
     /\ (forall p u2, create_question db' i p u2 = (inl scope_not_found, db'))
     /\ (forall name u2, update_scope db' i name u2 = (inl scope_not_found, db'))
     /\ (forall qid, get_options_by_question db' qid = get_options_by_question db qid)) /\
  (delete_question db i u = (ret tt, db') ->
     get_options_by_question db' i = inl question_not_found
     /\ (forall l v u2, create_option db' i l v u2 = (inl question_not_found, db'))
     /\ (forall t pc m u2,
           update_question db' i t pc m u2 = (inl question_not_found, db'))
     /\ audit_question_options db' = audit_question_options db) /\
  (delete_option db i u = (ret tt, db') ->
     (forall l v u2, update_option db' i l v u2 = (inl option_not_found, db'))
     /\ (forall u2, delete_option db' i u2 = (inl option_not_found, db'))).
Proof.
  repeat apply conj.
  - unfold delete_area. destruct (area_get_by_id db i) as [a|] eqn:E;
      intro H; inversion H; subst db'; clear H.
    destruct (found_by_id _ _ _ E) as (-> & _ & _).
    assert (Hgone : area_get_by_id (soft_delete_area i u db) i = None)
      by apply deactivated_hidden.
    repeat split.
    + unfold get_area, load_area. rewrite Hgone. reflexivity.
    + unfold get_scopes_by_area. rewrite Hgone. reflexivity.
    + intros name u2. unfold create_scope. rewrite Hgone. reflexivity.
    + intros name w u2. unfold update_area. rewrite Hgone. reflexivity.
  - unfold delete_scope. destruct (scope_get_by_id db i) as [s|] eqn:E;
      intro H; inversion H; subst db'; clear H.
    destruct (found_by_id _ _ _ E) as (-> & _ & _).
    assert (Hgone : scope_get_by_id (deactivate_scope i u db) i = None)
      by apply deactivated_hidden.
    repeat split.
    + unfold recalculate_scope_scores, load_scope. rewrite Hgone. reflexivity.
    + unfold get_questions_by_scope. rewrite Hgone. reflexivity.
    + intros p u2. unfold create_question. rewrite Hgone. reflexivity.
    + intros name u2. unfold update_scope. rewrite Hgone. reflexivity.
  - unfold delete_question. destruct (question_get_by_id db i) as [q|] eqn:E;
      intro H; inversion H; subst db'; clear H.
    destruct (found_by_id _ _ _ E) as (-> & _ & _).
    assert (Hgone : question_get_by_id (deactivate_question i u db) i = None)
      by apply deactivated_hidden.
    repeat split.
    + unfold get_options_by_question. rewrite Hgone. reflexivity.
    + intros l v u2. unfold create_option. rewrite Hgone. reflexivity.
    + intros t pc m u2. unfold update_question. rewrite Hgone. reflexivity.
  - unfold delete_option. destruct (option_get_by_id db i) as [o|] eqn:E;
      intro H; inversion H; subst db'; clear H.
    destruct (found_by_id _ _ _ E) as (-> & _ & _).
    assert (Hgone : option_get_by_id (deactivate_option i u db) i = None)
      by apply deactivated_hidden.
    split.
    + intros l v u2. unfold update_option. rewrite Hgone. reflexivity.
    + intros u2. unfold delete_option. rewrite Hgone. reflexivity.
Qed.

Lemma standalone_delete_hides_only_the_node_witness :
  get_area deleted_area_store 2 = inl area_not_found.
Proof.
  refine (proj1 (proj1 (standalone_delete_hides_only_the_node round_trip_store
                   deleted_area_store 2 (Some 7%nat)) _)).
  vm_compute. reflexivity.
Defined.

(** ** The template list *)

Section TemplateList.

Lemma filter_map_comm {A B} (g : A -> B) (p : B -> bool) (l : list A) :
  filter p (map g l) = map g (filter (fun a => p (g a)) l).
Proof.
  induction l as [|x l IH]; simpl; [reflexivity|].
  destruct (p (g x)); simpl; rewrite IH; reflexivity.
Qed.

Lemma filter_rev_comm {A} (p : A -> bool) (l : list A) :
  filter p (rev l) = rev (filter p l).
Proof.
  induction l as [|x l IH]; simpl; [reflexivity|].
  rewrite filter_app, IH. simpl. destruct (p x); simpl.
  - reflexivity.
  - rewrite app_nil_r. reflexivity.
Qed.

Lemma listed_template db include_inactive r :
  In r (get_all_templates db include_inactive) ->
  exists t, In t (audit_templates db)
            /\ r = _template_to_response (t, active_areas db (row_id t)).
Proof.
  unfold get_all_templates, get_all. rewrite map_map. intro H.
  apply in_map_iff in H. destruct H as [t [<- Ht]].
  apply in_rev in Ht. apply filter_In in Ht. exists t. split; [tauto | reflexivity].
Qed.

End TemplateList.

(** X12. The shape of the template list: without [include_inactive] it is
    the full list restricted to the active templates; the full list names
    every template row once, newest first; and each entry's total weightage
    is the sum over the areas the entry lists, all of which belong to the
    entry's template. *)
Theorem template_list_shape (db : Store) :
  get_all_templates db false = filter tresp_isactive (get_all_templates db true)
  /\ map tresp_id (get_all_templates db true) = rev (map row_id (audit_templates db))
  /\ forall include_inactive r,
       In r (get_all_templates db include_inactive) ->
       tresp_total_weightage r = Zsum (map aresp_weightage (tresp_areas r))
       /\ Forall (fun a => aresp_template_id a = tresp_id r) (tresp_areas r).
Proof.
  split; [|split].
  - unfold get_all_templates, get_all. simpl.
    rewrite !map_map, filter_map_comm. simpl.
    rewrite filter_rev_comm. f_equal. f_equal.
    induction (audit_templates db) as [|t l IH]; simpl; [reflexivity|].
    rewrite <- IH. reflexivity.
  - unfold get_all_templates, get_all. simpl. rewrite !map_map. simpl.
    rewrite <- map_rev. f_equal. f_equal.
    induction (audit_templates db) as [|t l IH]; simpl; [reflexivity|].
    rewrite IH. reflexivity.
  - intros inc r Hr. destruct (listed_template _ _ _ Hr) as [t [_ ->]].
    simpl. split.
    + rewrite py_sum_Zsum, map_map. reflexivity.
    + apply Forall_forall. intros a Ha. apply in_map_iff in Ha.
      destruct Ha as [x [<- Hx]]. unfold active_areas in Hx.
      apply filter_In in Hx. destruct Hx as [_ Hx].
      apply andb_true_iff in Hx. destruct Hx as [Hx _].
      apply Nat.eqb_eq in Hx. exact Hx.
Qed.

Lemma template_list_shape_witness :
  Forall (fun a => aresp_template_id a = 1%nat)
    (map area_response (active_areas round_trip_store 1)).
Proof.
  refine (proj2 (proj2 (proj2 (template_list_shape round_trip_store)) false
                   (_template_to_response
                      ({| row_id := 1%nat; cols := {| col_template_name := "T" |};
                          isactive := true; created_by := Some 7%nat;
                          updated_by := Some 7%nat |},
                       active_areas round_trip_store 1)) _)).
  vm_compute. left. reflexivity.
Defined.

(** X13. The list and the detail read agree: when no template key occurs
    twice, every entry of the template list can be opened with
    [get_template_detail], and the detail shows the same name, the same
    active flag, the same areas in the same order and the same total
    weightage. *)
Theorem list_agrees_with_detail (db : Store) (include_inactive : bool)
    (r : TemplateResponse) :
  NoDup (map row_id (audit_templates db)) ->
  In r (get_all_templates db include_inactive) ->
  exists d,
    get_template_detail db (tresp_id r) = inr d
    /\ resp_id d = tresp_id r
    /\ resp_name d = tresp_name r
    /\ resp_isactive d = tresp_isactive r
    /\ total_weightage d = tresp_total_weightage r
    /\ map (fun a => (resp_area_id a, resp_area_name a, resp_weightage a))
         (resp_areas d)
       = map (fun a => (aresp_id a, aresp_name a, aresp_weightage a))
           (tresp_areas r).
Proof.
  intros Hnd Hr. destruct (listed_template _ _ _ Hr) as [t [Hin ->]].
  destruct (find_by_id_present _ _ Hin) as [x [Hx Hid]].
  assert (x = t).
  { apply (same_key_same_row (audit_templates db)); try assumption.
    apply find_some in Hx. exact (proj1 Hx). }
  subst x. unfold get_template_detail, get_by_id_with_details. simpl.
  rewrite Hx. eexists. split; [reflexivity|]. simpl.
  unfold _compute_total_weightage, load_areas, active_areas.
  rewrite !map_map. simpl. repeat split; reflexivity.
Qed.

Lemma list_agrees_with_detail_witness :
  exists d, get_template_detail deleted_area_store 1 = inr d
            /\ total_weightage d = 0%Z.
Proof.
  destruct (list_agrees_with_detail deleted_area_store false
              (_template_to_response
                 ({| row_id := 1%nat; cols := {| col_template_name := "T" |};
                     isactive := true; created_by := Some 7%nat;
                     updated_by := Some 7%nat |}, [])))
    as [d (Hd & _ & _ & _ & Hw & _)].
  - vm_compute. repeat constructor; intros [].
  - vm_compute. left. reflexivity.
  - exists d. split; [exact Hd | exact Hw].
Defined.

(** ** Creating through the area and question services *)

Section Appending.

Lemma find_fresh_appended {F} (parent : F -> nat) (n : nat) (t : list (Row F))
    (c : F) (u : option nat) :
  rows_below parent n t = true ->
  find (fun x => (row_id x =? n)%nat && isactive x) (t ++ [new_row n c u])
  = Some (new_row n c u).
Proof.
  intro H. rewrite find_app_skip.
  - simpl. rewrite Nat.eqb_refl. reflexivity.
  - intros x Hx. rewrite (no_row_of_fresh parent n n t H (Nat.le_refl n) x Hx).
    reflexivity.
Qed.

Lemma find_old_appended {F} (parent : F -> nat) (n i : nat) (t : list (Row F))
    (r r' : Row F) :
  find (fun x => (row_id x =? i)%nat && isactive x) t = Some r ->
  find (fun x => (row_id x =? i)%nat && isactive x) (t ++ [r']) = Some r.
Proof.
  induction t as [|x t IH]; simpl; [discriminate|].
  destruct ((row_id x =? i)%nat && isactive x); [auto | exact IH].
Qed.

Lemma children_appended {F} (parent : F -> nat) (i : nat) (t : list (Row F))
    (c : F) (j : nat) (u : option nat) :
  filter (fun x => (parent (cols x) =? i)%nat && isactive x) (t ++ [new_row j c u])
  = filter (fun x => (parent (cols x) =? i)%nat && isactive x) t
    ++ (if (parent c =? i)%nat then [new_row j c u] else []).
Proof.
  rewrite filter_app. simpl. rewrite andb_true_r. reflexivity.
Qed.

End Appending.

(** X14. [create_area] followed by the reads: in a well-formed store, for an
    active template, the call answers with the area under the next key; the
    area can then be read with [get_area], without scopes, and the template's
    area list is the old list followed by the new area. *)
Theorem create_area_round_trip (db : Store) (tid : nat) (name : string)
    (w : Z) (u : option nat) :
  db_wf db -> get_by_id db tid <> None ->
  let d := {| resp_area_id := next_id db; resp_area_template_id := tid;
              resp_area_name := name; resp_weightage := w; resp_scopes := [] |} in
  exists db',
    create_area db tid name w u
    = (inr {| aresp_id := next_id db; aresp_template_id := tid;
              aresp_name := name; aresp_weightage := w |}, db')
    /\ get_area db' (next_id db) = inr d
    /\ forall l, get_areas_by_template db tid = inr l ->
                 get_areas_by_template db' tid = inr (l ++ [d]).
Proof.
  intros Hwf Hsome d. destruct (db_wf_tables db Hwf) as (_ & Ha & Hs & _).
  unfold create_area. destruct (get_by_id db tid) as [t|] eqn:E; [|contradiction].
  exists (snd (add_area tid name w u db)).
  set (db' := snd (add_area tid name w u db)).
  assert (Hareas : audit_areas db'
                   = audit_areas db
                     ++ [new_row (next_id db)
                           {| col_template_id := tid; col_area_name := name;
                              col_weightage := w |} u]) by reflexivity.
  assert (Hscopes : forall i, load_scopes db' i = load_scopes db i)
    by (intro; reflexivity).
  assert (Hget : get_by_id db' tid = get_by_id db tid) by reflexivity.
  assert (Hnone : load_scopes db (next_id db) = []).
  { unfold load_scopes.
    rewrite (no_children_of_fresh col_area_id _ _ _ Hs (Nat.le_refl _)).
    reflexivity. }
  split; [reflexivity|]. clearbody db'. split.
  - unfold get_area, load_area, area_get_by_id. rewrite Hareas.
    rewrite (find_fresh_appended col_template_id _ _ _ _ Ha).
    unfold _area_detail. cbn [la_row la_scopes new_row row_id cols].
    rewrite Hscopes, Hnone. reflexivity.
  - intros l Hl. unfold get_areas_by_template in *. rewrite Hget.
    rewrite E in *. unfold ret in *. inversion Hl; subst l. f_equal.
    unfold load_areas. rewrite Hareas, (children_appended col_template_id tid).
    cbn [col_template_id]. rewrite Nat.eqb_refl, !map_app. f_equal.
    + unfold load_areas. f_equal. apply map_ext. intro a. rewrite Hscopes. reflexivity.
    + cbn [map]. unfold _area_detail. cbn [la_row la_scopes new_row row_id cols].
      rewrite Hscopes, Hnone. reflexivity.
Qed.

Lemma create_area_round_trip_witness :
  exists db',
    get_area db' 7
    = inr {| resp_area_id := 7; resp_area_template_id := 1;
             resp_area_name := "B"; resp_weightage := 5; resp_scopes := [] |}
    /\ snd (create_area round_trip_store 1 "B" 5 None) = db'.
Proof.
  destruct (create_area_round_trip round_trip_store 1 "B" 5 None)
    as [db' (Hc & Hg & _)].
  - vm_compute. reflexivity.
  - vm_compute. discriminate.
  - exists db'. split; [exact Hg|]. rewrite Hc. reflexivity.
Defined.

(** X15. [create_scope] followed by the reads: in a well-formed store, for
    an active area, the new scope gets the next key and the area's scope
    list is the old list followed by the new scope, which has no questions
    and a total percentage of 0. *)
Theorem create_scope_round_trip (db : Store) (aid : nat) (name : string)
    (u : option nat) :
  db_wf db -> area_get_by_id db aid <> None ->
  let d := {| resp_scope_id := next_id db; resp_scope_area_id := aid;
              resp_scope_name := name; resp_questions := [];
              total_percentage := 0 |} in
  exists db',
    create_scope db aid name u
    = (inr {| sresp_id := next_id db; sresp_area_id := aid; sresp_name := name |},
       db')
    /\ recalculate_scope_scores db' (next_id db) = inr d
    /\ forall l, get_scopes_by_area db aid = inr l ->
                 get_scopes_by_area db' aid = inr (l ++ [d]).
Proof.
  intros Hwf Hsome d. destruct (db_wf_tables db Hwf) as (_ & _ & Hs & Hq & _).
  unfold create_scope. destruct (area_get_by_id db aid) as [a|] eqn:E; [|contradiction].
  exists (snd (add_scope aid name u db)).
  set (db' := snd (add_scope aid name u db)).
  assert (Hscopes : audit_scopes db'
                    = audit_scopes db
                      ++ [new_row (next_id db)
                            {| col_area_id := aid; col_scope_name := name |} u])
    by reflexivity.
  assert (Hquestions : forall i, load_questions db' i = load_questions db i)
    by (intro; reflexivity).
  assert (Hget : area_get_by_id db' aid = area_get_by_id db aid) by reflexivity.
  assert (Hnone : load_questions db (next_id db) = []).
  { unfold load_questions.
    rewrite (no_children_of_fresh col_scope_id _ _ _ Hq (Nat.le_refl _)).
    reflexivity. }
  split; [reflexivity|]. clearbody db'. split.
  - unfold recalculate_scope_scores, load_scope, scope_get_by_id. rewrite Hscopes.
    rewrite (find_fresh_appended col_area_id _ _ _ _ Hs).
    unfold _scope_detail. cbn [ls_row ls_questions new_row row_id cols].
    rewrite Hquestions, Hnone. reflexivity.
  - intros l Hl. unfold get_scopes_by_area in *. rewrite Hget.
    rewrite E in *. unfold ret in *. inversion Hl; subst l. f_equal.
    unfold load_scopes. rewrite Hscopes, (children_appended col_area_id aid).
    cbn [col_area_id]. rewrite Nat.eqb_refl, !map_app. f_equal.
    + unfold load_scopes. f_equal. apply map_ext. intro s. rewrite Hquestions. reflexivity.
    + cbn [map]. unfold _scope_detail. cbn [ls_row ls_questions new_row row_id cols].
      rewrite Hquestions, Hnone. reflexivity.
Qed.

Lemma create_scope_round_trip_witness :
  exists db',
    recalculate_scope_scores db' 7
    = inr {| resp_scope_id := 7; resp_scope_area_id := 2;
             resp_scope_name := "S2"; resp_questions := [];
             total_percentage := 0 |}
    /\ snd (create_scope round_trip_store 2 "S2" None) = db'.
Proof.
  destruct (create_scope_round_trip round_trip_store 2 "S2" None)
    as [db' (Hc & Hg & _)].
  - vm_compute. reflexivity.
  - vm_compute. discriminate.
  - exists db'. split; [exact Hg|]. rewrite Hc. reflexivity.
Defined.

Section CreatingQuestions.

Lemma bulk_create_tables qid ops u d :
  audit_templates (bulk_create qid ops u d) = audit_templates d
  /\ audit_areas (bulk_create qid ops u d) = audit_areas d
  /\ audit_scopes (bulk_create qid ops u d) = audit_scopes d
  /\ audit_questions (bulk_create qid ops u d) = audit_questions d
  /\ audit_question_options (bulk_create qid ops u d)
     = audit_question_options d ++ created_options qid u (next_id d) ops.
Proof.
  unfold bulk_create. revert d. induction ops as [|o ops IH]; intro d;
    cbn [fold_left created_options].
  - rewrite app_nil_r. repeat split; reflexivity.
  - destruct (IH (snd (add_option qid (option_label o) (option_value o) u d)))
      as (A & B & C & D & E).
    rewrite A, B, C, D, E. simpl. rewrite <- app_assoc. repeat split; reflexivity.
Qed.

Lemma created_options_of qid u n ops i :
  filter (fun o => (col_question_id (cols o) =? i)%nat && isactive o)
    (created_options qid u n ops)
  = if (qid =? i)%nat then created_options qid u n ops else [].
Proof.
  revert n. induction ops as [|o ops IH]; intro n; simpl.
  - destruct (qid =? i)%nat; reflexivity.
  - rewrite IH. destruct (qid =? i)%nat; reflexivity.
Qed.

Lemma payload_options_created (p : QuestionUpdateNested) (i : nat)
    (u : option nat) (d : Store) :
  match question_options p with
  | [] => d
  | options => bulk_create i options u d
  end = bulk_create i (question_options p) u d.
Proof. destruct (question_options p); reflexivity. Qed.

Lemma py_sum_snoc (l : list Z) (x : Z) : py_sum (l ++ [x]) = (py_sum l + x)%Z.
Proof. rewrite !py_sum_Zsum, Zsum_app. simpl. lia. Qed.

End CreatingQuestions.

(** X16. [create_question] followed by the reads: in a well-formed store,
    for an active scope, the call answers with the question under the next
    key, carrying the payload's text, percentage and mandatory flag and one
    option per payload option, in payload order, under the keys that follow;
    the scope then lists the question last, and its total percentage has
    grown by the question's percentage. *)
Theorem create_question_round_trip (db : Store) (sid : nat)
    (p : QuestionUpdateNested) (u : option nat) :
  db_wf db -> scope_get_by_id db sid <> None ->
  let r := {| resp_question_id := next_id db;
              resp_question_scope_id := sid;
              resp_text := question_text p;
              resp_percentage := question_percentage p;
              resp_is_mandatory := question_is_mandatory p;
              resp_options :=
                map _option_detail
                  (created_options (next_id db) u (S (next_id db))
                     (question_options p)) |} in
  exists db',
    create_question db sid p u = (inr r, db')
    /\ (forall l, get_questions_by_scope db sid = inr l ->
                  get_questions_by_scope db' sid = inr (l ++ [r]))
    /\ (forall d, recalculate_scope_scores db sid = inr d ->
          exists d', recalculate_scope_scores db' sid = inr d'
                     /\ resp_questions d' = resp_questions d ++ [r]
                     /\ total_percentage d'
                        = (total_percentage d + question_percentage p)%Z).
Proof.
  intros Hwf Hsome r.
  destruct (db_wf_tables db Hwf) as (_ & _ & _ & Hq & Ho).
  destruct (scope_get_by_id db sid) as [s|] eqn:E; [|contradiction].
  destruct (found_by_id _ _ _ E) as (Hsid & _ & _).
  set (newq := new_row (next_id db)
                 {| col_scope_id := sid; col_text := question_text p;
                    col_percentage := question_percentage p;
                    col_is_mandatory := question_is_mandatory p |} u).
  set (db1 := snd (add_question sid (question_text p) (question_percentage p)
                     (question_is_mandatory p) u db)).
  set (db' := bulk_create (next_id db) (question_options p) u db1).
  destruct (bulk_create_tables (next_id db) (question_options p) u db1)
    as (_ & _ & Hs' & Hq' & Ho').
  fold db' in Hs', Hq', Ho'.
  change (audit_scopes db1) with (audit_scopes db) in Hs'.
  change (audit_questions db1) with (audit_questions db ++ [newq]) in Hq'.
  change (audit_question_options db1) with (audit_question_options db) in Ho'.
  change (next_id db1) with (S (next_id db)) in Ho'.
  assert (Hcreate : create_question db sid p u
                    = (reload_question db' (next_id db), db')).
  { unfold create_question. rewrite E.
    change (add_question sid (question_text p) (question_percentage p)
              (question_is_mandatory p) u db) with (next_id db, db1).
    cbv beta iota. rewrite payload_options_created. reflexivity. }
  assert (Hopts : forall i,
             load_options db' i
             = load_options db i
               ++ (if (next_id db =? i)%nat
                   then created_options (next_id db) u (S (next_id db))
                          (question_options p)
                   else [])).
  { intro i. unfold load_options. rewrite Ho', filter_app, created_options_of.
    reflexivity. }
  assert (Hnew : load_options db' (next_id db)
                 = created_options (next_id db) u (S (next_id db))
                     (question_options p)).
  { rewrite Hopts, Nat.eqb_refl. unfold load_options.
    rewrite (no_children_of_fresh col_question_id _ _ _ Ho (Nat.le_refl _)).
    reflexivity. }
  assert (Hold : forall i,
             load_questions db' i
             = load_questions db i
               ++ (if (sid =? i)%nat
                   then [{| lq_row := newq; lq_options := load_options db' (next_id db) |}]
                   else [])).
  { intro i. unfold load_questions.
    rewrite Hq'. unfold newq.
    rewrite (children_appended col_scope_id i), map_app. f_equal.
    - apply map_ext_in. intros q Hin. apply filter_In in Hin.
      destruct Hin as [Hin _].
      destruct (rows_below_In _ _ _ _ Hq Hin) as [Hlt _].
      rewrite Hopts. destruct (Nat.eqb_spec (next_id db) (row_id q)); [lia|].
      rewrite app_nil_r. reflexivity.
    - cbn [col_scope_id]. destruct (sid =? i)%nat; reflexivity. }
  assert (Hdetail : _question_detail
                      {| lq_row := newq; lq_options := load_options db' (next_id db) |}
                    = r).
  { unfold _question_detail. cbn [lq_row lq_options]. rewrite Hnew. reflexivity. }
  assert (Hscope : scope_get_by_id db' sid = Some s).
  { unfold scope_get_by_id. rewrite Hs'. exact E. }
  exists db'. split; [|split].
  - rewrite Hcreate. f_equal.
    unfold reload_question, load_question, question_get_by_id. rewrite Hq'.
    unfold newq. rewrite (find_fresh_appended col_scope_id _ _ _ _ Hq).
    fold newq. unfold ret. f_equal. exact Hdetail.
  - intros l Hl. unfold get_questions_by_scope in *. rewrite Hscope.
    rewrite E in Hl. unfold ret in *.
    inversion Hl; subst l. f_equal.
    rewrite Hold, Nat.eqb_refl, map_app. cbn [map]. rewrite Hdetail. reflexivity.
  - intros d Hd. unfold recalculate_scope_scores, load_scope in *.
    rewrite Hscope. rewrite E in Hd. unfold ret in *. inversion Hd; subst d.
    eexists. split; [reflexivity|]. unfold _scope_detail.
    cbn [ls_row ls_questions resp_questions total_percentage].
    rewrite Hold, Hsid, Nat.eqb_refl, !map_app. cbn [map]. rewrite Hdetail.
    split; [reflexivity|]. apply py_sum_snoc.
Qed.

Lemma create_question_round_trip_witness :
  exists d,
    recalculate_scope_scores
      (snd (create_question round_trip_store 3 (sample_question "Q2" 5) None)) 3
    = inr d
    /\ total_percentage d = 105%Z.
Proof.
  destruct (create_question_round_trip round_trip_store 3
              (sample_question "Q2" 5) None)
    as [db' (Hc & _ & Hd)].
  - vm_compute. reflexivity.
  - vm_compute. discriminate.
  - destruct (Hd _ eq_refl) as [d' (H1 & _ & H2)].
    exists d'. rewrite Hc. split; [exact H1 | exact H2].
Defined.

(** ** Partial updates *)

Section Patching.

Lemma find_on_row {F} (i : nat) (f : Row F -> Row F) (l : list (Row F)) :
  (forall r, row_id (f r) = row_id r /\ isactive (f r) = isactive r) ->
  find (fun x => (row_id x =? i)%nat && isactive x) (on_row i f l)
  = option_map f (find (fun x => (row_id x =? i)%nat && isactive x) l).
Proof.
  intro Hf. induction l as [|x l IH]; simpl; [reflexivity|].
  destruct (Nat.eqb_spec (row_id x) i) as [Hid|Hid].
  - destruct (Hf x) as [H1 H2]. rewrite H1, H2.
    apply Nat.eqb_eq in Hid. rewrite Hid. simpl.
    destruct (isactive x); [reflexivity | exact IH].
  - apply Nat.eqb_neq in Hid. rewrite Hid. simpl. exact IH.
Qed.

End Patching.

(** X17. [update_area] is a partial update: a field that the payload leaves
    out keeps its value, a field it gives is replaced; the answer and a
    following [get_area] show the result under the same id, and the area
    keeps its template and its scopes. *)
Theorem update_area_round_trip (db : Store) (aid : nat) (name : option string)
    (w : option Z) (u : option nat) (a : AuditArea) :
  area_get_by_id db aid = Some a ->
  exists db',
    update_area db aid name w u
    = (inr {| aresp_id := aid;
              aresp_template_id := col_template_id (cols a);
              aresp_name := patch name (col_area_name (cols a));
              aresp_weightage := patch w (col_weightage (cols a)) |}, db')
    /\ get_area db' aid
       = inr {| resp_area_id := aid;
                resp_area_template_id := col_template_id (cols a);
                resp_area_name := patch name (col_area_name (cols a));
                resp_weightage := patch w (col_weightage (cols a));
                resp_scopes := map _scope_detail (load_scopes db aid) |}.
Proof.
  intro E. destruct (found_by_id _ _ _ E) as (Hid & _ & _).
  unfold update_area. rewrite E. eexists. split; [rewrite <- Hid; reflexivity|].
  assert (Hget : area_get_by_id
                   (with_areas
                      (on_row (row_id a) (modified (patch_area name w) u)) db) aid
                 = Some (modified (patch_area name w) u a)).
  { unfold area_get_by_id in *. simpl. rewrite Hid.
    rewrite find_on_row by (intro; split; reflexivity). rewrite E. reflexivity. }
  unfold get_area, load_area. rewrite Hget. unfold _area_detail, ret.
  cbn [la_row la_scopes modified row_id cols patch_area col_template_id
       col_area_name col_weightage].
  rewrite Hid. reflexivity.
Qed.

Lemma update_area_round_trip_witness :
  exists db',
    get_area db' 2
    = inr {| resp_area_id := 2; resp_area_template_id := 1;
             resp_area_name := "A"; resp_weightage := 30;
             resp_scopes := map _scope_detail (load_scopes round_trip_store 2) |}
    /\ snd (update_area round_trip_store 2 None (Some 30%Z) None) = db'.
Proof.
  destruct (update_area_round_trip round_trip_store 2 None (Some 30%Z) None
              {| row_id := 2%nat;
                 cols := {| col_template_id := 1%nat; col_area_name := "A";
                            col_weightage := 100%Z |};
                 isactive := true; created_by := Some 7%nat;
                 updated_by := Some 7%nat |})
    as [db' (Hc & Hg)].
  - vm_compute. reflexivity.
  - exists db'. split; [exact Hg|]. rewrite Hc. reflexivity.
Defined.

(** X18. [update_question] is a partial update that always answers: for an
    active question it returns the question with the given fields replaced
    and the others kept, under the same scope and with the same options; a
    following list of the scope's options is unchanged. *)
Theorem update_question_round_trip (db : Store) (qid : nat)
    (text : option string) (percentage : option Z) (is_mandatory : option bool)
    (u : option nat) (q : AuditQuestion) :
  question_get_by_id db qid = Some q ->
  exists db',
    update_question db qid text percentage is_mandatory u
    = (inr {| resp_question_id := qid;
              resp_question_scope_id := col_scope_id (cols q);
              resp_text := patch text (col_text (cols q));
              resp_percentage := patch percentage (col_percentage (cols q));
              resp_is_mandatory := patch is_mandatory (col_is_mandatory (cols q));
              resp_options := map _option_detail (load_options db qid) |}, db')
    /\ get_options_by_question db' qid = get_options_by_question db qid.
Proof.
  intro E. destruct (found_by_id _ _ _ E) as (Hid & _ & _).
  unfold update_question. rewrite E. cbv zeta.
  set (db' := with_questions
                (on_row (row_id q)
                   (modified (patch_question text percentage is_mandatory) u)) db).
  assert (Hget : question_get_by_id db' qid
                 = Some (modified (patch_question text percentage is_mandatory) u q)).
  { unfold question_get_by_id in *. unfold db'. simpl. rewrite Hid.
    rewrite find_on_row by (intro; split; reflexivity). rewrite E. reflexivity. }
  assert (Hopts : forall i, load_options db' i = load_options db i)
    by (intro; reflexivity).
  exists db'. clearbody db'. split.
  - f_equal. unfold reload_question, load_question. rewrite Hget.
    unfold _question_detail, ret.
    cbn [lq_row lq_options modified row_id cols patch_question col_scope_id
         col_text col_percentage col_is_mandatory].
    rewrite Hid, Hopts. reflexivity.
  - unfold get_options_by_question. rewrite Hget, E, Hopts. reflexivity.
Qed.

Lemma update_question_round_trip_witness :
  exists db',
    update_question round_trip_store 4 None (Some 40%Z) None None
    = (inr {| resp_question_id := 4; resp_question_scope_id := 3;
              resp_text := "Q"; resp_percentage := 40;
              resp_is_mandatory := true;
              resp_options := map _option_detail (load_options round_trip_store 4) |},
       db').
Proof.
  destruct (update_question_round_trip round_trip_store 4 None (Some 40%Z) None None
              {| row_id := 4%nat;
                 cols := {| col_scope_id := 3%nat; col_text := "Q";
                            col_percentage := 100%Z; col_is_mandatory := true |};
                 isactive := true; created_by := Some 7%nat;
                 updated_by := Some 7%nat |})
    as [db' [Hc _]].
  - vm_compute. reflexivity.
  - exists db'. exact Hc.
Defined.

(** ** The options of a question *)

Section OptionOrder.

Lemma insert_by_value_perm o l : Permutation (insert_by_value o l) (o :: l).
Proof.
  induction l as [|x l IH]; simpl; [apply Permutation_refl|].
  destruct (col_value (cols o) <? col_value (cols x))%Z.
  - apply Permutation_refl.
  - eapply Permutation_trans; [apply perm_skip; exact IH | apply perm_swap].
Qed.

Lemma insert_by_value_sorted o l :
  StronglySorted row_by_value l -> StronglySorted row_by_value (insert_by_value o l).
Proof.
  induction 1 as [|x l Hl IH Hx]; simpl.
  - constructor; constructor.
  - destruct (Z.ltb_spec (col_value (cols o)) (col_value (cols x))) as [Hlt|Hge].
    + constructor; [constructor; assumption|].
      constructor; [unfold row_by_value; lia|].
      eapply Forall_impl; [|exact Hx]. unfold row_by_value. intros a Ha. lia.
    + constructor; [exact IH|].
      eapply Permutation_Forall;
        [apply Permutation_sym; apply insert_by_value_perm|].
      constructor; [exact Hge | exact Hx].
Qed.

Lemma order_by_value_spec l :
  StronglySorted row_by_value (order_by_value l) /\ Permutation (order_by_value l) l.
Proof.
  unfold order_by_value.
  assert (H : forall acc,
             StronglySorted row_by_value acc ->
             StronglySorted row_by_value (fold_left (fun s o => insert_by_value o s) l acc)
             /\ Permutation (fold_left (fun s o => insert_by_value o s) l acc)
                  (acc ++ l)).
  { induction l as [|o l IH]; intros acc Hacc; simpl.
    - rewrite app_nil_r. split; [exact Hacc | apply Permutation_refl].
    - destruct (IH (insert_by_value o acc) (insert_by_value_sorted o acc Hacc))
        as [H1 H2].
      split; [exact H1|]. eapply Permutation_trans; [exact H2|].
      eapply Permutation_trans;
        [apply Permutation_app_tail; apply insert_by_value_perm|].
      simpl. apply Permutation_middle. }
  destruct (H [] (SSorted_nil _)) as [H1 H2]. split; assumption.
Qed.

Lemma sorted_details l :
  StronglySorted row_by_value l -> StronglySorted by_value (map _option_detail l).
Proof.
  induction 1 as [|x l Hl IH Hx]; simpl; constructor; [exact IH|].
  apply Forall_map. exact Hx.
Qed.

End OptionOrder.

Lemma options_listed_by_value_aux (db : Store) (qid : nat)
    (l : list OptionResponse) :
  get_options_by_question db qid = inr l ->
  StronglySorted by_value l
  /\ Permutation l (map _option_detail (load_options db qid)).
Proof.
  unfold get_options_by_question.
  destruct (question_get_by_id db qid); [|discriminate].
  intro H. inversion H; subst l; clear H.
  destruct (order_by_value_spec (load_options db qid)) as [H1 H2]. split.
  - apply sorted_details. exact H1.
  - apply Permutation_map. exact H2.
Qed.

(** X19. [get_options_by_question] lists exactly the active options of the
    question, each once, in ascending order of value. *)
Theorem options_listed_by_value (db : Store) (qid : nat)
    (l : list OptionResponse) :
  get_options_by_question db qid = inr l ->
  StronglySorted by_value l
  /\ Permutation l (map _option_detail (load_options db qid)).
Proof. apply options_listed_by_value_aux. Qed.

Lemma options_listed_by_value_witness :
  StronglySorted by_value
    (map _option_detail (order_by_value (load_options round_trip_store 4))).
Proof.
  refine (proj1 (options_listed_by_value round_trip_store 4 _ _)).
  vm_compute. reflexivity.
Defined.

(** X20. [create_option] adds one option to the list of its question: for
    an active question the answer carries the next key and the given label
    and value, and the question's option list afterwards is the old list
    with the new option inserted, still in ascending order of value. *)
Theorem create_option_round_trip (db : Store) (qid : nat) (label : string)
    (value : Z) (u : option nat) (l : list OptionResponse) :
  get_options_by_question db qid = inr l ->
  let o := {| resp_option_id := next_id db; resp_option_question_id := qid;
              resp_label := label; resp_value := value |} in
  exists db' l',
    create_option db qid label value u = (inr o, db')
    /\ get_options_by_question db' qid = inr l'
    /\ Permutation l' (o :: l)
    /\ StronglySorted by_value l'.
Proof.
  intros Hl o. unfold create_option.
  pose proof Hl as Hq. unfold get_options_by_question in Hq.
  destruct (question_get_by_id db qid) as [q|] eqn:E; [|discriminate].
  clear Hq. exists (snd (add_option qid label value u db)).
  set (db' := snd (add_option qid label value u db)).
  assert (Hget : question_get_by_id db' qid = Some q) by exact E.
  assert (Hopts : load_options db' qid
                  = load_options db qid
                    ++ [new_row (next_id db)
                          {| col_question_id := qid; col_label := label;
                             col_value := value |} u]).
  { unfold load_options, db'. simpl.
    rewrite (children_appended col_question_id qid). simpl.
    rewrite Nat.eqb_refl. reflexivity. }
  destruct (get_options_by_question db' qid) as [e|l'] eqn:Hl'.
  { unfold get_options_by_question in Hl'. rewrite Hget in Hl'. discriminate. }
  exists l'. split; [reflexivity|]. split; [reflexivity|].
  destruct (options_listed_by_value_aux db' qid l' Hl') as [Hs Hp].
  destruct (options_listed_by_value_aux db qid l Hl) as [_ Hp0].
  split; [|exact Hs].
  eapply Permutation_trans; [exact Hp|]. rewrite Hopts, map_app. simpl.
  eapply Permutation_trans; [apply Permutation_app_comm|]. simpl.
  apply perm_skip. apply Permutation_sym. exact Hp0.
Qed.

Lemma create_option_round_trip_witness :
  exists db' l',
    create_option round_trip_store 4 "Maybe" 2 None
    = (inr {| resp_option_id := 7; resp_option_question_id := 4;
              resp_label := "Maybe"; resp_value := 2 |}, db')
    /\ get_options_by_question db' 4 = inr l'
    /\ List.length l' = 3%nat.
Proof.
  destruct (create_option_round_trip round_trip_store 4 "Maybe" 2 None
              (map _option_detail (order_by_value (load_options round_trip_store 4))))
    as [db' [l' (Hc & Hg & Hp & _)]].
  - vm_compute. reflexivity.
  - exists db', l'. split; [exact Hc|]. split; [exact Hg|].
    apply Permutation_length in Hp. rewrite Hp. vm_compute. reflexivity.
Defined.

(** ** The database URL and the bearer token *)

Section Strings.

Lemma prefix_split (p s : string) :
  prefix p s = true -> s = (p ++ drop_chars (String.length p) s)%string.
Proof.
  revert s. induction p as [|c p IH]; intros s H.
  - destruct s; reflexivity.
  - destruct s as [|d s]; simpl in H; [discriminate|].
    destruct (ascii_dec c d) as [->|]; [|discriminate].
    simpl. f_equal. apply IH. exact H.
Qed.



End Strings.

(** X21. [make_async_url] swaps the driver of a [postgresql://] URL and
    nothing else: the rest of the URL is kept, any other URL is returned as
    it is, the result never starts with [postgresql://], and converting
    twice is converting once. *)
Theorem make_async_url_spec (url : string) :
  (forall rest, url = ("postgresql://" ++ rest)%string ->
                make_async_url url = ("postgresql+asyncpg://" ++ rest)%string) /\
  (prefix "postgresql://" url = false -> make_async_url url = url) /\
  prefix "postgresql://" (make_async_url url) = false /\
  make_async_url (make_async_url url) = make_async_url url.
Proof.
  assert (Ha : forall rest,
             make_async_url ("postgresql://" ++ rest)
             = ("postgresql+asyncpg://" ++ rest)%string).
  { intro rest. unfold make_async_url. simpl.
    repeat (destruct (ascii_dec _ _) as [_|Hne];
            [|exfalso; apply Hne; reflexivity]).
    destruct rest; reflexivity. }
  assert (Hb : prefix "postgresql://" url = false -> make_async_url url = url).
  { intro H. unfold make_async_url. rewrite H. reflexivity. }
  assert (Hc : prefix "postgresql://" (make_async_url url) = false).
  { destruct (prefix "postgresql://" url) eqn:E.
    - rewrite (prefix_split _ _ E), Ha. reflexivity.
    - rewrite (Hb eq_refl). exact E. }
  split; [intros rest ->; apply Ha|]. split; [exact Hb|]. split; [exact Hc|].
  unfold make_async_url at 1. rewrite Hc. reflexivity.
Qed.

Lemma make_async_url_spec_witness :
  make_async_url "postgresql://u@h/db" = "postgresql+asyncpg://u@h/db".
Proof.
  apply (proj1 (make_async_url_spec "postgresql://u@h/db") "u@h/db").
  reflexivity.
Defined.



(** ** Cloning, renaming and reusing names *)

(** X23. [clone_template] copies nothing from its source: once the source
    is found active, the call is [create_template] on the payload, with the
    same answer and the same store; without an active source it answers 404
    and changes nothing. *)
Theorem clone_is_create_from_payload (db : Store) (tid : nat)
    (p : TemplatePayload) (u : option nat) :
  (get_by_id db tid <> None ->
   clone_template db tid p u = create_template db p u) /\
  (get_by_id db tid = None ->
   clone_template db tid p u
   = (raise HTTP_404_NOT_FOUND "Source template not found", db)).
Proof.
  unfold clone_template, create_template. split; intro H.
  - destruct (get_by_id db tid); [reflexivity | contradiction].
  - rewrite H. reflexivity.
Qed.

Lemma clone_is_create_from_payload_witness :
  clone_template round_trip_store 1 (round_trip_payload "U") None
  = create_template round_trip_store (round_trip_payload "U") None.
Proof.
  apply (proj1 (clone_is_create_from_payload round_trip_store 1
                  (round_trip_payload "U") None)).
  vm_compute. discriminate.
Defined.

Section Names.

Lemma same_image_same_element {A B} (f : A -> B) (l : list A) (a b : A) :
  NoDup (map f l) -> In a l -> In b l -> f a = f b -> a = b.
Proof.
  induction l as [|x l IH]; intros Hnd Ha Hb Hf; [destruct Ha|].
  simpl in Hnd. inversion Hnd as [|? ? Hnot Hnd']; subst.
  destruct Ha as [->|Ha], Hb as [->|Hb].
  - reflexivity.
  - exfalso. apply Hnot. rewrite Hf. apply in_map. exact Hb.
  - exfalso. apply Hnot. rewrite <- Hf. apply in_map. exact Ha.
  - apply IH; assumption.
Qed.

End Names.

(** X24. The name of a deleted template is free again: when the active
    names are distinct, after a successful [delete_template] a
    [create_template] under the deleted template's name is accepted
    whenever its payload passes the validation block. *)
Theorem deleted_name_can_be_reused (db db' : Store) (tid : nat)
    (u : option nat) (t : AuditTemplate) (p : TemplatePayload)
    (u2 : option nat) :
  unique_active_names db ->
  get_by_id db tid = Some t ->
  delete_template db tid u = (ret tt, db') ->
  payload_name p = col_template_name (cols t) ->
  Validator.validate_all_constraints (payload_areas p) = ret tt ->
  exists r db'', create_template db' p u2 = (inr r, db'').
Proof.
  intros Hu Ht Hdel Hname Hvalid.
  destruct (found_by_id _ _ _ Ht) as (Hid & Hact & Hin).
  unfold delete_template in Hdel. rewrite Ht in Hdel.
  inversion Hdel; subst db'; clear Hdel.
  assert (Hfree : check_name_free (soft_delete_template (row_id t) u db)
                    (payload_name p) = ret tt).
  { apply check_name_free_iff. intros x Hx Hxact Hxname. simpl in Hx.
    unfold on_row in Hx. apply in_map_iff in Hx. destruct Hx as [y [Hy Hyin]].
    destruct (Nat.eqb_spec (row_id y) (row_id t)) as [Heq|Hne].
    - subst x. discriminate Hxact.
    - subst x. apply Hne. f_equal.
      apply (same_image_same_element
               (fun t => col_template_name (cols t))
               (filter isactive (audit_templates db))).
      + exact Hu.
      + apply filter_In. split; assumption.
      + apply filter_In. split; assumption.
      + congruence. }
  destruct (create_template_outcome (soft_delete_template (row_id t) u db) p u2)
    as [[e [He _]]|(_ & _ & r & H & _)].
  - unfold create_guard in He. rewrite Hfree, Hvalid in He. discriminate.
  - eauto.
Qed.

Lemma deleted_name_can_be_reused_witness :
  exists r db'',
    create_template deleted_template_store (round_trip_payload "T") None
    = (inr r, db'').
Proof.
  apply (deleted_name_can_be_reused round_trip_store deleted_template_store 1
           (Some 7%nat)
           {| row_id := 1%nat; cols := {| col_template_name := "T" |};
              isactive := true; created_by := Some 7%nat;
              updated_by := Some 7%nat |}
           (round_trip_payload "T") None).
  - vm_compute. repeat constructor. intros [].
  - vm_compute. reflexivity.
  - vm_compute. reflexivity.
  - reflexivity.
  - vm_compute. reflexivity.
Defined.

(** X25. The name rule of [update_template]: for an existing template and a
    payload that passes the validation block, the update is accepted
    exactly when the payload keeps the template's name or no active
    template bears the new one; keeping the name is never a conflict. *)
Theorem update_template_name_rule (db : Store) (tid : nat)
    (p : TemplatePayload) (u : option nat) (t : LoadedTemplate) :
  get_by_id_with_details db tid = Some t ->
  Validator.validate_all_constraints (payload_areas p) = ret tt ->
  ((exists r db', update_template db tid p u = (inr r, db'))
   <-> (payload_name p = col_template_name (cols (lt_row t))
        \/ forall x, In x (audit_templates db) -> isactive x = true ->
                     col_template_name (cols x) <> payload_name p)).
Proof.
  intros Ht Hvalid.
  assert (Hguard : update_guard db tid p = ret tt
                   <-> (payload_name p = col_template_name (cols (lt_row t))
                        \/ forall x, In x (audit_templates db) ->
                                     isactive x = true ->
                                     col_template_name (cols x) <> payload_name p)).
  { unfold update_guard, check_name_change. rewrite Ht.
    destruct (String.eqb_spec (payload_name p)
                (col_template_name (cols (lt_row t)))) as [Heq|Hne].
    - split; [left; exact Heq | reflexivity].
    - rewrite check_name_free_iff. split; [right; assumption|].
      intros [H|H]; [contradiction | exact H]. }
  destruct (update_template_outcome db tid p u)
    as [[e [He H]]|(G & _ & r & d & H & _)].
  - split.
    + intros [r [d Hr]]. rewrite H in Hr. discriminate.
    + intro Hrule. apply Hguard in Hrule. rewrite Hrule, Hvalid in He.
      discriminate.
  - split; [intros _; apply Hguard; exact G | intros _; eauto].
Qed.

Lemma update_template_name_rule_witness :
  exists r db',
    update_template round_trip_store 1 (round_trip_payload "T") None = (inr r, db').
Proof.
  refine (proj2 (update_template_name_rule round_trip_store 1
                   (round_trip_payload "T") None
                   {| lt_row := {| row_id := 1%nat;
                                   cols := {| col_template_name := "T" |};
                                   isactive := true; created_by := Some 7%nat;
                                   updated_by := Some 7%nat |};
                      lt_areas := load_areas round_trip_store 1 |} _ _) _).
  - vm_compute. reflexivity.
  - vm_compute. reflexivity.
  - left. reflexivity.
Defined.

(** ** Rejections by the area and question services *)

Section Rejections.

Lemma create_question_answers db sid p u s :
  scope_get_by_id db sid = Some s ->
  exists r, fst (create_question db sid p u) = inr r.
Proof.
  intro E. unfold create_question. rewrite E.
  change (add_question sid (question_text p) (question_percentage p)
            (question_is_mandatory p) u db)
    with (next_id db,
          snd (add_question sid (question_text p) (question_percentage p)
                 (question_is_mandatory p) u db)).
  cbv beta iota. rewrite payload_options_created. cbn [fst].
  set (db1 := snd (add_question _ _ _ _ _ _)).
  destruct (bulk_create_tables (next_id db) (question_options p) u db1)
    as (_ & _ & _ & Hq & _).
  unfold reload_question, load_question, question_get_by_id. rewrite Hq.
  change (audit_questions db1)
    with (audit_questions db
          ++ [new_row (next_id db)
                {| col_scope_id := sid; col_text := question_text p;
                   col_percentage := question_percentage p;
                   col_is_mandatory := question_is_mandatory p |} u]).
  match goal with
  | |- context [find ?f ?l] => destruct (find f l) as [y|] eqn:Hy
  end.
  - eexists. reflexivity.
  - exfalso.
    pose proof (find_none _ _ Hy
                  (new_row (next_id db)
                     {| col_scope_id := sid; col_text := question_text p;
                        col_percentage := question_percentage p;
                        col_is_mandatory := question_is_mandatory p |} u)) as Hn.
    simpl in Hn. rewrite Nat.eqb_refl in Hn.
    assert (true = false); [|discriminate]. apply Hn.
    apply in_or_app. right. left. reflexivity.
Qed.

Lemma update_question_answers db qid t pc m u q :
  question_get_by_id db qid = Some q ->
  exists r, fst (update_question db qid t pc m u) = inr r.
Proof.
  intro E. destruct (found_by_id _ _ _ E) as (Hid & _ & _).
  unfold update_question. rewrite E. cbv zeta. cbn [fst].
  unfold reload_question, load_question, question_get_by_id. simpl.
  rewrite Hid, find_on_row by (intro; split; reflexivity).
  unfold question_get_by_id in E. rewrite E. simpl. eexists. reflexivity.
Qed.

End Rejections.

(** X26. The area and question services validate nothing and reject
    atomically. A create, update or delete of an area, scope, question or
    option whose texts the database can store (none holds U+0000) is
    accepted exactly when the node it addresses is found active; otherwise
    it is answered with a 404 and the store is left as it was. In particular
    no such request is refused for a duplicate name, a duplicate value or a
    percentage total. *)
Theorem standalone_requests_fail_only_with_404 (db : Store)
    (u : option nat) (req : WriteRequest) :
  template_request req = false ->
  storable (request_texts req) ->
  (fst (respond db (u, req)) = None <-> addressed_node_found db req = true)
  /\ forall e db', respond db (u, req) = (Some e, db') ->
       db' = db /\ status_code e = HTTP_404_NOT_FOUND.
Proof.
  intros Hreq _.
  destruct req as [p | tid p | tid | tid p | | tid name w | aid name w | aid
                  | aid name | sid name | sid | sid p | qid t pc m | qid
                  | qid l v | oid l v | oid]; try discriminate Hreq;
    unfold respond, outcome, addressed_node_found.
  - unfold create_area. destruct (get_by_id db tid); simpl; split;
      try (split; congruence); intros e d H; inversion H; subst; auto.
  - unfold update_area. destruct (area_get_by_id db aid); simpl; split;
      try (split; congruence); intros e d H; inversion H; subst; auto.
  - unfold delete_area. destruct (area_get_by_id db aid); simpl; split;
      try (split; congruence); intros e d H; inversion H; subst; auto.
  - unfold create_scope. destruct (area_get_by_id db aid); simpl; split;
      try (split; congruence); intros e d H; inversion H; subst; auto.
  - unfold update_scope. destruct (scope_get_by_id db sid); simpl; split;
      try (split; congruence); intros e d H; inversion H; subst; auto.
  - unfold delete_scope. destruct (scope_get_by_id db sid); simpl; split;
      try (split; congruence); intros e d H; inversion H; subst; auto.
  - destruct (scope_get_by_id db sid) as [s|] eqn:E.
    + destruct (create_question_answers db sid p u s E) as [r Hr].
      rewrite Hr. simpl. split; [split; reflexivity|].
      intros e d H. discriminate.
    + unfold create_question. rewrite E. simpl. split; [split; discriminate|].
      intros e d H. inversion H; subst; auto.
  - destruct (question_get_by_id db qid) as [q|] eqn:E.
    + destruct (update_question_answers db qid t pc m u q E) as [r Hr].
      rewrite Hr. simpl. split; [split; reflexivity|].
      intros e d H. discriminate.
    + unfold update_question. rewrite E. simpl. split; [split; discriminate|].
      intros e d H. inversion H; subst; auto.
  - unfold delete_question. destruct (question_get_by_id db qid); simpl; split;
      try (split; congruence); intros e d H; inversion H; subst; auto.
  - unfold create_option. destruct (question_get_by_id db qid); simpl; split;
      try (split; congruence); intros e d H; inversion H; subst; auto.
  - unfold update_option. destruct (option_get_by_id db oid); simpl; split;
      try (split; congruence); intros e d H; inversion H; subst; auto.
  - unfold delete_option. destruct (option_get_by_id db oid); simpl; split;
      try (split; congruence); intros e d H; inversion H; subst; auto.
Qed.

Lemma standalone_requests_fail_only_with_404_witness :
  fst (respond round_trip_store (None, ReqCreateScope 2 "S")) = None
  /\ snd (respond round_trip_store (None, ReqCreateScope 42 "S")) = round_trip_store.
Proof.
  split.
  - apply (proj2 (proj1 (standalone_requests_fail_only_with_404 round_trip_store
                           None (ReqCreateScope 2 "S") eq_refl eq_refl))).
    vm_compute. reflexivity.
  - refine (proj1 (proj2 (standalone_requests_fail_only_with_404 round_trip_store
                            None (ReqCreateScope 42 "S") eq_refl eq_refl)
                     area_not_found _ _)).
    vm_compute. reflexivity.
Defined.

(** ** Reading back a created template *)

Section Numbering.

Lemma fold_left_ext {A S} (f g : S -> A -> S) (l : list A) :
  (forall s x, f s x = g s x) -> forall s, fold_left f l s = fold_left g l s.
Proof.
  intro H. induction l as [|x l IH]; intro s; simpl; [reflexivity|].
  rewrite H. apply IH.
Qed.

Lemma fold_left_nested {P C S} (g : P -> S -> C -> S) (h : P -> list C)
    (l : list P) :
  forall s,
    fold_left (fun st x => fold_left (g x) (h x) st) l s
    = fold_left (fun st y => g (fst y) st (snd y))
        (flat_map (fun x => map (pair x) (h x)) l) s.
Proof.
  induction l as [|x l IH]; intro s; simpl; [reflexivity|].
  rewrite fold_left_app, IH. f_equal.
  generalize (h x) s. intro cs. induction cs as [|c cs IHc]; intro s0; simpl;
    [reflexivity | apply IHc].
Qed.

Lemma numbered_app {A} (m : nat) (l1 l2 : list A) :
  numbered m (l1 ++ l2) = numbered m l1 ++ numbered (m + List.length l1) l2.
Proof.
  unfold numbered. revert m. induction l1 as [|x l1 IH]; intro m; simpl.
  - rewrite Nat.add_0_r. reflexivity.
  - rewrite IH. rewrite Nat.add_succ_r. reflexivity.
Qed.

Lemma numbered_fst {A} (m : nat) (l : list A) : map fst (numbered m l) = l.
Proof.
  unfold numbered. revert m. induction l as [|x l IH]; intro m; simpl;
    [reflexivity | rewrite IH; reflexivity].
Qed.

Lemma numbered_snd {A} (m : nat) (l : list A) :
  map snd (numbered m l) = seq m (List.length l).
Proof.
  unfold numbered. revert m. induction l as [|x l IH]; intro m; simpl;
    [reflexivity | rewrite IH; reflexivity].
Qed.

Lemma numbered_map {A B} (f : A -> B) (m : nat) (l : list A) :
  numbered m (map f l) = map (fun y => (f (fst y), snd y)) (numbered m l).
Proof.
  unfold numbered. revert m. induction l as [|x l IH]; intro m; simpl;
    [reflexivity | rewrite IH; reflexivity].
Qed.

Lemma numbered_bounds {A} (m : nat) (l : list A) (y : A * nat) :
  In y (numbered m l) -> (m <= snd y < m + List.length l)%nat.
Proof.
  intro H. apply (in_map snd) in H. rewrite numbered_snd in H.
  apply in_seq in H. exact H.
Qed.

End Numbering.

(** One level of [create_with_tree]: a loop that adds a row per item and
    remembers the item with the key of its row. *)
Section Level.

Variables (C D F : Type).
Variable u : option nat.
Variable table : Store -> list (Row F).
Variable add : C -> Store -> nat * Store.
Variable columns : C -> F.
Variable data : C -> D.

Hypothesis add_key : forall c db, fst (add c db) = next_id db.
Hypothesis add_row : forall c db,
  table (snd (add c db)) = table db ++ [new_row (next_id db) (columns c) u].
Hypothesis add_next : forall c db, next_id (snd (add c db)) = S (next_id db).

Lemma level_fold (items : list C) :
  forall acc db,
    fst (fold_left (level_step add data) items (acc, db))
    = acc ++ map (fun y => (data (fst y), snd y)) (numbered (next_id db) items)
    /\ table (snd (fold_left (level_step add data) items (acc, db)))
       = table db
         ++ map (fun y => new_row (snd y) (columns (fst y)) u)
              (numbered (next_id db) items)
    /\ next_id (snd (fold_left (level_step add data) items (acc, db)))
       = (next_id db + List.length items)%nat.
Proof.
  induction items as [|c items IH]; intros acc db.
  - simpl. rewrite !app_nil_r, Nat.add_0_r. repeat split; reflexivity.
  - cbn [fold_left]. unfold level_step at 2 4 6. cbn [fst snd].
    destruct (IH (acc ++ [(data c, fst (add c db))]) (snd (add c db)))
      as (H1 & H2 & H3).
    rewrite H1, H2, H3, add_row, add_next, add_key.
    change (c :: items) with ([c] ++ items).
    rewrite (numbered_app (next_id db) [c] items), !map_app.
    cbn [List.length map numbered combine seq fst snd app].
    rewrite Nat.add_1_r, <- !app_assoc, Nat.add_succ_r.
    repeat split; reflexivity.
Qed.

Lemma level_frame {T} (other : Store -> T) (items : list C) :
  (forall c db, other (snd (add c db)) = other db) ->
  forall acc db, other (snd (fold_left (level_step add data) items (acc, db))) = other db.
Proof.
  intro H. induction items as [|c items IH]; intros acc db; [reflexivity|].
  cbn [fold_left]. unfold level_step at 2. cbn [fst snd]. rewrite IH. apply H.
Qed.

Lemma level_store (items : list C) :
  forall acc db,
    snd (fold_left (level_step add data) items (acc, db))
    = fold_left (fun d c => snd (add c d)) items db.
Proof.
  induction items as [|c items IH]; intros acc db; [reflexivity|].
  cbn [fold_left]. unfold level_step at 2. cbn [fst snd]. apply IH.
Qed.

End Level.

Section Blocks.

Variables (P C : Type).
Variable children : P -> list C.

Lemma with_parent_parent (parents : list (P * nat)) (y : (P * nat) * C) :
  In y (with_parent children parents) -> In (fst y) parents.
Proof.
  unfold with_parent. intro H. apply in_flat_map in H.
  destruct H as [x [Hx Hy]]. apply in_map_iff in Hy.
  destruct Hy as [c [<- _]]. exact Hx.
Qed.

Lemma filter_all {A} (f : A -> bool) (l : list A) :
  (forall x, In x l -> f x = true) -> filter f l = l.
Proof.
  induction l as [|x l IH]; intro H; simpl; [reflexivity|].
  rewrite (H x (or_introl eq_refl)), IH; [reflexivity|].
  intros y Hy. apply H. right. exact Hy.
Qed.

Lemma block_of (parents : list (P * nat)) (x : P * nat) :
  NoDup (map snd parents) -> In x parents ->
  forall m, exists k,
    filter (fun y => (snd (fst (fst y)) =? snd x)%nat)
      (numbered m (with_parent children parents))
    = numbered k (map (pair x) (children (fst x))).
Proof.
  induction parents as [|x0 rest IH]; intros Hnd Hin m; [destruct Hin|].
  simpl in Hnd. inversion Hnd as [|? ? Hnot Hnd']; subst.
  unfold with_parent. cbn [flat_map]. fold (with_parent children rest).
  rewrite numbered_app, filter_app.
  destruct Hin as [->|Hin].
  - exists m. rewrite filter_all, filter_none.
    + apply app_nil_r.
    + intros y Hy. apply (in_map fst) in Hy. rewrite numbered_fst in Hy.
      apply with_parent_parent in Hy. apply (in_map snd) in Hy.
      destruct (Nat.eqb_spec (snd (fst (fst y))) (snd x)) as [Heq|]; [|reflexivity].
      exfalso. apply Hnot. rewrite <- Heq. exact Hy.
    + intros y Hy. apply (in_map fst) in Hy. rewrite numbered_fst in Hy.
      apply in_map_iff in Hy. destruct Hy as [c [<- _]]. apply Nat.eqb_refl.
  - destruct (IH Hnd' Hin (m + List.length (map (pair x0) (children (fst x0))))%nat)
      as [k Hk].
    exists k. rewrite Hk, filter_none; [reflexivity|].
    intros y Hy. apply (in_map fst) in Hy. rewrite numbered_fst in Hy.
    apply in_map_iff in Hy. destruct Hy as [c [<- _]]. cbn [fst snd].
    destruct (Nat.eqb_spec (snd x0) (snd x)) as [Heq|]; [|reflexivity].
    exfalso. apply Hnot. rewrite Heq. apply in_map. exact Hin.
Qed.

End Blocks.

Section CreatedStore.

Variable u : option nat.

Lemma map_pair_id {A B} (l : list (A * B)) : map (fun y => (fst y, snd y)) l = l.
Proof.
  induction l as [|[a b] l IH]; simpl; [reflexivity | rewrite IH; reflexivity].
Qed.

Lemma numbered_length {A} (m : nat) (l : list A) :
  List.length (numbered m l) = List.length l.
Proof. rewrite <- (numbered_fst m l) at 2. rewrite length_map. reflexivity. Qed.

(** The store that [create_with_tree] leaves: each table has grown by the
    rows of one level, keyed in the order the level was walked. *)
Lemma create_with_tree_store name areas db :
  let n := next_id db in
  let area_objects := numbered (S n) areas in
  let scope_rows :=
    numbered (S n + List.length areas) (with_parent area_scopes area_objects) in
  let scope_objects := map (fun y => (snd (fst y), snd y)) scope_rows in
  let question_rows :=
    numbered (S n + List.length areas + List.length scope_rows)
      (with_parent scope_questions scope_objects) in
  let question_objects := map (fun y => (snd (fst y), snd y)) question_rows in
  let option_rows :=
    numbered (S n + List.length areas + List.length scope_rows
              + List.length question_rows)
      (with_parent question_options question_objects) in
  let db' := snd (create_with_tree name areas u db) in
  audit_templates db'
  = audit_templates db ++ [new_row n {| col_template_name := name |} u]
  /\ audit_areas db'
     = audit_areas db
       ++ map (fun y => new_row (snd y)
                 {| col_template_id := n; col_area_name := area_name (fst y);
                    col_weightage := area_weightage (fst y) |} u) area_objects
  /\ audit_scopes db'
     = audit_scopes db
       ++ map (fun y => new_row (snd y)
                 {| col_area_id := snd (fst (fst y));
                    col_scope_name := scope_name (snd (fst y)) |} u) scope_rows
  /\ audit_questions db'
     = audit_questions db
       ++ map (fun y => new_row (snd y)
                 {| col_scope_id := snd (fst (fst y));
                    col_text := question_text (snd (fst y));
                    col_percentage := question_percentage (snd (fst y));
                    col_is_mandatory := question_is_mandatory (snd (fst y)) |} u)
            question_rows
  /\ audit_question_options db'
     = audit_question_options db
       ++ map (fun y => new_row (snd y)
                 {| col_question_id := snd (fst (fst y));
                    col_label := option_label (snd (fst y));
                    col_value := option_value (snd (fst y)) |} u) option_rows.
Proof.
  intros n area_objects scope_rows scope_objects question_rows question_objects
    option_rows db'.
  subst db'. unfold create_with_tree.
  set (db0 := snd (add_template name u db)).
  change (add_template name u db) with (n, db0). cbv beta iota.
  (* areas *)
  set (add2 := fun (a : AreaUpdateNested) d =>
                 add_area n (area_name a) (area_weightage a) u d).
  rewrite (fold_left_ext _ (level_step add2 (fun a => a)))
    by (intros [acc d] a; reflexivity).
  destruct (level_fold _ _ _ u audit_areas add2
              (fun a => {| col_template_id := n; col_area_name := area_name a;
                           col_weightage := area_weightage a |})
              (fun a => a)
              (fun _ _ => eq_refl) (fun _ _ => eq_refl) (fun _ _ => eq_refl)
              areas [] db0) as (A1 & A2 & A3).
  pose proof (level_frame _ _ add2 (fun a => a) audit_templates areas
                (fun _ _ => eq_refl) [] db0) as At.
  pose proof (level_frame _ _ add2 (fun a => a) audit_scopes areas
                (fun _ _ => eq_refl) [] db0) as As.
  pose proof (level_frame _ _ add2 (fun a => a) audit_questions areas
                (fun _ _ => eq_refl) [] db0) as Aq.
  pose proof (level_frame _ _ add2 (fun a => a) audit_question_options areas
                (fun _ _ => eq_refl) [] db0) as Ao.
  destruct (fold_left (level_step add2 (fun a => a)) areas ([], db0))
    as [objs1 db1].
  cbn [fst snd app] in A1, A2, A3, At, As, Aq, Ao.
  rewrite map_pair_id in A1. change (next_id db0) with (S n) in A1, A2, A3.
  fold area_objects in A1, A2. subst objs1.
  (* scopes *)
  set (add3 := fun (y : (AreaUpdateNested * nat) * ScopeUpdateNested) d =>
                 add_scope (snd (fst y)) (scope_name (snd y)) u d).
  rewrite (fold_left_ext _
             (fun st x =>
                fold_left (fun st s => level_step add3 snd st (x, s))
                  (area_scopes (fst x)) st))
    by (intros st [a i]; apply fold_left_ext; intros [acc d] s; reflexivity).
  rewrite (fold_left_nested
             (fun x st s => level_step add3 (@snd _ ScopeUpdateNested) st (x, s))
             (fun x => area_scopes (fst x))).
  fold (with_parent area_scopes area_objects).
  rewrite (fold_left_ext _ (level_step add3 snd))
    by (intros st [x s]; reflexivity).
  destruct (level_fold _ _ _ u audit_scopes add3
              (fun y => {| col_area_id := snd (fst y);
                           col_scope_name := scope_name (snd y) |})
              snd
              (fun _ _ => eq_refl) (fun _ _ => eq_refl) (fun _ _ => eq_refl)
              (with_parent area_scopes area_objects) [] db1) as (S1 & S2 & S3).
  pose proof (level_frame _ _ add3 snd audit_templates
                (with_parent area_scopes area_objects)
                (fun _ _ => eq_refl) [] db1) as St.
  pose proof (level_frame _ _ add3 snd audit_areas
                (with_parent area_scopes area_objects)
                (fun _ _ => eq_refl) [] db1) as Sa.
  pose proof (level_frame _ _ add3 snd audit_questions
                (with_parent area_scopes area_objects)
                (fun _ _ => eq_refl) [] db1) as Sq.
  pose proof (level_frame _ _ add3 snd audit_question_options
                (with_parent area_scopes area_objects)
                (fun _ _ => eq_refl) [] db1) as So.
  destruct (fold_left (level_step add3 snd)
              (with_parent area_scopes area_objects) ([], db1))
    as [objs2 db2].
  cbn [fst snd app] in S1, S2, S3, St, Sa, Sq, So.
  rewrite A3 in S1, S2, S3.
  rewrite <- (numbered_length (S n + List.length areas)
                (with_parent area_scopes area_objects)) in S3.
  fold scope_rows in S1, S2, S3. fold scope_objects in S1. subst objs2.
  (* questions *)
  set (add4 := fun (y : (ScopeUpdateNested * nat) * QuestionUpdateNested) d =>
                 add_question (snd (fst y)) (question_text (snd y))
                   (question_percentage (snd y)) (question_is_mandatory (snd y))
                   u d).
  rewrite (fold_left_ext _
             (fun st x =>
                fold_left (fun st q => level_step add4 snd st (x, q))
                  (scope_questions (fst x)) st))
    by (intros st [s i]; apply fold_left_ext; intros [acc d] q; reflexivity).
  rewrite (fold_left_nested
             (fun x st q => level_step add4 (@snd _ QuestionUpdateNested) st (x, q))
             (fun x => scope_questions (fst x))).
  fold (with_parent scope_questions scope_objects).
  rewrite (fold_left_ext _ (level_step add4 snd))
    by (intros st [x q]; reflexivity).
  destruct (level_fold _ _ _ u audit_questions add4
              (fun y => {| col_scope_id := snd (fst y);
                           col_text := question_text (snd y);
                           col_percentage := question_percentage (snd y);
                           col_is_mandatory := question_is_mandatory (snd y) |})
              snd
              (fun _ _ => eq_refl) (fun _ _ => eq_refl) (fun _ _ => eq_refl)
              (with_parent scope_questions scope_objects) [] db2)
    as (Q1 & Q2 & Q3).
  pose proof (level_frame _ _ add4 snd audit_templates
                (with_parent scope_questions scope_objects)
                (fun _ _ => eq_refl) [] db2) as Qt.
  pose proof (level_frame _ _ add4 snd audit_areas
                (with_parent scope_questions scope_objects)
                (fun _ _ => eq_refl) [] db2) as Qa.
  pose proof (level_frame _ _ add4 snd audit_scopes
                (with_parent scope_questions scope_objects)
                (fun _ _ => eq_refl) [] db2) as Qs.
  pose proof (level_frame _ _ add4 snd audit_question_options
                (with_parent scope_questions scope_objects)
                (fun _ _ => eq_refl) [] db2) as Qo.
  destruct (fold_left (level_step add4 snd)
              (with_parent scope_questions scope_objects) ([], db2))
    as [objs3 db3].
  cbn [fst snd app] in Q1, Q2, Q3, Qt, Qa, Qs, Qo.
  rewrite S3 in Q1, Q2, Q3.
  rewrite <- (numbered_length
                (S n + List.length areas + List.length scope_rows)
                (with_parent scope_questions scope_objects)) in Q3.
  fold question_rows in Q1, Q2, Q3. fold question_objects in Q1. subst objs3.
  (* options *)
  set (add5 := fun (y : (QuestionUpdateNested * nat) * OptionUpdateNested) d =>
                 add_option (snd (fst y)) (option_label (snd y))
                   (option_value (snd y)) u d).
  rewrite (fold_left_ext _
             (fun d x =>
                fold_left (fun d o => snd (add5 (x, o) d))
                  (question_options (fst x)) d))
    by (intros d [q i]; reflexivity).
  rewrite (fold_left_nested
             (fun x d o => snd (add5 (x, o) d))
             (fun x => question_options (fst x))).
  fold (with_parent question_options question_objects).
  rewrite (fold_left_ext _ (fun d y => snd (add5 y d)))
    by (intros d [x o]; reflexivity).
  rewrite <- (level_store _ _ add5 (fun _ => tt)
                (with_parent question_options question_objects) [] db3).
  destruct (level_fold _ _ _ u audit_question_options add5
              (fun y => {| col_question_id := snd (fst y);
                           col_label := option_label (snd y);
                           col_value := option_value (snd y) |})
              (fun _ => tt)
              (fun _ _ => eq_refl) (fun _ _ => eq_refl) (fun _ _ => eq_refl)
              (with_parent question_options question_objects) [] db3)
    as (_ & O2 & _).
  pose proof (level_frame _ _ add5 (fun _ => tt) audit_templates
                (with_parent question_options question_objects)
                (fun _ _ => eq_refl) [] db3) as Ot.
  pose proof (level_frame _ _ add5 (fun _ => tt) audit_areas
                (with_parent question_options question_objects)
                (fun _ _ => eq_refl) [] db3) as Oa.
  pose proof (level_frame _ _ add5 (fun _ => tt) audit_scopes
                (with_parent question_options question_objects)
                (fun _ _ => eq_refl) [] db3) as Os.
  pose proof (level_frame _ _ add5 (fun _ => tt) audit_questions
                (with_parent question_options question_objects)
                (fun _ _ => eq_refl) [] db3) as Oq.
  rewrite Q3 in O2. fold option_rows in O2.
  cbn [snd].
  rewrite Ot, Oa, Os, Oq, O2, Qt, Qa, Qs, Q2, Qo, St, Sa, S2, Sq, So,
    At, A2, As, Aq, Ao.
  repeat split; reflexivity.
Qed.

End CreatedStore.

Section ChildrenOfParent.

Variables (P C F : Type).
Variable parent : F -> nat.
Variable row_of : ((P * nat) * C) * nat -> Row F.
Variable children : P -> list C.

Hypothesis row_parent : forall z, parent (cols (row_of z)) = snd (fst (fst z)).
Hypothesis row_active : forall z, isactive (row_of z) = true.

Lemma children_of_parent (old : list (Row F)) (parents : list (P * nat))
    (n m : nat) (x : P * nat) :
  rows_below parent n old = true -> (n <= snd x)%nat ->
  NoDup (map snd parents) -> In x parents ->
  exists k,
    filter (fun r => (parent (cols r) =? snd x)%nat && isactive r)
      (old ++ map row_of (numbered m (with_parent children parents)))
    = map row_of (numbered k (map (pair x) (children (fst x))))
    /\ incl (numbered k (map (pair x) (children (fst x))))
         (numbered m (with_parent children parents)).
Proof.
  intros Hold Hn Hnd Hin.
  destruct (block_of P C children parents x Hnd Hin m) as [k Hk].
  exists k. split.
  - rewrite filter_app, (no_children_of_fresh parent n (snd x) old Hold Hn).
    cbn [app]. rewrite filter_map_comm. f_equal. rewrite <- Hk.
    apply filter_ext. intro z. rewrite row_parent, row_active.
    apply andb_true_r.
  - intros z Hz. rewrite <- Hk in Hz. apply filter_In in Hz. exact (proj1 Hz).
Qed.

Lemma map_block {B} (g : C -> B) (k : nat) (x : P * nat) (l : list C) :
  map (fun z => g (snd (fst z))) (numbered k (map (pair x) l)) = map g l.
Proof.
  rewrite <- (map_map fst (fun y => g (snd y))), numbered_fst, map_map.
  reflexivity.
Qed.

End ChildrenOfParent.

(** Replaces the filter of the goal by the right-hand side of [H]. *)
Ltac filter_is H :=
  match type of H with
  | _ = ?rhs =>
      match goal with
      | |- context [@filter ?A ?f ?l] =>
          replace (@filter A f l) with rhs by (symmetry; exact H)
      end
  end.

(** Reading the tree back from a store whose tables end with the rows of
    one [create_with_tree]. *)
Section ReadBack.

Variables (u : option nat) (d : Store) (n m2 m3 m4 : nat).
Variable areas : list AreaUpdateNested.
Variable old_areas : list AuditArea.
Variable old_scopes : list AuditScope.
Variable old_questions : list AuditQuestion.
Variable old_options : list AuditQuestionOption.

Hypothesis m2_above : (n <= m2)%nat.
Hypothesis m3_above : (n <= m3)%nat.

Hypothesis areas_below : rows_below col_template_id n old_areas = true.
Hypothesis scopes_below : rows_below col_area_id n old_scopes = true.
Hypothesis questions_below : rows_below col_scope_id n old_questions = true.
Hypothesis options_below : rows_below col_question_id n old_options = true.

Hypothesis areas_table :
  audit_areas d = old_areas ++ map (area_row n u) (numbered (S n) areas).
Hypothesis scopes_table :
  audit_scopes d
  = old_scopes
    ++ map (scope_row u)
         (numbered m2 (with_parent area_scopes (numbered (S n) areas))).
Hypothesis questions_table :
  audit_questions d
  = old_questions
    ++ map (question_row u)
         (numbered m3
            (with_parent scope_questions
               (map keyed
                  (numbered m2
                     (with_parent area_scopes (numbered (S n) areas)))))).
Hypothesis options_table :
  audit_question_options d
  = old_options
    ++ map (option_row u)
         (numbered m4
            (with_parent question_options
               (map keyed
                  (numbered m3
                     (with_parent scope_questions
                        (map keyed
                           (numbered m2
                              (with_parent area_scopes
                                 (numbered (S n) areas))))))))).

Lemma keyed_keys {P C} (m : nat) (l : list ((P * nat) * C)) :
  map snd (map keyed (numbered m l)) = seq m (List.length l).
Proof. rewrite map_map. apply numbered_snd. Qed.

Lemma keyed_distinct {P C} (m : nat) (l : list ((P * nat) * C)) :
  NoDup (map snd (map keyed (numbered m l))).
Proof. rewrite keyed_keys. apply seq_NoDup. Qed.

Lemma keyed_above {P C} (m : nat) (l : list ((P * nat) * C)) (x : C * nat) :
  In x (map keyed (numbered m l)) -> (m <= snd x)%nat.
Proof.
  intro H. apply (in_map snd) in H. rewrite keyed_keys in H.
  apply in_seq in H. lia.
Qed.

Lemma read_options (x : QuestionUpdateNested * nat) :
  In x (map keyed
          (numbered m3
             (with_parent scope_questions
                (map keyed
                   (numbered m2
                      (with_parent area_scopes (numbered (S n) areas))))))) ->
  map option_content (map _option_detail (load_options d (snd x)))
  = map option_without_id (question_options (fst x))
  /\ Forall (fun o => resp_option_question_id o = snd x)
       (map _option_detail (load_options d (snd x))).
Proof.
  intro Hx. unfold load_options. rewrite options_table.
  destruct (children_of_parent _ _ _ col_question_id (option_row u)
              question_options (fun _ => eq_refl) (fun _ => eq_refl)
              old_options _ n m4 x options_below
              (Nat.le_trans _ _ _ m3_above (keyed_above _ _ _ Hx))
              (keyed_distinct _ _) Hx) as [k [Hk _]].
  filter_is Hk. rewrite !map_map. split.
  - apply (map_block _ _ option_without_id).
  - apply Forall_map. apply Forall_forall. intros z Hz.
    apply (in_map fst) in Hz. rewrite numbered_fst in Hz.
    apply in_map_iff in Hz. destruct Hz as [c [Hc _]].
    simpl. rewrite <- Hc. reflexivity.
Qed.

Lemma read_questions (x : ScopeUpdateNested * nat) :
  In x (map keyed
          (numbered m2 (with_parent area_scopes (numbered (S n) areas)))) ->
  map question_content (map _question_detail (load_questions d (snd x)))
  = map question_without_ids (scope_questions (fst x))
  /\ Forall (fun q =>
       resp_question_scope_id q = snd x
       /\ Forall (fun o => resp_option_question_id o = resp_question_id q)
            (resp_options q))
       (map _question_detail (load_questions d (snd x))).
Proof.
  intro Hx. unfold load_questions. rewrite questions_table.
  destruct (children_of_parent _ _ _ col_scope_id (question_row u)
              scope_questions (fun _ => eq_refl) (fun _ => eq_refl)
              old_questions _ n m3 x questions_below
              (Nat.le_trans _ _ _ m2_above (keyed_above _ _ _ Hx))
              (keyed_distinct _ _) Hx) as [k [Hk Hincl]].
  filter_is Hk. rewrite !map_map. split.
  - rewrite <- (map_block _ _ question_without_ids k x).
    apply map_ext_in. intros z Hz.
    destruct (read_options (keyed z)) as [Hc _].
    { apply in_map. apply Hincl. exact Hz. }
    unfold question_content, _question_detail, question_without_ids.
    cbn [lq_row lq_options resp_text resp_percentage resp_is_mandatory
         resp_options question_row new_row cols row_id col_text col_percentage
         col_is_mandatory].
    change (snd z) with (snd (keyed z)). rewrite Hc. reflexivity.
  - apply Forall_forall. intros q Hq. apply in_map_iff in Hq.
    destruct Hq as [z [<- Hz]].
    destruct (read_options (keyed z)) as [_ Hp].
    { apply in_map. apply Hincl. exact Hz. }
    split; [|exact Hp].
    apply (in_map fst) in Hz. rewrite numbered_fst in Hz.
    apply in_map_iff in Hz. destruct Hz as [c [Hc _]].
    simpl. rewrite <- Hc. reflexivity.
Qed.

Lemma read_scopes (x : AreaUpdateNested * nat) :
  In x (numbered (S n) areas) ->
  map scope_content (map _scope_detail (load_scopes d (snd x)))
  = map scope_without_ids (area_scopes (fst x))
  /\ Forall (fun s =>
       resp_scope_area_id s = snd x
       /\ Forall (fun q =>
            resp_question_scope_id q = resp_scope_id s
            /\ Forall (fun o => resp_option_question_id o = resp_question_id q)
                 (resp_options q))
            (resp_questions s))
       (map _scope_detail (load_scopes d (snd x))).
Proof.
  intro Hx. unfold load_scopes. rewrite scopes_table.
  assert (Hnd : NoDup (map snd (numbered (S n) areas)))
    by (rewrite numbered_snd; apply seq_NoDup).
  assert (Hlo : (n <= snd x)%nat) by (apply numbered_bounds in Hx; lia).
  destruct (children_of_parent _ _ _ col_area_id (scope_row u)
              area_scopes (fun _ => eq_refl) (fun _ => eq_refl)
              old_scopes _ n m2 x scopes_below Hlo Hnd Hx) as [k [Hk Hincl]].
  filter_is Hk. rewrite !map_map. split.
  - rewrite <- (map_block _ _ scope_without_ids k x).
    apply map_ext_in. intros z Hz.
    destruct (read_questions (keyed z)) as [Hc _].
    { apply in_map. apply Hincl. exact Hz. }
    unfold scope_content, _scope_detail, scope_without_ids.
    cbn [ls_row ls_questions resp_scope_name resp_questions scope_row new_row
         cols row_id col_scope_name].
    change (snd z) with (snd (keyed z)). rewrite Hc. reflexivity.
  - apply Forall_forall. intros s Hs. apply in_map_iff in Hs.
    destruct Hs as [z [<- Hz]].
    destruct (read_questions (keyed z)) as [_ Hp].
    { apply in_map. apply Hincl. exact Hz. }
    split; [|exact Hp].
    apply (in_map fst) in Hz. rewrite numbered_fst in Hz.
    apply in_map_iff in Hz. destruct Hz as [c [Hc _]].
    simpl. rewrite <- Hc. reflexivity.
Qed.

Lemma read_areas :
  load_areas d n
  = map (fun y => {| la_row := area_row n u y;
                     la_scopes := load_scopes d (snd y) |})
      (numbered (S n) areas).
Proof.
  unfold load_areas. rewrite areas_table, filter_app.
  pose proof (no_children_of_fresh col_template_id n n old_areas areas_below
                (Nat.le_refl n)) as H0.
  match goal with
  | |- context [@filter ?A ?f old_areas] =>
      replace (@filter A f old_areas) with (@nil AuditArea)
        by (symmetry; exact H0)
  end.
  cbn [app]. rewrite filter_all.
  - rewrite map_map. reflexivity.
  - intros a Ha. apply in_map_iff in Ha. destruct Ha as [y [<- _]].
    simpl. rewrite Nat.eqb_refl. reflexivity.
Qed.

Lemma read_tree :
  map area_content (map _area_detail (load_areas d n))
  = map area_without_ids areas
  /\ _compute_total_weightage (load_areas d n)
     = Zsum (map area_weightage areas)
  /\ Forall (fun a =>
       resp_area_template_id a = n
       /\ Forall (fun s =>
            resp_scope_area_id s = resp_area_id a
            /\ Forall (fun q =>
                 resp_question_scope_id q = resp_scope_id s
                 /\ Forall (fun o => resp_option_question_id o = resp_question_id q)
                      (resp_options q))
                 (resp_questions s))
            (resp_scopes a))
       (map _area_detail (load_areas d n)).
Proof.
  rewrite read_areas. unfold _compute_total_weightage.
  rewrite !map_map, py_sum_Zsum. split; [|split].
  - rewrite <- (numbered_fst (S n) areas) at 2. rewrite map_map.
    apply map_ext_in. intros y Hy.
    destruct (read_scopes y Hy) as [Hc _].
    unfold area_content, _area_detail, area_without_ids.
    cbn [la_row la_scopes resp_area_name resp_weightage resp_scopes area_row
         new_row cols row_id col_area_name col_weightage].
    rewrite Hc. reflexivity.
  - f_equal. rewrite <- (numbered_fst (S n) areas) at 2. rewrite map_map.
    reflexivity.
  - apply Forall_forall. intros a Ha. apply in_map_iff in Ha.
    destruct Ha as [y [<- Hy]].
    destruct (read_scopes y Hy) as [_ Hp]. split; [reflexivity | exact Hp].
Qed.

End ReadBack.

(** X27. What [create_template] answers is what it was given: in a
    well-formed store, the detail returned by a successful create has the
    next key, the payload's name, and exactly the payload's areas, scopes,
    questions and options, in payload order and with the payload's values;
    it is active, every node of it names its parent, its total weightage is
    the sum of the payload's area weightages, and a following
    [get_template_detail] returns the same detail. *)
Theorem create_template_round_trip (db db' : Store) (p : TemplatePayload)
    (u : option nat) (r : TemplateDetailResponse) :
  db_wf db ->
  create_template db p u = (inr r, db') ->
  resp_id r = next_id db
  /\ resp_name r = payload_name p
  /\ resp_isactive r = true
  /\ map area_content (resp_areas r) = map area_without_ids (payload_areas p)
  /\ total_weightage r = Zsum (map area_weightage (payload_areas p))
  /\ nested_ids r
  /\ get_template_detail db' (resp_id r) = inr r.
Proof.
  intros Hwf H. destruct (db_wf_tables db Hwf) as (Ht & Ha & Hs & Hq & Ho).
  unfold create_template in H.
  destruct (check_name_free db (payload_name p);;;
            Validator.validate_all_constraints (payload_areas p)) as [e|[]];
    [inversion H|].
  pose proof (create_with_tree_store u (payload_name p) (payload_areas p) db)
    as Hstore.
  cbv zeta in Hstore. destruct Hstore as (HT & HA & HS & HQ & HO).
  pose proof (proj1 (create_with_tree_templates u (payload_name p)
                       (payload_areas p) db)) as Hid.
  destruct (create_with_tree (payload_name p) (payload_areas p) u db)
    as [tid d].
  cbn [fst snd] in *. subst tid.
  assert (Hload : get_by_id_with_details d (next_id db)
                  = Some {| lt_row := new_row (next_id db)
                                        {| col_template_name := payload_name p |} u;
                            lt_areas := load_areas d (next_id db) |}).
  { unfold get_by_id_with_details. rewrite HT.
    rewrite find_app_skip
      by (apply (no_row_of_fresh _ _ _ _ Ht); apply Nat.le_refl).
    simpl. rewrite Nat.eqb_refl. reflexivity. }
  unfold reload_detail in H. rewrite Hload in H.
  inversion H; subst r db'; clear H.
  destruct (read_tree u d (next_id db)
              (S (next_id db) + List.length (payload_areas p))
              (S (next_id db) + List.length (payload_areas p)
               + List.length
                   (numbered (S (next_id db) + List.length (payload_areas p))
                      (with_parent area_scopes
                         (numbered (S (next_id db)) (payload_areas p)))))
              _
              (payload_areas p) (audit_areas db) (audit_scopes db)
              (audit_questions db) (audit_question_options db)
              ltac:(lia) ltac:(lia) Ha Hs Hq Ho HA HS HQ HO)
    as (Hcontent & Htotal & Hnested).
  cbn [_template_to_detail_response resp_id resp_name resp_isactive resp_areas
       total_weightage lt_row lt_areas new_row row_id cols isactive
       col_template_name].
  repeat split; try assumption.
  unfold get_template_detail. rewrite Hload. reflexivity.
Qed.

Lemma create_template_round_trip_witness :
  exists r db',
    create_template empty_store (round_trip_payload "T") None = (inr r, db')
    /\ map area_content (resp_areas r)
       = map area_without_ids [sample_area "A" 100 100].
Proof.
  destruct (create_template empty_store (round_trip_payload "T") None)
    as [[e|r] db'] eqn:E.
  - vm_compute in E. discriminate E.
  - exists r, db'. split; [reflexivity|].
    refine (proj1 (proj2 (proj2 (proj2
              (create_template_round_trip empty_store db'
                 (round_trip_payload "T") None r _ E))))).
    vm_compute. reflexivity.
Defined.

(** ** Referential integrity *)

Section Referring.

Lemma refers_children_in_place {F G} (parent : F -> nat) (f : Row F -> Row F)
    (i : nat) (c : list (Row F)) (p : list (Row G)) :
  (forall r, parent (cols (f r)) = parent (cols r)) ->
  refers parent c p -> refers parent (on_row i f c) p.
Proof.
  intros Hf H r Hr. unfold on_row in Hr. apply in_map_iff in Hr.
  destruct Hr as [x [<- Hx]].
  destruct (row_id x =? i)%nat; [rewrite Hf|]; apply H; exact Hx.
Qed.

Lemma refers_parents_in_place {F G} (parent : F -> nat) (f : Row G -> Row G)
    (i : nat) (c : list (Row F)) (p : list (Row G)) :
  (forall r, row_id (f r) = row_id r) ->
  refers parent c p -> refers parent c (on_row i f p).
Proof.
  intros Hf H r Hr. rewrite on_row_ids by exact Hf. apply H. exact Hr.
Qed.

Lemma refers_new_parent {F G} (parent : F -> nat) (c : list (Row F))
    (p : list (Row G)) (x : Row G) :
  refers parent c p -> refers parent c (p ++ [x]).
Proof.
  intros H r Hr. rewrite map_app. apply in_or_app. left. apply H. exact Hr.
Qed.

Lemma refers_new_child {F G} (parent : F -> nat) (c : list (Row F))
    (p : list (Row G)) (x : Row F) :
  refers parent c p -> In (parent (cols x)) (map row_id p) ->
  refers parent (c ++ [x]) p.
Proof.
  intros H Hx r Hr. apply in_app_or in Hr.
  destruct Hr as [Hr|[<-|[]]]; [apply H; exact Hr | exact Hx].
Qed.

Lemma key_in_place {F} (f : Row F -> Row F) (i j : nat) (t : list (Row F)) :
  (forall r, row_id (f r) = row_id r) ->
  In j (map row_id t) -> In j (map row_id (on_row i f t)).
Proof. intros Hf H. rewrite on_row_ids by exact Hf. exact H. Qed.

Lemma key_kept {F} (j : nat) (t : list (Row F)) (x : Row F) :
  In j (map row_id t) -> In j (map row_id (t ++ [x])).
Proof. intro H. rewrite map_app. apply in_or_app. left. exact H. Qed.

Lemma key_new {F} (t : list (Row F)) (i : nat) (c : F) (u : option nat) :
  In i (map row_id (t ++ [new_row i c u])).
Proof. rewrite map_app. apply in_or_app. right. left. reflexivity. Qed.

Lemma table_grows_key {F} (parent : F -> nat) (lo hi : nat)
    (t t' : list (Row F)) (i : nat) :
  table_grows parent lo hi t t' ->
  In i (map row_id t) -> In i (map row_id t').
Proof.
  intros (kept & added & -> & Hk & _) Hi. rewrite map_app.
  apply in_or_app. left. rewrite (rows_kept_ids _ _ _ Hk). exact Hi.
Qed.

End Referring.

(** Closes a [references_ok] goal for one mutation of rows in place. *)
Ltac refs_in_place :=
  unfold references_ok; simpl; intros (Ra & Rs & Rq & Ro);
  repeat split;
  first
    [ assumption
    | apply refers_children_in_place; [intro; reflexivity | assumption]
    | apply refers_parents_in_place; [intro; reflexivity | assumption] ].

(** Closes a [references_ok] goal for one added row whose parent is known. *)
Ltac refs_added Hkey :=
  unfold references_ok; simpl; intros (Ra & Rs & Rq & Ro);
  repeat split;
  first
    [ assumption
    | apply refers_new_parent; assumption
    | apply refers_new_child; [assumption | exact Hkey] ].

Section ReferencesOfOperations.

Variable u : option nat.

Lemma refs_deactivate_area i db :
  references_ok db -> references_ok (deactivate_area i u db).
Proof. refs_in_place. Qed.
Lemma refs_deactivate_scope i db :
  references_ok db -> references_ok (deactivate_scope i u db).
Proof. refs_in_place. Qed.
Lemma refs_deactivate_question i db :
  references_ok db -> references_ok (deactivate_question i u db).
Proof. refs_in_place. Qed.
Lemma refs_deactivate_option i db :
  references_ok db -> references_ok (deactivate_option i u db).
Proof. refs_in_place. Qed.

Lemma refs_add_template name db :
  references_ok db -> references_ok (snd (add_template name u db)).
Proof. refs_added I. Qed.

Lemma refs_add_area tid name w db :
  In tid (map row_id (audit_templates db)) ->
  references_ok db -> references_ok (snd (add_area tid name w u db)).
Proof. intro H. refs_added H. Qed.

Lemma refs_add_scope aid name db :
  In aid (map row_id (audit_areas db)) ->
  references_ok db -> references_ok (snd (add_scope aid name u db)).
Proof. intro H. refs_added H. Qed.

Lemma refs_add_question sid text pct m db :
  In sid (map row_id (audit_scopes db)) ->
  references_ok db -> references_ok (snd (add_question sid text pct m u db)).
Proof. intro H. refs_added H. Qed.

Lemma refs_add_option qid label v db :
  In qid (map row_id (audit_questions db)) ->
  references_ok db -> references_ok (snd (add_option qid label v u db)).
Proof. intro H. refs_added H. Qed.

Lemma refs_cascade_options os db :
  references_ok db -> references_ok (cascade_options u os db).
Proof.
  unfold cascade_options. apply fold_invariant. intros d o _.
  apply refs_deactivate_option.
Qed.

Lemma refs_cascade_questions qs db :
  references_ok db -> references_ok (cascade_questions u qs db).
Proof.
  unfold cascade_questions. apply fold_invariant. intros d q _ H.
  apply refs_cascade_options, refs_deactivate_question, H.
Qed.

Lemma refs_cascade_scopes ss db :
  references_ok db -> references_ok (cascade_scopes u ss db).
Proof.
  unfold cascade_scopes. apply fold_invariant. intros d s _ H.
  apply refs_cascade_questions, refs_deactivate_scope, H.
Qed.

(** Keys persist along [store_grows]. *)
Lemma grows_question_known d d' q :
  store_grows d d' -> question_known d q -> question_known d' q.
Proof.
  intros (_ & _ & _ & G & _). unfold question_known.
  apply (table_grows_key _ _ _ _ _ _ G).
Qed.

Lemma grows_scope_known d d' s :
  store_grows d d' -> scope_known d s -> scope_known d' s.
Proof.
  intros G [H1 H2]. split.
  - destruct G as (_ & _ & G & _). exact (table_grows_key _ _ _ _ _ _ G H1).
  - intros q Hq. eapply grows_question_known; [exact G | apply H2; exact Hq].
Qed.

Lemma grows_area_known d d' a :
  store_grows d d' -> area_known d a -> area_known d' a.
Proof.
  intros G [H1 H2]. split.
  - destruct G as (_ & G & _). exact (table_grows_key _ _ _ _ _ _ G H1).
  - intros s Hs. eapply grows_scope_known; [exact G | apply H2; exact Hs].
Qed.

Lemma refs_merge_options qid ex ops db :
  references_ok db -> In qid (map row_id (audit_questions db)) ->
  references_ok (merge_options u qid ex ops db).
Proof.
  intros Hdb Hq. unfold merge_options.
  refine (proj1 (fold_invariant
                   (fun d => references_ok d
                             /\ In qid (map row_id (audit_questions d)))
                   _ _ _ _ _)).
  - intros d op _ [Hr Hk]. unfold merge_option.
    destruct (lookup row_id (option_id op) ex).
    + split; [revert Hr; refs_in_place | exact Hk].
    + split; [apply refs_add_option; assumption | exact Hk].
  - unfold soft_delete_missing_options.
    apply (fold_invariant
             (fun d => references_ok d
                       /\ In qid (map row_id (audit_questions d))));
      [|split; assumption].
    intros d o _ [Hr Hk]. destruct (id_in _ _); [split; assumption|].
    split; [apply refs_deactivate_option; exact Hr | exact Hk].
Qed.

Lemma grows_merge_question sid ex d qp :
  store_grows d (merge_question u sid ex d qp).
Proof.
  unfold merge_question. destruct (lookup _ _ _).
  - eapply store_grows_trans; [|apply grows_merge_options]. grows_step.
  - simpl. eapply store_grows_trans; [|apply grows_merge_options].
    apply (grows_add_question u sid).
Qed.

Lemma grows_soft_delete_missing_questions ex ids d :
  store_grows d (soft_delete_missing_questions u ex ids d).
Proof.
  unfold soft_delete_missing_questions.
  apply (fold_related store_grows);
    [apply store_grows_refl | apply store_grows_trans |].
  intros d' q. destruct (id_in _ _); [apply store_grows_refl|].
  eapply store_grows_trans;
    [apply grows_deactivate_question | apply grows_cascade_options].
Qed.

Lemma refs_soft_delete_missing_questions ex ids d :
  references_ok d -> references_ok (soft_delete_missing_questions u ex ids d).
Proof.
  unfold soft_delete_missing_questions. apply fold_invariant.
  intros d' q _ H. destruct (id_in _ _); [exact H|].
  apply refs_cascade_options, refs_deactivate_question, H.
Qed.

Lemma refs_merge_questions sid ex qps db :
  references_ok db -> In sid (map row_id (audit_scopes db)) ->
  (forall q, In q ex -> question_known db q) ->
  references_ok (merge_questions u sid ex qps db).
Proof.
  intros Hdb Hs Hex. unfold merge_questions.
  set (d0 := soft_delete_missing_questions u ex (supplied_ids question_id qps) db).
  assert (G0 : store_grows db d0) by apply grows_soft_delete_missing_questions.
  refine (proj1 (fold_invariant
                   (fun d => references_ok d /\ store_grows db d)
                   _ _ _ _ _)).
  - intros d qp _ [Hr G]. split;
      [|eapply store_grows_trans; [exact G | apply grows_merge_question]].
    unfold merge_question.
    destruct (lookup lq_id (question_id qp) ex) as [q|] eqn:E.
    + apply refs_merge_options; [revert Hr; refs_in_place|].
      simpl. apply key_in_place; [intro; reflexivity|].
      apply (grows_question_known db d q G).
      apply Hex. exact (proj1 (lookup_In _ _ _ _ E)).
    + simpl. apply refs_merge_options.
      * apply (refs_add_question sid); [|exact Hr].
        destruct G as (_ & _ & G & _). exact (table_grows_key _ _ _ _ _ _ G Hs).
      * simpl. apply key_new.
  - split; [apply refs_soft_delete_missing_questions; exact Hdb | exact G0].
Qed.

Lemma grows_merge_scope aid ex d sp :
  store_grows d (merge_scope u aid ex d sp).
Proof.
  unfold merge_scope. destruct (lookup _ _ _).
  - eapply store_grows_trans; [|apply grows_merge_questions]. grows_step.
  - simpl. eapply store_grows_trans; [|apply grows_merge_questions].
    apply (grows_add_scope u aid).
Qed.

Lemma grows_soft_delete_missing_scopes ex ids d :
  store_grows d (soft_delete_missing_scopes u ex ids d).
Proof.
  unfold soft_delete_missing_scopes.
  apply (fold_related store_grows);
    [apply store_grows_refl | apply store_grows_trans |].
  intros d' s. destruct (id_in _ _); [apply store_grows_refl|].
  eapply store_grows_trans;
    [apply grows_deactivate_scope | apply grows_cascade_questions].
Qed.

Lemma refs_soft_delete_missing_scopes ex ids d :
  references_ok d -> references_ok (soft_delete_missing_scopes u ex ids d).
Proof.
  unfold soft_delete_missing_scopes. apply fold_invariant.
  intros d' s _ H. destruct (id_in _ _); [exact H|].
  apply refs_cascade_questions, refs_deactivate_scope, H.
Qed.

Lemma refs_merge_scopes aid ex sps db :
  references_ok db -> In aid (map row_id (audit_areas db)) ->
  (forall s, In s ex -> scope_known db s) ->
  references_ok (merge_scopes u aid ex sps db).
Proof.
  intros Hdb Ha Hex. unfold merge_scopes.
  set (d0 := soft_delete_missing_scopes u ex (supplied_ids scope_id sps) db).
  assert (G0 : store_grows db d0) by apply grows_soft_delete_missing_scopes.
  refine (proj1 (fold_invariant
                   (fun d => references_ok d /\ store_grows db d)
                   _ _ _ _ _)).
  - intros d sp _ [Hr G]. split;
      [|eapply store_grows_trans; [exact G | apply grows_merge_scope]].
    unfold merge_scope.
    destruct (lookup ls_id (scope_id sp) ex) as [s|] eqn:E.
    + destruct (grows_scope_known db d s G
                  (Hex s (proj1 (lookup_In _ _ _ _ E)))) as [Hk Hqs].
      apply refs_merge_questions; [revert Hr; refs_in_place | |].
      * simpl. apply key_in_place; [intro; reflexivity | exact Hk].
      * intros q Hq. exact (Hqs q Hq).
    + simpl. apply refs_merge_questions.
      * apply (refs_add_scope aid); [|exact Hr].
        destruct G as (_ & G & _). exact (table_grows_key _ _ _ _ _ _ G Ha).
      * simpl. apply key_new.
      * intros q [].
  - split; [apply refs_soft_delete_missing_scopes; exact Hdb | exact G0].
Qed.

Lemma grows_merge_area tid ex d ap :
  store_grows d (merge_area u tid ex d ap).
Proof.
  unfold merge_area. destruct (lookup _ _ _).
  - eapply store_grows_trans; [|apply grows_merge_scopes]. grows_step.
  - simpl. eapply store_grows_trans; [|apply grows_merge_scopes].
    apply (grows_add_area u tid).
Qed.

Lemma grows_soft_delete_missing_areas ex ids d :
  store_grows d (soft_delete_missing_areas u ex ids d).
Proof.
  unfold soft_delete_missing_areas.
  apply (fold_related store_grows);
    [apply store_grows_refl | apply store_grows_trans |].
  intros d' a. destruct (id_in _ _); [apply store_grows_refl|].
  eapply store_grows_trans;
    [apply grows_deactivate_area | apply grows_cascade_scopes].
Qed.

Lemma refs_soft_delete_missing_areas ex ids d :
  references_ok d -> references_ok (soft_delete_missing_areas u ex ids d).
Proof.
  unfold soft_delete_missing_areas. apply fold_invariant.
  intros d' a _ H. destruct (id_in _ _); [exact H|].
  apply refs_cascade_scopes, refs_deactivate_area, H.
Qed.

Lemma refs_merge_areas tid ex aps db :
  references_ok db -> In tid (map row_id (audit_templates db)) ->
  (forall a, In a ex -> area_known db a) ->
  references_ok (merge_areas u tid ex aps db).
Proof.
  intros Hdb Ht Hex. unfold merge_areas.
  set (d0 := soft_delete_missing_areas u ex (supplied_ids area_id aps) db).
  assert (G0 : store_grows db d0) by apply grows_soft_delete_missing_areas.
  refine (proj1 (fold_invariant
                   (fun d => references_ok d /\ store_grows db d)
                   _ _ _ _ _)).
  - intros d ap _ [Hr G]. split;
      [|eapply store_grows_trans; [exact G | apply grows_merge_area]].
    unfold merge_area.
    destruct (lookup la_id (area_id ap) ex) as [a|] eqn:E.
    + destruct (grows_area_known db d a G
                  (Hex a (proj1 (lookup_In _ _ _ _ E)))) as [Hk Hss].
      apply refs_merge_scopes; [revert Hr; refs_in_place | |].
      * simpl. apply key_in_place; [intro; reflexivity | exact Hk].
      * intros s Hs. exact (Hss s Hs).
    + simpl. apply refs_merge_scopes.
      * apply (refs_add_area tid); [|exact Hr].
        destruct G as (G & _). exact (table_grows_key _ _ _ _ _ _ G Ht).
      * simpl. apply key_new.
      * intros s [].
  - split; [apply refs_soft_delete_missing_areas; exact Hdb | exact G0].
Qed.

Lemma loaded_areas_known db tid a :
  In a (load_areas db tid) -> area_known db a.
Proof.
  unfold load_areas. intro H. apply in_map_iff in H.
  destruct H as [row [<- Hrow]]. apply filter_In in Hrow. split.
  - unfold la_id. simpl. apply in_map. exact (proj1 Hrow).
  - simpl. intros s Hs. unfold load_scopes in Hs. apply in_map_iff in Hs.
    destruct Hs as [srow [<- Hsrow]]. apply filter_In in Hsrow. split.
    + unfold ls_id. simpl. apply in_map. exact (proj1 Hsrow).
    + simpl. intros q Hq. unfold load_questions in Hq. apply in_map_iff in Hq.
      destruct Hq as [qrow [<- Hqrow]]. apply filter_In in Hqrow.
      unfold question_known, lq_id. simpl. apply in_map. exact (proj1 Hqrow).
Qed.

Lemma update_template_keeps_refs db tid p :
  references_ok db -> references_ok (snd (update_template db tid p u)).
Proof.
  intro Hr. unfold update_template.
  destruct (get_by_id_with_details db tid) as [template|] eqn:Hload;
    [|exact Hr].
  destruct (_ ;;; _); [exact Hr|]. cbn [snd].
  unfold get_by_id_with_details in Hload.
  destruct (find (fun t => (row_id t =? tid)%nat) (audit_templates db))
    as [t|] eqn:Hfind; [|discriminate].
  inversion Hload; subst template. cbn [lt_areas].
  apply find_some in Hfind. destruct Hfind as [Hin Hid].
  apply Nat.eqb_eq in Hid.
  apply refs_merge_areas.
  - revert Hr. unfold rename_template. refs_in_place.
  - unfold rename_template. simpl. apply key_in_place; [intro; reflexivity|].
    rewrite <- Hid. apply in_map. exact Hin.
  - intros a Ha. destruct (loaded_areas_known db tid a Ha) as [H1 H2].
    split; [exact H1 | exact H2].
Qed.

Lemma create_with_tree_keeps_refs name areas db :
  references_ok db -> references_ok (snd (create_with_tree name areas u db)).
Proof.
  intros (Ra & Rs & Rq & Ro).
  pose proof (create_with_tree_store u name areas db) as Hstore.
  cbv zeta in Hstore. destruct Hstore as (HT & HA & HS & HQ & HO).
  unfold references_ok. rewrite HT, HA, HS, HQ, HO.
  repeat split; intros r Hr; apply in_app_or in Hr;
    rewrite map_app; apply in_or_app.
  - destruct Hr as [Hr|Hr]; [left; apply Ra; exact Hr|].
    right. apply in_map_iff in Hr. destruct Hr as [y [<- _]]. left. reflexivity.
  - destruct Hr as [Hr|Hr]; [left; apply Rs; exact Hr|].
    right. apply in_map_iff in Hr. destruct Hr as [y [<- Hy]].
    apply (in_map fst) in Hy. rewrite numbered_fst in Hy.
    apply with_parent_parent in Hy.
    apply in_map_iff. exists (area_row (next_id db) u (fst (fst y))).
    split; [reflexivity|]. apply (in_map (area_row (next_id db) u)) in Hy.
    exact Hy.
  - destruct Hr as [Hr|Hr]; [left; apply Rq; exact Hr|].
    right. apply in_map_iff in Hr. destruct Hr as [y [<- Hy]].
    apply (in_map fst) in Hy. rewrite numbered_fst in Hy.
    apply with_parent_parent in Hy. apply in_map_iff in Hy.
    destruct Hy as [z [Hz Hin]].
    apply in_map_iff. exists (scope_row u z). split.
    + simpl. rewrite <- Hz. reflexivity.
    + apply (in_map (scope_row u)) in Hin. exact Hin.
  - destruct Hr as [Hr|Hr]; [left; apply Ro; exact Hr|].
    right. apply in_map_iff in Hr. destruct Hr as [y [<- Hy]].
    apply (in_map fst) in Hy. rewrite numbered_fst in Hy.
    apply with_parent_parent in Hy. apply in_map_iff in Hy.
    destruct Hy as [z [Hz Hin]].
    apply in_map_iff. exists (question_row u z). split.
    + simpl. rewrite <- Hz. reflexivity.
    + apply (in_map (question_row u)) in Hin. exact Hin.
Qed.

Lemma found_key {F} (i : nat) (t : list (Row F)) (r : Row F) :
  find (fun x => (row_id x =? i)%nat && isactive x) t = Some r ->
  In i (map row_id t).
Proof.
  intro H. destruct (found_by_id _ _ _ H) as (Hid & _ & Hin).
  rewrite <- Hid. apply in_map. exact Hin.
Qed.

Lemma bulk_create_keeps_refs qid ops db :
  references_ok db -> In qid (map row_id (audit_questions db)) ->
  references_ok (bulk_create qid ops u db).
Proof.
  intros Hr Hk. unfold bulk_create.
  refine (proj1 (fold_invariant
                   (fun d => references_ok d
                             /\ In qid (map row_id (audit_questions d)))
                   _ _ _ _ (conj Hr Hk))).
  intros d op _ [Hd Hq]. split; [apply refs_add_option; assumption | exact Hq].
Qed.

Lemma handle_keeps_refs db req :
  references_ok db -> references_ok (handle db (u, req)).
Proof.
  intro Hr.
  destruct req as [p | tid p | tid | tid p | | tid name w | aid name w | aid
                  | aid name | sid name | sid | sid p | qid t pc m | qid
                  | qid l v | oid l v | oid]; cbn [handle].
  - unfold create_template. destruct (_ ;;; _); [exact Hr|].
    pose proof (create_with_tree_keeps_refs (payload_name p) (payload_areas p)
                  db Hr).
    destruct (create_with_tree _ _ u db). assumption.
  - apply update_template_keeps_refs. exact Hr.
  - unfold delete_template. destruct (get_by_id db tid); [|exact Hr].
    cbn [snd]. revert Hr. unfold soft_delete_template. refs_in_place.
  - unfold clone_template. destruct (get_by_id db tid); [|exact Hr].
    destruct (_ ;;; _); [exact Hr|].
    pose proof (create_with_tree_keeps_refs (payload_name p) (payload_areas p)
                  db Hr).
    destruct (create_with_tree _ _ u db). assumption.
  - unfold seed_default_template.
    destruct (get_by_name db DEFAULT_TEMPLATE_NAME) as [e|[t|]]; try exact Hr.
    pose proof (create_with_tree_keeps_refs DEFAULT_TEMPLATE_NAME DEFAULT_AREAS
                  db Hr).
    destruct (create_with_tree _ _ u db). assumption.
  - unfold create_area. destruct (get_by_id db tid) eqn:E; [|exact Hr].
    apply (refs_add_area tid); [|exact Hr]. exact (found_key _ _ _ E).
  - unfold update_area. destruct (area_get_by_id db aid); [|exact Hr].
    cbn [snd]. revert Hr. refs_in_place.
  - unfold delete_area. destruct (area_get_by_id db aid); [|exact Hr].
    cbn [snd]. revert Hr. unfold soft_delete_area. refs_in_place.
  - unfold create_scope. destruct (area_get_by_id db aid) eqn:E; [|exact Hr].
    apply (refs_add_scope aid); [|exact Hr]. exact (found_key _ _ _ E).
  - unfold update_scope. destruct (scope_get_by_id db sid); [|exact Hr].
    cbn [snd]. revert Hr. refs_in_place.
  - unfold delete_scope. destruct (scope_get_by_id db sid); [|exact Hr].
    cbn [snd]. apply refs_deactivate_scope. exact Hr.
  - unfold create_question. destruct (scope_get_by_id db sid) eqn:E; [|exact Hr].
    change (add_question sid (question_text p) (question_percentage p)
              (question_is_mandatory p) u db)
      with (next_id db,
            snd (add_question sid (question_text p) (question_percentage p)
                   (question_is_mandatory p) u db)).
    cbv beta iota. rewrite payload_options_created. cbn [snd].
    apply bulk_create_keeps_refs.
    + apply (refs_add_question sid); [|exact Hr]. exact (found_key _ _ _ E).
    + simpl. apply key_new.
  - unfold update_question. destruct (question_get_by_id db qid); [|exact Hr].
    cbn [snd]. revert Hr. refs_in_place.
  - unfold delete_question. destruct (question_get_by_id db qid); [|exact Hr].
    cbn [snd]. apply refs_deactivate_question. exact Hr.
  - unfold create_option. destruct (question_get_by_id db qid) eqn:E; [|exact Hr].
    apply (refs_add_option qid); [|exact Hr]. exact (found_key _ _ _ E).
  - unfold update_option. destruct (option_get_by_id db oid); [|exact Hr].
    cbn [snd]. revert Hr. refs_in_place.
  - unfold delete_option. destruct (option_get_by_id db oid); [|exact Hr].
    cbn [snd]. apply refs_deactivate_option. exact Hr.
Qed.

End ReferencesOfOperations.

(** X28. No orphans: in every store reached from the empty database, each
    area row names the key of a template row, each scope row the key of an
    area row, each question row the key of a scope row and each option row
    the key of a question row. *)
Theorem reachable_stores_have_no_orphans
    (requests : list (option nat * WriteRequest)) :
  references_ok (handle_all empty_store requests).
Proof.
  unfold handle_all.
  apply (fold_invariant references_ok).
  - intros d [u req] _. apply handle_keeps_refs.
  - repeat split; intros r [].
Qed.

(** ** The header of an updated template *)

Section UpdatedHeader.

Lemma find_key_on_row {F} (i : nat) (f : Row F -> Row F) (l : list (Row F)) :
  (forall r, row_id (f r) = row_id r) ->
  find (fun x => (row_id x =? i)%nat) (on_row i f l)
  = option_map f (find (fun x => (row_id x =? i)%nat) l).
Proof.
  intro Hf. induction l as [|x l IH]; simpl; [reflexivity|].
  destruct (Nat.eqb_spec (row_id x) i) as [Hid|Hid].
  - rewrite Hf. apply Nat.eqb_eq in Hid. rewrite Hid. reflexivity.
  - apply Nat.eqb_neq in Hid. rewrite Hid. exact IH.
Qed.

End UpdatedHeader.

(** X29. A successful [update_template] answers with the template it was
    addressed to, under the payload's name, and never changes whether the
    template is active: the detail read before the update and the answer of
    the update show the same key and the same active flag. *)
Theorem update_template_header (db db' : Store) (tid : nat)
    (p : TemplatePayload) (u : option nat) (r : TemplateDetailResponse) :
  update_template db tid p u = (inr r, db') ->
  resp_id r = tid
  /\ resp_name r = payload_name p
  /\ exists old, get_template_detail db tid = inr old
                 /\ resp_id old = tid
                 /\ resp_isactive r = resp_isactive old.
Proof.
  unfold update_template, get_template_detail.
  destruct (get_by_id_with_details db tid) as [template|] eqn:Hload;
    [|intro H; inversion H].
  destruct (_ ;;; _); [intro H; inversion H|].
  cbv zeta. intro H. inversion H as [[Hr Hdb]]. clear H Hdb.
  unfold get_by_id_with_details in Hload.
  destruct (find (fun t => (row_id t =? tid)%nat) (audit_templates db))
    as [t|] eqn:Hfind; [|discriminate].
  inversion Hload; subst template; clear Hload.
  pose proof (find_some _ _ Hfind) as [_ Hid]. apply Nat.eqb_eq in Hid.
  unfold reload_detail, get_by_id_with_details in Hr.
  rewrite (templates_merge_areas u tid _ (payload_areas p)
             (rename_template tid (payload_name p) u db)
           : audit_templates _ = _) in Hr.
  unfold rename_template in Hr. cbn [audit_templates with_templates] in Hr.
  rewrite find_key_on_row in Hr by (intro; reflexivity).
  rewrite Hfind in Hr. cbn [option_map] in Hr. inversion Hr; subst r.
  cbn. repeat split; try assumption.
  eexists. split; [reflexivity|]. cbn. split; [exact Hid | reflexivity].
Qed.

Lemma update_template_header_witness :
  exists r db',
    update_template deleted_template_store 1 (round_trip_payload "T") None
    = (inr r, db')
    /\ resp_isactive r = false.
Proof.
  destruct (update_template deleted_template_store 1 (round_trip_payload "T") None)
    as [[e|r] db'] eqn:E.
  - vm_compute in E. discriminate E.
  - exists r, db'. split; [reflexivity|].
    destruct (update_template_header deleted_template_store db' 1
                (round_trip_payload "T") None r E)
      as (_ & _ & old & Hold & _ & Hact).
    rewrite Hact. vm_compute in Hold. inversion Hold. reflexivity.
Defined.

(** ** Which duplicate is reported *)

Section FirstDuplicate.

Lemma check_unique_first_duplicate {A K} (eqb : K -> K -> bool) (key : A -> K)
    (err : A -> string) (pre post : list A) (x : A) :
  (forall a b, eqb a b = true <-> a = b) ->
  forall seen,
    NoDup (map key pre) ->
    (forall y, In y pre -> ~ In (key y) seen) ->
    In (key x) seen \/ In (key x) (map key pre) ->
    Validator.check_unique eqb key err seen (pre ++ x :: post)
    = raise HTTP_422_UNPROCESSABLE_ENTITY (err x).
Proof.
  intro Heqb. induction pre as [|y pre IH]; intros seen Hnd Hfresh Hdup.
  - simpl in *. destruct Hdup as [Hdup|[]].
    assert (E : existsb (eqb (key x)) seen = true).
    { apply existsb_exists. exists (key x). split; [exact Hdup|].
      apply Heqb. reflexivity. }
    rewrite E. reflexivity.
  - cbn [app Validator.check_unique].
    assert (E : existsb (eqb (key y)) seen = false).
    { destruct (existsb (eqb (key y)) seen) eqn:E; [|reflexivity].
      apply existsb_exists in E. destruct E as [k [Hk Hy]].
      apply Heqb in Hy. subst k.
      exfalso. exact (Hfresh y (or_introl eq_refl) Hk). }
    rewrite E. simpl in Hnd. inversion Hnd as [|? ? Hnot Hnd']; subst.
    apply IH.
    + exact Hnd'.
    + intros z Hz [Heq|Hin].
      * apply Hnot. rewrite Heq. apply in_map. exact Hz.
      * exact (Hfresh z (or_intror Hz) Hin).
    + destruct Hdup as [Hdup|[Heq|Hdup]].
      * left. right. exact Hdup.
      * left. left. exact Heq.
      * right. exact Hdup.
Qed.

End FirstDuplicate.

(** X30. Among areas with ASCII names, [_validate_area_names] reports the
    first area whose name, after [strip().lower()], repeats that of an
    earlier area, and quotes the name as the payload wrote it. *)
Theorem first_duplicate_area_is_reported (pre post : list AreaUpdateNested)
    (a : AreaUpdateNested) :
  all_ascii (map area_name (pre ++ [a])) ->
  NoDup (map (fun x => Validator.name_key (area_name x)) pre) ->
  In (Validator.name_key (area_name a))
     (map (fun x => Validator.name_key (area_name x)) pre) ->
  Validator._validate_area_names (pre ++ a :: post)
  = raise HTTP_422_UNPROCESSABLE_ENTITY
      ("Duplicate area name: '" ++ area_name a ++ "'")%string.
Proof.
  intros _ Hnd Hdup. unfold Validator._validate_area_names.
  apply (check_unique_first_duplicate String.eqb
           (fun x => Validator.name_key (area_name x))).
  - apply String.eqb_eq.
  - exact Hnd.
  - intros y _ [].
  - right. exact Hdup.
Qed.

Lemma first_duplicate_area_is_reported_witness :
  Validator._validate_area_names two_quality_areas
  = raise HTTP_422_UNPROCESSABLE_ENTITY "Duplicate area name: 'quality '".
Proof.
  apply (first_duplicate_area_is_reported [sample_area "Quality" 50 30] []
           (sample_area "quality " 50 30)).
  - reflexivity.
  - repeat constructor. intros [].
  - left. reflexivity.
Defined.
